(** * gstfecframe: Reed-Solomon FECFRAME (RFC 6865) encoder and decoder

    A shallow embedding of the block-lifecycle logic of
    [src/reed-solomon/gstrsfecdec.c] and [src/reed-solomon/gstrsfecenc.c],
    and the properties of the sequence-number aging engine, the decoder's
    source block table and the encoder's block assembler.

    Conventions of the embedding:
    - a [guint] is a [Z] reduced modulo 2^32 after every arithmetic
      operation; bit operations are the ones of [Z];
    - a [GstBuffer] is the list of its bytes;
    - the GHashTable keyed by block number is a [gmap Z _];
    - a [g_assert] that fails, and a read or write outside an array, stop
      the run with a [crash];
    - what the element hands to its pads and to OpenFEC is appended to a
      log kept in the element's state, so that the order of deliveries and
      the calls to the collaborator can be stated. *)

From Stdlib Require Import ZArith Lia List Bool.
From Stdlib Require Import Init.Byte Strings.Byte.
From stdpp Require Import base option list gmap sorting.

Local Open Scope Z_scope.

(** ** Machine integers *)

(** Reduction of an arithmetic result to the 32 bits of a [guint]. *)
Definition guint (x : Z) : Z := x mod 2 ^ 32.

(** The value of a [guint8]. *)
Definition byte_val (b : byte) : Z := Z.of_N (Byte.to_N b).

Module Aging.

(** ** Sequence-number aging (gstrsfecdec.c, lines 1362-1414) *)

Definition newer_range : Z := Z.shiftl 1 22.
Definition total_range : Z := Z.shiftl 1 24.

Definition gst_rs_fec_dec_check_if_source_block_in_range
    (block_nr start end_ : Z) : bool :=
  if start <? end_ then (block_nr >=? start) && (block_nr <=? end_)
  else if start >? end_ then (block_nr <=? end_) || (block_nr >=? start)
  else block_nr =? start.

Definition gst_rs_fec_dec_is_source_block_nr_newer
    (candidate_block_nr reference_block_nr : Z) : bool :=
  let start := guint (reference_block_nr + 1) in
  let end_ :=
    Z.land (guint (reference_block_nr + guint (newer_range - 1)))
           (guint (total_range - 1)) in
  gst_rs_fec_dec_check_if_source_block_in_range candidate_block_nr start end_.

Definition gst_rs_fec_dec_is_source_block_nr_recent_enough
    (candidate_block_nr reference_block_nr max_age : Z) : bool :=
  let start :=
    Z.land (guint (guint (reference_block_nr + total_range) - guint (max_age - 1)))
           (guint (total_range - 1)) in
  let end_ :=
    Z.land (guint (reference_block_nr + guint (newer_range - 1)))
           (guint (total_range - 1)) in
  gst_rs_fec_dec_check_if_source_block_in_range candidate_block_nr start end_.

(** A block number as it travels in a FEC payload ID: 24 bits. *)
Definition is_block_nr (x : Z) : Prop := 0 <= x < 2 ^ 24.

(** The circular range [[lo, hi]] of the 24-bit block number space, as the
    specification words it: the numbers met when counting upwards from
    [lo], wrapping from 2^24-1 to 0, until [hi] is reached.  Both ends are
    taken modulo 2^24. *)
Definition in_circular_range (lo hi x : Z) : Prop :=
  (x - lo) mod 2 ^ 24 <= (hi - lo) mod 2 ^ 24.

End Aging.

(** ** Collaborators and results shared by both elements *)

(** A [GstBuffer] is the sequence of its bytes; timestamps, offsets and
    flags of a buffer are not modelled. *)
Abbreviation GstBuffer := (list byte).

Inductive GstFlowReturn :=
| GST_FLOW_OK
| GST_FLOW_NOT_LINKED
| GST_FLOW_FLUSHING
| GST_FLOW_EOS
| GST_FLOW_NOT_NEGOTIATED
| GST_FLOW_ERROR
| GST_FLOW_NOT_SUPPORTED.

Definition flow_is_ok (r : GstFlowReturn) : bool :=
  match r with GST_FLOW_OK => true | _ => false end.

Inductive of_status_t :=
| OF_STATUS_OK
| OF_STATUS_FAILURE
| OF_STATUS_ERROR
| OF_STATUS_FATAL_ERROR.

Definition of_is_ok (s : of_status_t) : bool :=
  match s with OF_STATUS_OK => true | _ => false end.

(** Abnormal ends of a run: a failed [g_assert], an access outside an
    array or a buffer, a NULL pointer followed. *)
Inductive crash := AssertFailed | OutOfBounds | NullPointer.

Inductive run (A : Type) : Type :=
| Ret (a : A)
| Crash (c : crash).
Arguments Ret {A} a.
Arguments Crash {A} c.

#[global] Instance run_ret : MRet run := fun A a => Ret a.
#[global] Instance run_bind : MBind run := fun A B f m =>
  match m with Ret a => f a | Crash c => Crash c end.

Definition assert_that (b : bool) : run unit :=
  if b then Ret tt else Crash AssertFailed.

(** Reduction to a [gsize] (64 bits) and to a [guint8]. *)
Definition gsize (x : Z) : Z := x mod 2 ^ 64.
Definition guint8 (x : Z) : byte :=
  default Byte.x00 (Byte.of_N (Z.to_N (x mod 256))).

Definition gst_buffer_get_size (b : GstBuffer) : Z := Z.of_nat (length b).

Module Dec.
Import Aging.

(** ** The decoder element (gstrsfecdec.c) *)

(** What the decoder hands to its source pad and to OpenFEC, in the order
    it happens.  [EvPush] carries the block number and ESI that the
    element logs next to the push. *)
Inductive of_call :=
| OfCreateCodecInstance
| OfSetFecParameters (k r len : Z)
| OfSetAvailableSymbols (tab : list (option GstBuffer))
| OfFinishDecoding
| OfGetSourceSymbolsTab
| OfReleaseCodecInstance.

Inductive Event :=
| EvPush (block_nr esi : Z) (adu : GstBuffer)
| EvStreamStart
| EvSegment
| EvEos
| EvProcess (block_nr : Z)
| EvOpenFEC (c : of_call)
| EvWarning (block_nr esi : Z)
| EvFatalError.

(** The environment of the element: the answer of the downstream peer to
    a pushed buffer and the answers of OpenFEC, each of which may depend on
    everything that happened before (the log). *)
Record World := {
  pad_push : list Event -> GstBuffer -> GstFlowReturn;
  of_create_codec_instance : list Event -> of_status_t;
  of_set_fec_parameters : list Event -> Z -> Z -> Z -> of_status_t;
  of_set_available_symbols : list Event -> list (option GstBuffer) -> of_status_t;
  of_finish_decoding : list Event -> of_status_t;
  of_get_source_symbols_tab :
    list Event -> of_status_t * list (option GstBuffer);
  of_release_codec_instance : list Event -> of_status_t
}.

Record GstRSFECDecSourceBlock := {
  block_nr : Z;
  packet_mask : list Z;
  source_packets : list GstBuffer;
  repair_packets : list GstBuffer;
  num_source_packets : Z;
  num_repair_packets : Z;
  output_adu_table : list (option GstBuffer);
  is_complete : bool
}.

Record GstRSFECDec := {
  num_source_symbols : Z;
  num_repair_symbols : Z;
  num_encoding_symbols : Z;
  max_source_block_age : Z;
  sort_output : bool;
  first_adu : bool;
  encoding_symbol_length : Z;
  source_block_table : gmap Z GstRSFECDecSourceBlock;
  first_pruning : bool;
  most_recent_block_nr : Z;
  segment_started : bool;
  stream_started : bool;
  fecsource_eos : bool;
  fecrepair_eos : bool;
  log : list Event
}.

(** Field updates. *)
Definition set_packet_mask (b : GstRSFECDecSourceBlock) (m : list Z) :=
  {| block_nr := block_nr b; packet_mask := m;
     source_packets := source_packets b; repair_packets := repair_packets b;
     num_source_packets := num_source_packets b;
     num_repair_packets := num_repair_packets b;
     output_adu_table := output_adu_table b; is_complete := is_complete b |}.

Definition add_source_packet (b : GstRSFECDecSourceBlock) (p : GstBuffer) :=
  {| block_nr := block_nr b; packet_mask := packet_mask b;
     source_packets := p :: source_packets b; repair_packets := repair_packets b;
     num_source_packets := guint (num_source_packets b + 1);
     num_repair_packets := num_repair_packets b;
     output_adu_table := output_adu_table b; is_complete := is_complete b |}.

Definition add_repair_packet (b : GstRSFECDecSourceBlock) (p : GstBuffer) :=
  {| block_nr := block_nr b; packet_mask := packet_mask b;
     source_packets := source_packets b; repair_packets := p :: repair_packets b;
     num_source_packets := num_source_packets b;
     num_repair_packets := guint (num_repair_packets b + 1);
     output_adu_table := output_adu_table b; is_complete := is_complete b |}.

Definition set_output_adu_table (b : GstRSFECDecSourceBlock)
    (t : list (option GstBuffer)) :=
  {| block_nr := block_nr b; packet_mask := packet_mask b;
     source_packets := source_packets b; repair_packets := repair_packets b;
     num_source_packets := num_source_packets b;
     num_repair_packets := num_repair_packets b;
     output_adu_table := t; is_complete := is_complete b |}.

Definition set_is_complete (b : GstRSFECDecSourceBlock) (c : bool) :=
  {| block_nr := block_nr b; packet_mask := packet_mask b;
     source_packets := source_packets b; repair_packets := repair_packets b;
     num_source_packets := num_source_packets b;
     num_repair_packets := num_repair_packets b;
     output_adu_table := output_adu_table b; is_complete := c |}.

Definition set_source_block_table (d : GstRSFECDec)
    (t : gmap Z GstRSFECDecSourceBlock) :=
  {| num_source_symbols := num_source_symbols d;
     num_repair_symbols := num_repair_symbols d;
     num_encoding_symbols := num_encoding_symbols d;
     max_source_block_age := max_source_block_age d;
     sort_output := sort_output d; first_adu := first_adu d;
     encoding_symbol_length := encoding_symbol_length d;
     source_block_table := t;
     first_pruning := first_pruning d;
     most_recent_block_nr := most_recent_block_nr d;
     segment_started := segment_started d; stream_started := stream_started d;
     fecsource_eos := fecsource_eos d; fecrepair_eos := fecrepair_eos d;
     log := log d |}.

Definition set_log (d : GstRSFECDec) (l : list Event) :=
  {| num_source_symbols := num_source_symbols d;
     num_repair_symbols := num_repair_symbols d;
     num_encoding_symbols := num_encoding_symbols d;
     max_source_block_age := max_source_block_age d;
     sort_output := sort_output d; first_adu := first_adu d;
     encoding_symbol_length := encoding_symbol_length d;
     source_block_table := source_block_table d;
     first_pruning := first_pruning d;
     most_recent_block_nr := most_recent_block_nr d;
     segment_started := segment_started d; stream_started := stream_started d;
     fecsource_eos := fecsource_eos d; fecrepair_eos := fecrepair_eos d;
     log := l |}.

Definition emit (d : GstRSFECDec) (e : Event) := set_log d (log d ++ [e]).

Definition set_encoding_symbol_length (d : GstRSFECDec) (len : Z) :=
  {| num_source_symbols := num_source_symbols d;
     num_repair_symbols := num_repair_symbols d;
     num_encoding_symbols := num_encoding_symbols d;
     max_source_block_age := max_source_block_age d;
     sort_output := sort_output d; first_adu := first_adu d;
     encoding_symbol_length := len;
     source_block_table := source_block_table d;
     first_pruning := first_pruning d;
     most_recent_block_nr := most_recent_block_nr d;
     segment_started := segment_started d; stream_started := stream_started d;
     fecsource_eos := fecsource_eos d; fecrepair_eos := fecrepair_eos d;
     log := log d |}.

Definition set_pruning_reference (d : GstRSFECDec) (first : bool) (nr : Z) :=
  {| num_source_symbols := num_source_symbols d;
     num_repair_symbols := num_repair_symbols d;
     num_encoding_symbols := num_encoding_symbols d;
     max_source_block_age := max_source_block_age d;
     sort_output := sort_output d; first_adu := first_adu d;
     encoding_symbol_length := encoding_symbol_length d;
     source_block_table := source_block_table d;
     first_pruning := first;
     most_recent_block_nr := nr;
     segment_started := segment_started d; stream_started := stream_started d;
     fecsource_eos := fecsource_eos d; fecrepair_eos := fecrepair_eos d;
     log := log d |}.

Definition set_stream_started (d : GstRSFECDec) (v : bool) :=
  {| num_source_symbols := num_source_symbols d;
     num_repair_symbols := num_repair_symbols d;
     num_encoding_symbols := num_encoding_symbols d;
     max_source_block_age := max_source_block_age d;
     sort_output := sort_output d; first_adu := first_adu d;
     encoding_symbol_length := encoding_symbol_length d;
     source_block_table := source_block_table d;
     first_pruning := first_pruning d;
     most_recent_block_nr := most_recent_block_nr d;
     segment_started := segment_started d; stream_started := v;
     fecsource_eos := fecsource_eos d; fecrepair_eos := fecrepair_eos d;
     log := log d |}.

Definition set_segment_started (d : GstRSFECDec) (v : bool) :=
  {| num_source_symbols := num_source_symbols d;
     num_repair_symbols := num_repair_symbols d;
     num_encoding_symbols := num_encoding_symbols d;
     max_source_block_age := max_source_block_age d;
     sort_output := sort_output d; first_adu := first_adu d;
     encoding_symbol_length := encoding_symbol_length d;
     source_block_table := source_block_table d;
     first_pruning := first_pruning d;
     most_recent_block_nr := most_recent_block_nr d;
     segment_started := v; stream_started := stream_started d;
     fecsource_eos := fecsource_eos d; fecrepair_eos := fecrepair_eos d;
     log := log d |}.

Definition set_eos (d : GstRSFECDec) (src rep : bool) :=
  {| num_source_symbols := num_source_symbols d;
     num_repair_symbols := num_repair_symbols d;
     num_encoding_symbols := num_encoding_symbols d;
     max_source_block_age := max_source_block_age d;
     sort_output := sort_output d; first_adu := first_adu d;
     encoding_symbol_length := encoding_symbol_length d;
     source_block_table := source_block_table d;
     first_pruning := first_pruning d;
     most_recent_block_nr := most_recent_block_nr d;
     segment_started := segment_started d; stream_started := stream_started d;
     fecsource_eos := src; fecrepair_eos := rep;
     log := log d |}.

(** Defaults of the element's properties. *)
Definition DEFAULT_NUM_SOURCE_SYMBOLS : Z := 4.
Definition DEFAULT_NUM_REPAIR_SYMBOLS : Z := 2.
Definition DEFAULT_MAX_SOURCE_BLOCK_AGE : Z := 1.
Definition DEFAULT_SORT_OUTPUT : bool := true.

(** [gst_rs_fec_dec_init], lines 360-416. *)
Definition gst_rs_fec_dec_init : GstRSFECDec :=
  {| num_source_symbols := DEFAULT_NUM_SOURCE_SYMBOLS;
     num_repair_symbols := DEFAULT_NUM_REPAIR_SYMBOLS;
     num_encoding_symbols :=
       guint (DEFAULT_NUM_SOURCE_SYMBOLS + DEFAULT_NUM_REPAIR_SYMBOLS);
     max_source_block_age := DEFAULT_MAX_SOURCE_BLOCK_AGE;
     sort_output := DEFAULT_SORT_OUTPUT;
     first_adu := true;
     encoding_symbol_length := 0;
     source_block_table := ∅;
     first_pruning := true;
     most_recent_block_nr := 0;
     segment_started := false; stream_started := false;
     fecsource_eos := false; fecrepair_eos := false;
     log := [] |}.

(** The element with its properties set before the session starts
    ([gst_rs_fec_dec_set_property], lines 430-506; the properties are
    locked once the symbol tables are allocated). *)
Definition configure (k r max_age : Z) (sort : bool) : GstRSFECDec :=
  {| num_source_symbols := k;
     num_repair_symbols := r;
     num_encoding_symbols := guint (k + r);
     max_source_block_age := max_age;
     sort_output := sort;
     first_adu := true;
     encoding_symbol_length := 0;
     source_block_table := ∅;
     first_pruning := true;
     most_recent_block_nr := 0;
     segment_started := false; stream_started := false;
     fecsource_eos := false; fecrepair_eos := false;
     log := [] |}.

(** *** Presence bitmask (macros at lines 171-182)

    [packet_mask] has 8 words of 64 bits; the word index is [IDX >> 6]. *)
Definition SOURCE_BLOCK_SET_FLAG (b : GstRSFECDecSourceBlock) (idx : Z)
    : run GstRSFECDecSourceBlock :=
  let i := Z.to_nat (Z.shiftr idx 6) in
  match packet_mask b !! i with
  | Some w =>
      Ret (set_packet_mask b
             (<[i := Z.lor w (Z.shiftl 1 (Z.land idx 63))]> (packet_mask b)))
  | None => Crash OutOfBounds
  end.

Definition SOURCE_BLOCK_IS_FLAG_SET (b : GstRSFECDecSourceBlock) (idx : Z)
    : run bool :=
  match packet_mask b !! Z.to_nat (Z.shiftr idx 6) with
  | Some w => Ret (negb (Z.land w (Z.shiftl 1 (Z.land idx 63)) =? 0))
  | None => Crash OutOfBounds
  end.

(** *** FEC payload ID (lines 797-837)

    Both functions return the pair (source block number, ESI).  The source
    packet carries the ID in its last 6 bytes, the repair packet in its
    first 6. *)
Definition read_block_nr (b0 b1 b2 : byte) : Z :=
  Z.lor (Z.lor (Z.shiftl (byte_val b0) 16) (Z.shiftl (byte_val b1) 8))
        (byte_val b2).

Definition gst_rs_fec_dec_source_packet_read_payload_id
    (fec_source_packet : GstBuffer) : run (Z * Z) :=
  if gst_buffer_get_size fec_source_packet <? 6 then Crash OutOfBounds
  else
    match drop (length fec_source_packet - 6) fec_source_packet with
    | b0 :: b1 :: b2 :: b3 :: _ => Ret (read_block_nr b0 b1 b2, byte_val b3)
    | _ => Crash OutOfBounds
    end.

Definition gst_rs_fec_dec_repair_packet_read_payload_id
    (fec_repair_packet : GstBuffer) : run (Z * Z) :=
  match fec_repair_packet with
  | b0 :: b1 :: b2 :: b3 :: _ => Ret (read_block_nr b0 b1 b2, byte_val b3)
  | _ => Crash OutOfBounds
  end.

(** *** Source block table (lines 952-1029) *)
Definition gst_rs_fec_dec_fetch_source_block (dec : GstRSFECDec) (nr : Z)
    : option GstRSFECDecSourceBlock :=
  source_block_table dec !! nr.

Definition new_source_block (k nr : Z) : GstRSFECDecSourceBlock :=
  {| block_nr := nr;
     packet_mask := replicate 8 0;
     source_packets := []; repair_packets := [];
     num_source_packets := 0; num_repair_packets := 0;
     output_adu_table := replicate (Z.to_nat k) None;
     is_complete := false |}.

Definition gst_rs_fec_dec_create_source_block (dec : GstRSFECDec) (nr : Z)
    : GstRSFECDec * GstRSFECDecSourceBlock :=
  let source_block := new_source_block (num_source_symbols dec) nr in
  (set_source_block_table dec (<[nr := source_block]> (source_block_table dec)),
   source_block).

(** The C code changes a source block through the pointer stored in the
    hash table; here the changed block is written back under its key. *)
Definition write_back (dec : GstRSFECDec) (nr : Z) (b : GstRSFECDecSourceBlock)
    : GstRSFECDec :=
  set_source_block_table dec (<[nr := b]> (source_block_table dec)).

Definition gst_rs_fec_dec_can_source_block_be_processed
    (dec : GstRSFECDec) (b : GstRSFECDecSourceBlock) : bool :=
  guint (num_source_packets b + num_repair_packets b) >=? num_source_symbols dec.

Definition CHECK_IF_FATAL_ERROR (dec : GstRSFECDec) (status : of_status_t)
    : GstRSFECDec :=
  match status with
  | OF_STATUS_FATAL_ERROR => emit dec EvFatalError
  | _ => dec
  end.

Section WithWorld.
Variable W : World.

(** [gst_rs_fec_dec_push_adu], lines 1607-1627.  [blk] and [esi] are not
    arguments of the C function: they tag the log entry. *)
Definition gst_rs_fec_dec_push_adu (dec : GstRSFECDec) (blk esi : Z)
    (adu : GstBuffer) : GstFlowReturn * GstRSFECDec :=
  (pad_push W (log dec) adu, emit dec (EvPush blk esi adu)).

Definition gst_rs_fec_dec_push_stream_start (dec : GstRSFECDec) : GstRSFECDec :=
  if stream_started dec then dec
  else set_stream_started (emit dec EvStreamStart) true.

Definition gst_rs_fec_dec_push_segment (dec : GstRSFECDec) : GstRSFECDec :=
  if segment_started dec then dec
  else set_segment_started (emit dec EvSegment) true.

(** [gst_rs_fec_dec_create_openfec_session], lines 1693-1765; the result
    is [true] for a session and [false] for NULL. *)
Definition gst_rs_fec_dec_create_openfec_session (dec : GstRSFECDec)
    (len : Z) : bool * GstRSFECDec :=
  let status := of_create_codec_instance W (log dec) in
  let dec := emit dec (EvOpenFEC OfCreateCodecInstance) in
  if negb (of_is_ok status) then (false, CHECK_IF_FATAL_ERROR dec status)
  else
    let k := num_source_symbols dec in
    let r := num_repair_symbols dec in
    let status := of_set_fec_parameters W (log dec) k r len in
    let dec := emit dec (EvOpenFEC (OfSetFecParameters k r len)) in
    if negb (of_is_ok status) then
      let dec := emit dec (EvOpenFEC OfReleaseCodecInstance) in
      (false, CHECK_IF_FATAL_ERROR dec status)
    else if negb (encoding_symbol_length dec =? len) then
      (true, set_encoding_symbol_length dec len)
    else (true, dec).

(** First loop of [gst_rs_fec_dec_process_source_block], lines 1089-1156:
    every received source packet becomes an ADUI in the table of received
    symbols. *)
Fixpoint source_symbols_loop (sort : bool) (k len : Z)
    (pkts : list GstBuffer) (received : list (option GstBuffer))
    (b : GstRSFECDecSourceBlock)
    : run (list (option GstBuffer) * GstRSFECDecSourceBlock) :=
  match pkts with
  | [] => Ret (received, b)
  | fec_source_packet :: rest =>
      '(_, esi) ← gst_rs_fec_dec_source_packet_read_payload_id fec_source_packet;
      _ ← assert_that (esi <? k);
      let adu_length := gsize (gst_buffer_get_size fec_source_packet - 6) in
      _ ← assert_that (gsize (adu_length + 3) <=? len);
      match output_adu_table b !! Z.to_nat esi with
      | None => Crash OutOfBounds
      | Some None => Crash NullPointer
      | Some (Some adu) =>
          let padding_length := gsize (len - gsize (adu_length + 3)) in
          let adui :=
            [guint8 0;
             guint8 (Z.shiftr (Z.land adu_length 65280) 8);
             guint8 (Z.land adu_length 255)]
            ++ take (Z.to_nat adu_length) adu
            ++ replicate (Z.to_nat padding_length) Byte.x00 in
          if (Z.to_nat esi <? length received)%nat then
            let received := <[Z.to_nat esi := Some adui]> received in
            let b :=
              if sort then b
              else set_output_adu_table b
                     (<[Z.to_nat esi := None]> (output_adu_table b)) in
            source_symbols_loop sort k len rest received b
          else Crash OutOfBounds
      end
  end.

(** Second loop, lines 1160-1190: every repair packet lends its symbol
    bytes (behind the 6 bytes of the payload ID). *)
Fixpoint repair_symbols_loop (k r n : Z) (pkts : list GstBuffer)
    (node_count : Z) (received : list (option GstBuffer))
    : run (list (option GstBuffer)) :=
  match pkts with
  | [] => Ret received
  | fec_repair_packet :: rest =>
      _ ← assert_that (node_count <? r);
      '(_, esi) ← gst_rs_fec_dec_repair_packet_read_payload_id fec_repair_packet;
      _ ← assert_that ((esi >=? k) && (esi <? n));
      if (Z.to_nat esi <? length received)%nat then
        repair_symbols_loop k r n rest (guint (node_count + 1))
          (<[Z.to_nat esi := Some (drop 6 fec_repair_packet)]> received)
      else Crash OutOfBounds
  end.

(** Third loop, lines 1234-1290: the ADU of every source symbol that was
    not received is cut out of the recovered symbol.  The flow return is
    [GST_FLOW_OK] when the loop ran to its end. *)
Fixpoint recovered_adus_loop (sort : bool) (esis : list Z)
    (received recovered : list (option GstBuffer))
    (dec : GstRSFECDec) (b : GstRSFECDecSourceBlock)
    : run (GstFlowReturn * GstRSFECDec * GstRSFECDecSourceBlock) :=
  match esis with
  | [] => Ret (GST_FLOW_OK, dec, b)
  | esi :: rest =>
      match received !! Z.to_nat esi with
      | None => Crash OutOfBounds
      | Some (Some _) => recovered_adus_loop sort rest received recovered dec b
      | Some None =>
          match mjoin (recovered !! Z.to_nat esi) with
          | None => Crash AssertFailed
          | Some (f :: l1 :: l2 :: data) =>
              let adu_flow := byte_val f in
              let adu_length :=
                Z.lor (Z.shiftl (byte_val l1) 8) (byte_val l2) in
              if negb (adu_flow =? 0) then
                recovered_adus_loop sort rest received recovered
                  (emit dec (EvWarning (block_nr b) esi)) b
              else if gst_buffer_get_size data <? adu_length then
                Crash OutOfBounds
              else
                let adu := take (Z.to_nat adu_length) data in
                if (length (output_adu_table b) <=? Z.to_nat esi)%nat then
                  Crash OutOfBounds
                else if sort then
                  recovered_adus_loop sort rest received recovered dec
                    (set_output_adu_table b
                       (<[Z.to_nat esi := Some adu]> (output_adu_table b)))
                else
                  let b := set_output_adu_table b
                             (<[Z.to_nat esi := None]> (output_adu_table b)) in
                  let '(ret, dec) :=
                    gst_rs_fec_dec_push_adu dec (block_nr b) esi adu in
                  if flow_is_ok ret then
                    recovered_adus_loop sort rest received recovered dec b
                  else Ret (ret, dec, b)
          | Some _ => Crash OutOfBounds
          end
      end
  end.

(** The calls to OpenFEC and the third loop, lines 1197-1293; the caller
    runs the [cleanup] part on the result. *)
Definition decode_with_openfec (dec : GstRSFECDec)
    (b : GstRSFECDecSourceBlock) (received : list (option GstBuffer))
    : run (GstFlowReturn * GstRSFECDec * GstRSFECDecSourceBlock) :=
  let status := of_set_available_symbols W (log dec) received in
  let dec := emit dec (EvOpenFEC (OfSetAvailableSymbols received)) in
  if negb (of_is_ok status) then
    Ret (GST_FLOW_ERROR, CHECK_IF_FATAL_ERROR dec status, b)
  else
    let status := of_finish_decoding W (log dec) in
    let dec := emit dec (EvOpenFEC OfFinishDecoding) in
    if negb (of_is_ok status) then
      Ret (GST_FLOW_ERROR, CHECK_IF_FATAL_ERROR dec status, b)
    else
      let '(status, recovered) := of_get_source_symbols_tab W (log dec) in
      let dec := emit dec (EvOpenFEC OfGetSourceSymbolsTab) in
      if negb (of_is_ok status) then
        Ret (GST_FLOW_ERROR, CHECK_IF_FATAL_ERROR dec status, b)
      else
        '(ret, dec, b) ← recovered_adus_loop (sort_output dec)
                           (seqZ 0 (num_source_symbols dec))
                           received recovered dec b;
        if flow_is_ok ret then Ret (ret, dec, set_is_complete b true)
        else Ret (ret, dec, b).

(** The [cleanup] label with a session to release, lines 1295-1323.  A
    failed release stores [FALSE] in [ret], and [FALSE] is 0, the value
    of [GST_FLOW_OK]. *)
Definition release_openfec_session (dec : GstRSFECDec) (ret : GstFlowReturn)
    : GstFlowReturn * GstRSFECDec :=
  let status := of_release_codec_instance W (log dec) in
  let dec := emit dec (EvOpenFEC OfReleaseCodecInstance) in
  if negb (of_is_ok status) then (GST_FLOW_OK, CHECK_IF_FATAL_ERROR dec status)
  else (ret, dec).

(** [gst_rs_fec_dec_process_source_block], lines 1032-1324.  [EvProcess]
    marks the entry into the function. *)
Definition gst_rs_fec_dec_process_source_block (dec : GstRSFECDec)
    (b : GstRSFECDecSourceBlock)
    : run (GstFlowReturn * GstRSFECDec * GstRSFECDecSourceBlock) :=
  let dec := emit dec (EvProcess (block_nr b)) in
  if num_repair_packets b =? 0 then
    _ ← assert_that (num_source_packets b =? num_source_symbols dec);
    Ret (GST_FLOW_OK, dec, set_is_complete (set_is_complete b true) true)
  else
    match repair_packets b with
    | [] => Crash NullPointer
    | first_repair_packet :: _ =>
        let len := gsize (gst_buffer_get_size first_repair_packet - 6) in
        let '(session, dec) := gst_rs_fec_dec_create_openfec_session dec len in
        if negb session then Ret (GST_FLOW_ERROR, dec, b)
        else
          let received :=
            replicate (Z.to_nat (num_encoding_symbols dec)) None in
          '(received, b) ← source_symbols_loop (sort_output dec)
                             (num_source_symbols dec) len
                             (source_packets b) received b;
          received ← repair_symbols_loop (num_source_symbols dec)
                       (num_repair_symbols dec) (num_encoding_symbols dec)
                       (repair_packets b) 0 received;
          '(ret, dec, b) ← decode_with_openfec dec b received;
          let '(ret, dec) := release_openfec_session dec ret in
          Ret (ret, dec, b)
    end.

(** [gst_rs_fec_dec_push_source_block], lines 1327-1359.  The slots of
    the block are emptied as they are read; the block is destroyed by the
    caller right after, so the emptied block is not returned. *)
Fixpoint push_adus_loop (dec : GstRSFECDec) (b : GstRSFECDecSourceBlock)
    (esis : list Z) (ret : GstFlowReturn) (push_adus : bool)
    : run (GstFlowReturn * GstRSFECDec) :=
  match esis with
  | [] => Ret (ret, dec)
  | esi :: rest =>
      match output_adu_table b !! Z.to_nat esi with
      | None => Crash OutOfBounds
      | Some None => push_adus_loop dec b rest ret push_adus
      | Some (Some adu) =>
          if push_adus then
            let '(ret, dec) :=
              gst_rs_fec_dec_push_adu dec (block_nr b) esi adu in
            push_adus_loop dec b rest ret (flow_is_ok ret)
          else push_adus_loop dec b rest ret push_adus
      end
  end.

Definition gst_rs_fec_dec_push_source_block (dec : GstRSFECDec)
    (b : GstRSFECDecSourceBlock) : run (GstFlowReturn * GstRSFECDec) :=
  let dec := gst_rs_fec_dec_push_stream_start dec in
  let dec := gst_rs_fec_dec_push_segment dec in
  push_adus_loop dec b (seqZ 0 (num_source_symbols dec)) GST_FLOW_OK true.

(** [gst_rs_fec_dec_compare_source_blocks], lines 1417-1428. *)
Definition gst_rs_fec_dec_compare_source_blocks
    (first second : GstRSFECDecSourceBlock) : Z :=
  let first_block_nr := block_nr first in
  let second_block_nr := block_nr second in
  if first_block_nr <? second_block_nr then -1
  else if first_block_nr >? second_block_nr then 1 else 0.

(** [g_slist_sort] is a stable merge sort that puts [a] before [b] when
    the comparison of [a] with [b] is not positive. *)
Definition sorts_before (a b : GstRSFECDecSourceBlock) : Prop :=
  gst_rs_fec_dec_compare_source_blocks a b <= 0.

#[global] Instance sorts_before_dec a b : Decision (sorts_before a b) :=
  Z_le_dec _ _.

Definition g_slist_sort (l : list GstRSFECDecSourceBlock)
    : list GstRSFECDecSourceBlock :=
  merge_sort sorts_before l.

(** The loop that pushes a sorted list of evicted blocks, shared by
    pruning (lines 1493-1511, with the assertion on [sort_output]) and
    draining (lines 1547-1562, without it).  Every block of the list is
    destroyed, pushed or not. *)
Fixpoint push_block_list (asserting : bool) (dec : GstRSFECDec)
    (l : list GstRSFECDecSourceBlock) (ret : GstFlowReturn)
    : run (GstFlowReturn * GstRSFECDec) :=
  match l with
  | [] => Ret (ret, dec)
  | source_block :: rest =>
      _ ← assert_that (negb asserting || sort_output dec);
      if flow_is_ok ret then
        '(ret, dec) ← gst_rs_fec_dec_push_source_block dec source_block;
        push_block_list asserting dec rest ret
      else push_block_list asserting dec rest ret
  end.

(** The scan of the hash table in pruning, lines 1461-1484: the entries
    come in the order of the table's iterator; a block that is too old
    leaves the table and, in sorted mode, is prepended to the list. *)
Definition prune_scan (dec : GstRSFECDec)
    (entries : list (Z * GstRSFECDecSourceBlock))
    : gmap Z GstRSFECDecSourceBlock * list GstRSFECDecSourceBlock :=
  foldl
    (fun '(table, pruned_block_list) '(key, source_block) =>
       if gst_rs_fec_dec_is_source_block_nr_recent_enough
            (block_nr source_block) (most_recent_block_nr dec)
            (max_source_block_age dec)
       then (table, pruned_block_list)
       else (delete key table,
             if sort_output dec then source_block :: pruned_block_list
             else pruned_block_list))
    (source_block_table dec, []) entries.

(** [gst_rs_fec_dec_prune_source_block_table], lines 1431-1519. *)
Definition gst_rs_fec_dec_prune_source_block_table (dec : GstRSFECDec)
    (source_block_nr : Z) : run (GstFlowReturn * GstRSFECDec) :=
  if first_pruning dec then
    Ret (GST_FLOW_OK, set_pruning_reference dec false source_block_nr)
  else if negb (source_block_nr =? most_recent_block_nr dec) then
    if gst_rs_fec_dec_is_source_block_nr_newer source_block_nr
         (most_recent_block_nr dec)
    then
      let dec := set_pruning_reference dec (first_pruning dec) source_block_nr in
      let '(table, pruned_block_list) :=
        prune_scan dec (map_to_list (source_block_table dec)) in
      let dec := set_source_block_table dec table in
      push_block_list true dec (g_slist_sort pruned_block_list) GST_FLOW_OK
    else Ret (GST_FLOW_OK, dec)
  else Ret (GST_FLOW_OK, dec).

(** [gst_rs_fec_dec_drain_source_block_table], lines 1522-1568. *)
Definition gst_rs_fec_dec_drain_source_block_table (dec : GstRSFECDec)
    : run (GstFlowReturn * GstRSFECDec) :=
  let drain_block_list :=
    foldl (fun l '(_, source_block) => source_block :: l) []
          (map_to_list (source_block_table dec)) in
  let dec := set_source_block_table dec ∅ in
  push_block_list false dec (g_slist_sort drain_block_list) GST_FLOW_OK.

(** The part of [gst_rs_fec_dec_insert_fec_packet] that records an
    accepted packet in its block, lines 894-929: the presence bit is set,
    the packet joins its list, the ADU of a source packet is extracted
    into the output table and, in immediate mode, pushed.  The flow return
    is that of the push, [GST_FLOW_OK] when nothing is pushed. *)
Definition record_fec_packet (dec : GstRSFECDec)
    (source_block : GstRSFECDecSourceBlock) (source_block_nr esi : Z)
    (fec_packet : GstBuffer) (is_source_packet : bool)
    : run (GstFlowReturn * GstRSFECDec * GstRSFECDecSourceBlock) :=
  source_block ← SOURCE_BLOCK_SET_FLAG source_block esi;
  if is_source_packet then
    let source_block := add_source_packet source_block fec_packet in
    let adu_length := gsize (gst_buffer_get_size fec_packet - 6) in
    let adu := take (Z.to_nat adu_length) fec_packet in
    if (length (output_adu_table source_block) <=? Z.to_nat esi)%nat
    then Crash OutOfBounds
    else
      let source_block :=
        set_output_adu_table source_block
          (<[Z.to_nat esi := Some adu]> (output_adu_table source_block)) in
      if negb (sort_output dec) then
        let '(ret, dec) :=
          gst_rs_fec_dec_push_adu dec source_block_nr esi adu in
        Ret (ret, dec, source_block)
      else Ret (GST_FLOW_OK, dec, source_block)
  else
    Ret (GST_FLOW_OK, dec, add_repair_packet source_block fec_packet).

(** The part that follows, lines 931-948: the block is processed once
    it holds enough packets and, in immediate mode, leaves the table right
    after; then the table is pruned. *)
Definition process_and_prune (dec : GstRSFECDec)
    (source_block : GstRSFECDecSourceBlock) (source_block_nr : Z)
    : run (GstFlowReturn * GstRSFECDec) :=
  '(ret, dec) ←
    (if gst_rs_fec_dec_can_source_block_be_processed dec source_block
     then
       '(ret, dec, source_block) ←
         gst_rs_fec_dec_process_source_block dec source_block;
       let dec := write_back dec source_block_nr source_block in
       if negb (sort_output dec) then
         Ret (ret, set_source_block_table dec
                     (delete source_block_nr (source_block_table dec)))
       else Ret (ret, dec)
     else Ret (GST_FLOW_OK, dec));
  if flow_is_ok ret then
    gst_rs_fec_dec_prune_source_block_table dec source_block_nr
  else Ret (ret, dec).

(** [gst_rs_fec_dec_insert_fec_packet], lines 840-949.  The block is
    fetched or created (lines 858-864) before the age of its number is
    looked at (lines 866-873).  When the push of an immediate-mode ADU is
    refused the function returns at once (lines 919-920). *)
Definition gst_rs_fec_dec_insert_fec_packet (dec : GstRSFECDec)
    (fec_packet : GstBuffer) (is_source_packet : bool)
    : run (GstFlowReturn * GstRSFECDec) :=
  '(source_block_nr, esi) ←
    (if is_source_packet
     then gst_rs_fec_dec_source_packet_read_payload_id fec_packet
     else gst_rs_fec_dec_repair_packet_read_payload_id fec_packet);
  let '(dec, source_block) :=
    match gst_rs_fec_dec_fetch_source_block dec source_block_nr with
    | Some source_block => (dec, source_block)
    | None => gst_rs_fec_dec_create_source_block dec source_block_nr
    end in
  if negb (gst_rs_fec_dec_is_source_block_nr_recent_enough source_block_nr
             (most_recent_block_nr dec) (max_source_block_age dec))
  then Ret (GST_FLOW_OK, dec)
  else if is_complete source_block then Ret (GST_FLOW_OK, dec)
  else
    already ← SOURCE_BLOCK_IS_FLAG_SET source_block esi;
    if already : bool then Ret (GST_FLOW_OK, dec)
    else
      '(ret, dec, source_block) ←
        record_fec_packet dec source_block source_block_nr esi fec_packet
          is_source_packet;
      let dec := write_back dec source_block_nr source_block in
      if negb (flow_is_ok ret) then Ret (ret, dec)
      else process_and_prune dec source_block source_block_nr.

(** [gst_rs_fec_dec_reset_states], lines 1571-1586:
    [most_recent_block_nr] is not among the fields it writes. *)
Definition gst_rs_fec_dec_reset_states (d : GstRSFECDec) : GstRSFECDec :=
  {| num_source_symbols := num_source_symbols d;
     num_repair_symbols := num_repair_symbols d;
     num_encoding_symbols := num_encoding_symbols d;
     max_source_block_age := max_source_block_age d;
     sort_output := sort_output d;
     first_adu := true;
     encoding_symbol_length := encoding_symbol_length d;
     source_block_table := source_block_table d;
     first_pruning := true;
     most_recent_block_nr := most_recent_block_nr d;
     segment_started := false; stream_started := stream_started d;
     fecsource_eos := false; fecrepair_eos := false;
     log := log d |}.

(** [gst_rs_fec_dec_flush], lines 1589-1604: every block is destroyed
    without being pushed. *)
Definition gst_rs_fec_dec_flush (dec : GstRSFECDec) : GstRSFECDec :=
  gst_rs_fec_dec_reset_states (set_source_block_table dec ∅).

(** [gst_rs_fec_dec_push_eos], lines 1669-1690; the flow return of the
    draining is dropped by the C code. *)
Definition gst_rs_fec_dec_push_eos (dec : GstRSFECDec) : run GstRSFECDec :=
  if fecsource_eos dec && (fecrepair_eos dec || (num_repair_symbols dec =? 0))
  then
    let dec := gst_rs_fec_dec_push_stream_start dec in
    let dec := gst_rs_fec_dec_push_segment dec in
    '(_, dec) ← gst_rs_fec_dec_drain_source_block_table dec;
    Ret (emit dec EvEos)
  else Ret dec.

(** The chain functions of the two sink pads, lines 700-745. *)
Definition gst_rs_fec_dec_fecsource_chain (dec : GstRSFECDec)
    (buffer : GstBuffer) : run (GstFlowReturn * GstRSFECDec) :=
  if fecsource_eos dec then Ret (GST_FLOW_EOS, dec)
  else gst_rs_fec_dec_insert_fec_packet dec buffer true.

Definition gst_rs_fec_dec_fecrepair_chain (dec : GstRSFECDec)
    (buffer : GstBuffer) : run (GstFlowReturn * GstRSFECDec) :=
  if fecrepair_eos dec then Ret (GST_FLOW_EOS, dec)
  else gst_rs_fec_dec_insert_fec_packet dec buffer false.

(** What reaches the element from outside, and one step of the element. *)
Inductive Input :=
| InSource (buffer : GstBuffer)
| InRepair (buffer : GstBuffer)
| InSourceEos
| InRepairEos
| InFlushStop.

Definition step (dec : GstRSFECDec) (i : Input) : run GstRSFECDec :=
  match i with
  | InSource buffer =>
      '(_, dec) ← gst_rs_fec_dec_fecsource_chain dec buffer; Ret dec
  | InRepair buffer =>
      '(_, dec) ← gst_rs_fec_dec_fecrepair_chain dec buffer; Ret dec
  | InSourceEos =>
      gst_rs_fec_dec_push_eos (set_eos dec true (fecrepair_eos dec))
  | InRepairEos =>
      gst_rs_fec_dec_push_eos (set_eos dec (fecsource_eos dec) true)
  | InFlushStop => Ret (gst_rs_fec_dec_flush dec)
  end.

Fixpoint steps (dec : GstRSFECDec) (l : list Input) : run GstRSFECDec :=
  match l with
  | [] => Ret dec
  | i :: rest => dec ← step dec i; steps dec rest
  end.

End WithWorld.

(** *** Invariant of the source block table *)

(** The ESI that the decoder reads from a stored packet, and the ADU it
    extracts from a source packet (line 905-907). *)
Definition source_esi (p : GstBuffer) : Z :=
  match gst_rs_fec_dec_source_packet_read_payload_id p with
  | Ret (_, esi) => esi
  | Crash _ => -1
  end.

Definition repair_esi (p : GstBuffer) : Z :=
  match gst_rs_fec_dec_repair_packet_read_payload_id p with
  | Ret (_, esi) => esi
  | Crash _ => -1
  end.

Definition adu_of_source_packet (p : GstBuffer) : GstBuffer :=
  take (Z.to_nat (gsize (gst_buffer_get_size p - 6))) p.

Definition received_esis (b : GstRSFECDecSourceBlock) : list Z :=
  map source_esi (source_packets b) ++ map repair_esi (repair_packets b).

(** A block that is not complete yet, in a session with [k] source
    symbols: the counters count the two lists,
    no ESI was recorded twice, every recorded ESI has its presence bit,
    and the ADU of every source packet sits in the output slot of its
    ESI. *)
Record block_wf (k : Z) (b : GstRSFECDecSourceBlock) : Prop := {
  wf_k : 0 <= k;
  wf_mask : length (packet_mask b) = 8%nat;
  wf_table : length (output_adu_table b) = Z.to_nat k;
  wf_num_source : num_source_packets b = Z.of_nat (length (source_packets b));
  wf_num_repair : num_repair_packets b = Z.of_nat (length (repair_packets b));
  wf_nodup : NoDup (received_esis b);
  wf_flags : forall e, e ∈ received_esis b ->
             0 <= e < 256 /\ SOURCE_BLOCK_IS_FLAG_SET b e = Ret true;
  wf_source : forall p, p ∈ source_packets b ->
              0 <= source_esi p < k /\
              output_adu_table b !! Z.to_nat (source_esi p)
              = Some (Some (adu_of_source_packet p))
}.

Definition table_wf (dec : GstRSFECDec) : Prop :=
  1 <= num_source_symbols dec < 2 ^ 32 /\
  forall blk b, source_block_table dec !! blk = Some b ->
    block_nr b = blk /\
    (is_complete b = false -> block_wf (num_source_symbols dec) b).

(** The states of a decoding session: the element starts with its
    properties inside their declared ranges (lines 291-326) and takes
    steps that do not crash. *)
Inductive reachable (W : World) : GstRSFECDec -> Prop :=
| reachable_start k r max_age sort :
    1 <= k < 2 ^ 32 -> 0 <= r < 2 ^ 32 -> 1 <= max_age < 2 ^ 32 ->
    reachable W (configure k r max_age sort)
| reachable_step dec i dec' :
    reachable W dec -> step W dec i = Ret dec' -> reachable W dec'.

(** The block an arriving packet with number [nr] is recorded in: the one
    of the table, or a fresh one. *)
Definition block_for (dec : GstRSFECDec) (nr : Z) : GstRSFECDecSourceBlock :=
  default (new_source_block (num_source_symbols dec) nr)
          (source_block_table dec !! nr).

Definition read_payload_id (fec_packet : GstBuffer) (is_source_packet : bool)
    : run (Z * Z) :=
  if is_source_packet
  then gst_rs_fec_dec_source_packet_read_payload_id fec_packet
  else gst_rs_fec_dec_repair_packet_read_payload_id fec_packet.

(** Kinds of events. *)
Definition is_process (e : Event) : Prop :=
  match e with EvProcess _ => True | _ => False end.

Definition is_delivery (e : Event) : Prop :=
  match e with
  | EvPush _ _ _ | EvStreamStart | EvSegment | EvEos => True
  | _ => False
  end.

(** [grows P dec dec']: the log of [dec'] is the log of [dec] followed by
    events that all satisfy [P]. *)
Definition grows (P : Event -> Prop) (dec dec' : GstRSFECDec) : Prop :=
  exists new, log dec' = log dec ++ new /\ Forall P new.

(** [keeps_session dec dec']: the properties, the table and the pruning
    reference of [dec'] are those of [dec]. *)
Definition keeps_session (dec dec' : GstRSFECDec) : Prop :=
  num_source_symbols dec' = num_source_symbols dec /\
  num_repair_symbols dec' = num_repair_symbols dec /\
  num_encoding_symbols dec' = num_encoding_symbols dec /\
  max_source_block_age dec' = max_source_block_age dec /\
  sort_output dec' = sort_output dec /\
  source_block_table dec' = source_block_table dec /\
  first_pruning dec' = first_pruning dec /\
  most_recent_block_nr dec' = most_recent_block_nr dec.

Definition not_process (e : Event) : Prop := ~ is_process e.

(** [advances P dec dec']: a run from [dec] to [dec'] that kept the
    session and logged only events that satisfy [P]. *)
Definition advances (P : Event -> Prop) (dec dec' : GstRSFECDec) : Prop :=
  keeps_session dec dec' /\ grows P dec dec'.

(** The decoder once the block of an arriving packet was fetched or
    created (lines 858-864). *)
Definition with_block_for (dec : GstRSFECDec) (blk : Z) : GstRSFECDec :=
  set_source_block_table dec
    (<[blk := block_for dec blk]> (source_block_table dec)).

(** [handed_to_processing W dec b]: [dec] and [b] are a decoder state
    and a block with which [gst_rs_fec_dec_insert_fec_packet] reaches its
    recoverability test (line 931) in a session: a packet arrived in a
    reachable state, was recent enough, found its block neither complete
    nor marked with its ESI, and was recorded in it as [b] without a
    refused push. *)
Definition handed_to_processing (W : World) (dec : GstRSFECDec)
    (b : GstRSFECDecSourceBlock) : Prop :=
  exists dec0 fec_packet is_source_packet blk esi ret1 dec1,
    reachable W dec0 /\
    read_payload_id fec_packet is_source_packet = Ret (blk, esi) /\
    gst_rs_fec_dec_is_source_block_nr_recent_enough blk
      (most_recent_block_nr dec0) (max_source_block_age dec0) = true /\
    is_complete (block_for dec0 blk) = false /\
    SOURCE_BLOCK_IS_FLAG_SET (block_for dec0 blk) esi = Ret false /\
    record_fec_packet W (with_block_for dec0 blk) (block_for dec0 blk)
      blk esi fec_packet is_source_packet = Ret (ret1, dec1, b) /\
    flow_is_ok ret1 = true /\
    dec = write_back dec1 blk b.

(** The ADUs of a log in the order they were pushed, each with the block
    number and ESI it was pushed under. *)
Definition pushed (l : list Event) : list (Z * Z) :=
  omap (fun e => match e with
                 | EvPush blk esi _ => Some (blk, esi)
                 | _ => None
                 end) l.

End Dec.

Module Enc.

(** ** The encoder element (gstrsfecenc.c) *)

Definition DEFAULT_NUM_SOURCE_SYMBOLS : Z := 4.
Definition DEFAULT_NUM_REPAIR_SYMBOLS : Z := 2.

Inductive of_call :=
| OfSetFecParameters (k r len : Z)
| OfBuildRepairSymbol (source_symbols : list GstBuffer) (esi : Z).

(** What the encoder hands to its two source pads, to the bus and to
    OpenFEC, in the order it happens. *)
Inductive Event :=
| EvSourcePacket (fec_source_packet : GstBuffer)
| EvRepairPacket (fec_repair_packet : GstBuffer)
| EvElementError
| EvFatalError
| EvStreamStartAndCaps
| EvSegment
| EvEos
| EvOpenFEC (c : of_call).

Record World := {
  fecsourcepad_push : list Event -> GstBuffer -> GstFlowReturn;
  fecrepairpad_push : list Event -> GstBuffer -> GstFlowReturn;
  of_set_fec_parameters : list Event -> Z -> Z -> Z -> of_status_t;
  of_build_repair_symbol :
    list Event -> list GstBuffer -> Z -> of_status_t * GstBuffer
}.

Record GstRSFECEnc := {
  num_source_symbols : Z;
  num_repair_symbols : Z;
  num_encoding_symbols : Z;
  cur_source_block_nr : Z;
  first_source_packet : bool;
  first_repair_packet : bool;
  encoding_symbol_length : Z;
  adu_table : list (option GstBuffer);
  cur_num_adus : Z;
  cur_max_adu_length : Z;
  cur_num_fec_repair_packets : Z;
  segment_started : bool;
  stream_started : bool;
  eos_received : bool;
  log : list Event
}.

(** Field updates. *)
Definition set_log (e : GstRSFECEnc) (l : list Event) :=
  {| num_source_symbols := num_source_symbols e;
     num_repair_symbols := num_repair_symbols e;
     num_encoding_symbols := num_encoding_symbols e;
     cur_source_block_nr := cur_source_block_nr e;
     first_source_packet := first_source_packet e;
     first_repair_packet := first_repair_packet e;
     encoding_symbol_length := encoding_symbol_length e;
     adu_table := adu_table e; cur_num_adus := cur_num_adus e;
     cur_max_adu_length := cur_max_adu_length e;
     cur_num_fec_repair_packets := cur_num_fec_repair_packets e;
     segment_started := segment_started e; stream_started := stream_started e;
     eos_received := eos_received e; log := l |}.

Definition emit (e : GstRSFECEnc) (ev : Event) := set_log e (log e ++ [ev]).

Definition set_cur_source_block_nr (e : GstRSFECEnc) (nr : Z) :=
  {| num_source_symbols := num_source_symbols e;
     num_repair_symbols := num_repair_symbols e;
     num_encoding_symbols := num_encoding_symbols e;
     cur_source_block_nr := nr;
     first_source_packet := first_source_packet e;
     first_repair_packet := first_repair_packet e;
     encoding_symbol_length := encoding_symbol_length e;
     adu_table := adu_table e; cur_num_adus := cur_num_adus e;
     cur_max_adu_length := cur_max_adu_length e;
     cur_num_fec_repair_packets := cur_num_fec_repair_packets e;
     segment_started := segment_started e; stream_started := stream_started e;
     eos_received := eos_received e; log := log e |}.

Definition set_first_packets (e : GstRSFECEnc) (src rep : bool) :=
  {| num_source_symbols := num_source_symbols e;
     num_repair_symbols := num_repair_symbols e;
     num_encoding_symbols := num_encoding_symbols e;
     cur_source_block_nr := cur_source_block_nr e;
     first_source_packet := src;
     first_repair_packet := rep;
     encoding_symbol_length := encoding_symbol_length e;
     adu_table := adu_table e; cur_num_adus := cur_num_adus e;
     cur_max_adu_length := cur_max_adu_length e;
     cur_num_fec_repair_packets := cur_num_fec_repair_packets e;
     segment_started := segment_started e; stream_started := stream_started e;
     eos_received := eos_received e; log := log e |}.

Definition set_encoding_symbol_length (e : GstRSFECEnc) (len : Z) :=
  {| num_source_symbols := num_source_symbols e;
     num_repair_symbols := num_repair_symbols e;
     num_encoding_symbols := num_encoding_symbols e;
     cur_source_block_nr := cur_source_block_nr e;
     first_source_packet := first_source_packet e;
     first_repair_packet := first_repair_packet e;
     encoding_symbol_length := len;
     adu_table := adu_table e; cur_num_adus := cur_num_adus e;
     cur_max_adu_length := cur_max_adu_length e;
     cur_num_fec_repair_packets := cur_num_fec_repair_packets e;
     segment_started := segment_started e; stream_started := stream_started e;
     eos_received := eos_received e; log := log e |}.

Definition set_adus (e : GstRSFECEnc) (t : list (option GstBuffer))
    (num max_len : Z) :=
  {| num_source_symbols := num_source_symbols e;
     num_repair_symbols := num_repair_symbols e;
     num_encoding_symbols := num_encoding_symbols e;
     cur_source_block_nr := cur_source_block_nr e;
     first_source_packet := first_source_packet e;
     first_repair_packet := first_repair_packet e;
     encoding_symbol_length := encoding_symbol_length e;
     adu_table := t; cur_num_adus := num;
     cur_max_adu_length := max_len;
     cur_num_fec_repair_packets := cur_num_fec_repair_packets e;
     segment_started := segment_started e; stream_started := stream_started e;
     eos_received := eos_received e; log := log e |}.

Definition set_cur_num_fec_repair_packets (e : GstRSFECEnc) (num : Z) :=
  {| num_source_symbols := num_source_symbols e;
     num_repair_symbols := num_repair_symbols e;
     num_encoding_symbols := num_encoding_symbols e;
     cur_source_block_nr := cur_source_block_nr e;
     first_source_packet := first_source_packet e;
     first_repair_packet := first_repair_packet e;
     encoding_symbol_length := encoding_symbol_length e;
     adu_table := adu_table e; cur_num_adus := cur_num_adus e;
     cur_max_adu_length := cur_max_adu_length e;
     cur_num_fec_repair_packets := num;
     segment_started := segment_started e; stream_started := stream_started e;
     eos_received := eos_received e; log := log e |}.

Definition set_started (e : GstRSFECEnc) (segment stream eos : bool) :=
  {| num_source_symbols := num_source_symbols e;
     num_repair_symbols := num_repair_symbols e;
     num_encoding_symbols := num_encoding_symbols e;
     cur_source_block_nr := cur_source_block_nr e;
     first_source_packet := first_source_packet e;
     first_repair_packet := first_repair_packet e;
     encoding_symbol_length := encoding_symbol_length e;
     adu_table := adu_table e; cur_num_adus := cur_num_adus e;
     cur_max_adu_length := cur_max_adu_length e;
     cur_num_fec_repair_packets := cur_num_fec_repair_packets e;
     segment_started := segment; stream_started := stream;
     eos_received := eos; log := log e |}.

(** The element after [gst_rs_fec_enc_init] (lines 214-259), with its two
    properties set and its tables allocated by
    [gst_rs_fec_enc_init_openfec] (lines 623-656). *)
Definition configure (k r : Z) : GstRSFECEnc :=
  {| num_source_symbols := k;
     num_repair_symbols := r;
     num_encoding_symbols := guint (k + r);
     cur_source_block_nr := 0;
     first_source_packet := true;
     first_repair_packet := true;
     encoding_symbol_length := 0;
     adu_table := replicate (Z.to_nat k) None;
     cur_num_adus := 0;
     cur_max_adu_length := 0;
     cur_num_fec_repair_packets := 0;
     segment_started := false; stream_started := false;
     eos_received := false;
     log := [] |}.

Definition gst_rs_fec_enc_init : GstRSFECEnc :=
  configure DEFAULT_NUM_SOURCE_SYMBOLS DEFAULT_NUM_REPAIR_SYMBOLS.

Definition CHECK_IF_FATAL_ERROR (e : GstRSFECEnc) (status : of_status_t)
    : GstRSFECEnc :=
  match status with
  | OF_STATUS_FATAL_ERROR => emit e EvFatalError
  | _ => e
  end.

(** The six bytes of a FEC payload ID as both [gst_rs_fec_enc_push_adu]
    (lines 801-808) and [gst_rs_fec_enc_process_source_block] (lines
    1127-1134) write them. *)
Definition fec_payload_id (source_block_nr esi k : Z) : GstBuffer :=
  [guint8 (Z.shiftr (Z.land source_block_nr 16711680) 16);
   guint8 (Z.shiftr (Z.land source_block_nr 65280) 8);
   guint8 (Z.shiftr (Z.land source_block_nr 255) 0);
   guint8 (Z.land esi 255);
   guint8 (Z.shiftr (Z.land k 65280) 8);
   guint8 (Z.shiftr (Z.land k 255) 0)].

Section WithWorld.
Variable W : World.

(** [gst_rs_fec_enc_configure_fec], lines 699-763. *)
Definition gst_rs_fec_enc_configure_fec (e : GstRSFECEnc) (len : Z)
    : bool * GstRSFECEnc :=
  if encoding_symbol_length e =? len then (true, e)
  else
    let k := num_source_symbols e in
    let r := num_repair_symbols e in
    let status := of_set_fec_parameters W (log e) k r len in
    let e := emit e (EvOpenFEC (OfSetFecParameters k r len)) in
    if negb (of_is_ok status) then (false, CHECK_IF_FATAL_ERROR e status)
    else (true, set_encoding_symbol_length e len).

(** [gst_rs_fec_enc_insert_adu], lines 766-784. *)
Definition gst_rs_fec_enc_insert_adu (e : GstRSFECEnc) (adu : GstBuffer)
    (esi : Z) : run GstRSFECEnc :=
  let adu_length := gst_buffer_get_size adu in
  if (length (adu_table e) <=? Z.to_nat esi)%nat then Crash OutOfBounds
  else
    Ret (set_adus e (<[Z.to_nat esi := Some adu]> (adu_table e))
           (cur_num_adus e)
           (Z.max adu_length (cur_max_adu_length e))).

(** [gst_rs_fec_enc_push_adu], lines 787-852. *)
Definition gst_rs_fec_enc_push_adu (e : GstRSFECEnc) (adu : GstBuffer)
    (esi : Z) : GstFlowReturn * GstRSFECEnc :=
  let source_block_nr := cur_source_block_nr e in
  let fec_source_packet :=
    adu ++ fec_payload_id source_block_nr esi (num_source_symbols e) in
  let e' :=
    if first_source_packet e
    then set_first_packets e false (first_repair_packet e) else e in
  (fecsourcepad_push W (log e) fec_source_packet,
   emit e' (EvSourcePacket fec_source_packet)).

(** [gst_rs_fec_enc_flush_all_adus], lines 855-876. *)
Definition gst_rs_fec_enc_flush_all_adus (e : GstRSFECEnc) : GstRSFECEnc :=
  if cur_num_adus e =? 0 then e
  else
    set_adus e
      (replicate (Z.to_nat (num_source_symbols e)) None
       ++ drop (Z.to_nat (num_source_symbols e)) (adu_table e))
      0 (cur_max_adu_length e).

(** [gst_rs_fec_enc_flush_all_fec_repair_packets], lines 879-909; the
    buffers of the repair packet table carry no data of their own before
    they are pushed, only their count is kept. *)
Definition gst_rs_fec_enc_flush_all_fec_repair_packets (e : GstRSFECEnc)
    : GstRSFECEnc :=
  if cur_num_fec_repair_packets e =? 0 then e
  else set_cur_num_fec_repair_packets e 0.

(** The loop at lines 965-1004 of
    [gst_rs_fec_enc_process_source_block]: the ADUs leave the table and
    become ADUIs, the source symbols of the block. *)
Fixpoint adui_loop (len : Z) (indices : list Z) (e : GstRSFECEnc)
    (symbols : list GstBuffer) : run (GstRSFECEnc * list GstBuffer) :=
  match indices with
  | [] => Ret (e, symbols)
  | i :: rest =>
      _ ← assert_that (cur_num_adus e >? 0);
      match adu_table e !! Z.to_nat i with
      | None => Crash OutOfBounds
      | Some None => Crash NullPointer
      | Some (Some adu) =>
          let adu_length := gst_buffer_get_size adu in
          let e := set_adus e (<[Z.to_nat i := None]> (adu_table e))
                     (guint (cur_num_adus e - 1)) (cur_max_adu_length e) in
          _ ← assert_that (gsize (adu_length + 3) <=? len);
          let padding := gsize (cur_max_adu_length e - adu_length) in
          let adui :=
            [guint8 0;
             guint8 (Z.shiftr (Z.land adu_length 65280) 8);
             guint8 (Z.land adu_length 255)]
            ++ adu ++ replicate (Z.to_nat padding) Byte.x00 in
          adui_loop len rest e (symbols ++ [adui])
      end
  end.

(** The events pushed before the first repair packets of a segment,
    lines 1008-1072. *)
Definition push_start_events (e : GstRSFECEnc) : GstRSFECEnc :=
  if segment_started e then e
  else
    let e := if stream_started e then e else emit e EvStreamStartAndCaps in
    let e := emit e EvSegment in
    let e := if stream_started e then e else emit e EvStreamStartAndCaps in
    let e := emit e EvSegment in
    set_started e true true (eos_received e).

(** The loop at lines 1103-1162: every repair symbol is built, framed
    and pushed.  The flow return is [GST_FLOW_OK] when the loop ran to its
    end. *)
Fixpoint repair_loop (source_block_nr : Z) (symbols : list GstBuffer)
    (indices : list Z) (e : GstRSFECEnc)
    : run (GstFlowReturn * GstRSFECEnc) :=
  match indices with
  | [] => Ret (GST_FLOW_OK, e)
  | i :: rest =>
      let esi := guint (i + num_source_symbols e) in
      let '(status, symbol) := of_build_repair_symbol W (log e) symbols esi in
      let e := emit e (EvOpenFEC (OfBuildRepairSymbol symbols esi)) in
      if negb (of_is_ok status) then
        Ret (GST_FLOW_ERROR, CHECK_IF_FATAL_ERROR e status)
      else
        let fec_repair_packet :=
          fec_payload_id source_block_nr esi (num_source_symbols e)
          ++ symbol in
        _ ← assert_that (cur_num_fec_repair_packets e >? 0);
        let e := set_cur_num_fec_repair_packets e
                   (guint (cur_num_fec_repair_packets e - 1)) in
        let e' :=
          if first_repair_packet e
          then set_first_packets e (first_source_packet e) false else e in
        let ret := fecrepairpad_push W (log e) fec_repair_packet in
        let e := emit e' (EvRepairPacket fec_repair_packet) in
        if flow_is_ok ret then repair_loop source_block_nr symbols rest e
        else Ret (ret, e)
  end.

(** The [cleanup] label, lines 1170-1177. *)
Definition process_cleanup (e : GstRSFECEnc) : GstRSFECEnc :=
  let e := gst_rs_fec_enc_flush_all_adus e in
  let e := gst_rs_fec_enc_flush_all_fec_repair_packets e in
  set_adus e (adu_table e) (cur_num_adus e) 0.

(** [gst_rs_fec_enc_process_source_block], lines 920-1178. *)
Definition gst_rs_fec_enc_process_source_block (e : GstRSFECEnc)
    : run (GstFlowReturn * GstRSFECEnc) :=
  let source_block_nr := cur_source_block_nr e in
  if cur_num_adus e <? num_source_symbols e then Ret (GST_FLOW_OK, e)
  else
    let len := gsize (1 + 2 + cur_max_adu_length e) in
    '(configured, e, symbols) ←
      (if num_repair_symbols e >? 0 then
         let '(ok, e) := gst_rs_fec_enc_configure_fec e len in
         if negb ok then Ret (false, e, [])
         else
           '(e, symbols) ← adui_loop len (seqZ 0 (num_source_symbols e)) e [];
           Ret (true, e, symbols)
       else Ret (true, e, []));
    if negb configured then Ret (GST_FLOW_ERROR, process_cleanup e)
    else
      let e := push_start_events e in
      let e := set_cur_num_fec_repair_packets e (num_repair_symbols e) in
      '(ret, e) ← repair_loop source_block_nr symbols
                    (seqZ 0 (num_repair_symbols e)) e;
      if flow_is_ok ret then
        let e := set_cur_source_block_nr e (guint (cur_source_block_nr e + 1)) in
        Ret (ret, process_cleanup e)
      else Ret (ret, process_cleanup e).

(** [gst_rs_fec_enc_sink_chain], lines 443-501. *)
Definition gst_rs_fec_enc_sink_chain (e : GstRSFECEnc) (buffer : GstBuffer)
    : run (GstFlowReturn * GstRSFECEnc) :=
  if eos_received e then Ret (GST_FLOW_EOS, e)
  else
    let bufsize := gst_buffer_get_size buffer in
    if bufsize >? 65535 then Ret (GST_FLOW_ERROR, emit e EvElementError)
    else
      let esi := cur_num_adus e in
      let '(ret, e) := gst_rs_fec_enc_push_adu e buffer esi in
      if negb (flow_is_ok ret) then Ret (ret, e)
      else
        e ← gst_rs_fec_enc_insert_adu e buffer esi;
        let e := set_adus e (adu_table e) (guint (cur_num_adus e + 1))
                   (cur_max_adu_length e) in
        gst_rs_fec_enc_process_source_block e.

(** [gst_rs_fec_enc_reset_states], lines 1181-1196:
    [cur_source_block_nr] is not among the fields it writes. *)
Definition gst_rs_fec_enc_reset_states (e : GstRSFECEnc) : GstRSFECEnc :=
  {| num_source_symbols := num_source_symbols e;
     num_repair_symbols := num_repair_symbols e;
     num_encoding_symbols := num_encoding_symbols e;
     cur_source_block_nr := cur_source_block_nr e;
     first_source_packet := true;
     first_repair_packet := true;
     encoding_symbol_length := encoding_symbol_length e;
     adu_table := adu_table e; cur_num_adus := cur_num_adus e;
     cur_max_adu_length := 0;
     cur_num_fec_repair_packets := cur_num_fec_repair_packets e;
     segment_started := false; stream_started := stream_started e;
     eos_received := false; log := log e |}.

(** [gst_rs_fec_enc_flush], lines 1199-1204. *)
Definition gst_rs_fec_enc_flush (e : GstRSFECEnc) : GstRSFECEnc :=
  gst_rs_fec_enc_reset_states
    (gst_rs_fec_enc_flush_all_fec_repair_packets
       (gst_rs_fec_enc_flush_all_adus e)).

(** What reaches the encoder from outside: an ADU on the sink pad, the
    events handled by [gst_rs_fec_enc_sink_event] (lines 386-440) and the
    state changes handled by [gst_rs_fec_enc_change_state] (lines
    341-383) while a session exists. *)
Inductive Input :=
| InAdu (buffer : GstBuffer)
| InEos
| InFlushStop
| InReadyToPaused
| InPausedToReady.

Definition step (e : GstRSFECEnc) (i : Input) : run GstRSFECEnc :=
  match i with
  | InAdu buffer => '(_, e) ← gst_rs_fec_enc_sink_chain e buffer; Ret e
  | InEos =>
      let e := set_started e (segment_started e) (stream_started e) true in
      let e := emit e EvEos in
      Ret (gst_rs_fec_enc_flush_all_fec_repair_packets
             (gst_rs_fec_enc_flush_all_adus e))
  | InFlushStop => Ret (gst_rs_fec_enc_flush e)
  | InReadyToPaused => Ret (gst_rs_fec_enc_reset_states e)
  | InPausedToReady =>
      let e := gst_rs_fec_enc_flush e in
      Ret (set_started e (segment_started e) false (eos_received e))
  end.

Fixpoint steps (e : GstRSFECEnc) (l : list Input) : run GstRSFECEnc :=
  match l with
  | [] => Ret e
  | i :: rest => e ← step e i; steps e rest
  end.

End WithWorld.

(** The block number stamped into an emitted packet, read the way the
    receiving side reads it: from the last six bytes of a source packet,
    from the first six of a repair packet. *)
Definition stamped_block_nr (ev : Event) : option Z :=
  match ev with
  | EvSourcePacket p =>
      match Dec.gst_rs_fec_dec_source_packet_read_payload_id p with
      | Ret (nr, _) => Some nr
      | Crash _ => None
      end
  | EvRepairPacket p =>
      match Dec.gst_rs_fec_dec_repair_packet_read_payload_id p with
      | Ret (nr, _) => Some nr
      | Crash _ => None
      end
  | _ => None
  end.

Definition stamped_block_nrs (l : list Event) : list Z :=
  omap stamped_block_nr l.

(** [stamps_follow_counter c stamps c']: while the block counter goes
    from [c] to [c'], the packets emitted carry the numbers [stamps], in
    this order.  Each packet carries the 24 low bits of the counter at
    the time it is emitted; the counter only moves by one step upwards
    (wrapping as a [guint]), and only after a packet was emitted with its
    present value. *)
Fixpoint stamps_follow_counter (c : Z) (stamps : list Z) (c' : Z) : Prop :=
  match stamps with
  | [] => c' = c
  | x :: rest =>
      x = c mod 2 ^ 24 /\
      (stamps_follow_counter c rest c' \/
       stamps_follow_counter (guint (c + 1)) rest c')
  end.

(** A sequence of block numbers that increases monotonically modulo
    2^24: each number is the one before it, or its successor on the
    24-bit circle. *)
Fixpoint increasing_mod_2_24 (l : list Z) : Prop :=
  match l with
  | a :: rest =>
      match rest with
      | b :: _ => (b = a \/ b = (a + 1) mod 2 ^ 24) /\ increasing_mod_2_24 rest
      | [] => True
      end
  | [] => True
  end.

(** The repair packets among the events of a log. *)
Definition repair_packets_of (l : list Event) : list GstBuffer :=
  omap (fun ev => match ev with
                  | EvRepairPacket p => Some p
                  | _ => None
                  end) l.

(** An event that is not a packet on one of the two source pads. *)
Definition not_packet (ev : Event) : Prop :=
  match ev with
  | EvSourcePacket _ | EvRepairPacket _ => False
  | _ => True
  end.

(** [quiet e e']: from [e] to [e'] no packet was emitted and neither the
    block counter nor the number of repair symbols changed. *)
Definition quiet (e e' : GstRSFECEnc) : Prop :=
  cur_source_block_nr e' = cur_source_block_nr e /\
  num_repair_symbols e' = num_repair_symbols e /\
  exists new, log e' = log e ++ new /\ Forall not_packet new.

(** An event that carries no block number, or the 24 low bits of [c]. *)
Definition stamp_is (c : Z) (ev : Event) : Prop :=
  match stamped_block_nr ev with
  | Some x => x = c mod 2 ^ 24
  | None => True
  end.

End Enc.

Module Examples.

(** ** Concrete environments and packets *)

(** A downstream peer that takes every buffer, an OpenFEC that succeeds
    and recovers nothing. *)
Definition accepting : Dec.World := {|
  Dec.pad_push := fun _ _ => GST_FLOW_OK;
  Dec.of_create_codec_instance := fun _ => OF_STATUS_OK;
  Dec.of_set_fec_parameters := fun _ _ _ _ => OF_STATUS_OK;
  Dec.of_set_available_symbols := fun _ _ => OF_STATUS_OK;
  Dec.of_finish_decoding := fun _ => OF_STATUS_OK;
  Dec.of_get_source_symbols_tab := fun _ => (OF_STATUS_OK, []);
  Dec.of_release_codec_instance := fun _ => OF_STATUS_OK
|}.

(** A downstream peer that is flushing and refuses every buffer. *)
Definition refusing : Dec.World := {|
  Dec.pad_push := fun _ _ => GST_FLOW_FLUSHING;
  Dec.of_create_codec_instance := fun _ => OF_STATUS_OK;
  Dec.of_set_fec_parameters := fun _ _ _ _ => OF_STATUS_OK;
  Dec.of_set_available_symbols := fun _ _ => OF_STATUS_OK;
  Dec.of_finish_decoding := fun _ => OF_STATUS_OK;
  Dec.of_get_source_symbols_tab := fun _ => (OF_STATUS_OK, []);
  Dec.of_release_codec_instance := fun _ => OF_STATUS_OK
|}.

(** An OpenFEC that hands back the source symbols with ESI 1 and 3 as
    recovered: the ADUIs of the one-byte ADUs "b" and "d". *)
Definition recovering : Dec.World := {|
  Dec.pad_push := fun _ _ => GST_FLOW_OK;
  Dec.of_create_codec_instance := fun _ => OF_STATUS_OK;
  Dec.of_set_fec_parameters := fun _ _ _ _ => OF_STATUS_OK;
  Dec.of_set_available_symbols := fun _ _ => OF_STATUS_OK;
  Dec.of_finish_decoding := fun _ => OF_STATUS_OK;
  Dec.of_get_source_symbols_tab := fun _ =>
    (OF_STATUS_OK,
     [None; Some [Byte.x00; Byte.x00; Byte.x01; "b"%byte];
      None; Some [Byte.x00; Byte.x00; Byte.x01; "d"%byte]]);
  Dec.of_release_codec_instance := fun _ => OF_STATUS_OK
|}.

(** A FEC source packet as the encoder frames it: the ADU followed by the
    payload ID. *)
Definition source_packet (adu : GstBuffer) (blk esi k : Z) : GstBuffer :=
  adu ++ Enc.fec_payload_id blk esi k.

(** A FEC repair packet: the payload ID followed by the repair symbol. *)
Definition repair_packet (symbol : GstBuffer) (blk esi k : Z) : GstBuffer :=
  Enc.fec_payload_id blk esi k ++ symbol.

(** An encoder environment in which every push and every OpenFEC call
    succeeds; a repair symbol is built as the empty symbol. *)
Definition enc_accepting : Enc.World := {|
  Enc.fecsourcepad_push := fun _ _ => GST_FLOW_OK;
  Enc.fecrepairpad_push := fun _ _ => GST_FLOW_OK;
  Enc.of_set_fec_parameters := fun _ _ _ _ => OF_STATUS_OK;
  Enc.of_build_repair_symbol := fun _ _ _ => (OF_STATUS_OK, [])
|}.

(** The state after a list of inputs (the starting state if the run
    crashes). *)
Definition dec_after (W : Dec.World) (dec : Dec.GstRSFECDec)
    (l : list Dec.Input) : Dec.GstRSFECDec :=
  match Dec.steps W dec l with Ret dec' => dec' | Crash _ => dec end.

Definition enc_after (W : Enc.World) (e : Enc.GstRSFECEnc)
    (l : list Enc.Input) : Enc.GstRSFECEnc :=
  match Enc.steps W e l with Ret e' => e' | Crash _ => e end.



(** An ADU of 70000 bytes. *)
Definition oversize_adu : GstBuffer := replicate (Z.to_nat 70000) Byte.x00.

End Examples.

Module DecMask.
Import Dec.

(** ** The third macro of the presence bitmask (gstrsfecdec.c, lines 176-179)

    The complement is the one of a [guint64]. *)
Definition SOURCE_BLOCK_UNSET_FLAG (b : GstRSFECDecSourceBlock) (idx : Z)
    : run GstRSFECDecSourceBlock :=
  let i := Z.to_nat (Z.shiftr idx 6) in
  match packet_mask b !! i with
  | Some w =>
      Ret (set_packet_mask b
             (<[i := Z.land w (Z.lxor (Z.ones 64) (Z.shiftl 1 (Z.land idx 63)))]>
                (packet_mask b)))
  | None => Crash OutOfBounds
  end.

End DecMask.

Module EncInv.
Import Enc.

(** ** The encoder: the block in progress *)

(** The longest of a list of ADUs, as [gst_rs_fec_enc_insert_adu] tracks
    it from one ADU to the next (line 774). *)
Definition max_adu_length (adus : list GstBuffer) : Z :=
  foldl (fun m adu => Z.max (gst_buffer_get_size adu) m) 0 adus.

(** [queued e adus]: the ADUs of the block in progress are [adus], in the
    slots 0, 1, ... of the ADU table, and the other slots are empty. *)
Definition queued (e : GstRSFECEnc) (adus : list GstBuffer) : Prop :=
  adu_table e
  = (Some <$> adus)
    ++ replicate (Z.to_nat (num_source_symbols e) - length adus) None /\
  cur_num_adus e = Z.of_nat (length adus).

(** The state of the encoder between two calls: the properties are in the
    range of a [guint], fewer than k ADUs are queued, none longer than
    65535 bytes, the tracked maximum is theirs while data is accepted, and
    no repair packet is left in its table. *)
Record enc_wf (e : GstRSFECEnc) : Prop := {
  ewf_k : 1 <= num_source_symbols e < 2 ^ 32;
  ewf_r : 0 <= num_repair_symbols e < 2 ^ 32;
  ewf_queue : exists adus,
    queued e adus /\
    Z.of_nat (length adus) < num_source_symbols e /\
    Forall (fun adu => gst_buffer_get_size adu <= 65535) adus /\
    (eos_received e = false -> cur_max_adu_length e = max_adu_length adus);
  ewf_max : 0 <= cur_max_adu_length e <= 65535;
  ewf_repair : cur_num_fec_repair_packets e = 0
}.

(** The order in which GStreamer hands state changes and data to an
    element: buffers and events reach the pads only between READY->PAUSED
    and PAUSED->READY, and the two state changes alternate.  [paused]
    tells on which side of them the element is. *)
Fixpoint in_state_order (paused : bool) (l : list Input) : Prop :=
  match l with
  | [] => True
  | InReadyToPaused :: rest => paused = false /\ in_state_order true rest
  | InPausedToReady :: rest => paused = true /\ in_state_order false rest
  | _ :: rest => paused = true /\ in_state_order true rest
  end.

(** [same_block e e']: [e'] has the properties, the queue of ADUs, the
    block counter and the EOS flag of [e]. *)
Definition same_block (e e' : GstRSFECEnc) : Prop :=
  num_source_symbols e' = num_source_symbols e /\
  num_repair_symbols e' = num_repair_symbols e /\
  adu_table e' = adu_table e /\
  cur_num_adus e' = cur_num_adus e /\
  cur_max_adu_length e' = cur_max_adu_length e /\
  eos_received e' = eos_received e /\
  cur_source_block_nr e' = cur_source_block_nr e.

(** An ADUI as RFC 6865 defines it and the loop at lines 965-1004 builds
    it: the flow ID 0, the length of the ADU as a 16-bit big-endian
    number, the ADU, and zero bytes up to the length 3 + [max_len]. *)
Definition adui (max_len : Z) (adu : GstBuffer) : GstBuffer :=
  [guint8 0;
   guint8 (Z.shiftr (Z.land (gst_buffer_get_size adu) 65280) 8);
   guint8 (Z.land (gst_buffer_get_size adu) 255)]
  ++ adu
  ++ replicate (Z.to_nat (max_len - gst_buffer_get_size adu)) Byte.x00.

(** The source packets of a log, and the requests for repair symbols made
    to OpenFEC: the source symbols handed over and the ESI asked for. *)
Definition source_packets_of (l : list Event) : list GstBuffer :=
  omap (fun ev => match ev with
                  | EvSourcePacket p => Some p
                  | _ => None
                  end) l.

Definition repair_symbol_requests (l : list Event)
    : list (list GstBuffer * Z) :=
  omap (fun ev => match ev with
                  | EvOpenFEC (OfBuildRepairSymbol symbols esi) =>
                      Some (symbols, esi)
                  | _ => None
                  end) l.

(** An environment in which downstream takes every packet and OpenFEC
    succeeds in every call. *)
Definition cooperative (W : World) : Prop :=
  (forall l p, fecsourcepad_push W l p = GST_FLOW_OK) /\
  (forall l p, fecrepairpad_push W l p = GST_FLOW_OK) /\
  (forall l k r len, of_set_fec_parameters W l k r len = OF_STATUS_OK) /\
  (forall l symbols esi, (of_build_repair_symbol W l symbols esi).1 = OF_STATUS_OK).

End EncInv.

Module DecInv.
Import Aging Dec.

(** ** The decoder: what is delivered *)

(** The ADUs pushed downstream according to a log, in order, each with
    the block number and the ESI it was pushed under. *)
Definition deliveries (l : list Event) : list (Z * Z * GstBuffer) :=
  omap (fun e => match e with
                 | EvPush blk esi adu => Some (blk, esi, adu)
                 | _ => None
                 end) l.

(** The ADUs that a block holds in the first [k] slots of its output
    table, by increasing ESI. *)
Definition slots (k : Z) (b : GstRSFECDecSourceBlock)
    : list (Z * Z * GstBuffer) :=
  omap (fun esi => match output_adu_table b !! Z.to_nat esi with
                   | Some (Some adu) => Some (block_nr b, esi, adu)
                   | _ => None
                   end) (seqZ 0 k).

(** The order of [gst_rs_fec_dec_compare_source_blocks] when it is
    strict, and the order of deliveries by block number first and ESI
    second; both compare block numbers as plain numbers. *)
Definition raw_before (a b : GstRSFECDecSourceBlock) : Prop :=
  block_nr a < block_nr b.

Definition raw_order (x y : Z * Z * GstBuffer) : Prop :=
  x.1.1 < y.1.1 \/ (x.1.1 = y.1.1 /\ x.1.2 < y.1.2).

(** Every block of the table has an output table of k slots. *)
Definition tables_sized (dec : GstRSFECDec) : Prop :=
  forall blk b, source_block_table dec !! blk = Some b ->
    length (output_adu_table b) = Z.to_nat (num_source_symbols dec).

(** A downstream peer that takes every buffer. *)
Definition accepting_downstream (W : World) : Prop :=
  forall l adu, pad_push W l adu = GST_FLOW_OK.

(** The blocks of the table. *)
Definition blocks_of (dec : GstRSFECDec) : list GstRSFECDecSourceBlock :=
  (map_to_list (source_block_table dec)).*2.

End DecInv.

Module DecRecovery.
Import Dec.

(** ** The decoder: OpenFEC as a collaborator that decodes *)

(** An OpenFEC whose calls all succeed and that hands back [recovered] as
    its table of source symbols. *)
Definition decodes_to (W : World) (recovered : list (option GstBuffer))
    : Prop :=
  (forall l, of_create_codec_instance W l = OF_STATUS_OK) /\
  (forall l k r len, of_set_fec_parameters W l k r len = OF_STATUS_OK) /\
  (forall l tab, of_set_available_symbols W l tab = OF_STATUS_OK) /\
  (forall l, of_finish_decoding W l = OF_STATUS_OK) /\
  (forall l, of_get_source_symbols_tab W l = (OF_STATUS_OK, recovered)) /\
  (forall l, of_release_codec_instance W l = OF_STATUS_OK).

(** The calls that open and close an OpenFEC session, in the order of a
    log: [true] for [of_create_codec_instance], [false] for
    [of_release_codec_instance]. *)
Definition session_calls (l : list Event) : list bool :=
  omap (fun e => match e with
                 | EvOpenFEC OfCreateCodecInstance => Some true
                 | EvOpenFEC OfReleaseCodecInstance => Some false
                 | _ => None
                 end) l.

End DecRecovery.

Module Scenarios.
Import Dec Examples.

(** ** Decoder states used as concrete cases *)

(** k=2, r=1, sorted mode: the source packet with ESI 0 of block 5 has
    arrived. *)
Definition one_of_block_5 : GstRSFECDec :=
  dec_after accepting (configure 2 1 1 true)
    [InSource (source_packet ["a"%byte] 5 0 2)].

(** k=2, r=0, sorted mode: the same packet has arrived and the source
    stream has just ended. *)
Definition at_end_of_stream : GstRSFECDec :=
  set_eos
    (dec_after accepting (configure 2 0 1 true)
       [InSource (source_packet ["a"%byte] 5 0 2)])
    true false.

(** k=4, r=2, sorted mode, with the OpenFEC of [recovering]: the source
    packets with ESI 0 and 2 and the repair packet with ESI 4 of block 7
    have arrived. *)
Definition three_of_block_7 : GstRSFECDec :=
  dec_after recovering (configure 4 2 1 true)
    [InSource (source_packet ["a"%byte] 7 0 4);
     InRepair (repair_packet [Byte.x00; Byte.x00; Byte.x00; Byte.x00] 7 4 4);
     InSource (source_packet ["c"%byte] 7 2 4)].

(** The result of processing block 7 in that state. *)
Definition processed_block_7
    : GstFlowReturn * GstRSFECDec * GstRSFECDecSourceBlock :=
  match gst_rs_fec_dec_process_source_block recovering three_of_block_7
          (block_for three_of_block_7 7) with
  | Ret x => x
  | Crash _ => (GST_FLOW_ERROR, three_of_block_7, block_for three_of_block_7 7)
  end.

End Scenarios.

Module Gst.

(** ** GObject values and GStreamer state changes *)

(** A [GValue] as the property functions read it: [g_value_get_uint] and
    [g_value_get_boolean] answer 0 and FALSE on a value of another
    type. *)
Inductive GValue :=
| G_TYPE_UINT (v : Z)
| G_TYPE_BOOLEAN (v : bool).

Definition g_value_get_uint (value : GValue) : Z :=
  match value with
  | G_TYPE_UINT v => guint v
  | G_TYPE_BOOLEAN _ => 0
  end.

Definition g_value_get_boolean (value : GValue) : bool :=
  match value with
  | G_TYPE_BOOLEAN v => v
  | G_TYPE_UINT _ => false
  end.

(** A value below 2^31: the sum of two of them is a [guint] that has not
    wrapped around. *)
Definition g_value_modest (value : GValue) : bool :=
  match value with
  | G_TYPE_UINT v => v <? 2 ^ 31
  | G_TYPE_BOOLEAN _ => true
  end.

Inductive GstState :=
| GST_STATE_NULL
| GST_STATE_READY
| GST_STATE_PAUSED
| GST_STATE_PLAYING.

Inductive GstStateChange :=
| GST_STATE_CHANGE_NULL_TO_READY
| GST_STATE_CHANGE_READY_TO_PAUSED
| GST_STATE_CHANGE_PAUSED_TO_PLAYING
| GST_STATE_CHANGE_PLAYING_TO_PAUSED
| GST_STATE_CHANGE_PAUSED_TO_READY
| GST_STATE_CHANGE_READY_TO_NULL.

Inductive GstStateChangeReturn :=
| GST_STATE_CHANGE_FAILURE
| GST_STATE_CHANGE_SUCCESS
| GST_STATE_CHANGE_ASYNC
| GST_STATE_CHANGE_NO_PREROLL.

(** The state a transition starts from and the one it leads to. *)
Definition transition_current (t : GstStateChange) : GstState :=
  match t with
  | GST_STATE_CHANGE_NULL_TO_READY => GST_STATE_NULL
  | GST_STATE_CHANGE_READY_TO_PAUSED => GST_STATE_READY
  | GST_STATE_CHANGE_PAUSED_TO_PLAYING => GST_STATE_PAUSED
  | GST_STATE_CHANGE_PLAYING_TO_PAUSED => GST_STATE_PLAYING
  | GST_STATE_CHANGE_PAUSED_TO_READY => GST_STATE_PAUSED
  | GST_STATE_CHANGE_READY_TO_NULL => GST_STATE_READY
  end.

Definition transition_next (t : GstStateChange) : GstState :=
  match t with
  | GST_STATE_CHANGE_NULL_TO_READY => GST_STATE_READY
  | GST_STATE_CHANGE_READY_TO_PAUSED => GST_STATE_PAUSED
  | GST_STATE_CHANGE_PAUSED_TO_PLAYING => GST_STATE_PLAYING
  | GST_STATE_CHANGE_PLAYING_TO_PAUSED => GST_STATE_PAUSED
  | GST_STATE_CHANGE_PAUSED_TO_READY => GST_STATE_READY
  | GST_STATE_CHANGE_READY_TO_NULL => GST_STATE_NULL
  end.

Definition state_eqb (a b : GstState) : bool :=
  match a, b with
  | GST_STATE_NULL, GST_STATE_NULL
  | GST_STATE_READY, GST_STATE_READY
  | GST_STATE_PAUSED, GST_STATE_PAUSED
  | GST_STATE_PLAYING, GST_STATE_PLAYING => true
  | _, _ => false
  end.

(** The pads of an element carry data and events in PAUSED and PLAYING. *)
Definition pads_active (st : GstState) : bool :=
  match st with
  | GST_STATE_PAUSED | GST_STATE_PLAYING => true
  | _ => false
  end.

End Gst.

Module EncElement.
Import Enc Gst.

(** ** The encoder as an object: properties, tables, state changes
    (gstrsfecenc.c, lines 214-383 and 504-696) *)

Inductive Property :=
| PROP_NUM_SOURCE_SYMBOLS
| PROP_NUM_REPAIR_SYMBOLS.

(** What the element does next to the data flow, in the order it happens:
    the messages it posts, its two OpenFEC calls that open and close the
    session, and the state change handed to the parent class. *)
Inductive Notice :=
| ElementError
| ElementWarning
| FatalError
| CreateCodecInstance
| ReleaseCodecInstance
| ParentChangeState (transition : GstStateChange).

(** The answers of OpenFEC and of the parent class, each of which may
    depend on what happened before. *)
Record Collaborators := {
  of_create_codec_instance : list Notice -> of_status_t;
  of_release_codec_instance : list Notice -> of_status_t;
  parent_change_state : list Notice -> GstStateChange -> GstStateChangeReturn
}.

(** The object: the fields of the running encoder and, for each pointer
    that the data flow takes for granted, whether it is non-NULL.  The ADU
    table of [rs_fec_enc] is the empty list while its pointer is NULL. *)
Record Element := {
  rs_fec_enc : GstRSFECEnc;
  openfec_session : bool;
  encoding_symbol_table : bool;
  adu_table_allocated : bool;
  fec_repair_packet_table : bool;
  notices : list Notice
}.

Definition with_enc (el : Element) (e : GstRSFECEnc) : Element :=
  {| rs_fec_enc := e;
     openfec_session := openfec_session el;
     encoding_symbol_table := encoding_symbol_table el;
     adu_table_allocated := adu_table_allocated el;
     fec_repair_packet_table := fec_repair_packet_table el;
     notices := notices el |}.

Definition post (el : Element) (n : Notice) : Element :=
  {| rs_fec_enc := rs_fec_enc el;
     openfec_session := openfec_session el;
     encoding_symbol_table := encoding_symbol_table el;
     adu_table_allocated := adu_table_allocated el;
     fec_repair_packet_table := fec_repair_packet_table el;
     notices := notices el ++ [n] |}.

Definition set_openfec_session (el : Element) (session : bool) : Element :=
  {| rs_fec_enc := rs_fec_enc el;
     openfec_session := session;
     encoding_symbol_table := encoding_symbol_table el;
     adu_table_allocated := adu_table_allocated el;
     fec_repair_packet_table := fec_repair_packet_table el;
     notices := notices el |}.

Definition set_tables (el : Element) (symbols adus repair : bool) : Element :=
  {| rs_fec_enc := rs_fec_enc el;
     openfec_session := openfec_session el;
     encoding_symbol_table := symbols;
     adu_table_allocated := adus;
     fec_repair_packet_table := repair;
     notices := notices el |}.

Definition set_symbols (e : GstRSFECEnc) (k r : Z) : GstRSFECEnc :=
  {| num_source_symbols := k;
     num_repair_symbols := r;
     num_encoding_symbols := guint (k + r);
     cur_source_block_nr := cur_source_block_nr e;
     first_source_packet := first_source_packet e;
     first_repair_packet := first_repair_packet e;
     encoding_symbol_length := encoding_symbol_length e;
     adu_table := adu_table e; cur_num_adus := cur_num_adus e;
     cur_max_adu_length := cur_max_adu_length e;
     cur_num_fec_repair_packets := cur_num_fec_repair_packets e;
     segment_started := segment_started e; stream_started := stream_started e;
     eos_received := eos_received e; log := log e |}.

(** The object after [gst_rs_fec_enc_init], lines 214-259: the default
    properties, no session and no table. *)
Definition new_element : Element :=
  {| rs_fec_enc := set_adus gst_rs_fec_enc_init [] 0 0;
     openfec_session := false;
     encoding_symbol_table := false;
     adu_table_allocated := false;
     fec_repair_packet_table := false;
     notices := [] |}.

Definition max_num_encoding_symbols : Z := Z.shiftl 1 8 - 1.

(** [gst_rs_fec_enc_set_property], lines 262-317. *)
Definition gst_rs_fec_enc_set_property (el : Element) (prop_id : Property)
    (value : GValue) : Element :=
  if negb (openfec_session el) then
    let e := rs_fec_enc el in
    let e :=
      match prop_id with
      | PROP_NUM_SOURCE_SYMBOLS =>
          set_symbols e (g_value_get_uint value) (num_repair_symbols e)
      | PROP_NUM_REPAIR_SYMBOLS =>
          set_symbols e (num_source_symbols e) (g_value_get_uint value)
      end in
    let el := with_enc el e in
    if num_encoding_symbols e >? max_num_encoding_symbols
    then post el ElementError else el
  else post el ElementWarning.

(** [gst_rs_fec_enc_get_property], lines 320-338. *)
Definition gst_rs_fec_enc_get_property (el : Element) (prop_id : Property)
    : GValue :=
  match prop_id with
  | PROP_NUM_SOURCE_SYMBOLS => G_TYPE_UINT (num_source_symbols (rs_fec_enc el))
  | PROP_NUM_REPAIR_SYMBOLS => G_TYPE_UINT (num_repair_symbols (rs_fec_enc el))
  end.

(** The three tables, lines 504-620.  [g_slice_alloc0] answers NULL when
    it is asked for 0 bytes.  Memory is taken to be available: that
    [g_slice_alloc0] ends the process when it is not is left out. *)
Definition gst_rs_fec_enc_alloc_encoding_symbol_table (el : Element)
    : run Element :=
  _ ← assert_that (negb (encoding_symbol_table el));
  Ret (set_tables el (negb (num_encoding_symbols (rs_fec_enc el) =? 0))
         (adu_table_allocated el) (fec_repair_packet_table el)).

Definition gst_rs_fec_enc_free_encoding_symbol_table (el : Element)
    : run Element :=
  _ ← assert_that (encoding_symbol_table el);
  Ret (set_tables el false (adu_table_allocated el) (fec_repair_packet_table el)).

Definition gst_rs_fec_enc_alloc_adu_table (el : Element) : run Element :=
  _ ← assert_that (negb (adu_table_allocated el));
  let e := rs_fec_enc el in
  let e := set_adus e (replicate (Z.to_nat (num_source_symbols e)) None)
             (cur_num_adus e) (cur_max_adu_length e) in
  Ret (set_tables (with_enc el e) (encoding_symbol_table el)
         (negb (num_source_symbols e =? 0)) (fec_repair_packet_table el)).

Definition gst_rs_fec_enc_free_adu_table (el : Element) : run Element :=
  _ ← assert_that (adu_table_allocated el);
  let e := rs_fec_enc el in
  _ ← assert_that (cur_num_adus e =? 0);
  let e := set_adus e [] (cur_num_adus e) (cur_max_adu_length e) in
  Ret (set_tables (with_enc el e) (encoding_symbol_table el) false
         (fec_repair_packet_table el)).

Definition gst_rs_fec_enc_alloc_fec_repair_packet_table (el : Element)
    : run Element :=
  _ ← assert_that (negb (fec_repair_packet_table el));
  if num_repair_symbols (rs_fec_enc el) =? 0 then Ret el
  else
    Ret (set_tables el (encoding_symbol_table el) (adu_table_allocated el) true).

Definition gst_rs_fec_enc_free_fec_repair_packet_table (el : Element)
    : run Element :=
  if num_repair_symbols (rs_fec_enc el) =? 0 then Ret el
  else
    _ ← assert_that (fec_repair_packet_table el);
    _ ← assert_that (cur_num_fec_repair_packets (rs_fec_enc el) =? 0);
    Ret (set_tables el (encoding_symbol_table el) (adu_table_allocated el)
           false).

Definition check_if_fatal (el : Element) (status : of_status_t) : Element :=
  match status with
  | OF_STATUS_FATAL_ERROR => post el FatalError
  | _ => el
  end.

Section WithCollaborators.
Variable C : Collaborators.

(** [gst_rs_fec_enc_init_openfec], lines 623-656. *)
Definition gst_rs_fec_enc_init_openfec (el : Element)
    : run (bool * Element) :=
  if openfec_session el then Ret (true, el)
  else
    let status := of_create_codec_instance C (notices el) in
    let el := post el CreateCodecInstance in
    if negb (of_is_ok status) then
      Ret (false, check_if_fatal (set_openfec_session el false) status)
    else
      let el := set_openfec_session el true in
      el ← gst_rs_fec_enc_alloc_encoding_symbol_table el;
      el ← gst_rs_fec_enc_alloc_adu_table el;
      el ← gst_rs_fec_enc_alloc_fec_repair_packet_table el;
      Ret (true,
           with_enc el (set_encoding_symbol_length (rs_fec_enc el) 0)).

(** [gst_rs_fec_enc_shutdown_openfec], lines 659-696. *)
Definition gst_rs_fec_enc_shutdown_openfec (el : Element)
    : run (bool * Element) :=
  if negb (openfec_session el) then Ret (true, el)
  else
    el ← gst_rs_fec_enc_free_encoding_symbol_table el;
    el ← gst_rs_fec_enc_free_adu_table el;
    el ← gst_rs_fec_enc_free_fec_repair_packet_table el;
    let el := with_enc el (set_encoding_symbol_length (rs_fec_enc el) 0) in
    let status := of_release_codec_instance C (notices el) in
    let el := post el ReleaseCodecInstance in
    if negb (of_is_ok status) then Ret (false, check_if_fatal el status)
    else Ret (true, set_openfec_session el false).

(** [gst_rs_fec_enc_change_state], lines 341-383. *)
Definition gst_rs_fec_enc_change_state (el : Element)
    (transition : GstStateChange) : run (GstStateChangeReturn * Element) :=
  '(ok, el) ←
    match transition with
    | GST_STATE_CHANGE_NULL_TO_READY => gst_rs_fec_enc_init_openfec el
    | GST_STATE_CHANGE_READY_TO_PAUSED =>
        Ret (true, with_enc el (gst_rs_fec_enc_reset_states (rs_fec_enc el)))
    | _ => Ret (true, el)
    end;
  if negb ok then Ret (GST_STATE_CHANGE_FAILURE, el)
  else
    let result := parent_change_state C (notices el) transition in
    let el := post el (ParentChangeState transition) in
    match result with
    | GST_STATE_CHANGE_FAILURE => Ret (result, el)
    | _ =>
        match transition with
        | GST_STATE_CHANGE_PAUSED_TO_READY =>
            let e := gst_rs_fec_enc_flush (rs_fec_enc el) in
            let e := set_started e (segment_started e) false (eos_received e) in
            Ret (result, with_enc el e)
        | GST_STATE_CHANGE_READY_TO_NULL =>
            '(ok, el) ← gst_rs_fec_enc_shutdown_openfec el;
            if negb ok then Ret (GST_STATE_CHANGE_FAILURE, el)
            else Ret (result, el)
        | _ => Ret (result, el)
        end
    end.

Variable W : World.

(** What an application and the pipeline do with the element. *)
Inductive Action :=
| SetProperty (prop_id : Property) (value : GValue)
| ChangeState (transition : GstStateChange)
| Chain (buffer : GstBuffer)
| EventEos
| EventFlushStop.

Definition act (el : Element) (a : Action) : run Element :=
  match a with
  | SetProperty prop_id value =>
      Ret (gst_rs_fec_enc_set_property el prop_id value)
  | ChangeState transition =>
      '(_, el) ← gst_rs_fec_enc_change_state el transition; Ret el
  | Chain buffer =>
      e ← step W (rs_fec_enc el) (InAdu buffer); Ret (with_enc el e)
  | EventEos => e ← step W (rs_fec_enc el) InEos; Ret (with_enc el e)
  | EventFlushStop =>
      e ← step W (rs_fec_enc el) InFlushStop; Ret (with_enc el e)
  end.

Fixpoint acts (el : Element) (l : list Action) : run Element :=
  match l with
  | [] => Ret el
  | a :: rest => el ← act el a; acts el rest
  end.

End WithCollaborators.

(** The values a property accepts, as its [GParamSpec] declares them
    (lines 176-199). *)
Definition valid_value (prop_id : Property) (value : GValue) : bool :=
  match prop_id, value with
  | PROP_NUM_SOURCE_SYMBOLS, G_TYPE_UINT v => (1 <=? v) && (v <? 2 ^ 32)
  | PROP_NUM_REPAIR_SYMBOLS, G_TYPE_UINT v => (0 <=? v) && (v <? 2 ^ 32)
  | _, _ => false
  end.

(** The state an element is in after a list of actions that follows the
    rules of GStreamer, starting in [st]: state changes go from the
    current state to a neighbour, data and events arrive while the pads
    are active, property values are valid.  [None] when the list breaks a
    rule. *)
Fixpoint state_after (st : GstState) (l : list Action) : option GstState :=
  match l with
  | [] => Some st
  | SetProperty prop_id value :: rest =>
      if valid_value prop_id value then state_after st rest else None
  | ChangeState transition :: rest =>
      if state_eqb (transition_current transition) st
      then state_after (transition_next transition) rest else None
  | _ :: rest => if pads_active st then state_after st rest else None
  end.

(** The numbers set by a list of actions are all below 2^31. *)
Definition modest (l : list Action) : bool :=
  forallb (fun a => match a with
                    | SetProperty _ value => g_value_modest value
                    | _ => true
                    end) l.

(** Collaborators that succeed: OpenFEC opens and closes the session, the
    parent class does not fail a state change. *)
Definition succeed (C : Collaborators) : Prop :=
  (forall l, of_create_codec_instance C l = OF_STATUS_OK) /\
  (forall l, of_release_codec_instance C l = OF_STATUS_OK) /\
  (forall l t, parent_change_state C l t <> GST_STATE_CHANGE_FAILURE).

(** The sessions that are open according to the notices: the calls that
    created one minus the calls that released one. *)
Definition open_sessions (l : list Notice) : Z :=
  foldl (fun n x => match x with
                    | CreateCodecInstance => n + 1
                    | ReleaseCodecInstance => n - 1
                    | _ => n
                    end) 0 l.

(** What holds of the object in each state. *)
Definition element_inv (st : GstState) (el : Element) : Prop :=
  let e := rs_fec_enc el in
  1 <= num_source_symbols e < 2 ^ 31 /\
  0 <= num_repair_symbols e < 2 ^ 31 /\
  num_encoding_symbols e = guint (num_source_symbols e + num_repair_symbols e) /\
  open_sessions (notices el) = (if openfec_session el then 1 else 0) /\
  match st with
  | GST_STATE_NULL =>
      openfec_session el = false /\
      encoding_symbol_table el = false /\
      adu_table_allocated el = false /\
      fec_repair_packet_table el = false /\
      adu_table e = [] /\
      cur_num_adus e = 0 /\ cur_num_fec_repair_packets e = 0 /\
      cur_max_adu_length e = 0 /\ eos_received e = false
  | _ =>
      openfec_session el = true /\
      encoding_symbol_table el = true /\
      adu_table_allocated el = true /\
      fec_repair_packet_table el = negb (num_repair_symbols e =? 0) /\
      EncInv.enc_wf e /\
      (st = GST_STATE_READY -> EncInv.queued e [] /\ eos_received e = false)
  end.

(** [same_symbols e e']: k, r and their sum are those of [e]. *)
Definition same_symbols (e e' : GstRSFECEnc) : Prop :=
  num_source_symbols e' = num_source_symbols e /\
  num_repair_symbols e' = num_repair_symbols e /\
  num_encoding_symbols e' = num_encoding_symbols e.

(** A succeeding environment. *)
Definition obliging : Collaborators := {|
  of_create_codec_instance := fun _ => OF_STATUS_OK;
  of_release_codec_instance := fun _ => OF_STATUS_OK;
  parent_change_state := fun _ _ => GST_STATE_CHANGE_SUCCESS
|}.

End EncElement.

Module DecElement.
Import Dec Gst.

(** ** The decoder as an object: properties, tables, state changes
    (gstrsfecdec.c, lines 360-591 and 748-794) *)

Inductive Property :=
| PROP_NUM_SOURCE_SYMBOLS
| PROP_NUM_REPAIR_SYMBOLS
| PROP_MAX_SOURCE_BLOCK_AGE
| PROP_DO_TIMESTAMP
| PROP_SORT_OUTPUT.

(** The messages the element posts and the state change it hands to the
    parent class, in the order they happen. *)
Inductive Notice :=
| ElementError
| ElementWarning
| ParentChangeState (transition : GstStateChange).

Record Collaborators := {
  parent_change_state : list Notice -> GstStateChange -> GstStateChangeReturn
}.

(** The object: the fields of the running decoder, whether the symbol
    tables are allocated ([allocated_encoding_symbol_table] is non-NULL;
    the other two tables and the map infos are allocated and freed with
    it) and the [do_timestamp] property. *)
Record Element := {
  rs_fec_dec : GstRSFECDec;
  allocated_encoding_symbol_table : bool;
  do_timestamp : bool;
  notices : list Notice
}.

Definition with_dec (el : Element) (d : GstRSFECDec) : Element :=
  {| rs_fec_dec := d;
     allocated_encoding_symbol_table := allocated_encoding_symbol_table el;
     do_timestamp := do_timestamp el;
     notices := notices el |}.

Definition post (el : Element) (n : Notice) : Element :=
  {| rs_fec_dec := rs_fec_dec el;
     allocated_encoding_symbol_table := allocated_encoding_symbol_table el;
     do_timestamp := do_timestamp el;
     notices := notices el ++ [n] |}.

Definition set_allocated (el : Element) (v : bool) : Element :=
  {| rs_fec_dec := rs_fec_dec el;
     allocated_encoding_symbol_table := v;
     do_timestamp := do_timestamp el;
     notices := notices el |}.

Definition set_do_timestamp (el : Element) (v : bool) : Element :=
  {| rs_fec_dec := rs_fec_dec el;
     allocated_encoding_symbol_table := allocated_encoding_symbol_table el;
     do_timestamp := v;
     notices := notices el |}.

Definition set_properties (d : GstRSFECDec) (k r n max_age : Z) (sort : bool)
    : GstRSFECDec :=
  {| num_source_symbols := k;
     num_repair_symbols := r;
     num_encoding_symbols := n;
     max_source_block_age := max_age;
     sort_output := sort;
     first_adu := first_adu d;
     encoding_symbol_length := encoding_symbol_length d;
     source_block_table := source_block_table d;
     first_pruning := first_pruning d;
     most_recent_block_nr := most_recent_block_nr d;
     segment_started := segment_started d;
     stream_started := stream_started d;
     fecsource_eos := fecsource_eos d;
     fecrepair_eos := fecrepair_eos d;
     log := log d |}.

Definition DEFAULT_DO_TIMESTAMP : bool := true.

(** The object after [gst_rs_fec_dec_init], lines 360-416. *)
Definition new_element : Element :=
  {| rs_fec_dec := gst_rs_fec_dec_init;
     allocated_encoding_symbol_table := false;
     do_timestamp := DEFAULT_DO_TIMESTAMP;
     notices := [] |}.

Definition max_num_encoding_symbols : Z := Z.shiftl 1 8 - 1.

(** [gst_rs_fec_dec_set_property], lines 430-506. *)
Definition gst_rs_fec_dec_set_property (el : Element) (prop_id : Property)
    (value : GValue) : Element :=
  let d := rs_fec_dec el in
  let k := num_source_symbols d in
  let r := num_repair_symbols d in
  let n := num_encoding_symbols d in
  let max_age := max_source_block_age d in
  let sort := sort_output d in
  let checked (d : GstRSFECDec) :=
    let el := with_dec el d in
    if num_encoding_symbols d >? max_num_encoding_symbols
    then post el ElementError else el in
  match prop_id with
  | PROP_NUM_SOURCE_SYMBOLS =>
      if negb (allocated_encoding_symbol_table el) then
        let k := g_value_get_uint value in
        checked (set_properties d k r (guint (k + r)) max_age sort)
      else post el ElementWarning
  | PROP_NUM_REPAIR_SYMBOLS =>
      if negb (allocated_encoding_symbol_table el) then
        let r := g_value_get_uint value in
        checked (set_properties d k r (guint (k + r)) max_age sort)
      else post el ElementWarning
  | PROP_MAX_SOURCE_BLOCK_AGE =>
      if negb (allocated_encoding_symbol_table el) then
        with_dec el (set_properties d k r n (g_value_get_uint value) sort)
      else post el ElementWarning
  | PROP_DO_TIMESTAMP => set_do_timestamp el (g_value_get_boolean value)
  | PROP_SORT_OUTPUT =>
      with_dec el (set_properties d k r n max_age (g_value_get_boolean value))
  end.

(** [gst_rs_fec_dec_get_property], lines 509-539. *)
Definition gst_rs_fec_dec_get_property (el : Element) (prop_id : Property)
    : GValue :=
  match prop_id with
  | PROP_NUM_SOURCE_SYMBOLS => G_TYPE_UINT (num_source_symbols (rs_fec_dec el))
  | PROP_NUM_REPAIR_SYMBOLS => G_TYPE_UINT (num_repair_symbols (rs_fec_dec el))
  | PROP_MAX_SOURCE_BLOCK_AGE =>
      G_TYPE_UINT (max_source_block_age (rs_fec_dec el))
  | PROP_DO_TIMESTAMP => G_TYPE_BOOLEAN (do_timestamp el)
  | PROP_SORT_OUTPUT => G_TYPE_BOOLEAN (sort_output (rs_fec_dec el))
  end.

(** The symbol tables, lines 748-794.  [g_slice_alloc0] answers NULL when
    it is asked for 0 bytes.  Memory is taken to be available: that
    [g_slice_alloc0] ends the process when it is not is left out. *)
Definition gst_rs_fec_dec_alloc_encoding_symbol_table (el : Element)
    : run Element :=
  _ ← assert_that (negb (allocated_encoding_symbol_table el));
  Ret (set_allocated el
         (negb (num_encoding_symbols (rs_fec_dec el) =? 0))).

Definition gst_rs_fec_dec_free_encoding_symbol_table (el : Element)
    : run Element :=
  _ ← assert_that (allocated_encoding_symbol_table el);
  Ret (set_allocated el false).

Section WithCollaborators.
Variable C : Collaborators.

(** [gst_rs_fec_dec_change_state], lines 542-591. *)
Definition gst_rs_fec_dec_change_state (el : Element)
    (transition : GstStateChange) : run (GstStateChangeReturn * Element) :=
  el ←
    match transition with
    | GST_STATE_CHANGE_NULL_TO_READY =>
        el ← gst_rs_fec_dec_alloc_encoding_symbol_table el;
        _ ← assert_that (encoding_symbol_length (rs_fec_dec el) =? 0);
        Ret el
    | GST_STATE_CHANGE_READY_TO_PAUSED =>
        Ret (with_dec el (gst_rs_fec_dec_reset_states (rs_fec_dec el)))
    | _ => Ret el
    end;
  let result := parent_change_state C (notices el) transition in
  let el := post el (ParentChangeState transition) in
  match result with
  | GST_STATE_CHANGE_FAILURE => Ret (result, el)
  | _ =>
      match transition with
      | GST_STATE_CHANGE_PAUSED_TO_READY =>
          let d := gst_rs_fec_dec_flush (rs_fec_dec el) in
          Ret (result, with_dec el (set_stream_started d false))
      | GST_STATE_CHANGE_READY_TO_NULL =>
          el ← gst_rs_fec_dec_free_encoding_symbol_table el;
          Ret (result,
               with_dec el (set_encoding_symbol_length (rs_fec_dec el) 0))
      | _ => Ret (result, el)
      end
  end.

Variable W : World.

(** What an application and the pipeline do with the element. *)
Inductive Action :=
| SetProperty (prop_id : Property) (value : GValue)
| ChangeState (transition : GstStateChange)
| Data (i : Input).

Definition act (el : Element) (a : Action) : run Element :=
  match a with
  | SetProperty prop_id value =>
      Ret (gst_rs_fec_dec_set_property el prop_id value)
  | ChangeState transition =>
      '(_, el) ← gst_rs_fec_dec_change_state el transition; Ret el
  | Data i => d ← step W (rs_fec_dec el) i; Ret (with_dec el d)
  end.

Fixpoint acts (el : Element) (l : list Action) : run Element :=
  match l with
  | [] => Ret el
  | a :: rest => el ← act el a; acts el rest
  end.

End WithCollaborators.

(** The values a property accepts, as its [GParamSpec] declares them
    (lines 291-346). *)
Definition valid_value (prop_id : Property) (value : GValue) : bool :=
  match prop_id, value with
  | PROP_NUM_SOURCE_SYMBOLS, G_TYPE_UINT v => (1 <=? v) && (v <? 2 ^ 32)
  | PROP_NUM_REPAIR_SYMBOLS, G_TYPE_UINT v => (0 <=? v) && (v <? 2 ^ 32)
  | PROP_MAX_SOURCE_BLOCK_AGE, G_TYPE_UINT v => (1 <=? v) && (v <? 2 ^ 32)
  | PROP_DO_TIMESTAMP, G_TYPE_BOOLEAN _ => true
  | PROP_SORT_OUTPUT, G_TYPE_BOOLEAN _ => true
  | _, _ => false
  end.

(** The state after a list of actions that follows the rules of
    GStreamer, [None] when the list breaks one (see the encoder). *)
Fixpoint state_after (st : GstState) (l : list Action) : option GstState :=
  match l with
  | [] => Some st
  | SetProperty prop_id value :: rest =>
      if valid_value prop_id value then state_after st rest else None
  | ChangeState transition :: rest =>
      if state_eqb (transition_current transition) st
      then state_after (transition_next transition) rest else None
  | Data _ :: rest => if pads_active st then state_after st rest else None
  end.

(** The numbers set by a list of actions are all below 2^31. *)
Definition modest (l : list Action) : bool :=
  forallb (fun a => match a with
                    | SetProperty _ value => g_value_modest value
                    | _ => true
                    end) l.

(** A parent class that does not fail a state change. *)
Definition succeed (C : Collaborators) : Prop :=
  forall l t, parent_change_state C l t <> GST_STATE_CHANGE_FAILURE.

(** What holds of the object in each state. *)
Definition element_inv (st : GstState) (el : Element) : Prop :=
  let d := rs_fec_dec el in
  num_source_symbols d < 2 ^ 31 /\
  0 <= num_repair_symbols d < 2 ^ 31 /\
  1 <= max_source_block_age d < 2 ^ 32 /\
  num_encoding_symbols d = guint (num_source_symbols d + num_repair_symbols d) /\
  table_wf d /\ DecInv.tables_sized d /\
  match st with
  | GST_STATE_NULL =>
      allocated_encoding_symbol_table el = false /\
      encoding_symbol_length d = 0 /\ source_block_table d = ∅
  | GST_STATE_READY =>
      allocated_encoding_symbol_table el = true /\ source_block_table d = ∅
  | _ => allocated_encoding_symbol_table el = true
  end.

(** [same_properties d d']: the five properties kept in the decoder are
    those of [d]. *)
Definition same_properties (d d' : GstRSFECDec) : Prop :=
  num_source_symbols d' = num_source_symbols d /\
  num_repair_symbols d' = num_repair_symbols d /\
  num_encoding_symbols d' = num_encoding_symbols d /\
  max_source_block_age d' = max_source_block_age d /\
  sort_output d' = sort_output d.

Definition obliging : Collaborators := {|
  parent_change_state := fun _ _ => GST_STATE_CHANGE_SUCCESS
|}.

End DecElement.

(** * Properties *)

(** ** Bytes and machine integers *)

Lemma byte_val_range b : 0 <= byte_val b < 256.
Proof. unfold byte_val. pose proof (Byte.to_N_bounded b). lia. Qed.

Lemma byte_val_guint8 x : byte_val (guint8 x) = x mod 256.
Proof.
  unfold byte_val, guint8.
  pose proof (Z.mod_pos_bound x 256 ltac:(lia)) as Hb.
  destruct (Byte.of_N (Z.to_N (x mod 256))) as [b|] eqn:E.
  - apply Byte.to_of_N in E. simpl. rewrite E. lia.
  - apply Byte.of_N_None_iff in E. lia.
Qed.

Lemma guint_small x : 0 <= x < 2 ^ 32 -> guint x = x.
Proof. intros. unfold guint. apply Z.mod_small. lia. Qed.

Lemma lor_shiftl_low a b n :
  0 <= n -> 0 <= b < 2 ^ n -> Z.lor (Z.shiftl a n) b = a * 2 ^ n + b.
Proof.
  intros Hn Hb. rewrite <- Z.shiftl_mul_pow2 by lia.
  rewrite <- Z.add_lor_land.
  assert (Z.land (Z.shiftl a n) b = 0) as ->; [|lia].
  apply Z.bits_inj'. intros i Hi. rewrite Z.land_spec, Z.bits_0.
  destruct (Z.lt_ge_cases i n).
  - rewrite Z.shiftl_spec_low by lia. reflexivity.
  - rewrite <- (Z.mod_small b (2 ^ n)) by lia.
    rewrite Z.mod_pow2_bits_high by lia. apply andb_false_r.
Qed.

Lemma read_block_nr_sum b0 b1 b2 :
  Dec.read_block_nr b0 b1 b2
  = byte_val b0 * 65536 + byte_val b1 * 256 + byte_val b2.
Proof.
  unfold Dec.read_block_nr.
  pose proof (byte_val_range b0). pose proof (byte_val_range b1).
  pose proof (byte_val_range b2).
  rewrite (lor_shiftl_low (byte_val b0) (Z.shiftl (byte_val b1) 8) 16);
    [|lia|rewrite Z.shiftl_mul_pow2 by lia; lia].
  rewrite (Z.shiftl_mul_pow2 (byte_val b1)) by lia.
  replace (byte_val b0 * 2 ^ 16 + byte_val b1 * 2 ^ 8)
    with (Z.shiftl (byte_val b0 * 256 + byte_val b1) 8)
    by (rewrite Z.shiftl_mul_pow2 by lia; lia).
  rewrite lor_shiftl_low by lia. lia.
Qed.

Lemma read_block_nr_range b0 b1 b2 :
  Aging.is_block_nr (Dec.read_block_nr b0 b1 b2).
Proof.
  rewrite read_block_nr_sum. unfold Aging.is_block_nr.
  pose proof (byte_val_range b0). pose proof (byte_val_range b1).
  pose proof (byte_val_range b2). lia.
Qed.

Module AgingFacts.
Import Aging.

(** ** The aging engine *)

Lemma land_mask24 x :
  0 <= x -> Z.land x (guint (total_range - 1)) = x mod 2 ^ 24.
Proof.
  intros Hx. change (guint (total_range - 1)) with (Z.ones 24).
  apply Z.land_ones. lia.
Qed.

Lemma in_range_spec x s e :
  gst_rs_fec_dec_check_if_source_block_in_range x s e = true <->
  (s < e /\ s <= x <= e) \/ (e < s /\ (x <= e \/ s <= x)) \/ (s = e /\ x = s).
Proof.
  unfold gst_rs_fec_dec_check_if_source_block_in_range.
  destruct (Z.ltb_spec s e); [|destruct (Z.gtb_spec s e)];
    rewrite ?andb_true_iff, ?orb_true_iff, ?Z.geb_le, ?Z.leb_le, ?Z.eqb_eq;
    lia.
Qed.

Ltac unfold_window :=
  rewrite ?land_mask24 by (unfold guint; apply Z.mod_pos_bound; lia);
  rewrite in_range_spec;
  change (guint (newer_range - 1)) with 4194303;
  change total_range with 16777216;
  unfold guint;
  change (2 ^ 24) with 16777216 in *;
  change (2 ^ 32) with 4294967296 in *;
  change (2 ^ 22) with 4194304 in *.

(** A candidate is newer exactly when it is 1 to 2^22-1 steps ahead of
    the reference on the 24-bit circle. *)
Lemma newer_iff_distance c ref :
  is_block_nr ref -> is_block_nr c ->
  gst_rs_fec_dec_is_source_block_nr_newer c ref = true <->
  1 <= (c - ref) mod 2 ^ 24 <= 2 ^ 22 - 1.
Proof.
  unfold is_block_nr. intros Hr Hc.
  unfold gst_rs_fec_dec_is_source_block_nr_newer. unfold_window.
  Z.div_mod_to_equations; lia.
Qed.

Lemma newer_iff_range c ref :
  is_block_nr ref -> is_block_nr c ->
  gst_rs_fec_dec_is_source_block_nr_newer c ref = true <->
  in_circular_range (ref + 1) (ref + 2 ^ 22 - 1) c.
Proof.
  intros Hr Hc. rewrite newer_iff_distance by assumption.
  unfold is_block_nr, in_circular_range in *.
  change (2 ^ 24) with 16777216 in *. change (2 ^ 22) with 4194304.
  Z.div_mod_to_equations; lia.
Qed.

Lemma recent_enough_iff_range c ref max_age :
  is_block_nr ref -> is_block_nr c -> 1 <= max_age < 2 ^ 32 ->
  gst_rs_fec_dec_is_source_block_nr_recent_enough c ref max_age = true <->
  in_circular_range (ref - (max_age - 1)) (ref + 2 ^ 22 - 1) c.
Proof.
  unfold is_block_nr, in_circular_range. intros Hr Hc Ha.
  unfold gst_rs_fec_dec_is_source_block_nr_recent_enough. unfold_window.
  Z.div_mod_to_equations; lia.
Qed.

Lemma not_true_false (b : bool) : b = false <-> ~ b = true.
Proof. destruct b; split; congruence. Qed.

(** C8.  For every 24-bit reference [ref] (0 and 2^24-1 included), the
    number that follows [ref] on the circle is newer, [ref] itself is not,
    the number that precedes [ref] is not; and a 24-bit candidate is newer
    exactly when it lies in the circular range [ref+1, ref+2^22-1]. *)
Theorem C8_newer_window (ref c : Z) :
  is_block_nr ref -> is_block_nr c ->
  gst_rs_fec_dec_is_source_block_nr_newer ((ref + 1) mod 2 ^ 24) ref = true /\
  gst_rs_fec_dec_is_source_block_nr_newer ref ref = false /\
  gst_rs_fec_dec_is_source_block_nr_newer ((ref - 1) mod 2 ^ 24) ref = false /\
  (gst_rs_fec_dec_is_source_block_nr_newer c ref = true <->
   in_circular_range (ref + 1) (ref + 2 ^ 22 - 1) c).
Proof.
  intros Hr Hc.
  assert (is_block_nr ((ref + 1) mod 2 ^ 24)) as H1
    by (unfold is_block_nr; apply Z.mod_pos_bound; lia).
  assert (is_block_nr ((ref - 1) mod 2 ^ 24)) as H2
    by (unfold is_block_nr; apply Z.mod_pos_bound; lia).
  repeat split.
  - apply newer_iff_distance; [assumption..|].
    unfold is_block_nr in *. change (2 ^ 24) with 16777216 in *.
    change (2 ^ 22) with 4194304. Z.div_mod_to_equations; lia.
  - apply not_true_false. rewrite newer_iff_distance by assumption.
    rewrite Z.sub_diag. change (0 mod 2 ^ 24) with 0. lia.
  - apply not_true_false. rewrite newer_iff_distance by assumption.
    unfold is_block_nr in *. change (2 ^ 24) with 16777216 in *.
    change (2 ^ 22) with 4194304. Z.div_mod_to_equations; lia.
  - apply newer_iff_range; assumption.
  - apply newer_iff_range; assumption.
Qed.

(** The window at the wrap point: with reference 2^24-1, block 0 is
    newer and block 2^24-2 is not. *)
Lemma C8_newer_window_witness :
  gst_rs_fec_dec_is_source_block_nr_newer 0 16777215 = true /\
  gst_rs_fec_dec_is_source_block_nr_newer 16777214 16777215 = false.
Proof.
  pose proof (C8_newer_window 16777215 5
                ltac:(unfold is_block_nr; lia) ltac:(unfold is_block_nr; lia))
    as (H1 & _ & H3 & _).
  split; [exact H1 | exact H3].
Defined.

(** C9, evaluated on the code.  The property accepts a maximum age of 1
    to 2^32-1.  With the maximum age 2^24-2^22+2 = 12582914 and the
    reference 0, the recency test rejects the reference itself and block
    1, which is newer than the reference, although both lie in the window
    [ref-(maxAge-1), ref+2^22-1]: the start of the range computed at line
    1399 has moved past its end.  With the maximum age 12582913 both are
    accepted. *)
Theorem C9_huge_max_age_rejects_reference :
  gst_rs_fec_dec_is_source_block_nr_recent_enough 0 0 12582914 = false /\
  gst_rs_fec_dec_is_source_block_nr_newer 1 0 = true /\
  gst_rs_fec_dec_is_source_block_nr_recent_enough 1 0 12582914 = false /\
  gst_rs_fec_dec_is_source_block_nr_recent_enough 0 0 12582913 = true /\
  gst_rs_fec_dec_is_source_block_nr_recent_enough 1 0 12582913 = true.
Proof.
  split; [vm_compute; reflexivity|].
  split; [vm_compute; reflexivity|].
  split; [vm_compute; reflexivity|].
  split; vm_compute; reflexivity.
Qed.

End AgingFacts.

Module DecFacts.
Import Aging Dec Examples.

(** ** The decoder: discarded packets *)

Lemma set_source_block_table_id dec : set_source_block_table dec (source_block_table dec) = dec.
Proof. destruct dec; reflexivity. Qed.

(** A packet that is not recent enough leaves the block of its number in
    the table, a fresh one if the table had none, and nothing else. *)
Lemma insert_too_old W dec fec_packet is_source_packet blk esi :
  read_payload_id fec_packet is_source_packet = Ret (blk, esi) ->
  gst_rs_fec_dec_is_source_block_nr_recent_enough blk
    (most_recent_block_nr dec) (max_source_block_age dec) = false ->
  gst_rs_fec_dec_insert_fec_packet W dec fec_packet is_source_packet
  = Ret (GST_FLOW_OK,
         set_source_block_table dec
           (<[blk := block_for dec blk]> (source_block_table dec))).
Proof.
  intros Hid Hold. unfold gst_rs_fec_dec_insert_fec_packet.
  unfold read_payload_id in Hid. rewrite Hid. simpl.
  unfold gst_rs_fec_dec_fetch_source_block, block_for.
  destruct (source_block_table dec !! blk) as [b|] eqn:Hb; simpl.
  - rewrite Hold. simpl. rewrite insert_id by assumption.
    rewrite set_source_block_table_id. reflexivity.
  - rewrite Hold. reflexivity.
Qed.

Lemma read_payload_id_block_nr fec_packet is_source_packet blk esi :
  read_payload_id fec_packet is_source_packet = Ret (blk, esi) ->
  is_block_nr blk /\ 0 <= esi < 256.
Proof.
  unfold read_payload_id, gst_rs_fec_dec_source_packet_read_payload_id,
    gst_rs_fec_dec_repair_packet_read_payload_id.
  destruct is_source_packet.
  - destruct (_ <? 6); [discriminate|].
    destruct (drop _ _) as [|b0 [|b1 [|b2 [|b3 ?]]]]; try discriminate.
    intros [= <- <-]. split; [apply read_block_nr_range|apply byte_val_range].
  - destruct fec_packet as [|b0 [|b1 [|b2 [|b3 ?]]]]; try discriminate.
    intros [= <- <-]. split; [apply read_block_nr_range|apply byte_val_range].
Qed.

(** C4.  The decoder starts with [first_pruning] set and the reference
    0, and a flush sets [first_pruning] again without touching the
    reference.  While [first_pruning] is set the insertion still filters
    by age against that reference: a packet whose block number lies
    outside the circular window [ref-(maxAge-1), ref+2^22-1] is dropped
    with [GST_FLOW_OK]; nothing is pushed, the reference and
    [first_pruning] stay as they were, and the state that results holds
    no byte of the packet (only an empty block under its number), so its
    ADU cannot be delivered later. *)
Theorem C4_first_packet_filtered W dec fec_packet is_source_packet blk esi :
  first_pruning dec = true ->
  is_block_nr (most_recent_block_nr dec) ->
  1 <= max_source_block_age dec < 2 ^ 32 ->
  read_payload_id fec_packet is_source_packet = Ret (blk, esi) ->
  ~ in_circular_range
      (most_recent_block_nr dec - (max_source_block_age dec - 1))
      (most_recent_block_nr dec + 2 ^ 22 - 1) blk ->
  (first_pruning gst_rs_fec_dec_init = true /\
   most_recent_block_nr gst_rs_fec_dec_init = 0) /\
  (forall d, first_pruning (gst_rs_fec_dec_flush d) = true /\
             most_recent_block_nr (gst_rs_fec_dec_flush d)
             = most_recent_block_nr d) /\
  exists dec',
    gst_rs_fec_dec_insert_fec_packet W dec fec_packet is_source_packet
    = Ret (GST_FLOW_OK, dec') /\
    dec' = set_source_block_table dec
             (<[blk := block_for dec blk]> (source_block_table dec)) /\
    log dec' = log dec /\
    most_recent_block_nr dec' = most_recent_block_nr dec /\
    first_pruning dec' = true.
Proof.
  intros Hfirst Href Hage Hid Hout.
  split; [split; reflexivity|]. split; [intros d; split; reflexivity|].
  eexists. split; [|split; [reflexivity|]].
  - apply insert_too_old with (esi := esi); [assumption|].
    apply AgingFacts.not_true_false. intros H. apply Hout.
    apply AgingFacts.recent_enough_iff_range in H; try assumption.
    eapply read_payload_id_block_nr; eassumption.
  - simpl. auto.
Qed.

(** The very first packet of a stream that starts at block 5000000. *)
Lemma C4_first_packet_filtered_witness :
  exists dec',
    gst_rs_fec_dec_insert_fec_packet accepting gst_rs_fec_dec_init
      (source_packet ["a"%byte] 5000000 0 4) true = Ret (GST_FLOW_OK, dec') /\
    log dec' = [] /\ most_recent_block_nr dec' = 0 /\ first_pruning dec' = true.
Proof.
  destruct (C4_first_packet_filtered accepting gst_rs_fec_dec_init
              (source_packet ["a"%byte] 5000000 0 4) true 5000000 0)
    as (_ & _ & dec' & H1 & _ & H2 & H3 & H4).
  - reflexivity.
  - change (0 <= 0 < 2 ^ 24). lia.
  - change (1 <= 1 < 2 ^ 32). lia.
  - vm_compute. reflexivity.
  - unfold in_circular_range. vm_compute. intros H. apply H. reflexivity.
  - exists dec'. auto.
Defined.

(** C2, evaluated on the code.  Sorted mode, k=4, maxAge=1; a source
    packet of block 10 has set the reference to 10.  A source packet of
    block 5 is then not recent enough, and the table has no block 5; the
    insertion returns [GST_FLOW_OK] but leaves a new, empty block 5 in the
    table: the block is created (lines 858-864) before the age is tested
    (lines 866-873). *)
Theorem C2_too_old_packet_creates_block :
  let dec := dec_after accepting (configure 4 2 1 true)
               [InSource (source_packet ["a"%byte] 10 0 4)] in
  let fec_packet := source_packet ["b"%byte] 5 0 4 in
  most_recent_block_nr dec = 10 /\
  read_payload_id fec_packet true = Ret (5, 0) /\
  gst_rs_fec_dec_is_source_block_nr_recent_enough 5
    (most_recent_block_nr dec) (max_source_block_age dec) = false /\
  source_block_table dec !! 5 = None /\
  exists dec',
    gst_rs_fec_dec_insert_fec_packet accepting dec fec_packet true
    = Ret (GST_FLOW_OK, dec') /\
    source_block_table dec' !! 5 = Some (new_source_block 4 5) /\
    source_block_table dec' <> source_block_table dec.
Proof.
  intros dec fec_packet.
  assert (source_block_table dec !! 5 = None) as Hnone by (vm_compute; reflexivity).
  repeat split; try (vm_compute; reflexivity).
  eexists. split; [vm_compute; reflexivity|]. split; [vm_compute; reflexivity|].
  intros Heq. apply (f_equal (fun t => t !! 5)) in Heq. vm_compute in Heq. discriminate.
Qed.

(** C1, evaluated on the code.  Sorted mode, k=1, maxAge=2; one source
    packet each for the blocks 2^24-1, 0 and 2, in this order.  Block 0 is
    newer than block 2^24-1, yet when the packet of block 2 evicts both,
    the ADU of block 0 is pushed first:
    [gst_rs_fec_dec_compare_source_blocks] compares the raw numbers. *)
Theorem C1_wrapped_blocks_pushed_in_raw_order :
  let inputs :=
    [InSource (source_packet ["a"%byte] 16777215 0 1);
     InSource (source_packet ["b"%byte] 0 0 1);
     InSource (source_packet ["c"%byte] 2 0 1)] in
  gst_rs_fec_dec_is_source_block_nr_newer 0 16777215 = true /\
  exists dec',
    steps accepting (configure 1 0 2 true) inputs = Ret dec' /\
    pushed (log dec') = [(0, 0); (16777215, 0)].
Proof.
  split; [vm_compute; reflexivity|].
  eexists. split; vm_compute; reflexivity.
Qed.

(** C7, evaluated on the code.  Immediate mode, k=2, downstream accepts
    every buffer.  The source packets with ESI 0 and 1 of block 0 arrive:
    both ADUs are pushed, the block is processed and, at lines 938-942,
    destroyed and removed from the table.  Then the packet with ESI 0
    arrives a second time: it finds no block, is recorded in a fresh one,
    and its ADU is pushed again.  In sorted mode the completed block stays
    in the table and the same duplicate leaves the decoder as it was. *)
Theorem C7_duplicate_after_completion_pushed_again :
  let p0 := source_packet ["a"%byte] 0 0 2 in
  let p1 := source_packet ["b"%byte] 0 1 2 in
  (exists dec1 dec2 b,
     steps accepting (configure 2 1 1 false) [InSource p0; InSource p1]
     = Ret dec1 /\
     pushed (log dec1) = [(0, 0); (0, 1)] /\
     source_block_table dec1 !! 0 = None /\
     gst_rs_fec_dec_insert_fec_packet accepting dec1 p0 true
     = Ret (GST_FLOW_OK, dec2) /\
     pushed (log dec2) = [(0, 0); (0, 1); (0, 0)] /\
     source_block_table dec2 !! 0 = Some b /\
     source_packets b = [p0] /\ is_complete b = false) /\
  (exists dec1,
     steps accepting (configure 2 1 1 true) [InSource p0; InSource p1]
     = Ret dec1 /\
     gst_rs_fec_dec_insert_fec_packet accepting dec1 p0 true
     = Ret (GST_FLOW_OK, dec1)).
Proof.
  intros p0 p1. split.
  - eexists _, _, _.
    split; [vm_compute; reflexivity|].
    split; [vm_compute; reflexivity|].
    split; [vm_compute; reflexivity|].
    split; [vm_compute; reflexivity|].
    split; [vm_compute; reflexivity|].
    split; [vm_compute; reflexivity|].
    split; vm_compute; reflexivity.
  - eexists. split; [vm_compute; reflexivity|]. vm_compute. reflexivity.
Qed.


(** ** The presence bitmask *)

Lemma land_bit w j :
  0 <= j -> (Z.land w (Z.shiftl 1 j) =? 0) = negb (Z.testbit w j).
Proof.
  intros Hj. rewrite Z.shiftl_1_l.
  assert (Z.land w (2 ^ j) = if Z.testbit w j then 2 ^ j else 0) as ->.
  { apply Z.bits_inj'. intros i Hi. rewrite Z.land_spec, Z.pow2_bits_eqb by lia.
    destruct (Z.eqb_spec j i) as [->|Hne].
    - destruct (Z.testbit w i); [rewrite Z.pow2_bits_true by lia; reflexivity|].
      rewrite Z.bits_0. reflexivity.
    - rewrite andb_false_r. destruct (Z.testbit w j).
      + rewrite Z.pow2_bits_false by lia. reflexivity.
      + rewrite Z.bits_0. reflexivity. }
  destruct (Z.testbit w j); simpl.
  - apply Z.eqb_neq. pose proof (Z.pow_pos_nonneg 2 j). lia.
  - reflexivity.
Qed.

Lemma flag_index e : 0 <= e < 256 ->
  (Z.to_nat (Z.shiftr e 6) < 8)%nat /\ 0 <= Z.land e 63 < 64 /\
  e = 64 * Z.shiftr e 6 + Z.land e 63.
Proof.
  intros He. rewrite Z.shiftr_div_pow2 by lia.
  change 63 with (Z.ones 6). rewrite Z.land_ones by lia.
  change (2 ^ 6) with 64. Z.div_mod_to_equations. lia.
Qed.

Lemma is_flag_set_total b e :
  length (packet_mask b) = 8%nat -> 0 <= e < 256 ->
  exists v, SOURCE_BLOCK_IS_FLAG_SET b e = Ret v.
Proof.
  intros Hlen He. unfold SOURCE_BLOCK_IS_FLAG_SET.
  destruct (flag_index e He) as (Hi & _ & _).
  destruct (lookup_lt_is_Some_2 (packet_mask b) (Z.to_nat (Z.shiftr e 6)))
    as [w Hw]; [lia|].
  rewrite Hw. eauto.
Qed.

Lemma set_flag_ret b e :
  length (packet_mask b) = 8%nat -> 0 <= e < 256 ->
  exists m, SOURCE_BLOCK_SET_FLAG b e = Ret (set_packet_mask b m) /\
    length m = 8%nat /\
    SOURCE_BLOCK_IS_FLAG_SET (set_packet_mask b m) e = Ret true /\
    forall e', 0 <= e' < 256 ->
      SOURCE_BLOCK_IS_FLAG_SET b e' = Ret true ->
      SOURCE_BLOCK_IS_FLAG_SET (set_packet_mask b m) e' = Ret true.
Proof.
  intros Hlen He. unfold SOURCE_BLOCK_SET_FLAG.
  destruct (flag_index e He) as (Hi & Hj & _).
  destruct (lookup_lt_is_Some_2 (packet_mask b) (Z.to_nat (Z.shiftr e 6)))
    as [w Hw]; [lia|].
  rewrite Hw. eexists. split; [reflexivity|].
  split; [rewrite length_insert; assumption|]. split.
  - unfold SOURCE_BLOCK_IS_FLAG_SET. simpl.
    rewrite list_lookup_insert_eq by lia.
    rewrite land_bit, negb_involutive by lia.
    rewrite Z.lor_spec. rewrite Z.shiftl_1_l, Z.pow2_bits_true by lia.
    rewrite orb_true_r. reflexivity.
  - intros e' He'. unfold SOURCE_BLOCK_IS_FLAG_SET. simpl.
    destruct (flag_index e' He') as (Hi' & Hj' & _).
    destruct (decide (Z.to_nat (Z.shiftr e 6) = Z.to_nat (Z.shiftr e' 6))) as [Heq|Hne].
    + rewrite <- Heq, Hw. rewrite list_lookup_insert_eq by lia.
      rewrite !land_bit, !negb_involutive by lia.
      intros [= Hb]. rewrite Z.lor_spec, Hb. reflexivity.
    + rewrite list_lookup_insert_ne by assumption. auto.
Qed.


(** ** The invariant of a block *)

Lemma nodup_bounded_length (l : list Z) n :
  NoDup l -> (forall e, e ∈ l -> 0 <= e < n) -> Z.of_nat (length l) <= Z.max 0 n.
Proof.
  intros Hnd Hin.
  assert (l ⊆+ seqZ 0 n) as Hsub.
  { apply NoDup_submseteq; [assumption|]. intros e He.
    apply elem_of_seqZ. specialize (Hin e He). lia. }
  apply submseteq_length in Hsub. rewrite length_seqZ in Hsub. lia.
Qed.

Lemma new_source_block_wf k nr : 0 <= k -> block_wf k (new_source_block k nr).
Proof.
  intros Hk. split; simpl; try reflexivity.
  - assumption.
  - apply length_replicate.
  - constructor.
  - intros e He. inversion He.
  - intros p Hp. inversion Hp.
Qed.

Lemma received_esis_range k b e :
  block_wf k b -> e ∈ received_esis b -> 0 <= e < 256.
Proof. intros Hwf He. apply (wf_flags k b Hwf e He). Qed.

Lemma received_count k b :
  block_wf k b ->
  num_source_packets b + num_repair_packets b
  = Z.of_nat (length (received_esis b)) /\
  num_source_packets b + num_repair_packets b <= 256.
Proof.
  intros Hwf. rewrite (wf_num_source k b Hwf), (wf_num_repair k b Hwf).
  unfold received_esis. rewrite length_app, !length_map.
  split; [lia|].
  pose proof (nodup_bounded_length (received_esis b) 256 (wf_nodup k b Hwf)
                (fun e => received_esis_range k b e Hwf)) as H.
  unfold received_esis in H. rewrite length_app, !length_map in H. lia.
Qed.

Lemma source_esi_of_read p blk esi :
  gst_rs_fec_dec_source_packet_read_payload_id p = Ret (blk, esi) ->
  source_esi p = esi.
Proof. unfold source_esi. intros ->. reflexivity. Qed.

Lemma repair_esi_of_read p blk esi :
  gst_rs_fec_dec_repair_packet_read_payload_id p = Ret (blk, esi) ->
  repair_esi p = esi.
Proof. unfold repair_esi. intros ->. reflexivity. Qed.

(** Recording a packet whose presence bit is not set keeps the
    invariant and adds one to the count of received packets. *)
Lemma record_fec_packet_wf W dec b blk esi fec_packet is_source_packet
    ret dec' b' :
  block_wf (num_source_symbols dec) b ->
  read_payload_id fec_packet is_source_packet = Ret (blk, esi) ->
  SOURCE_BLOCK_IS_FLAG_SET b esi = Ret false ->
  record_fec_packet W dec b blk esi fec_packet is_source_packet
  = Ret (ret, dec', b') ->
  block_wf (num_source_symbols dec) b' /\
  block_nr b' = block_nr b /\
  is_complete b' = is_complete b /\
  num_source_packets b' + num_repair_packets b'
  = num_source_packets b + num_repair_packets b + 1 /\
  (is_source_packet = true -> num_repair_packets b' = num_repair_packets b) /\
  (is_source_packet = false -> 1 <= num_repair_packets b') /\
  (if is_source_packet && negb (sort_output dec)
   then ret = pad_push W (log dec) (adu_of_source_packet fec_packet) /\
        dec' = emit dec (EvPush blk esi (adu_of_source_packet fec_packet))
   else ret = GST_FLOW_OK /\ dec' = dec).
Proof.
  intros Hwf Hid Hunset Hrec.
  destruct (read_payload_id_block_nr _ _ _ _ Hid) as [_ Hesi].
  assert (esi ∉ received_esis b) as Hfresh.
  { intros Hin. destruct (wf_flags _ _ Hwf esi Hin) as [_ Hset]. congruence. }
  pose proof (received_count _ _ Hwf) as [_ Hcount].
  pose proof (wf_num_source _ _ Hwf) as Hns.
  pose proof (wf_num_repair _ _ Hwf) as Hnr.
  unfold record_fec_packet in Hrec.
  destruct (set_flag_ret b esi (wf_mask _ _ Hwf) Hesi)
    as (m & Hset & Hlen & Hnew & Hkeep).
  rewrite Hset in Hrec. simpl in Hrec.
  unfold read_payload_id in Hid.
  destruct is_source_packet; simpl in Hrec.
  - apply source_esi_of_read in Hid.
    destruct (Nat.leb_spec (length (output_adu_table b)) (Z.to_nat esi))
      as [|Hlt]; [discriminate|].
    rewrite (wf_table _ _ Hwf) in Hlt.
    assert (b' = set_output_adu_table
                   (add_source_packet (set_packet_mask b m) fec_packet)
                   (<[Z.to_nat esi := Some (adu_of_source_packet fec_packet)]>
                      (output_adu_table b)) /\
            (if negb (sort_output dec)
             then ret = pad_push W (log dec) (adu_of_source_packet fec_packet) /\
                  dec' = emit dec
                           (EvPush blk esi (adu_of_source_packet fec_packet))
             else ret = GST_FLOW_OK /\ dec' = dec)) as [-> Hout].
    { destruct (sort_output dec); simpl in *; inversion Hrec; auto. }
    split; [|simpl; repeat split; auto;
             [rewrite guint_small by lia; lia|discriminate]].
    split; simpl.
    + apply (wf_k _ _ Hwf).
    + assumption.
    + rewrite length_insert. apply (wf_table _ _ Hwf).
    + rewrite guint_small by lia. lia.
    + assumption.
    + unfold received_esis. simpl. rewrite Hid. constructor; [assumption|].
      apply (wf_nodup _ _ Hwf).
    + intros e. unfold received_esis. simpl. rewrite Hid.
      intros [->|Hin]%elem_of_cons; [split; assumption|].
      destruct (wf_flags _ _ Hwf e Hin) as [He Hf].
      split; [assumption|]. apply (Hkeep e He Hf).
    + intros p [->|Hin]%elem_of_cons.
      * rewrite Hid. split; [lia|]. apply list_lookup_insert_eq.
        rewrite (wf_table _ _ Hwf). lia.
      * destruct (wf_source _ _ Hwf p Hin) as [Hr Hslot].
        split; [assumption|].
        rewrite list_lookup_insert_ne; [assumption|].
        intros Heq. apply Hfresh. unfold received_esis.
        apply elem_of_app. left. apply list_elem_of_fmap.
        exists p. split; [lia|assumption].
  - apply repair_esi_of_read in Hid. inversion Hrec; subst.
    split; [|simpl; repeat split; auto;
             try (rewrite guint_small by lia; lia); discriminate].
    split; simpl.
    + apply (wf_k _ _ Hwf).
    + assumption.
    + apply (wf_table _ _ Hwf).
    + assumption.
    + rewrite guint_small by lia. lia.
    + unfold received_esis. simpl.
      rewrite <- Permutation_middle. constructor; [assumption|].
      apply (wf_nodup _ _ Hwf).
    + intros e. unfold received_esis. simpl.
      rewrite <- Permutation_middle.
      intros [->|Hin]%elem_of_cons; [split; assumption|].
      destruct (wf_flags _ _ Hwf e Hin) as [He Hf].
      split; [assumption|]. apply (Hkeep e He Hf).
    + intros p Hin. apply (wf_source _ _ Hwf p Hin).
Qed.


(** ** What a run adds to the log *)


Lemma advances_refl P dec : advances P dec dec.
Proof.
  split; [repeat split|]. exists []. rewrite app_nil_r. auto.
Qed.

Lemma advances_trans P d1 d2 d3 :
  advances P d1 d2 -> advances P d2 d3 -> advances P d1 d3.
Proof.
  intros [K1 (n1 & L1 & F1)] [K2 (n2 & L2 & F2)]. split.
  - unfold keeps_session in *. intuition congruence.
  - exists (n1 ++ n2). rewrite L2, L1, app_assoc. split; [reflexivity|].
    apply Forall_app; auto.
Qed.

Lemma advances_emit (P : Event -> Prop) dec e : P e -> advances P dec (emit dec e).
Proof.
  intros He. split; [repeat split|]. exists [e]. split; [reflexivity|].
  repeat constructor. assumption.
Qed.

Lemma advances_set_encoding_symbol_length P dec len :
  advances P dec (set_encoding_symbol_length dec len).
Proof. split; [repeat split|]. exists []. simpl. rewrite app_nil_r. auto. Qed.

Lemma advances_set_stream_started P dec v :
  advances P dec (set_stream_started dec v).
Proof. split; [repeat split|]. exists []. simpl. rewrite app_nil_r. auto. Qed.

Lemma advances_set_segment_started P dec v :
  advances P dec (set_segment_started dec v).
Proof. split; [repeat split|]. exists []. simpl. rewrite app_nil_r. auto. Qed.


Lemma advances_check_if_fatal dec status :
  advances not_process dec (CHECK_IF_FATAL_ERROR dec status).
Proof.
  destruct status; simpl; try apply advances_refl.
  apply advances_emit. intros [].
Qed.

Lemma delivery_not_process e : is_delivery e -> not_process e.
Proof. destruct e; simpl; intros H []; exact H. Qed.

Lemma push_adu_advances W dec blk esi adu :
  advances is_delivery dec (snd (gst_rs_fec_dec_push_adu W dec blk esi adu)).
Proof. apply advances_emit. exact I. Qed.

Lemma push_stream_start_advances dec :
  advances is_delivery dec (gst_rs_fec_dec_push_stream_start dec).
Proof.
  unfold gst_rs_fec_dec_push_stream_start.
  destruct (stream_started dec); [apply advances_refl|].
  eapply advances_trans; [apply (advances_emit is_delivery dec EvStreamStart I)|].
  apply advances_set_stream_started.
Qed.

Lemma push_segment_advances dec :
  advances is_delivery dec (gst_rs_fec_dec_push_segment dec).
Proof.
  unfold gst_rs_fec_dec_push_segment.
  destruct (segment_started dec); [apply advances_refl|].
  eapply advances_trans; [apply (advances_emit is_delivery dec EvSegment I)|].
  apply advances_set_segment_started.
Qed.

Lemma push_adus_loop_advances W b esis : forall dec ret push_adus ret' dec',
  push_adus_loop W dec b esis ret push_adus = Ret (ret', dec') ->
  advances is_delivery dec dec'.
Proof.
  induction esis as [|esi rest IH]; intros dec ret push_adus ret' dec' H;
    simpl in H.
  - inversion H; subst. apply advances_refl.
  - destruct (output_adu_table b !! Z.to_nat esi) as [[adu|]|];
      [|eauto|discriminate].
    destruct push_adus; [|eauto].
    simpl in H. eapply advances_trans; [|eapply IH; exact H].
    apply (push_adu_advances W dec (block_nr b) esi adu).
Qed.

Lemma push_source_block_advances W dec b ret dec' :
  gst_rs_fec_dec_push_source_block W dec b = Ret (ret, dec') ->
  advances is_delivery dec dec'.
Proof.
  unfold gst_rs_fec_dec_push_source_block. intros H.
  eapply advances_trans; [apply push_stream_start_advances|].
  eapply advances_trans; [apply push_segment_advances|].
  eapply push_adus_loop_advances; exact H.
Qed.

Lemma push_block_list_advances W asserting l : forall dec ret ret' dec',
  push_block_list W asserting dec l ret = Ret (ret', dec') ->
  advances is_delivery dec dec'.
Proof.
  induction l as [|b rest IH]; intros dec ret ret' dec' H; simpl in H.
  - inversion H; subst. apply advances_refl.
  - destruct (assert_that _) as [[]|]; simpl in H; [|discriminate].
    destruct (flow_is_ok ret); [|eauto].
    destruct (gst_rs_fec_dec_push_source_block W dec b) as [[ret1 dec1]|] eqn:E;
      simpl in H; [|discriminate].
    eapply advances_trans; [eapply push_source_block_advances; exact E|].
    eapply IH; exact H.
Qed.


(** ** Pruning and draining *)

Lemma prune_scan_subseteq dec entries :
  (prune_scan dec entries).1 ⊆ source_block_table dec.
Proof.
  unfold prune_scan.
  generalize (@nil GstRSFECDecSourceBlock).
  assert (source_block_table dec ⊆ source_block_table dec) as Hsub by reflexivity.
  revert Hsub. generalize (source_block_table dec) at 1 3 as t.
  induction entries as [|[key b] rest IH]; intros t Hsub acc; simpl.
  - assumption.
  - destruct (gst_rs_fec_dec_is_source_block_nr_recent_enough _ _ _).
    + apply IH. assumption.
    + apply IH. etransitivity; [apply delete_subseteq|assumption].
Qed.

(** Pruning keeps the properties of the element, adds only deliveries to
    the log and removes blocks from the table. *)
Lemma prune_spec W dec nr ret dec' :
  gst_rs_fec_dec_prune_source_block_table W dec nr = Ret (ret, dec') ->
  num_source_symbols dec' = num_source_symbols dec /\
  source_block_table dec' ⊆ source_block_table dec /\
  grows is_delivery dec dec'.
Proof.
  unfold gst_rs_fec_dec_prune_source_block_table. intros H.
  destruct (first_pruning dec).
  { inversion H; subst. simpl. repeat split; [reflexivity|].
    exists []. rewrite app_nil_r. auto. }
  destruct (negb (nr =? most_recent_block_nr dec)).
  2: { inversion H; subst. repeat split; [reflexivity|].
       exists []. rewrite app_nil_r. auto. }
  destruct (gst_rs_fec_dec_is_source_block_nr_newer nr (most_recent_block_nr dec)).
  2: { inversion H; subst. repeat split; [reflexivity|].
       exists []. rewrite app_nil_r. auto. }
  set (dec1 := set_pruning_reference dec false nr) in *.
  pose proof (prune_scan_subseteq dec1 (map_to_list (source_block_table dec1)))
    as Hsub.
  destruct (prune_scan dec1 (map_to_list (source_block_table dec1)))
    as [table pruned] eqn:E.
  apply push_block_list_advances in H. destruct H as [K G].
  unfold keeps_session in K. simpl in *.
  destruct K as (K1 & _ & _ & _ & _ & K6 & _).
  repeat split; [congruence|rewrite K6; assumption|exact G].
Qed.

Lemma drain_spec W dec ret dec' :
  gst_rs_fec_dec_drain_source_block_table W dec = Ret (ret, dec') ->
  num_source_symbols dec' = num_source_symbols dec /\
  source_block_table dec' = ∅ /\
  grows is_delivery dec dec'.
Proof.
  unfold gst_rs_fec_dec_drain_source_block_table. intros H.
  apply push_block_list_advances in H. destruct H as [K G].
  unfold keeps_session in K. simpl in *.
  destruct K as (K1 & _ & _ & _ & _ & K6 & _).
  repeat split; [congruence|assumption|exact G].
Qed.


(** ** Processing a block *)

Ltac run_inv H :=
  match type of H with
  | context [mbind _ ?m] =>
      let E := fresh "E" in
      destruct m eqn:E; simpl in H; [|discriminate]
  end.

Ltac peel_events :=
  repeat first
    [ apply advances_refl
    | eapply advances_trans; [|apply advances_check_if_fatal]
    | eapply advances_trans; [|apply advances_set_encoding_symbol_length]
    | eapply advances_trans; [|apply advances_emit; unfold not_process; simpl; tauto] ].

Lemma create_session_advances W dec len session dec' :
  gst_rs_fec_dec_create_openfec_session W dec len = (session, dec') ->
  advances not_process dec dec'.
Proof.
  unfold gst_rs_fec_dec_create_openfec_session. intros H.
  destruct (negb (of_is_ok (of_create_codec_instance W (log dec)))).
  { inversion H; subst. peel_events. }
  destruct (negb (of_is_ok (of_set_fec_parameters W _ _ _ _))).
  { inversion H; subst. peel_events. }
  destruct (negb _); inversion H; subst; peel_events.
Qed.

Lemma source_symbols_loop_sorted k len pkts : forall received b received' b',
  source_symbols_loop true k len pkts received b = Ret (received', b') ->
  b' = b.
Proof.
  induction pkts as [|p rest IH]; intros received b received' b' H; simpl in H.
  - inversion H; reflexivity.
  - run_inv H. destruct a as [blk esi].
    run_inv H. run_inv H.
    destruct (output_adu_table b !! Z.to_nat esi) as [[adu|]|];
      try discriminate.
    destruct (_ <? _)%nat; [|discriminate].
    eapply IH; exact H.
Qed.

Lemma recovered_adus_loop_spec W sort esis received recovered :
  forall dec b ret dec' b',
  recovered_adus_loop W sort esis received recovered dec b
  = Ret (ret, dec', b') ->
  advances not_process dec dec' /\ block_nr b' = block_nr b /\
  (sort = true -> ret = GST_FLOW_OK).
Proof.
  induction esis as [|esi rest IH]; intros dec b ret dec' b' H; simpl in H.
  - inversion H; subst. split; [apply advances_refl|auto].
  - destruct (received !! Z.to_nat esi) as [[sym|]|]; [eauto| |discriminate].
    destruct (mjoin (recovered !! Z.to_nat esi))
      as [[|f [|l1 [|l2 data]]]|]; try discriminate.
    destruct (negb (byte_val f =? 0)).
    { apply IH in H. destruct H as (A & B & C). split; [|auto].
      eapply advances_trans; [|exact A]. apply advances_emit; unfold not_process; simpl; tauto. }
    destruct (_ <? _); [discriminate|].
    destruct (_ <=? _)%nat; [discriminate|].
    destruct sort.
    + apply IH in H. destruct H as (A & B & C). auto.
    + simpl in H. destruct (flow_is_ok _).
      * apply IH in H. destruct H as (A & B & C). split; [|auto].
        eapply advances_trans; [|exact A]. apply advances_emit; unfold not_process; simpl; tauto.
      * inversion H; subst. split; [|split; [reflexivity|discriminate]].
        apply advances_emit; unfold not_process; simpl; tauto.
Qed.

Lemma decode_with_openfec_spec W dec b received ret dec' b' :
  decode_with_openfec W dec b received = Ret (ret, dec', b') ->
  advances not_process dec dec' /\
  (sort_output dec = true ->
   b' = b \/ (is_complete b' = true /\ block_nr b' = block_nr b)).
Proof.
  unfold decode_with_openfec. intros H.
  assert (forall d c, advances not_process d (emit d (EvOpenFEC c))) as Hemit
    by (intros; apply advances_emit; unfold not_process; simpl; tauto).
  destruct (negb (of_is_ok (of_set_available_symbols W _ _))).
  { inversion H; subst. split; [|auto].
    eapply advances_trans; [apply Hemit|apply advances_check_if_fatal]. }
  destruct (negb (of_is_ok (of_finish_decoding W _))).
  { inversion H; subst. split; [|auto].
    eapply advances_trans; [apply Hemit|].
    eapply advances_trans; [apply Hemit|apply advances_check_if_fatal]. }
  destruct (of_get_source_symbols_tab W _) as [status recovered].
  destruct (negb (of_is_ok status)).
  { inversion H; subst. split; [|auto].
    eapply advances_trans; [apply Hemit|].
    eapply advances_trans; [apply Hemit|].
    eapply advances_trans; [apply Hemit|apply advances_check_if_fatal]. }
  run_inv H. destruct a as [[ret1 dec1] b1].
  apply recovered_adus_loop_spec in E. destruct E as (A & B & C).
  assert (advances not_process dec dec1) as Hadv.
  { eapply advances_trans; [apply Hemit|].
    eapply advances_trans; [apply Hemit|].
    eapply advances_trans; [apply Hemit|exact A]. }
  destruct (flow_is_ok ret1) eqn:Hok; inversion H; subst.
  - split; [assumption|]. intros _. right. simpl. auto.
  - split; [assumption|]. intros Hsort. simpl in C.
    rewrite (C Hsort) in Hok. discriminate.
Qed.

Lemma release_session_advances W dec ret :
  advances not_process dec (snd (release_openfec_session W dec ret)).
Proof.
  unfold release_openfec_session.
  destruct (negb _); simpl; peel_events.
Qed.

(** Processing keeps the table and the properties; its first event is
    the [EvProcess] of the block and no other follows; in sorted mode the
    block comes back unchanged or complete. *)
Lemma process_source_block_spec W dec b ret dec' b' :
  gst_rs_fec_dec_process_source_block W dec b = Ret (ret, dec', b') ->
  advances not_process (emit dec (EvProcess (block_nr b))) dec' /\
  (sort_output dec = true ->
   b' = b \/ (is_complete b' = true /\ block_nr b' = block_nr b)).
Proof.
  unfold gst_rs_fec_dec_process_source_block. intros H.
  destruct (num_repair_packets b =? 0).
  { run_inv H. inversion H; subst. split; [apply advances_refl|].
    intros _. right. simpl. auto. }
  destruct (repair_packets b) as [|first_repair_packet ?]; [discriminate|].
  destruct (gst_rs_fec_dec_create_openfec_session W _ _) as [session dec1] eqn:E1.
  apply create_session_advances in E1.
  destruct (negb session).
  { inversion H; subst. auto. }
  run_inv H. destruct a as [received b1].
  run_inv H. rename a into received'.
  run_inv H. destruct a as [[ret2 dec2] b2].
  pose proof (release_session_advances W dec2 ret2) as Hrel.
  destruct (release_openfec_session W dec2 ret2) as [ret3 dec3].
  inversion H; subst. simpl in Hrel.
  apply decode_with_openfec_spec in E2. destruct E2 as (A & B).
  split.
  - eapply advances_trans; [exact E1|].
    eapply advances_trans; [exact A|exact Hrel].
  - intros Hsort.
    assert (sort_output dec1 = true) as Hsort1.
    { destruct E1 as [K _]. unfold keeps_session in K. simpl in K.
      intuition congruence. }
    destruct E1 as [K _]. unfold keeps_session in K. simpl in K.
    destruct K as (K1 & K2 & K3 & K4 & K5 & _).
    rewrite K5, Hsort in E. apply source_symbols_loop_sorted in E. subst b1.
    apply B. assumption.
Qed.



(** ** The insertion, case by case *)


Lemma fetch_or_create dec blk :
  match gst_rs_fec_dec_fetch_source_block dec blk with
  | Some source_block => (dec, source_block)
  | None => gst_rs_fec_dec_create_source_block dec blk
  end = (with_block_for dec blk, block_for dec blk).
Proof.
  unfold gst_rs_fec_dec_fetch_source_block, with_block_for, block_for,
    gst_rs_fec_dec_create_source_block.
  destruct (source_block_table dec !! blk) as [b|] eqn:Hb; simpl.
  - rewrite insert_id by assumption. rewrite set_source_block_table_id.
    reflexivity.
  - reflexivity.
Qed.

Lemma insert_cases W dec fec_packet is_source_packet blk esi ret dec' :
  read_payload_id fec_packet is_source_packet = Ret (blk, esi) ->
  gst_rs_fec_dec_insert_fec_packet W dec fec_packet is_source_packet
  = Ret (ret, dec') ->
  let b := block_for dec blk in
  let dec0 := with_block_for dec blk in
  ((gst_rs_fec_dec_is_source_block_nr_recent_enough blk
      (most_recent_block_nr dec) (max_source_block_age dec) = false \/
    is_complete b = true \/ SOURCE_BLOCK_IS_FLAG_SET b esi = Ret true) /\
   ret = GST_FLOW_OK /\ dec' = dec0) \/
  (gst_rs_fec_dec_is_source_block_nr_recent_enough blk
     (most_recent_block_nr dec) (max_source_block_age dec) = true /\
   is_complete b = false /\ SOURCE_BLOCK_IS_FLAG_SET b esi = Ret false /\
   exists ret1 dec1 b1,
     record_fec_packet W dec0 b blk esi fec_packet is_source_packet
     = Ret (ret1, dec1, b1) /\
     ((flow_is_ok ret1 = false /\ ret = ret1 /\ dec' = write_back dec1 blk b1) \/
      (flow_is_ok ret1 = true /\
       process_and_prune W (write_back dec1 blk b1) b1 blk = Ret (ret, dec')))).
Proof.
  intros Hid H b dec0. unfold gst_rs_fec_dec_insert_fec_packet in H.
  unfold read_payload_id in Hid. rewrite Hid in H. simpl in H.
  rewrite fetch_or_create in H. fold b dec0 in H.
  change (most_recent_block_nr dec0) with (most_recent_block_nr dec) in H.
  change (max_source_block_age dec0) with (max_source_block_age dec) in H.
  destruct (gst_rs_fec_dec_is_source_block_nr_recent_enough _ _ _); simpl in H.
  2: { inversion H; subst. left. auto. }
  destruct (is_complete b) eqn:Hc.
  { inversion H; subst. left. auto. }
  destruct (SOURCE_BLOCK_IS_FLAG_SET b esi) as [[]|] eqn:Hf; simpl in H;
    [inversion H; subst; left; auto| |discriminate].
  right. repeat split; try reflexivity.
  destruct (record_fec_packet W dec0 b blk esi fec_packet is_source_packet)
    as [[[ret1 dec1] b1]|] eqn:Hrec; simpl in H; [|discriminate].
  exists ret1, dec1, b1. split; [reflexivity|].
  destruct (flow_is_ok ret1); simpl in H.
  - right. auto.
  - left. inversion H; subst. auto.
Qed.

Lemma block_for_wf dec blk :
  table_wf dec ->
  block_nr (block_for dec blk) = blk /\
  (is_complete (block_for dec blk) = false ->
   block_wf (num_source_symbols dec) (block_for dec blk)).
Proof.
  intros [Hk Hwf]. unfold block_for.
  destruct (source_block_table dec !! blk) as [b|] eqn:Hb; simpl.
  - apply Hwf. assumption.
  - split; [reflexivity|]. intros _. apply new_source_block_wf. lia.
Qed.

Lemma table_wf_insert dec blk b :
  table_wf dec -> block_nr b = blk ->
  (is_complete b = false -> block_wf (num_source_symbols dec) b) ->
  table_wf (write_back dec blk b).
Proof.
  intros [Hk Hwf] Hnr Hb. split; [exact Hk|]. simpl.
  intros key v. rewrite lookup_insert. case_decide.
  - intros [= <-]. subst. auto.
  - apply Hwf.
Qed.

Lemma table_wf_subseteq dec dec' :
  table_wf dec ->
  num_source_symbols dec' = num_source_symbols dec ->
  source_block_table dec' ⊆ source_block_table dec ->
  table_wf dec'.
Proof.
  intros [Hk Hwf] Hk' Hsub. split; [rewrite Hk'; exact Hk|].
  intros key v Hv. rewrite Hk'. apply Hwf.
  eapply lookup_weaken; eassumption.
Qed.

Lemma table_wf_advances P dec dec' :
  table_wf dec -> advances P dec dec' -> table_wf dec'.
Proof.
  intros Hwf [K _]. unfold keeps_session in K.
  destruct K as (K1 & _ & _ & _ & _ & K6 & _).
  eapply table_wf_subseteq; [exact Hwf|assumption|rewrite K6; reflexivity].
Qed.


(** The second half of the insertion: the table stays well formed, and
    the log shows the processing of the block exactly when the block can
    be processed. *)
Lemma process_and_prune_spec W dec b blk ret dec' :
  table_wf dec -> block_nr b = blk ->
  source_block_table dec !! blk = Some b ->
  process_and_prune W dec b blk = Ret (ret, dec') ->
  table_wf dec' /\
  exists new, log dec' = log dec ++ new /\
    if gst_rs_fec_dec_can_source_block_be_processed dec b
    then exists rest, new = EvProcess blk :: rest /\ Forall not_process rest
    else Forall not_process new.
Proof.
  intros Hwf Hnr Hb H. unfold process_and_prune in H.
  destruct (gst_rs_fec_dec_can_source_block_be_processed dec b).
  - run_inv H. destruct a as [ret1 dec1].
    run_inv E. destruct a as [[ret2 dec2] b2].
    apply process_source_block_spec in E0. destruct E0 as ([K (n & L & F)] & B).
    unfold keeps_session in K. simpl in K, L.
    destruct K as (K1 & _ & _ & _ & K5 & K6 & _).
    rewrite Hnr, <- app_assoc in L. simpl in L.
    assert (table_wf dec1 /\ log dec1 = log dec2) as [Hwf1 Hlog1].
    { change (sort_output (write_back dec2 blk b2)) with (sort_output dec2) in E.
      destruct (sort_output dec2) eqn:Hsort; simpl in E; inversion E; subst.
      - split; [|reflexivity]. apply table_wf_insert.
        + eapply table_wf_subseteq; [exact Hwf|assumption|].
          rewrite K6. reflexivity.
        + destruct B as [->|[_ B]]; [congruence|reflexivity|assumption].
        + rewrite K1. destruct B as [->|[B _]]; [congruence| |congruence].
          destruct Hwf as [_ Hwf]. apply (Hwf _ _ Hb).
      - split; [|reflexivity].
        eapply table_wf_subseteq; [exact Hwf|assumption|]. simpl.
        rewrite delete_insert_eq, K6. apply delete_subseteq. }
    assert (exists new2, log dec' = log dec1 ++ new2 /\
                         Forall not_process new2 /\ table_wf dec')
      as (new2 & L2 & F2 & Hwf').
    { destruct (flow_is_ok ret1).
      - apply prune_spec in H. destruct H as (K & Hsub & n2 & L2 & F2).
        exists n2. split; [assumption|]. split.
        + eapply Forall_impl; [exact F2|]. apply delivery_not_process.
        + eapply table_wf_subseteq; eassumption.
      - inversion H; subst. exists []. rewrite app_nil_r.
        split; [reflexivity|]. split; [constructor|assumption]. }
    split; [assumption|].
    exists (EvProcess blk :: n ++ new2). rewrite L2, Hlog1, L.
    rewrite <- app_assoc. simpl. split; [reflexivity|].
    exists (n ++ new2). split; [reflexivity|]. apply Forall_app. auto.
  - simpl in H. apply prune_spec in H. destruct H as (K & Hsub & n & L & F).
    split; [eapply table_wf_subseteq; eassumption|].
    exists n. split; [assumption|].
    eapply Forall_impl; [exact F|]. apply delivery_not_process.
Qed.


Lemma with_block_for_wf dec blk : table_wf dec -> table_wf (with_block_for dec blk).
Proof.
  intros Hwf. destruct (block_for_wf dec blk Hwf) as [Hnr Hb].
  apply (table_wf_insert dec blk _ Hwf Hnr Hb).
Qed.

Lemma flow_is_ok_iff ret : flow_is_ok ret = true <-> ret = GST_FLOW_OK.
Proof. destruct ret; simpl; split; congruence. Qed.

Lemma not_process_not_in l blk : Forall not_process l -> EvProcess blk ∉ l.
Proof.
  intros F Hin. rewrite Forall_forall in F. apply (F _ Hin). exact I.
Qed.

(** What the insertion of a recorded packet does, in terms of the state
    before it. *)
Lemma insert_recorded W dec fec_packet is_source_packet blk esi ret dec' :
  table_wf dec ->
  read_payload_id fec_packet is_source_packet = Ret (blk, esi) ->
  gst_rs_fec_dec_insert_fec_packet W dec fec_packet is_source_packet
  = Ret (ret, dec') ->
  let b := block_for dec blk in
  is_complete b = false ->
  SOURCE_BLOCK_IS_FLAG_SET b esi = Ret false ->
  gst_rs_fec_dec_is_source_block_nr_recent_enough blk
    (most_recent_block_nr dec) (max_source_block_age dec) = true ->
  table_wf dec' /\
  exists pre new,
    log dec' = log dec ++ pre ++ new /\
    Forall is_delivery pre /\
    if (negb is_source_packet || sort_output dec
        || flow_is_ok (pad_push W (log dec) (adu_of_source_packet fec_packet)))
    then
      if num_source_symbols dec
         <=? num_source_packets b + num_repair_packets b + 1
      then exists rest, new = EvProcess blk :: rest /\ Forall not_process rest
      else Forall not_process new
    else new = [].
Proof.
  intros Hwf Hid H b Hc Hf Hrecent.
  destruct (insert_cases W dec fec_packet is_source_packet blk esi ret dec'
              Hid H) as [([Hr|[Hr|Hr]] & _)|(_ & _ & _ & Hrec)];
    [fold b in Hr; congruence..|].
  destruct Hrec as (ret1 & dec1 & b1 & Hrec & Hnext). fold b in Hrec.
  destruct (block_for_wf dec blk Hwf) as [Hnr Hbwf]. fold b in Hnr, Hbwf.
  specialize (Hbwf Hc).
  pose proof (with_block_for_wf dec blk Hwf) as Hwf0.
  destruct (record_fec_packet_wf W (with_block_for dec blk) b blk esi
              fec_packet is_source_packet ret1 dec1 b1 Hbwf Hid Hf Hrec)
    as (Hwf1 & Hnr1 & Hc1 & Hcount & _ & _ & Hpush).
  simpl in Hwf1, Hpush.
  pose proof (received_count _ _ Hbwf) as [_ Hle].
  assert (0 <= num_source_packets b + num_repair_packets b) as Hge.
  { rewrite (wf_num_source _ _ Hbwf), (wf_num_repair _ _ Hbwf). lia. }
  assert (exists pre, log dec1 = log dec ++ pre /\ Forall is_delivery pre /\
                      table_wf dec1 /\
                      num_source_symbols dec1 = num_source_symbols dec /\
                      flow_is_ok ret1 =
                      (negb is_source_packet || sort_output dec
                       || flow_is_ok (pad_push W (log dec)
                                        (adu_of_source_packet fec_packet))))
    as (pre & Lpre & Fpre & Hwfd1 & Hk1 & Hok).
  { destruct is_source_packet; simpl in *.
    - destruct (sort_output dec); simpl in *; destruct Hpush as [-> ->].
      + exists []. rewrite app_nil_r. auto.
      + eexists [_]. split; [reflexivity|]. split; [repeat constructor|].
        split; [|split; reflexivity].
        eapply table_wf_advances; [exact Hwf0|].
        apply (advances_emit is_delivery). exact I.
    - destruct Hpush as [-> ->]. exists []. rewrite app_nil_r. auto. }
  assert (table_wf (write_back dec1 blk b1)) as Hwf2.
  { apply table_wf_insert; [assumption|congruence|].
    intros _. rewrite Hk1. exact Hwf1. }
  rewrite <- Hok.
  destruct Hnext as [(Hbad & -> & ->)|(Hgood & Hpp)].
  - split; [assumption|]. exists pre, []. rewrite app_nil_r, Hbad. auto.
  - rewrite Hgood.
    destruct (process_and_prune_spec W (write_back dec1 blk b1) b1 blk ret dec'
                Hwf2 ltac:(congruence) ltac:(apply lookup_insert_eq) Hpp)
      as (Hwf' & new & L & Hnew).
    split; [assumption|]. exists pre, new. simpl in L.
    rewrite L, Lpre, <- app_assoc. split; [reflexivity|].
    split; [assumption|].
    replace (gst_rs_fec_dec_can_source_block_be_processed
               (write_back dec1 blk b1) b1)
      with (num_source_symbols dec
            <=? num_source_packets b + num_repair_packets b + 1) in Hnew;
      [exact Hnew|].
    unfold gst_rs_fec_dec_can_source_block_be_processed. simpl.
    rewrite Hcount, Hk1, guint_small by lia.
    rewrite Z.geb_leb. reflexivity.
Qed.


(** ** The invariant holds in every state of a session *)

Lemma insert_table_wf W dec fec_packet is_source_packet ret dec' :
  table_wf dec ->
  gst_rs_fec_dec_insert_fec_packet W dec fec_packet is_source_packet
  = Ret (ret, dec') ->
  table_wf dec'.
Proof.
  intros Hwf H.
  destruct (read_payload_id fec_packet is_source_packet) as [[blk esi]|] eqn:Hid.
  2: { unfold gst_rs_fec_dec_insert_fec_packet in H.
       unfold read_payload_id in Hid. rewrite Hid in H. discriminate. }
  destruct (insert_cases W dec fec_packet is_source_packet blk esi ret dec'
              Hid H) as [(_ & _ & ->)|(Hr & Hc & Hf & _)].
  - apply with_block_for_wf. assumption.
  - eapply insert_recorded; eassumption.
Qed.

Lemma push_eos_table_wf W dec dec' :
  table_wf dec -> gst_rs_fec_dec_push_eos W dec = Ret dec' -> table_wf dec'.
Proof.
  intros Hwf H. unfold gst_rs_fec_dec_push_eos in H.
  destruct (_ && _); [|inversion H; subst; exact Hwf].
  run_inv H. destruct a as [ret d]. inversion H; subst.
  apply drain_spec in E. destruct E as (K & T & _).
  assert (num_source_symbols d = num_source_symbols dec) as Hk.
  { rewrite K.
    destruct (push_segment_advances (gst_rs_fec_dec_push_stream_start dec))
      as [(-> & _) _].
    destruct (push_stream_start_advances dec) as [(-> & _) _]. reflexivity. }
  split; [simpl; rewrite Hk; apply Hwf|]. simpl. rewrite T.
  intros key v Hv. rewrite lookup_empty in Hv. discriminate.
Qed.

Lemma step_table_wf W dec i dec' :
  table_wf dec -> step W dec i = Ret dec' -> table_wf dec'.
Proof.
  intros Hwf H. destruct i as [buffer|buffer| | |]; simpl in H.
  - unfold gst_rs_fec_dec_fecsource_chain in H.
    destruct (fecsource_eos dec); simpl in H; [inversion H; subst; assumption|].
    run_inv H. destruct a as [ret d]. inversion H; subst.
    eapply insert_table_wf; eassumption.
  - unfold gst_rs_fec_dec_fecrepair_chain in H.
    destruct (fecrepair_eos dec); simpl in H; [inversion H; subst; assumption|].
    run_inv H. destruct a as [ret d]. inversion H; subst.
    eapply insert_table_wf; eassumption.
  - eapply push_eos_table_wf; [|exact H]. exact Hwf.
  - eapply push_eos_table_wf; [|exact H]. exact Hwf.
  - inversion H; subst. split; [apply Hwf|]. simpl.
    intros key v Hv. rewrite lookup_empty in Hv. discriminate.
Qed.

Lemma reachable_table_wf W dec : reachable W dec -> table_wf dec.
Proof.
  induction 1 as [k r max_age sort Hk Hr Ha|dec i dec' _ IH Hstep].
  - split; [exact Hk|]. simpl. intros key v Hv.
    rewrite lookup_empty in Hv. discriminate.
  - eapply step_table_wf; eassumption.
Qed.

Lemma reachable_steps W dec l : forall dec',
  reachable W dec -> steps W dec l = Ret dec' -> reachable W dec'.
Proof.
  revert dec. induction l as [|i rest IH]; intros dec dec' Hr H; simpl in H.
  - inversion H; subst. assumption.
  - run_inv H. eapply IH; [|exact H]. eapply reachable_step; eassumption.
Qed.

(** The scenario with k=4 and r=2 in which block 7 receives the source
    packets with ESI 0 and 2 and the repair packets with ESI 4 and 5: the
    fourth packet starts the recovery, and at the end of both streams the
    four ADUs are pushed in the order of their ESI. *)
Example recovery_of_block_7 :
  let symbol := [Byte.x00; Byte.x00; Byte.x00; Byte.x00] in
  let dec' := dec_after recovering (configure 4 2 1 true)
                [InSource (source_packet ["a"%byte] 7 0 4);
                 InRepair (repair_packet symbol 7 4 4);
                 InSource (source_packet ["c"%byte] 7 2 4);
                 InRepair (repair_packet symbol 7 5 4);
                 InSourceEos; InRepairEos] in
  pushed (log dec') = [(7, 0); (7, 1); (7, 2); (7, 3)] /\
  omap (fun e => match e with EvPush _ _ adu => Some adu | _ => None end)
       (log dec')
  = [["a"%byte]; ["b"%byte]; ["c"%byte]; ["d"%byte]].
Proof. split; vm_compute; reflexivity. Qed.

(** C5, as the code has it.  Take a decoder of a session and a packet it
    inserts without crashing.  The packet is recorded when its block
    number is recent enough, its block is not complete and its ESI is not
    yet present.  The insertion enters the processing of a block only for
    the block of the packet, and it does so exactly when the packet is
    recorded, the push of its ADU (immediate mode, source packet) was not
    refused by downstream, and the block then holds at least k packets,
    source and repair together.  So a recorded packet that brings the
    total to exactly k triggers the processing, and one that leaves it
    below k does not; what the claim leaves out is the refused push. *)
Theorem C5_processing_iff_k_received
    W dec fec_packet is_source_packet blk esi ret dec' :
  reachable W dec ->
  read_payload_id fec_packet is_source_packet = Ret (blk, esi) ->
  gst_rs_fec_dec_insert_fec_packet W dec fec_packet is_source_packet
  = Ret (ret, dec') ->
  let b := block_for dec blk in
  let recorded :=
    gst_rs_fec_dec_is_source_block_nr_recent_enough blk
      (most_recent_block_nr dec) (max_source_block_age dec) = true /\
    is_complete b = false /\
    SOURCE_BLOCK_IS_FLAG_SET b esi = Ret false in
  let push_accepted :=
    is_source_packet = false \/ sort_output dec = true \/
    pad_push W (log dec) (adu_of_source_packet fec_packet) = GST_FLOW_OK in
  exists new,
    log dec' = log dec ++ new /\
    (forall blk', EvProcess blk' ∈ new -> blk' = blk) /\
    (EvProcess blk ∈ new <->
     recorded /\ push_accepted /\
     num_source_symbols dec
     <= num_source_packets b + num_repair_packets b + 1).
Proof.
  intros Hreach Hid H b recorded push_accepted.
  pose proof (reachable_table_wf W dec Hreach) as Hwf.
  destruct (insert_cases W dec fec_packet is_source_packet blk esi ret dec'
              Hid H) as [(Hdisc & _ & ->)|(Hr & Hc & Hf & _)].
  - exists []. rewrite app_nil_r. split; [reflexivity|].
    split; [intros blk' Hin; inversion Hin|].
    split; [intros Hin; inversion Hin|].
    intros ((Hr & Hc & Hf) & _). fold b in Hdisc.
    destruct Hdisc as [Hd|[Hd|Hd]]; congruence.
  - fold b in Hc, Hf.
    destruct (insert_recorded W dec fec_packet is_source_packet blk esi ret dec'
                Hwf Hid H Hc Hf Hr) as (_ & pre & new & L & Fpre & Hnew).
    fold b in Hnew.
    assert (forall x, EvProcess x ∉ pre) as Hpre.
    { intros x. apply not_process_not_in.
      eapply Forall_impl; [exact Fpre|]. apply delivery_not_process. }
    exists (pre ++ new). split; [assumption|].
    assert ((negb is_source_packet || sort_output dec
             || flow_is_ok (pad_push W (log dec)
                              (adu_of_source_packet fec_packet))) = true
            <-> push_accepted) as Hpa.
    { unfold push_accepted. rewrite !orb_true_iff, negb_true_iff, flow_is_ok_iff.
      tauto. }
    destruct (negb is_source_packet || sort_output dec || _) eqn:Hok.
    + destruct (Z.leb_spec (num_source_symbols dec)
                  (num_source_packets b + num_repair_packets b + 1)) as [Hk|Hk].
      * destruct Hnew as (rest & -> & Frest). split.
        { intros blk'. rewrite elem_of_app, elem_of_cons.
          intros [Hin|[Heq|Hin]].
          - destruct (Hpre _ Hin).
          - congruence.
          - destruct (not_process_not_in _ _ Frest Hin). }
        split.
        { intros _. split; [split; [|split]; assumption|].
          split; [apply Hpa; reflexivity|assumption]. }
        intros _. apply elem_of_app. right. left.
      * split.
        { intros blk'. rewrite elem_of_app. intros [Hin|Hin].
          - destruct (Hpre _ Hin).
          - destruct (not_process_not_in _ _ Hnew Hin). }
        split.
        { rewrite elem_of_app. intros [Hin|Hin].
          - destruct (Hpre _ Hin).
          - destruct (not_process_not_in _ _ Hnew Hin). }
        intros (_ & _ & Hge). lia.
    + subst new. rewrite app_nil_r. split.
      { intros blk' Hin. destruct (Hpre _ Hin). }
      split.
      { intros Hin. destruct (Hpre _ Hin). }
      intros (_ & Hacc & _). apply Hpa in Hacc. discriminate.
Qed.


(** Against C5 as stated.  Immediate mode, k=1, downstream refuses the
    push: the only source packet of block 0 brings the block to k packets,
    the insertion returns the refusal, and the block stays in the table,
    neither processed (the log holds the push only) nor complete. *)
Lemma C5_refused_push_skips_processing :
  let dec := configure 1 0 1 false in
  let p := source_packet ["a"%byte] 0 0 1 in
  exists dec' b,
    gst_rs_fec_dec_insert_fec_packet refusing dec p true
    = Ret (GST_FLOW_FLUSHING, dec') /\
    source_block_table dec' !! 0 = Some b /\
    num_source_packets b + num_repair_packets b = num_source_symbols dec' /\
    is_complete b = false /\
    log dec' = [EvPush 0 0 ["a"%byte]].
Proof.
  intros dec p. eexists. eexists.
  split; [vm_compute; reflexivity|].
  split; [vm_compute; reflexivity|].
  repeat split.
Qed.


(** Sorted mode, k=1: the only source packet of block 0 brings the block
    to k packets and the processing of block 0 is entered. *)
Lemma C5_processing_iff_k_received_witness :
  let dec := configure 1 0 1 true in
  let p := source_packet ["a"%byte] 0 0 1 in
  exists new,
    log (dec_after accepting dec [InSource p]) = log dec ++ new /\
    EvProcess 0 ∈ new.
Proof.
  intros dec p.
  destruct (C5_processing_iff_k_received accepting dec p true 0 0 GST_FLOW_OK
              (dec_after accepting dec [InSource p]))
    as (new & L & _ & Hiff).
  - apply reachable_start; lia.
  - vm_compute. reflexivity.
  - vm_compute. reflexivity.
  - exists new. split; [exact L|]. apply Hiff.
    split; [repeat split; vm_compute; reflexivity|].
    split; [right; left; reflexivity|]. vm_compute. discriminate.
Defined.


(** The insertion of a recorded packet is the second half of the
    function run on a state and a block that are
    [handed_to_processing]. *)
Lemma insert_hands_to_processing W dec0 fec_packet is_source_packet blk esi
    ret dec' ret1 dec1 b1 :
  reachable W dec0 ->
  read_payload_id fec_packet is_source_packet = Ret (blk, esi) ->
  gst_rs_fec_dec_is_source_block_nr_recent_enough blk
    (most_recent_block_nr dec0) (max_source_block_age dec0) = true ->
  is_complete (block_for dec0 blk) = false ->
  SOURCE_BLOCK_IS_FLAG_SET (block_for dec0 blk) esi = Ret false ->
  record_fec_packet W (with_block_for dec0 blk) (block_for dec0 blk)
    blk esi fec_packet is_source_packet = Ret (ret1, dec1, b1) ->
  flow_is_ok ret1 = true ->
  gst_rs_fec_dec_insert_fec_packet W dec0 fec_packet is_source_packet
  = Ret (ret, dec') ->
  handed_to_processing W (write_back dec1 blk b1) b1 /\
  process_and_prune W (write_back dec1 blk b1) b1 blk = Ret (ret, dec').
Proof.
  intros Hreach Hid Hr Hc Hf Hrec Hok H. split.
  - exists dec0, fec_packet, is_source_packet, blk, esi, ret1, dec1.
    repeat split; assumption.
  - destruct (insert_cases W dec0 fec_packet is_source_packet blk esi ret dec'
                Hid H) as [([Hd|[Hd|Hd]] & _)|(_ & _ & _ & Hnext)];
      [congruence..|].
    destruct Hnext as (ret1' & dec1' & b1' & Hrec' & Hnext).
    rewrite Hrec in Hrec'. inversion Hrec'; subst.
    destruct Hnext as [(Hbad & _)|(_ & Hpp)]; [congruence|exact Hpp].
Qed.



End DecFacts.

Module EncFacts.
Import Enc Examples.


(** ** The encoder: oversize ADUs *)

(** Against C3 as stated.  One ADU of two bytes is pending (k=4); an ADU
    of 70000 bytes is refused, and the pending ADU, the count of collected
    ADUs and the maximum ADU length are still there. *)
Lemma C3_block_state_survives_oversize_adu :
  let e := enc_after enc_accepting (configure 4 2)
             [InAdu ["a"%byte; "b"%byte]] in
  exists e',
    gst_rs_fec_enc_sink_chain enc_accepting e oversize_adu
    = Ret (GST_FLOW_ERROR, e') /\
    cur_num_adus e' = 1 /\
    adu_table e' = [Some ["a"%byte; "b"%byte]; None; None; None] /\
    cur_max_adu_length e' = 2.
Proof.
  intros e. eexists. split; [vm_compute; reflexivity|].
  repeat split.
Qed.

(** C3, as the code has it.  An ADU longer than 65535 bytes, submitted
    before EOS, is refused with [GST_FLOW_ERROR] and an element error; no
    source or repair packet is emitted for it; and the state of the block
    in progress (the table of pending ADUs, their count, the maximum ADU
    length) and the block counter are left as they were. *)
Theorem C3_oversize_adu_rejected W e buffer :
  eos_received e = false ->
  gst_buffer_get_size buffer > 65535 ->
  gst_rs_fec_enc_sink_chain W e buffer
  = Ret (GST_FLOW_ERROR, emit e EvElementError) /\
  log (emit e EvElementError) = log e ++ [EvElementError] /\
  adu_table (emit e EvElementError) = adu_table e /\
  cur_num_adus (emit e EvElementError) = cur_num_adus e /\
  cur_max_adu_length (emit e EvElementError) = cur_max_adu_length e /\
  cur_source_block_nr (emit e EvElementError) = cur_source_block_nr e.
Proof.
  intros Heos Hsize. unfold gst_rs_fec_enc_sink_chain. rewrite Heos.
  destruct (Z.gtb_spec (gst_buffer_get_size buffer) 65535); [|lia].
  repeat split.
Qed.

(** The ADU of 70000 bytes, submitted while one ADU is pending. *)
Lemma C3_oversize_adu_rejected_witness :
  let e := enc_after enc_accepting (configure 4 2)
             [InAdu ["a"%byte; "b"%byte]] in
  gst_rs_fec_enc_sink_chain enc_accepting e oversize_adu
  = Ret (GST_FLOW_ERROR, emit e EvElementError).
Proof.
  intros e.
  apply (C3_oversize_adu_rejected enc_accepting e oversize_adu).
  - vm_compute. reflexivity.
  - unfold gst_buffer_get_size, oversize_adu. rewrite length_replicate. lia.
Defined.


(** ** The encoder: the block counter *)

Ltac run_inv H :=
  match type of H with
  | context [mbind _ ?m] =>
      let E := fresh "E" in
      destruct m eqn:E; simpl in H; [|discriminate]
  end.

Lemma payload_id_block_nr nr esi k :
  match fec_payload_id nr esi k with
  | b0 :: b1 :: b2 :: _ => Dec.read_block_nr b0 b1 b2 = nr mod 2 ^ 24
  | _ => False
  end.
Proof.
  unfold fec_payload_id. rewrite read_block_nr_sum, !byte_val_guint8.
  rewrite !Z.shiftr_land. change (Z.shiftr 16711680 16) with (Z.ones 8).
  change (Z.shiftr 65280 8) with (Z.ones 8).
  change (Z.shiftr 255 0) with (Z.ones 8).
  rewrite !Z.land_ones by lia. rewrite !Z.shiftr_div_pow2 by lia.
  change (2 ^ 8) with 256. change (2 ^ 16) with 65536. change (2 ^ 0) with 1.
  change (2 ^ 24) with 16777216.
  Z.div_mod_to_equations. lia.
Qed.

Lemma stamped_source_packet adu nr esi k :
  stamped_block_nr (EvSourcePacket (adu ++ fec_payload_id nr esi k))
  = Some (nr mod 2 ^ 24).
Proof.
  unfold stamped_block_nr, Dec.gst_rs_fec_dec_source_packet_read_payload_id.
  unfold gst_buffer_get_size. rewrite length_app.
  change (length (fec_payload_id nr esi k)) with 6%nat.
  destruct (Z.ltb_spec (Z.of_nat (length adu + 6)) 6) as [|_]; [lia|].
  replace (length adu + 6 - 6)%nat with (length adu) by lia.
  rewrite drop_app_length.
  pose proof (payload_id_block_nr nr esi k) as H.
  unfold fec_payload_id in *. rewrite H. reflexivity.
Qed.

Lemma stamped_repair_packet symbol nr esi k :
  stamped_block_nr (EvRepairPacket (fec_payload_id nr esi k ++ symbol))
  = Some (nr mod 2 ^ 24).
Proof.
  unfold stamped_block_nr, Dec.gst_rs_fec_dec_repair_packet_read_payload_id.
  pose proof (payload_id_block_nr nr esi k) as H.
  unfold fec_payload_id in *. simpl. rewrite H. reflexivity.
Qed.

Lemma stamp_is_repair_packet symbol nr esi k :
  stamp_is nr (EvRepairPacket (fec_payload_id nr esi k ++ symbol)).
Proof. unfold stamp_is. rewrite stamped_repair_packet. reflexivity. Qed.

Lemma not_packet_stamp_is c ev : not_packet ev -> stamp_is c ev.
Proof. destruct ev; simpl; intros H; try exact I; destruct H. Qed.

Lemma not_packet_no_repair (l : list Event) :
  Forall not_packet l -> repair_packets_of l = [].
Proof.
  unfold repair_packets_of.
  induction 1 as [|ev l Hev F IH]; simpl; [reflexivity|].
  destruct ev; simpl in *; try assumption. destruct Hev.
Qed.

Lemma quiet_refl e : quiet e e.
Proof.
  split; [reflexivity|]. split; [reflexivity|].
  exists []. rewrite app_nil_r. auto.
Qed.

Lemma quiet_trans e1 e2 e3 : quiet e1 e2 -> quiet e2 e3 -> quiet e1 e3.
Proof.
  intros (C1 & R1 & n1 & L1 & F1) (C2 & R2 & n2 & L2 & F2).
  split; [congruence|]. split; [congruence|].
  exists (n1 ++ n2). rewrite L2, L1, app_assoc. split; [reflexivity|].
  apply Forall_app. auto.
Qed.

Lemma quiet_emit e ev : not_packet ev -> quiet e (emit e ev).
Proof.
  intros H. split; [reflexivity|]. split; [reflexivity|].
  exists [ev]. split; [reflexivity|]. repeat constructor. exact H.
Qed.

Lemma quiet_same e e' :
  log e' = log e -> cur_source_block_nr e' = cur_source_block_nr e ->
  num_repair_symbols e' = num_repair_symbols e -> quiet e e'.
Proof.
  intros L C R. split; [assumption|]. split; [assumption|].
  exists []. rewrite app_nil_r. auto.
Qed.

Lemma check_if_fatal_quiet e status : quiet e (CHECK_IF_FATAL_ERROR e status).
Proof.
  destruct status; simpl; try apply quiet_refl. apply quiet_emit. exact I.
Qed.

Lemma configure_fec_quiet W e len ok e' :
  gst_rs_fec_enc_configure_fec W e len = (ok, e') -> quiet e e'.
Proof.
  unfold gst_rs_fec_enc_configure_fec. intros H.
  destruct (_ =? _); [inversion H; subst; apply quiet_refl|].
  destruct (negb _); inversion H; subst.
  - eapply quiet_trans; [|apply check_if_fatal_quiet].
    apply quiet_emit. exact I.
  - eapply quiet_trans; [|apply quiet_same; reflexivity].
    apply quiet_emit. exact I.
Qed.

Lemma adui_loop_quiet len indices : forall e symbols e' symbols',
  adui_loop len indices e symbols = Ret (e', symbols') -> quiet e e'.
Proof.
  induction indices as [|i rest IH]; intros e symbols e' symbols' H; simpl in H.
  - inversion H; subst. apply quiet_refl.
  - run_inv H.
    destruct (adu_table e !! Z.to_nat i) as [[adu|]|]; try discriminate.
    run_inv H. apply IH in H.
    eapply quiet_trans; [|exact H]. apply quiet_same; reflexivity.
Qed.

Lemma push_start_events_quiet e : quiet e (push_start_events e).
Proof.
  unfold push_start_events.
  destruct (segment_started e); [apply quiet_refl|].
  split; [|split].
  - destruct (stream_started e) eqn:Hs; simpl; rewrite ?Hs; reflexivity.
  - destruct (stream_started e) eqn:Hs; simpl; rewrite ?Hs; reflexivity.
  - destruct (stream_started e) eqn:Hs; simpl; rewrite ?Hs; simpl.
    + eexists [_; _]. simpl. rewrite <- app_assoc. split; [reflexivity|].
      repeat constructor.
    + eexists [_; _; _; _]. simpl. rewrite <- !app_assoc.
      split; [reflexivity|]. repeat constructor.
Qed.

Lemma process_cleanup_quiet e : quiet e (process_cleanup e).
Proof.
  apply quiet_same;
    unfold process_cleanup, gst_rs_fec_enc_flush_all_fec_repair_packets,
      gst_rs_fec_enc_flush_all_adus;
    destruct (cur_num_adus e =? 0); simpl; destruct (_ =? 0); reflexivity.
Qed.

(** The loop over the repair symbols keeps the counter, stamps every
    packet with the number it was given and, when it runs to its end,
    has pushed one repair packet per symbol. *)
Lemma repair_loop_spec W nr symbols indices : forall e ret e',
  repair_loop W nr symbols indices e = Ret (ret, e') ->
  cur_source_block_nr e' = cur_source_block_nr e /\
  exists new, log e' = log e ++ new /\ Forall (stamp_is nr) new /\
    (flow_is_ok ret = true ->
     length (repair_packets_of new) = length indices).
Proof.
  induction indices as [|i rest IH]; intros e ret e' H; simpl in H.
  - inversion H; subst. split; [reflexivity|].
    exists []. rewrite app_nil_r. repeat split. constructor.
  - destruct (of_build_repair_symbol W (log e) symbols _) as [status symbol].
    destruct (negb (of_is_ok status)).
    { inversion H; subst.
      destruct (check_if_fatal_quiet
                  (emit e (EvOpenFEC (OfBuildRepairSymbol symbols
                                        (guint (i + num_source_symbols e)))))
                  status) as (C & _ & n & L & F).
      split; [rewrite C; reflexivity|].
      exists (EvOpenFEC (OfBuildRepairSymbol symbols
                           (guint (i + num_source_symbols e))) :: n).
      split; [rewrite L; simpl; rewrite <- app_assoc; reflexivity|].
      split; [|discriminate].
      constructor; [exact I|].
      eapply Forall_impl; [exact F|]. apply not_packet_stamp_is. }
    run_inv H.
    set (p := fec_payload_id nr (guint (i + num_source_symbols e))
                (num_source_symbols e) ++ symbol) in *.
    set (ev1 := EvOpenFEC (OfBuildRepairSymbol symbols
                            (guint (i + num_source_symbols e)))) in *.
    match type of H with
    | (if flow_is_ok ?r then _ else _) = _ => destruct (flow_is_ok r) eqn:Hok
    end.
    + apply IH in H. destruct H as (C & n & L & F & Hlen).
      split.
      { rewrite C. destruct (first_repair_packet e) eqn:Hf; simpl;
          rewrite ?Hf; reflexivity. }
      exists (ev1 :: EvRepairPacket p :: n). split.
      { rewrite L. destruct (first_repair_packet e) eqn:Hf; simpl;
          rewrite ?Hf; simpl; rewrite <- !app_assoc; reflexivity. }
      split.
      { constructor; [exact I|]. constructor; [|exact F].
        apply stamp_is_repair_packet. }
      intros Hret. simpl. rewrite (Hlen Hret). reflexivity.
    + inversion H; subst. split.
      { destruct (first_repair_packet e) eqn:Hf; simpl; rewrite ?Hf;
          reflexivity. }
      exists [ev1; EvRepairPacket p]. split.
      { destruct (first_repair_packet e) eqn:Hf; simpl; rewrite ?Hf; simpl;
          rewrite <- !app_assoc; reflexivity. }
      split; [|congruence].
      constructor; [exact I|]. constructor; [|constructor].
      apply stamp_is_repair_packet.
Qed.


Lemma enc_flow_is_ok_iff ret : flow_is_ok ret = true <-> ret = GST_FLOW_OK.
Proof. destruct ret; simpl; split; congruence. Qed.

(** Processing emits packets with the present block number only.  The
    counter stays, or it moves one step: then the function returned
    [GST_FLOW_OK], k ADUs had been collected and one repair packet was
    pushed for each of the r repair symbols. *)
Lemma enc_process_source_block_spec W e ret e' :
  gst_rs_fec_enc_process_source_block W e = Ret (ret, e') ->
  exists new, log e' = log e ++ new /\
    Forall (stamp_is (cur_source_block_nr e)) new /\
    (cur_source_block_nr e' = cur_source_block_nr e \/
     (cur_source_block_nr e' = guint (cur_source_block_nr e + 1) /\
      ret = GST_FLOW_OK /\
      num_source_symbols e <= cur_num_adus e /\
      length (repair_packets_of new) = Z.to_nat (num_repair_symbols e))).
Proof.
  unfold gst_rs_fec_enc_process_source_block. intros H.
  remember (cur_source_block_nr e) as c eqn:Hc0.
  destruct (Z.ltb_spec (cur_num_adus e) (num_source_symbols e)) as [|Hk].
  { inversion H; subst. exists []. rewrite app_nil_r.
    split; [reflexivity|]. split; [constructor|auto]. }
  run_inv H. destruct a as [[configured e1] symbols].
  assert (quiet e e1) as Q1.
  { destruct (_ >? 0).
    - destruct (gst_rs_fec_enc_configure_fec W e _) as [ok e0] eqn:Hc.
      apply configure_fec_quiet in Hc.
      destruct (negb ok).
      + inversion E; subst. assumption.
      + run_inv E. destruct a as [e2 symbols2]. inversion E; subst.
        apply adui_loop_quiet in E0. eapply quiet_trans; eassumption.
    - inversion E; subst. apply quiet_refl. }
  destruct (negb configured).
  { inversion H; subst.
    pose proof (quiet_trans _ _ _ Q1 (process_cleanup_quiet e1))
      as (C & _ & n & L & F).
    exists n. split; [assumption|]. split; [|left; congruence].
    eapply Forall_impl; [exact F|]. apply not_packet_stamp_is. }
  run_inv H. destruct a as [ret2 e2].
  apply repair_loop_spec in E0. simpl in E0.
  destruct E0 as (C2 & n2 & L2 & F2 & Hlen). simpl in L2.
  pose proof (quiet_trans _ _ _ Q1 (push_start_events_quiet e1))
    as (C1 & R1 & n1 & L1 & F1).
  assert (length (repair_packets_of (n1 ++ n2)) = length (repair_packets_of n2))
    as Hrep.
  { unfold repair_packets_of. rewrite omap_app.
    fold (repair_packets_of n1). rewrite (not_packet_no_repair n1 F1).
    reflexivity. }
  assert (Forall (stamp_is c) (n1 ++ n2)) as F.
  { apply Forall_app. split; [|exact F2].
    eapply Forall_impl; [exact F1|]. apply not_packet_stamp_is. }
  destruct (flow_is_ok ret2) eqn:Hok; inversion H; subst ret e'.
  - destruct (process_cleanup_quiet
                (set_cur_source_block_nr e2 (guint (cur_source_block_nr e2 + 1))))
      as (C & _ & n & L & Fn).
    exists (n1 ++ n2 ++ n). split.
    { rewrite L. simpl. rewrite L2, L1, <- !app_assoc. reflexivity. }
    split.
    { rewrite app_assoc. apply Forall_app. split; [exact F|].
      eapply Forall_impl; [exact Fn|]. apply not_packet_stamp_is. }
    right. split; [rewrite C; simpl; congruence|].
    split; [apply enc_flow_is_ok_iff; assumption|]. split; [lia|].
    rewrite app_assoc. unfold repair_packets_of. rewrite omap_app.
    fold (repair_packets_of (n1 ++ n2)). fold (repair_packets_of n).
    rewrite (not_packet_no_repair n Fn), app_nil_r, Hrep, (Hlen eq_refl).
    rewrite length_seqZ. simpl. rewrite R1. reflexivity.
  - destruct (process_cleanup_quiet e2) as (C & _ & n & L & Fn).
    exists (n1 ++ n2 ++ n). split.
    { rewrite L, L2, L1, <- !app_assoc. reflexivity. }
    split.
    { rewrite app_assoc. apply Forall_app. split; [exact F|].
      eapply Forall_impl; [exact Fn|]. apply not_packet_stamp_is. }
    left. congruence.
Qed.

Lemma stamps_all_same c (l : list Event) :
  Forall (stamp_is c) l ->
  Forall (fun x => x = c mod 2 ^ 24) (stamped_block_nrs l).
Proof.
  unfold stamped_block_nrs, stamp_is.
  induction 1 as [|ev l Hev F IH]; simpl; [constructor|].
  destruct (stamped_block_nr ev); [constructor; assumption|assumption].
Qed.

Lemma follow_same c c' l x :
  Forall (fun y => y = c mod 2 ^ 24) l ->
  x = c mod 2 ^ 24 ->
  c' = c \/ c' = guint (c + 1) ->
  stamps_follow_counter c (x :: l) c'.
Proof.
  intros F. revert x. induction F as [|y l Hy F IH]; intros x Hx Hc; simpl.
  - split; [assumption|]. destruct Hc; auto.
  - split; [assumption|]. left. apply (IH y Hy Hc).
Qed.

Lemma follow_app l1 : forall c c1 l2 c2,
  stamps_follow_counter c l1 c1 ->
  stamps_follow_counter c1 l2 c2 ->
  stamps_follow_counter c (l1 ++ l2) c2.
Proof.
  induction l1 as [|x r IH]; intros c c1 l2 c2 H1 H2; simpl in *.
  - subst. assumption.
  - destruct H1 as [Hx [H1|H1]]; split; try assumption.
    + left. eapply IH; eassumption.
    + right. eapply IH; eassumption.
Qed.

Lemma follow_increasing l : forall c c',
  stamps_follow_counter c l c' -> increasing_mod_2_24 l.
Proof.
  induction l as [|x r IH]; intros c c' H; simpl in *; [exact I|].
  destruct r as [|y r']; [exact I|].
  destruct H as [Hx H].
  assert (guint (c + 1) mod 2 ^ 24 = (c mod 2 ^ 24 + 1) mod 2 ^ 24) as Hmod.
  { unfold guint. change (2 ^ 24) with 16777216. change (2 ^ 32) with 4294967296.
    Z.div_mod_to_equations. lia. }
  destruct H as [H|H]; split; try (eapply IH; exact H).
  - left. simpl in H. destruct H as [-> _]. congruence.
  - right. simpl in H. destruct H as [-> _]. rewrite Hmod. congruence.
Qed.

(** One buffer on the sink pad. *)
Lemma sink_chain_spec W e buffer ret e' :
  gst_rs_fec_enc_sink_chain W e buffer = Ret (ret, e') ->
  exists new, log e' = log e ++ new /\
    stamps_follow_counter (cur_source_block_nr e) (stamped_block_nrs new)
      (cur_source_block_nr e').
Proof.
  unfold gst_rs_fec_enc_sink_chain. intros H.
  destruct (eos_received e).
  { inversion H; subst. exists []. rewrite app_nil_r. split; reflexivity. }
  destruct (_ >? 65535).
  { inversion H; subst. exists [EvElementError]. split; reflexivity. }
  set (c := cur_source_block_nr e) in *.
  set (p := buffer ++ fec_payload_id c (cur_num_adus e) (num_source_symbols e)).
  assert (exists e1,
            gst_rs_fec_enc_push_adu W e buffer (cur_num_adus e)
            = (fecsourcepad_push W (log e) p, e1) /\
            log e1 = log e ++ [EvSourcePacket p] /\
            cur_source_block_nr e1 = c) as (e1 & Hp & L1 & K1).
  { unfold gst_rs_fec_enc_push_adu. eexists. split; [reflexivity|].
    destruct (first_source_packet e); split; reflexivity. }
  rewrite Hp in H.
  assert (stamped_block_nrs [EvSourcePacket p] = [c mod 2 ^ 24]) as Hstamp.
  { pose proof (stamped_source_packet buffer c (cur_num_adus e)
                  (num_source_symbols e)) as Hs.
    fold p in Hs. cbv [stamped_block_nrs omap list_omap]. rewrite Hs.
    reflexivity. }
  destruct (negb (flow_is_ok _)).
  { inversion H; subst. exists [EvSourcePacket p]. split; [assumption|].
    rewrite Hstamp, K1. simpl. auto. }
  run_inv H. rename a into e2.
  assert (log e2 = log e1 /\ cur_source_block_nr e2 = c) as [L2 K2].
  { unfold gst_rs_fec_enc_insert_adu in E.
    destruct (_ <=? _)%nat; [discriminate|]. inversion E; subst. auto. }
  apply enc_process_source_block_spec in H. simpl in H.
  destruct H as (n & L & F & K). rewrite K2 in F, K.
  assert (cur_source_block_nr e' = c \/ cur_source_block_nr e' = guint (c + 1))
    as K' by (destruct K as [K|(K & _)]; auto).
  exists (EvSourcePacket p :: n). split.
  { rewrite L, L2, L1, <- app_assoc. reflexivity. }
  change (EvSourcePacket p :: n) with ([EvSourcePacket p] ++ n).
  unfold stamped_block_nrs. rewrite omap_app. fold (stamped_block_nrs n).
  fold (stamped_block_nrs [EvSourcePacket p]). rewrite Hstamp. simpl.
  apply follow_same; [|reflexivity|exact K'].
  apply stamps_all_same. exact F.
Qed.

Lemma flush_keeps_counter e :
  cur_source_block_nr (gst_rs_fec_enc_flush e) = cur_source_block_nr e /\
  log (gst_rs_fec_enc_flush e) = log e.
Proof.
  unfold gst_rs_fec_enc_flush, gst_rs_fec_enc_flush_all_fec_repair_packets,
    gst_rs_fec_enc_flush_all_adus.
  destruct (cur_num_adus e =? 0); simpl; destruct (_ =? 0); simpl; auto.
Qed.

Lemma step_spec W e i e' :
  step W e i = Ret e' ->
  exists new, log e' = log e ++ new /\
    stamps_follow_counter (cur_source_block_nr e) (stamped_block_nrs new)
      (cur_source_block_nr e').
Proof.
  intros H. destruct i as [buffer| | | |]; simpl in H.
  - run_inv H. destruct a as [ret e1]. inversion H; subst.
    eapply sink_chain_spec; eassumption.
  - inversion H; subst. exists [EvEos]. split.
    + unfold gst_rs_fec_enc_flush_all_fec_repair_packets,
        gst_rs_fec_enc_flush_all_adus. simpl.
      destruct (cur_num_adus e =? 0); simpl; destruct (_ =? 0); reflexivity.
    + unfold gst_rs_fec_enc_flush_all_fec_repair_packets,
        gst_rs_fec_enc_flush_all_adus. simpl.
      destruct (cur_num_adus e =? 0); simpl; destruct (_ =? 0); reflexivity.
  - inversion H; subst. destruct (flush_keeps_counter e) as [K L].
    exists []. rewrite app_nil_r. split; [exact L|exact K].
  - inversion H; subst. exists []. rewrite app_nil_r. split; reflexivity.
  - inversion H; subst. destruct (flush_keeps_counter e) as [K L].
    exists []. rewrite app_nil_r. split; [exact L|exact K].
Qed.

Lemma steps_spec W l : forall e e',
  steps W e l = Ret e' ->
  exists new, log e' = log e ++ new /\
    stamps_follow_counter (cur_source_block_nr e) (stamped_block_nrs new)
      (cur_source_block_nr e').
Proof.
  induction l as [|i rest IH]; intros e e' H; simpl in H.
  - inversion H; subst. exists []. rewrite app_nil_r. split; reflexivity.
  - run_inv H. rename a into e1.
    apply step_spec in E. destruct E as (n1 & L1 & F1).
    apply IH in H. destruct H as (n2 & L2 & F2).
    exists (n1 ++ n2). rewrite L2, L1, app_assoc. split; [reflexivity|].
    unfold stamped_block_nrs. rewrite omap_app.
    eapply follow_app; eassumption.
Qed.

(** C10.  Over any sequence of ADUs, EOS, flushes and state changes
    that the encoder takes without crashing, whatever downstream and
    OpenFEC answer: every emitted packet carries the 24 low bits of the
    block counter of the moment; the counter only moves one step upwards
    and only after a packet was emitted under its present value; hence the
    block numbers stamped into the emitted packets increase monotonically
    modulo 2^24.  The step is taken by the processing of a block, and only
    when it returned [GST_FLOW_OK] after k ADUs were collected and all r
    repair packets were pushed.  Neither a flush nor a reset of the states
    writes the counter. *)
Theorem C10_block_numbers_monotone W e l e' :
  steps W e l = Ret e' ->
  (exists new, log e' = log e ++ new /\
     stamps_follow_counter (cur_source_block_nr e) (stamped_block_nrs new)
       (cur_source_block_nr e') /\
     increasing_mod_2_24 (stamped_block_nrs new)) /\
  (forall e0 ret e1,
     gst_rs_fec_enc_process_source_block W e0 = Ret (ret, e1) ->
     cur_source_block_nr e1 = cur_source_block_nr e0 \/
     (cur_source_block_nr e1 = guint (cur_source_block_nr e0 + 1) /\
      ret = GST_FLOW_OK /\
      num_source_symbols e0 <= cur_num_adus e0 /\
      exists new, log e1 = log e0 ++ new /\
        length (repair_packets_of new) = Z.to_nat (num_repair_symbols e0))) /\
  cur_source_block_nr (gst_rs_fec_enc_flush e) = cur_source_block_nr e /\
  cur_source_block_nr (gst_rs_fec_enc_reset_states e) = cur_source_block_nr e.
Proof.
  intros H. apply steps_spec in H. destruct H as (new & L & F).
  split; [|split; [|split; [apply flush_keeps_counter|reflexivity]]].
  - exists new. split; [assumption|]. split; [assumption|].
    eapply follow_increasing; eassumption.
  - intros e0 ret e1 Hp. apply enc_process_source_block_spec in Hp.
    destruct Hp as (n & Ln & _ & [K|(K1 & K2 & K3 & K4)]); [left; exact K|].
    right. repeat split; try assumption. exists n. auto.
Qed.

(** k=1, no repair symbols: an ADU, a flush, an ADU.  The two source
    packets carry the block numbers 0 and 1. *)
Lemma C10_block_numbers_monotone_witness :
  let l := [InAdu ["a"%byte]; InFlushStop; InAdu ["b"%byte]] in
  let e' := enc_after enc_accepting (configure 1 0) l in
  stamped_block_nrs (log e') = [0; 1] /\
  increasing_mod_2_24 (stamped_block_nrs (log e')).
Proof.
  intros l e'.
  destruct (C10_block_numbers_monotone enc_accepting (configure 1 0) l e')
    as ((new & L & _ & Hinc) & _).
  - vm_compute. reflexivity.
  - split; [vm_compute; reflexivity|].
    rewrite L. exact Hinc.
Defined.

End EncFacts.

Module AgingMore.
Import Aging AgingFacts.

Ltac circle :=
  unfold is_block_nr, in_circular_range in *;
  change (2 ^ 24) with 16777216 in *; change (2 ^ 22) with 4194304 in *;
  Z.div_mod_to_equations; lia.

(** X1.  For block number, start and end below 2^24,
    [gst_rs_fec_dec_check_if_source_block_in_range] answers whether the
    block number is met when counting upwards from [start] to [end] on
    the circle of 24-bit numbers, both ends included.  When start and end
    are equal the range holds that one number; when start is above end
    (the range wraps) the numbers left out are those strictly between end
    and start. *)
Theorem X1_range_check_is_circular_interval (block_nr start end_ : Z) :
  is_block_nr block_nr -> is_block_nr start -> is_block_nr end_ ->
  (gst_rs_fec_dec_check_if_source_block_in_range block_nr start end_ = true <->
   in_circular_range start end_ block_nr) /\
  (start = end_ ->
   gst_rs_fec_dec_check_if_source_block_in_range block_nr start end_ = true <->
   block_nr = start) /\
  (start > end_ ->
   gst_rs_fec_dec_check_if_source_block_in_range block_nr start end_ = true <->
   ~ (end_ < block_nr < start)).
Proof.
  intros Hx Hs He. rewrite !in_range_spec. repeat split; intros; try circle.
Qed.

Lemma X1_range_check_is_circular_interval_witness :
  gst_rs_fec_dec_check_if_source_block_in_range 0 16777215 1 = true <->
  in_circular_range 16777215 1 0.
Proof.
  apply (X1_range_check_is_circular_interval 0 16777215 1);
    unfold is_block_nr; lia.
Defined.

(** X2.  For 24-bit block numbers,
    [gst_rs_fec_dec_is_source_block_nr_newer] never holds in both
    directions: if [a] is newer than [b] then [b] is not newer than [a].
    Neither is newer than the other exactly when they are equal or lie
    between 2^22 and 2^24 - 2^22 steps apart on the circle. *)
Theorem X2_newer_is_asymmetric (a b : Z) :
  is_block_nr a -> is_block_nr b ->
  (gst_rs_fec_dec_is_source_block_nr_newer a b = true ->
   gst_rs_fec_dec_is_source_block_nr_newer b a = false) /\
  (gst_rs_fec_dec_is_source_block_nr_newer a b = false /\
   gst_rs_fec_dec_is_source_block_nr_newer b a = false <->
   a = b \/ 2 ^ 22 <= (a - b) mod 2 ^ 24 <= 2 ^ 24 - 2 ^ 22).
Proof.
  intros Ha Hb.
  rewrite !not_true_false, !newer_iff_distance by assumption.
  split; [intros H|split; intros H]; circle.
Qed.

Lemma X2_newer_is_asymmetric_witness :
  gst_rs_fec_dec_is_source_block_nr_newer 16777215 3 = false.
Proof.
  destruct (X2_newer_is_asymmetric 3 16777215) as [H _];
    [unfold is_block_nr; lia..|].
  apply H. vm_compute. reflexivity.
Defined.

(** X3.  For 24-bit block numbers and a maximum age between 1 and
    2^24 - 2^22 + 1, a candidate is recent enough exactly when it is newer
    than the reference or lies fewer than [max_age] steps behind it on the
    circle; the reference itself is always recent enough. *)
Theorem X3_recent_enough_is_newer_or_behind (ref c max_age : Z) :
  is_block_nr ref -> is_block_nr c -> 1 <= max_age <= 2 ^ 24 - 2 ^ 22 + 1 ->
  (gst_rs_fec_dec_is_source_block_nr_recent_enough c ref max_age = true <->
   gst_rs_fec_dec_is_source_block_nr_newer c ref = true \/
   (ref - c) mod 2 ^ 24 < max_age) /\
  gst_rs_fec_dec_is_source_block_nr_recent_enough ref ref max_age = true.
Proof.
  intros Hr Hc Ha.
  assert (1 <= max_age < 2 ^ 32) as Ha' by lia.
  rewrite !recent_enough_iff_range, newer_iff_distance by assumption.
  split; [split; intros H|]; circle.
Qed.

Lemma X3_recent_enough_is_newer_or_behind_witness :
  gst_rs_fec_dec_is_source_block_nr_recent_enough 16777215 1 3 = true.
Proof.
  destruct (X3_recent_enough_is_newer_or_behind 1 16777215 3) as [H _];
    [unfold is_block_nr; lia..|].
  apply H. right. vm_compute. reflexivity.
Defined.

End AgingMore.

Module MaskFacts.
Import Dec DecMask DecFacts.

Lemma flag_word_bit e : 0 <= e < 512 ->
  (Z.to_nat (Z.shiftr e 6) < 8)%nat /\ 0 <= Z.land e 63 < 64 /\
  e = 64 * Z.shiftr e 6 + Z.land e 63 /\ 0 <= Z.shiftr e 6.
Proof.
  intros He. rewrite Z.shiftr_div_pow2 by lia.
  change 63 with (Z.ones 6). rewrite Z.land_ones by lia.
  change (2 ^ 6) with 64. Z.div_mod_to_equations. lia.
Qed.

Lemma flag_same_place e e' : 0 <= e < 512 -> 0 <= e' < 512 ->
  Z.to_nat (Z.shiftr e 6) = Z.to_nat (Z.shiftr e' 6) ->
  Z.land e 63 = Z.land e' 63 -> e = e'.
Proof.
  intros He He' Hw Hb.
  destruct (flag_word_bit e He) as (_ & _ & E & P).
  destruct (flag_word_bit e' He') as (_ & _ & E' & P'). lia.
Qed.

Lemma testbit_unset w j i :
  0 <= j < 64 -> 0 <= i ->
  Z.testbit (Z.land w (Z.lxor (Z.ones 64) (Z.shiftl 1 j))) i
  = Z.testbit w i && (i <? 64) && negb (i =? j).
Proof.
  intros Hj Hi.
  rewrite Z.land_spec, Z.lxor_spec, Z.shiftl_1_l, Z.pow2_bits_eqb by lia.
  destruct (Z.ltb_spec i 64);
    [rewrite Z.ones_spec_low by lia|rewrite Z.ones_spec_high by lia];
    destruct (Z.eqb_spec j i), (Z.eqb_spec i j); try lia;
    destruct (Z.testbit w i); reflexivity.
Qed.

(** X4.  On a block with its 8 mask words and for ESIs below 512 the
    three presence macros never leave the mask;
    after [SOURCE_BLOCK_SET_FLAG] at [e] the test at [e] is true, after
    [SOURCE_BLOCK_UNSET_FLAG] at [e] it is false, and in both cases the
    test at every other ESI answers what it answered before. *)
Theorem X4_presence_flags b e e' :
  length (packet_mask b) = 8%nat -> 0 <= e < 512 -> 0 <= e' < 512 ->
  exists m1 m0 v,
    SOURCE_BLOCK_IS_FLAG_SET b e' = Ret v /\
    SOURCE_BLOCK_SET_FLAG b e = Ret (set_packet_mask b m1) /\
    SOURCE_BLOCK_UNSET_FLAG b e = Ret (set_packet_mask b m0) /\
    length m1 = 8%nat /\ length m0 = 8%nat /\
    SOURCE_BLOCK_IS_FLAG_SET (set_packet_mask b m1) e'
    = Ret (if decide (e' = e) then true else v) /\
    SOURCE_BLOCK_IS_FLAG_SET (set_packet_mask b m0) e'
    = Ret (if decide (e' = e) then false else v).
Proof.
  intros Hlen He He'.
  destruct (flag_word_bit e He) as (Hi & Hj & _ & _).
  destruct (flag_word_bit e' He') as (Hi' & Hj' & _ & _).
  destruct (lookup_lt_is_Some_2 (packet_mask b) (Z.to_nat (Z.shiftr e 6)))
    as [w Hw]; [lia|].
  destruct (lookup_lt_is_Some_2 (packet_mask b) (Z.to_nat (Z.shiftr e' 6)))
    as [w' Hw']; [lia|].
  unfold SOURCE_BLOCK_SET_FLAG, SOURCE_BLOCK_UNSET_FLAG, SOURCE_BLOCK_IS_FLAG_SET.
  rewrite Hw, Hw'. simpl.
  eexists _, _, _. split; [reflexivity|]. split; [reflexivity|].
  split; [reflexivity|]. rewrite !length_insert.
  split; [assumption|]. split; [assumption|].
  rewrite !land_bit by lia. rewrite negb_involutive.
  destruct (decide (Z.to_nat (Z.shiftr e 6) = Z.to_nat (Z.shiftr e' 6)))
    as [Heq|Hne].
  - rewrite <- Heq in *. rewrite !list_lookup_insert_eq by lia.
    assert (w' = w) as -> by congruence.
    rewrite !land_bit, !negb_involutive by lia.
    rewrite testbit_unset by lia.
    rewrite Z.lor_spec, Z.shiftl_1_l, Z.pow2_bits_eqb by lia.
    destruct (Z.ltb_spec (Z.land e' 63) 64); [|lia].
    destruct (decide (e' = e)) as [->|Hd].
    + rewrite !Z.eqb_refl, orb_true_r, andb_false_r. auto.
    + destruct (Z.eqb_spec (Z.land e 63) (Z.land e' 63)) as [Hb|Hb].
      { exfalso. apply Hd. symmetry. apply flag_same_place; auto. }
      destruct (Z.eqb_spec (Z.land e' 63) (Z.land e 63)); [congruence|].
      rewrite orb_false_r, !andb_true_r. auto.
  - rewrite !list_lookup_insert_ne by assumption. rewrite Hw'.
    rewrite !land_bit, !negb_involutive by lia.
    destruct (decide (e' = e)) as [->|Hd]; [congruence|]. auto.
Qed.

Lemma X4_presence_flags_witness :
  exists m1 m0 v,
    SOURCE_BLOCK_IS_FLAG_SET (new_source_block 4 0) 200 = Ret v /\
    SOURCE_BLOCK_SET_FLAG (new_source_block 4 0) 200
    = Ret (set_packet_mask (new_source_block 4 0) m1) /\
    SOURCE_BLOCK_UNSET_FLAG (new_source_block 4 0) 200
    = Ret (set_packet_mask (new_source_block 4 0) m0) /\
    length m1 = 8%nat /\ length m0 = 8%nat /\
    SOURCE_BLOCK_IS_FLAG_SET (set_packet_mask (new_source_block 4 0) m1) 200
    = Ret (if decide (200 = 200) then true else v) /\
    SOURCE_BLOCK_IS_FLAG_SET (set_packet_mask (new_source_block 4 0) m0) 200
    = Ret (if decide (200 = 200) then false else v).
Proof.
  apply (X4_presence_flags (new_source_block 4 0) 200 200);
    [reflexivity|lia|lia].
Defined.

End MaskFacts.

Module FramingFacts.
Import Enc EncInv Examples EncFacts.

(** The six bytes of a payload ID, read back. *)
Lemma payload_id_fields nr esi k :
  exists b0 b1 b2 b3 b4 b5,
    fec_payload_id nr esi k = [b0; b1; b2; b3; b4; b5] /\
    Dec.read_block_nr b0 b1 b2 = nr mod 2 ^ 24 /\
    byte_val b3 = esi mod 256 /\
    byte_val b4 * 256 + byte_val b5 = k mod 2 ^ 16.
Proof.
  eexists _, _, _, _, _, _. split; [reflexivity|].
  split; [apply (payload_id_block_nr nr esi k)|].
  rewrite !byte_val_guint8.
  rewrite !Z.shiftr_land. change (Z.shiftr 65280 8) with (Z.ones 8).
  change (Z.shiftr 255 0) with (Z.ones 8). change 255 with (Z.ones 8).
  rewrite !Z.land_ones by lia. rewrite !Z.shiftr_div_pow2 by lia.
  change (2 ^ 8) with 256. change (2 ^ 16) with 65536. change (2 ^ 0) with 1.
  split; Z.div_mod_to_equations; lia.
Qed.

Lemma source_packet_read adu nr esi k :
  Dec.gst_rs_fec_dec_source_packet_read_payload_id
    (adu ++ fec_payload_id nr esi k)
  = Ret (nr mod 2 ^ 24, esi mod 256).
Proof.
  destruct (payload_id_fields nr esi k)
    as (b0 & b1 & b2 & b3 & b4 & b5 & E & Hnr & Hesi & _).
  unfold Dec.gst_rs_fec_dec_source_packet_read_payload_id, gst_buffer_get_size.
  rewrite length_app. change (length (fec_payload_id nr esi k)) with 6%nat.
  destruct (Z.ltb_spec (Z.of_nat (length adu + 6)) 6) as [|_]; [lia|].
  replace (length adu + 6 - 6)%nat with (length adu) by lia.
  rewrite drop_app_length, E, Hnr, Hesi. reflexivity.
Qed.

Lemma repair_packet_read symbol nr esi k :
  Dec.gst_rs_fec_dec_repair_packet_read_payload_id
    (fec_payload_id nr esi k ++ symbol)
  = Ret (nr mod 2 ^ 24, esi mod 256).
Proof.
  destruct (payload_id_fields nr esi k)
    as (b0 & b1 & b2 & b3 & b4 & b5 & E & Hnr & Hesi & _).
  unfold Dec.gst_rs_fec_dec_repair_packet_read_payload_id.
  rewrite E. simpl. rewrite Hnr, Hesi. reflexivity.
Qed.

Lemma adu_of_framed adu nr esi k :
  gst_buffer_get_size adu < 2 ^ 64 ->
  Dec.adu_of_source_packet (adu ++ fec_payload_id nr esi k) = adu.
Proof.
  unfold Dec.adu_of_source_packet, gst_buffer_get_size, gsize. intros H.
  rewrite length_app. change (length (fec_payload_id nr esi k)) with 6%nat.
  replace (Z.of_nat (length adu + 6) - 6) with (Z.of_nat (length adu)) by lia.
  rewrite Z.mod_small by lia. rewrite Nat2Z.id. apply take_app_length.
Qed.

(** X5.  [gst_rs_fec_enc_push_adu] pushes exactly one buffer on the
    source pad and returns the answer of that push.  The buffer is the ADU
    followed by 6 bytes; the decoder's
    [gst_rs_fec_dec_source_packet_read_payload_id] reads from it the
    encoder's block counter modulo 2^24 and the ESI modulo 256, the ADU
    the decoder extracts from it is the ADU that was passed in, and its
    last two bytes hold the number of source symbols modulo 2^16, high
    byte first. *)
Theorem X5_source_packet_round_trip W e adu esi ret e' :
  gst_buffer_get_size adu < 2 ^ 64 ->
  gst_rs_fec_enc_push_adu W e adu esi = (ret, e') ->
  exists p b4 b5,
    log e' = log e ++ [EvSourcePacket p] /\
    ret = fecsourcepad_push W (log e) p /\
    gst_buffer_get_size p = gst_buffer_get_size adu + 6 /\
    Dec.gst_rs_fec_dec_source_packet_read_payload_id p
    = Ret (cur_source_block_nr e mod 2 ^ 24, esi mod 256) /\
    Dec.adu_of_source_packet p = adu /\
    drop (length adu + 4) p = [b4; b5] /\
    byte_val b4 * 256 + byte_val b5 = num_source_symbols e mod 2 ^ 16.
Proof.
  intros Hsize H. unfold gst_rs_fec_enc_push_adu in H.
  set (p := adu ++ fec_payload_id (cur_source_block_nr e) esi
                     (num_source_symbols e)) in *.
  destruct (payload_id_fields (cur_source_block_nr e) esi (num_source_symbols e))
    as (b0 & b1 & b2 & b3 & b4 & b5 & E & _ & _ & Hk).
  exists p, b4, b5. inversion H; subst ret e'. clear H.
  split; [destruct (first_source_packet e); reflexivity|].
  split; [reflexivity|].
  split; [unfold p, gst_buffer_get_size; rewrite length_app;
          change (length (fec_payload_id _ _ _)) with 6%nat; lia|].
  split; [apply source_packet_read|].
  split; [apply adu_of_framed; assumption|].
  split; [|exact Hk].
  unfold p. rewrite drop_app_ge by lia.
  replace (length adu + 4 - length adu)%nat with 4%nat by lia.
  rewrite E. reflexivity.
Qed.

Lemma X5_source_packet_round_trip_witness :
  exists p b4 b5,
    log (gst_rs_fec_enc_push_adu enc_accepting (configure 4 2) ["a"%byte] 0).2
    = [EvSourcePacket p] /\
    Dec.gst_rs_fec_dec_source_packet_read_payload_id p = Ret (0, 0) /\
    Dec.adu_of_source_packet p = ["a"%byte] /\
    drop 5 p = [b4; b5] /\ byte_val b4 * 256 + byte_val b5 = 4.
Proof.
  destruct (X5_source_packet_round_trip enc_accepting (configure 4 2)
              ["a"%byte] 0 GST_FLOW_OK
              (gst_rs_fec_enc_push_adu enc_accepting (configure 4 2)
                 ["a"%byte] 0).2)
    as (p & b4 & b5 & L & _ & _ & R & A & D & K).
  - vm_compute. reflexivity.
  - reflexivity.
  - exists p, b4, b5. auto.
Defined.

End FramingFacts.

Module EncMore.
Import Enc EncInv Examples EncFacts FramingFacts.

(** ** The encoder: the queue of ADUs *)

Ltac conjs :=
  repeat match goal with
         | |- _ /\ _ =>
             split; [first [assumption|reflexivity|congruence|lia|idtac]|]
         end.

Lemma max_adu_length_snoc adus adu :
  max_adu_length (adus ++ [adu])
  = Z.max (gst_buffer_get_size adu) (max_adu_length adus).
Proof. unfold max_adu_length. rewrite foldl_app. reflexivity. Qed.

Lemma max_adu_length_bounds adus M :
  0 <= M -> Forall (fun adu => gst_buffer_get_size adu <= M) adus ->
  0 <= max_adu_length adus <= M /\
  Forall (fun adu => gst_buffer_get_size adu <= max_adu_length adus) adus.
Proof.
  intros HM. induction adus as [|adu adus IH] using rev_ind; intros F.
  - split; [unfold max_adu_length; simpl; lia|constructor].
  - apply Forall_app in F. destruct F as [F Fa].
    apply Forall_cons in Fa. destruct Fa as [Ha _].
    destruct (IH F) as [Hb Hall]. rewrite max_adu_length_snoc.
    split; [lia|]. apply Forall_app. split.
    + eapply Forall_impl; [exact Hall|]. simpl. intros. lia.
    + repeat constructor. lia.
Qed.

Lemma same_block_refl e : same_block e e.
Proof. repeat split. Qed.

Lemma same_block_trans e1 e2 e3 :
  same_block e1 e2 -> same_block e2 e3 -> same_block e1 e3.
Proof. unfold same_block. intuition congruence. Qed.

Lemma queued_length e adus :
  queued e adus -> Z.of_nat (length adus) <= num_source_symbols e ->
  length (adu_table e) = Z.to_nat (num_source_symbols e).
Proof.
  intros [Ht _] Hle. rewrite Ht, length_app, length_fmap, length_replicate. lia.
Qed.

Lemma queued_snoc (adus : list GstBuffer) (adu : GstBuffer) (k : nat) :
  (length adus < k)%nat ->
  <[length adus := Some adu]> ((Some <$> adus) ++ replicate (k - length adus) None)
  = (Some <$> (adus ++ [adu])) ++ replicate (k - length (adus ++ [adu])) None.
Proof.
  intros Hlt. rewrite length_app. simpl.
  replace (k - length adus)%nat with (S (k - (length adus + 1))) by lia.
  rewrite insert_app_r_alt by (rewrite length_fmap; lia).
  rewrite length_fmap, Nat.sub_diag. simpl.
  rewrite fmap_app, <- app_assoc. reflexivity.
Qed.

(** The loop that turns the queued ADUs into ADUIs. *)
Lemma adui_loop_run len : forall rest n tail e symbols,
  adu_table e = replicate n None ++ (Some <$> rest) ++ tail ->
  cur_num_adus e = Z.of_nat (length rest) ->
  Z.of_nat (length rest) < 2 ^ 32 ->
  Forall (fun adu => gst_buffer_get_size adu <= cur_max_adu_length e) rest ->
  0 <= cur_max_adu_length e <= 65535 ->
  len = 3 + cur_max_adu_length e ->
  adui_loop len (seqZ (Z.of_nat n) (Z.of_nat (length rest))) e symbols
  = Ret (set_adus e (replicate (n + length rest) None ++ tail) 0
           (cur_max_adu_length e),
         symbols ++ (adui (cur_max_adu_length e) <$> rest)).
Proof.
  induction rest as [|adu rest IH]; intros n tail e symbols Ht Hn Hk F Hmax Hlen.
  - simpl. rewrite app_nil_r, Nat.add_0_r. destruct e; simpl in *.
    subst. reflexivity.
  - simpl length in *. rewrite Nat2Z.inj_succ, seqZ_cons by lia.
    rewrite Z.pred_succ. simpl adui_loop.
    simpl in Hn. rewrite Hn.
    destruct (Z.gtb_spec (Z.of_nat (S (length rest))) 0) as [_|]; [|lia].
    simpl. rewrite Nat2Z.id, Ht.
    rewrite lookup_app_r by (rewrite length_replicate; lia).
    rewrite length_replicate, Nat.sub_diag. simpl.
    apply Forall_cons in F. destruct F as [Ha F].
    assert (0 <= gst_buffer_get_size adu) as Hge
      by (unfold gst_buffer_get_size; lia).
    replace (gsize (gst_buffer_get_size adu + 3))
      with (gst_buffer_get_size adu + 3)
      by (unfold gsize; rewrite Z.mod_small; lia).
    replace (gsize (cur_max_adu_length e - gst_buffer_get_size adu))
      with (cur_max_adu_length e - gst_buffer_get_size adu)
      by (unfold gsize; rewrite Z.mod_small; lia).
    destruct (Z.leb_spec (gst_buffer_get_size adu + 3) len) as [_|]; [|lia].
    simpl.
    rewrite <- Nat2Z.inj_succ.
    rewrite (IH (S n) tail);
      cbn [adu_table cur_num_adus cur_max_adu_length set_adus];
      try assumption; try lia.
    + replace (n + S (length rest))%nat with (S (n + length rest)) by lia.
      rewrite <- app_assoc. reflexivity.
    + rewrite insert_app_r_alt by (rewrite length_replicate; lia).
      rewrite length_replicate, Nat.sub_diag. cbn [list_insert insert].
      transitivity (replicate (S n) None ++ (Some <$> rest) ++ tail);
        [rewrite replicate_S_end, <- app_assoc|]; reflexivity.
    + rewrite guint_small by lia. lia.
Qed.


Lemma cleanup_spec e :
  length (adu_table e) = Z.to_nat (num_source_symbols e) ->
  (cur_num_adus e = 0 ->
   adu_table e = replicate (Z.to_nat (num_source_symbols e)) None) ->
  queued (process_cleanup e) [] /\
  cur_max_adu_length (process_cleanup e) = 0 /\
  cur_num_fec_repair_packets (process_cleanup e) = 0 /\
  log (process_cleanup e) = log e /\
  num_source_symbols (process_cleanup e) = num_source_symbols e /\
  num_repair_symbols (process_cleanup e) = num_repair_symbols e /\
  eos_received (process_cleanup e) = eos_received e /\
  cur_source_block_nr (process_cleanup e) = cur_source_block_nr e.
Proof.
  intros Hlen Hzero.
  unfold process_cleanup, gst_rs_fec_enc_flush_all_fec_repair_packets,
    gst_rs_fec_enc_flush_all_adus, queued.
  destruct (Z.eqb_spec (cur_num_adus e) 0) as [Hz|Hnz].
  - destruct (Z.eqb_spec (cur_num_fec_repair_packets e) 0) as [Hr|Hr];
      cbn; rewrite Nat.sub_0_r; auto 10.
  - cbn. rewrite drop_ge by lia. rewrite app_nil_r.
    destruct (Z.eqb_spec (cur_num_fec_repair_packets e) 0) as [Hr|Hr];
      cbn; rewrite Nat.sub_0_r; auto 10.
Qed.

Lemma configure_fec_spec W e len ok e0 :
  gst_rs_fec_enc_configure_fec W e len = (ok, e0) ->
  same_block e e0 /\
  cur_num_fec_repair_packets e0 = cur_num_fec_repair_packets e /\
  (cooperative W -> ok = true) /\
  exists new, log e0 = log e ++ new /\
    source_packets_of new = [] /\ repair_packets_of new = [] /\
    repair_symbol_requests new = [].
Proof.
  unfold gst_rs_fec_enc_configure_fec. intros H.
  destruct (encoding_symbol_length e =? len).
  { inversion H; subst. split; [apply same_block_refl|].
    split; [reflexivity|]. split; [reflexivity|].
    exists []. rewrite app_nil_r. auto. }
  destruct (of_set_fec_parameters W (log e) (num_source_symbols e)
              (num_repair_symbols e) len) eqn:Hs;
    cbn in H; inversion H; subst; clear H;
    (split; [repeat split|]); (split; [reflexivity|]);
    (split; [try reflexivity; intros (_ & _ & Hc & _); rewrite Hc in Hs;
             discriminate|]);
    try (eexists [_]; cbn; split; [reflexivity|auto]).
  eexists [_; _]. cbn. rewrite <- app_assoc. split; [reflexivity|auto].
Qed.

Lemma push_start_events_spec e :
  same_block e (push_start_events e) /\
  cur_num_fec_repair_packets (push_start_events e)
  = cur_num_fec_repair_packets e /\
  exists new, log (push_start_events e) = log e ++ new /\
    source_packets_of new = [] /\ repair_packets_of new = [] /\
    repair_symbol_requests new = [].
Proof.
  unfold push_start_events.
  destruct (segment_started e).
  { split; [apply same_block_refl|]. split; [reflexivity|].
    exists []. rewrite app_nil_r. auto. }
  destruct (stream_started e) eqn:Hs; cbn; rewrite ?Hs; cbn.
  - split; [repeat split|]. split; [reflexivity|].
    eexists [_; _]. rewrite <- app_assoc. split; [reflexivity|auto].
  - split; [repeat split|]. split; [reflexivity|].
    eexists [_; _; _; _]. rewrite <- !app_assoc. split; [reflexivity|auto].
Qed.


(** The loop over the repair symbols returns, whatever OpenFEC and
    downstream answer; when they cooperate it asks for the symbols with
    ESI k, k+1, ... and pushes a packet for each. *)
Lemma repair_loop_run W nr symbols : forall indices e,
  cur_num_fec_repair_packets e = Z.of_nat (length indices) ->
  Z.of_nat (length indices) < 2 ^ 32 ->
  exists ret e' new,
    repair_loop W nr symbols indices e = Ret (ret, e') /\
    same_block e e' /\
    log e' = log e ++ new /\
    source_packets_of new = [] /\
    (cooperative W ->
     ret = GST_FLOW_OK /\
     repair_symbol_requests new
     = (fun i => (symbols, guint (i + num_source_symbols e))) <$> indices /\
     Dec.gst_rs_fec_dec_repair_packet_read_payload_id <$> repair_packets_of new
     = (fun i => Ret (nr mod 2 ^ 24, guint (i + num_source_symbols e) mod 256))
       <$> indices).
Proof.
  induction indices as [|i rest IH]; intros e Hcnt Hbound.
  - exists GST_FLOW_OK, e, []. rewrite app_nil_r.
    split; [reflexivity|]. split; [apply same_block_refl|]. auto.
  - simpl length in *. cbn [repair_loop].
    set (esi := guint (i + num_source_symbols e)).
    destruct (of_build_repair_symbol W (log e) symbols esi)
      as [status symbol] eqn:Hb.
    set (ev := EvOpenFEC (OfBuildRepairSymbol symbols esi)).
    destruct (of_is_ok status) eqn:Hok; cbn [negb].
    2: { exists GST_FLOW_ERROR, (CHECK_IF_FATAL_ERROR (emit e ev) status).
         destruct status; try discriminate; cbn;
           (eexists; split; [reflexivity|]; split; [repeat split|];
            split; [try rewrite <- app_assoc; reflexivity|];
            split; [reflexivity|];
            intros (_ & _ & _ & Hc); specialize (Hc (log e) symbols esi);
            rewrite Hb in Hc; discriminate). }
    cbn [cur_num_fec_repair_packets emit set_log]. rewrite Hcnt.
    destruct (Z.gtb_spec (Z.of_nat (S (length rest))) 0) as [_|]; [|lia].
    cbn [assert_that mbind run_bind].
    set (pkt := fec_payload_id nr esi (num_source_symbols (emit e ev)) ++ symbol).
    match goal with
    | |- context [if flow_is_ok ?r then repair_loop _ _ _ _ ?x else _] =>
        set (ret := r); set (e3 := x)
    end.
    assert (same_block e e3) as Hsame
      by (subst e3; destruct (first_repair_packet e) eqn:Hf; cbn; rewrite ?Hf;
          repeat split).
    assert (log e3 = log e ++ [ev; EvRepairPacket pkt]) as Hlog
      by (subst e3; destruct (first_repair_packet e) eqn:Hf; cbn; rewrite ?Hf;
          cbn; rewrite <- app_assoc; reflexivity).
    assert (cur_num_fec_repair_packets e3 = Z.of_nat (length rest)) as Hcnt3.
    { subst e3; destruct (first_repair_packet e) eqn:Hf; cbn; rewrite ?Hf; cbn;
        rewrite guint_small by lia; lia. }
    assert (num_source_symbols e3 = num_source_symbols e) as Hk
      by (apply Hsame).
    destruct (flow_is_ok ret) eqn:Hret.
    + destruct (IH e3 Hcnt3 ltac:(lia)) as (ret' & e' & new & Hrun & Hs & L & Hsp & Hco).
      exists ret', e', ([ev; EvRepairPacket pkt] ++ new).
      split; [exact Hrun|]. split; [eapply same_block_trans; eassumption|].
      split; [rewrite L, Hlog, <- app_assoc; reflexivity|].
      split; [exact Hsp|].
      intros Hcoop. destruct (Hco Hcoop) as (-> & Hreq & Hrd).
      split; [reflexivity|]. rewrite Hk in Hreq, Hrd. split.
      * change (repair_symbol_requests ([ev; EvRepairPacket pkt] ++ new))
          with ((symbols, esi) :: repair_symbol_requests new).
        rewrite Hreq. reflexivity.
      * change (repair_packets_of ([ev; EvRepairPacket pkt] ++ new))
          with (pkt :: repair_packets_of new).
        rewrite !fmap_cons, Hrd. unfold pkt.
        rewrite repair_packet_read. reflexivity.
    + exists ret, e3, [ev; EvRepairPacket pkt].
      split; [reflexivity|]. split; [exact Hsame|]. split; [exact Hlog|].
      split; [reflexivity|].
      intros (_ & Hc & _). subst ret. rewrite Hc in Hret. discriminate.
Qed.


Lemma source_packets_of_app l1 l2 :
  source_packets_of (l1 ++ l2) = source_packets_of l1 ++ source_packets_of l2.
Proof. apply omap_app. Qed.

Lemma repair_packets_of_app l1 l2 :
  repair_packets_of (l1 ++ l2) = repair_packets_of l1 ++ repair_packets_of l2.
Proof. apply omap_app. Qed.

Lemma repair_symbol_requests_app l1 l2 :
  repair_symbol_requests (l1 ++ l2)
  = repair_symbol_requests l1 ++ repair_symbol_requests l2.
Proof. apply omap_app. Qed.

(** The processing of a full block returns, whatever OpenFEC and
    downstream answer, and leaves the queue empty. *)
Lemma process_run W e adus :
  1 <= num_source_symbols e < 2 ^ 32 ->
  0 <= num_repair_symbols e < 2 ^ 32 ->
  queued e adus ->
  Z.of_nat (length adus) = num_source_symbols e ->
  Forall (fun adu => gst_buffer_get_size adu <= 65535) adus ->
  cur_max_adu_length e = max_adu_length adus ->
  exists ret e' new,
    gst_rs_fec_enc_process_source_block W e = Ret (ret, e') /\
    log e' = log e ++ new /\
    num_source_symbols e' = num_source_symbols e /\
    num_repair_symbols e' = num_repair_symbols e /\
    eos_received e' = eos_received e /\
    queued e' [] /\
    cur_max_adu_length e' = 0 /\
    cur_num_fec_repair_packets e' = 0 /\
    source_packets_of new = [] /\
    (cooperative W ->
     ret = GST_FLOW_OK /\
     cur_source_block_nr e' = guint (cur_source_block_nr e + 1) /\
     repair_symbol_requests new
     = (fun i => (adui (max_adu_length adus) <$> adus,
                  guint (i + num_source_symbols e)))
       <$> seqZ 0 (num_repair_symbols e) /\
     Dec.gst_rs_fec_dec_repair_packet_read_payload_id <$> repair_packets_of new
     = (fun i => Ret (cur_source_block_nr e mod 2 ^ 24,
                      guint (i + num_source_symbols e) mod 256))
       <$> seqZ 0 (num_repair_symbols e)).
Proof.
  intros Hk Hr Hq Hfull Fsize Hmax.
  pose proof (max_adu_length_bounds adus 65535 ltac:(lia) Fsize) as [HM FM].
  pose proof (queued_length e adus Hq ltac:(lia)) as Hlen.
  destruct Hq as [Ht Hn].
  unfold gst_rs_fec_enc_process_source_block.
  destruct (Z.ltb_spec (cur_num_adus e) (num_source_symbols e)) as [|_]; [lia|].
  set (k := num_source_symbols e) in *. set (r := num_repair_symbols e) in *.
  set (c := cur_source_block_nr e) in *. set (M := max_adu_length adus) in *.
  replace (gsize (1 + 2 + cur_max_adu_length e)) with (3 + M)
    by (unfold gsize; rewrite Z.mod_small; lia).
  match goal with
  | |- context [mbind _ ?m] => set (pre := m)
  end.
  assert (exists configured e1 symbols new1,
             pre = Ret (configured, e1, symbols) /\
             num_source_symbols e1 = k /\ num_repair_symbols e1 = r /\
             eos_received e1 = eos_received e /\
             cur_source_block_nr e1 = c /\
             length (adu_table e1) = Z.to_nat k /\
             (cur_num_adus e1 = 0 ->
              adu_table e1 = replicate (Z.to_nat k) None) /\
             log e1 = log e ++ new1 /\
             source_packets_of new1 = [] /\ repair_packets_of new1 = [] /\
             repair_symbol_requests new1 = [] /\
             (cooperative W -> configured = true) /\
             (0 < r -> configured = true -> symbols = adui M <$> adus))
    as (configured & e1 & symbols & new1 & Hpre & Hk1 & Hr1 & Heos1 & Hc1 &
        Hlen1 & Hz1 & L1 & S1 & R1 & Q1 & Hco1 & Hsym).
  { subst pre. destruct (Z.gtb_spec r 0) as [Hpos|Hzero].
    - destruct (gst_rs_fec_enc_configure_fec W e (3 + M)) as [ok e0] eqn:Hcfg.
      destruct (configure_fec_spec W e (3 + M) ok e0 Hcfg)
        as ((K1 & K2 & K3 & K4 & K5 & K6 & K7) & _ & Hco & new & L & S & R & Q).
      destruct ok; cbn [negb].
      + assert (adui_loop (3 + M) (seqZ 0 (num_source_symbols e0)) e0 []
                = Ret (set_adus e0
                         (replicate (0 + length adus) None
                          ++ replicate (Z.to_nat k - length adus) None)
                         0 (cur_max_adu_length e0),
                       [] ++ (adui (cur_max_adu_length e0) <$> adus)))
          as Hloop.
        { replace (seqZ 0 (num_source_symbols e0))
            with (seqZ (Z.of_nat 0) (Z.of_nat (length adus)))
            by (rewrite K1; f_equal; lia).
          apply adui_loop_run.
          - rewrite K3. exact Ht.
          - rewrite K4. exact Hn.
          - lia.
          - rewrite K5, Hmax. exact FM.
          - rewrite K5, Hmax. exact HM.
          - rewrite K5, Hmax. reflexivity. }
        rewrite Hloop. cbn [mbind run_bind].
        eexists _, _, _, new. split; [reflexivity|].
        cbn [num_source_symbols num_repair_symbols eos_received
             cur_source_block_nr adu_table cur_num_adus log set_adus].
        rewrite K5, Hmax. fold M.
        split; [assumption|]. split; [assumption|]. split; [assumption|].
        split; [assumption|].
        split; [rewrite length_app, !length_replicate; lia|].
        split.
        { intros _. replace (Z.to_nat k - length adus)%nat with 0%nat by lia.
          rewrite app_nil_r. f_equal. lia. }
        split; [assumption|]. split; [assumption|]. split; [assumption|].
        split; [assumption|]. split; [reflexivity|]. intros _ _. reflexivity.
      + eexists _, _, _, new. split; [reflexivity|].
        rewrite K1, K2, K3, K4, K6, K7.
        conjs.
        intros _ ?. discriminate.
    - eexists _, _, _, []. split; [reflexivity|]. rewrite app_nil_r.
      conjs.
      intros. lia. }
  rewrite Hpre. cbn [mbind run_bind].
  destruct configured; cbn [negb].
  2: { destruct (cleanup_spec e1 ltac:(rewrite Hk1; exact Hlen1)
                   ltac:(rewrite Hk1; exact Hz1))
         as (Cq & Cm & Cr & Cl & Ck & Crr & Ce & Cc).
       exists GST_FLOW_ERROR, (process_cleanup e1), new1.
       split; [reflexivity|]. rewrite Cl, Ck, Crr, Ce.
       conjs.
       intros Hco. specialize (Hco1 Hco). discriminate. }
  destruct (push_start_events_spec e1)
    as ((P1 & P2 & P3 & P4 & P5 & P6 & P7) & _ & new2 & L2 & S2 & R2 & Q2).
  set (e2 := push_start_events e1) in *.
  set (e3 := set_cur_num_fec_repair_packets e2 (num_repair_symbols e2)).
  destruct (repair_loop_run W c symbols (seqZ 0 (num_repair_symbols e3)) e3)
    as (ret & e4 & new3 & Hrun & (T1 & T2 & T3 & T4 & T5 & T6 & T7) & L3 & S3 & Hco3).
  { cbn. rewrite length_seqZ. lia. }
  { rewrite length_seqZ. cbn. lia. }
  rewrite Hrun. cbn [mbind run_bind].
  cbn [num_source_symbols num_repair_symbols eos_received cur_source_block_nr
       adu_table cur_num_adus cur_max_adu_length log
       set_cur_num_fec_repair_packets e3] in *.
  assert (log e4 = log e ++ new1 ++ new2 ++ new3) as L4
    by (rewrite L3, L2, L1, <- !app_assoc; reflexivity).
  assert (source_packets_of (new1 ++ new2 ++ new3) = []) as S4
    by (rewrite !source_packets_of_app, S1, S2, S3; reflexivity).
  assert (length (adu_table e4) = Z.to_nat (num_source_symbols e4)) as Hlen4
    by congruence.
  assert (cur_num_adus e4 = 0 ->
          adu_table e4 = replicate (Z.to_nat (num_source_symbols e4)) None)
    as Hz4 by (rewrite T1, T3, T4, P1, P3, P4, Hk1; exact Hz1).
  destruct (flow_is_ok ret) eqn:Hret.
  - set (e5 := set_cur_source_block_nr e4 (guint (cur_source_block_nr e4 + 1))).
    destruct (cleanup_spec e5 Hlen4 Hz4)
      as (Cq & Cm & Cr & Cl & Ck & Crr & Ce & Cc).
    exists ret, (process_cleanup e5), (new1 ++ new2 ++ new3).
    split; [reflexivity|]. rewrite Cl, Ck, Crr, Ce, Cc. cbn [log e5 set_cur_source_block_nr num_source_symbols num_repair_symbols eos_received cur_source_block_nr].
    conjs.
    intros Hco. destruct (Hco3 Hco) as (_ & Hreq & Hrd).
    split; [apply enc_flow_is_ok_iff; assumption|].
    split; [congruence|].
    rewrite !repair_symbol_requests_app, !repair_packets_of_app.
    rewrite Q1, Q2, R1, R2. cbn [app].
    rewrite Hreq, Hrd. rewrite P2, Hr1, P1, Hk1. split; [|reflexivity].
    destruct (Z.eq_dec r 0) as [->|]; [reflexivity|].
    rewrite Hsym by (auto; lia). reflexivity.
  - destruct (cleanup_spec e4 Hlen4 Hz4)
      as (Cq & Cm & Cr & Cl & Ck & Crr & Ce & Cc).
    exists ret, (process_cleanup e4), (new1 ++ new2 ++ new3).
    split; [reflexivity|]. rewrite Cl, Ck, Crr, Ce.
    conjs.
    intros Hco. destruct (Hco3 Hco) as (-> & _). discriminate.
Qed.

End EncMore.

Module EncSafety.
Import Enc EncInv Examples EncFacts FramingFacts EncMore.

Lemma queued_unique e adus adus' :
  queued e adus -> queued e adus' -> adus' = adus.
Proof.
  intros [Ht Hn] [Ht' Hn'].
  assert (length adus' = length adus) as Hlen by lia.
  rewrite Ht', Hlen in Ht.
  apply app_inj_1 in Ht; [|rewrite !length_fmap; assumption].
  destruct Ht as [Ht _].
  symmetry. apply (inj (fmap Some)). symmetry. exact Ht.
Qed.

Lemma flush_all_adus_queued e adus :
  queued e adus -> Z.of_nat (length adus) <= num_source_symbols e ->
  queued (gst_rs_fec_enc_flush_all_adus e) [].
Proof.
  intros Hq Hle. pose proof (queued_length e adus Hq Hle) as Hlen.
  destruct Hq as [Ht Hn].
  unfold gst_rs_fec_enc_flush_all_adus, queued.
  destruct (Z.eqb_spec (cur_num_adus e) 0) as [Hz|Hnz]; cbn.
  - destruct adus; [|simpl in Hn; lia]. rewrite Ht. cbn.
    rewrite Nat.sub_0_r. auto.
  - rewrite drop_ge by lia. rewrite app_nil_r, Nat.sub_0_r. auto.
Qed.

Lemma enc_wf_flush e :
  enc_wf e -> enc_wf (gst_rs_fec_enc_flush e) /\
  queued (gst_rs_fec_enc_flush e) [] /\
  eos_received (gst_rs_fec_enc_flush e) = false.
Proof.
  intros [Hk Hr (adus & Hq & Hlt & F & Hm) Hmax Hrep].
  pose proof (flush_all_adus_queued e adus Hq ltac:(lia)) as Hq'.
  assert (queued (gst_rs_fec_enc_flush e) []) as Hqf.
  { unfold gst_rs_fec_enc_flush, gst_rs_fec_enc_flush_all_fec_repair_packets.
    destruct (_ =? 0); exact Hq'. }
  split; [|split; [exact Hqf|reflexivity]].
  split.
  - unfold gst_rs_fec_enc_flush, gst_rs_fec_enc_flush_all_fec_repair_packets,
      gst_rs_fec_enc_flush_all_adus.
    destruct (cur_num_adus e =? 0); cbn; destruct (_ =? 0); exact Hk.
  - unfold gst_rs_fec_enc_flush, gst_rs_fec_enc_flush_all_fec_repair_packets,
      gst_rs_fec_enc_flush_all_adus.
    destruct (cur_num_adus e =? 0); cbn; destruct (_ =? 0); exact Hr.
  - exists []. split; [exact Hqf|]. split.
    + unfold gst_rs_fec_enc_flush, gst_rs_fec_enc_flush_all_fec_repair_packets,
        gst_rs_fec_enc_flush_all_adus.
      destruct (cur_num_adus e =? 0); cbn; destruct (_ =? 0); cbn; lia.
    + split; [constructor|]. intros _. reflexivity.
  - cbn. lia.
  - unfold gst_rs_fec_enc_flush, gst_rs_fec_enc_flush_all_fec_repair_packets,
      gst_rs_fec_enc_flush_all_adus.
    destruct (cur_num_adus e =? 0); cbn;
      destruct (Z.eqb_spec (cur_num_fec_repair_packets e) 0); cbn; auto.
Qed.


(** One ADU on the sink pad of an encoder that accepts data. *)
Lemma sink_chain_accepted W e adus buffer :
  enc_wf e -> queued e adus -> eos_received e = false ->
  gst_buffer_get_size buffer <= 65535 ->
  let k := num_source_symbols e in
  let c := cur_source_block_nr e in
  let p := buffer ++ fec_payload_id c (Z.of_nat (length adus)) k in
  let pushed := fecsourcepad_push W (log e) p in
  exists ret e' new,
    gst_rs_fec_enc_sink_chain W e buffer = Ret (ret, e') /\
    log e' = log e ++ EvSourcePacket p :: new /\
    source_packets_of new = [] /\
    enc_wf e' /\ eos_received e' = false /\
    num_source_symbols e' = k /\
    num_repair_symbols e' = num_repair_symbols e /\
    (pushed <> GST_FLOW_OK ->
     ret = pushed /\ new = [] /\ queued e' adus /\
     cur_max_adu_length e' = cur_max_adu_length e /\
     cur_source_block_nr e' = c) /\
    (pushed = GST_FLOW_OK -> Z.of_nat (length adus) + 1 < k ->
     ret = GST_FLOW_OK /\ new = [] /\ queued e' (adus ++ [buffer]) /\
     cur_max_adu_length e' = max_adu_length (adus ++ [buffer]) /\
     cur_source_block_nr e' = c) /\
    (pushed = GST_FLOW_OK -> Z.of_nat (length adus) + 1 = k ->
     queued e' [] /\
     (cooperative W ->
      ret = GST_FLOW_OK /\
      cur_source_block_nr e' = guint (c + 1) /\
      repair_symbol_requests new
      = (fun i => (adui (max_adu_length (adus ++ [buffer]))
                     <$> (adus ++ [buffer]),
                   guint (i + k)))
        <$> seqZ 0 (num_repair_symbols e) /\
      Dec.gst_rs_fec_dec_repair_packet_read_payload_id <$> repair_packets_of new
      = (fun i => Ret (c mod 2 ^ 24, guint (i + k) mod 256))
        <$> seqZ 0 (num_repair_symbols e))).
Proof.
  intros Hwf Hq Heos Hsize k c p pushed.
  destruct Hwf as [Hk Hr (adus0 & Hq0 & Hlt & F & Hm) Hmax Hrep].
  rewrite (queued_unique e adus adus0 Hq Hq0) in *. clear Hq0.
  specialize (Hm Heos).
  pose proof (queued_length e adus Hq ltac:(lia)) as Hlen.
  destruct Hq as [Ht Hn].
  unfold gst_rs_fec_enc_sink_chain. rewrite Heos.
  destruct (Z.gtb_spec (gst_buffer_get_size buffer) 65535) as [|_]; [lia|].
  unfold gst_rs_fec_enc_push_adu. rewrite Hn. fold k c p pushed.
  set (e1 := emit (if first_source_packet e
                   then set_first_packets e false (first_repair_packet e)
                   else e) (EvSourcePacket p)).
  assert (same_block e e1 /\ log e1 = log e ++ [EvSourcePacket p] /\
          cur_num_fec_repair_packets e1 = 0) as (Hs1 & L1 & Hrep1)
    by (subst e1; destruct (first_source_packet e); cbn; repeat split;
        assumption).
  destruct Hs1 as (K1 & K2 & K3 & K4 & K5 & K6 & K7). clearbody e1.
  destruct (flow_is_ok pushed) eqn:Hok; cbn [negb].
  2: { exists pushed, e1, []. split; [reflexivity|]. split; [exact L1|].
       split; [reflexivity|]. split.
       { split; try congruence.
         exists adus. split; [split; congruence|]. split; [congruence|].
         split; [assumption|]. intros _. congruence. }
       split; [congruence|]. split; [assumption|]. split; [assumption|].
       split; [|split].
       - intros _. split; [reflexivity|]. split; [reflexivity|].
         split; [split; congruence|]. split; assumption.
       - intros Hp. rewrite Hp in Hok. discriminate.
       - intros Hp. rewrite Hp in Hok. discriminate. }
  apply enc_flow_is_ok_iff in Hok.
  unfold gst_rs_fec_enc_insert_adu. rewrite K3, K4, K5, Hn, Nat2Z.id.
  destruct (Nat.leb_spec (length (adu_table e)) (length adus)) as [|_]; [lia|].
  cbn [mbind run_bind]. rewrite Ht.
  rewrite queued_snoc by lia.
  set (block := adus ++ [buffer]).
  set (e2 := set_adus _ _ (guint _) _).
  assert (Forall (fun adu => gst_buffer_get_size adu <= 65535) block) as Fb
    by (apply Forall_app; split; [assumption|repeat constructor; assumption]).
  assert (Z.max (gst_buffer_get_size buffer) (cur_max_adu_length e)
          = max_adu_length block) as Hmb
    by (unfold block; rewrite max_adu_length_snoc, Hm; reflexivity).
  pose proof (max_adu_length_bounds block 65535 ltac:(lia) Fb) as [HMb _].
  assert (Z.of_nat (length block) = Z.of_nat (length adus) + 1) as Hlb
    by (unfold block; rewrite length_app; simpl; lia).
  assert (queued e2 block /\ cur_max_adu_length e2 = max_adu_length block /\
          num_source_symbols e2 = k /\
          num_repair_symbols e2 = num_repair_symbols e /\
          eos_received e2 = false /\ cur_source_block_nr e2 = c /\
          log e2 = log e ++ [EvSourcePacket p] /\
          cur_num_fec_repair_packets e2 = 0)
    as (Hq2 & Hm2 & Hk2 & Hr2 & Heos2 & Hc2 & L2 & Hrep2).
  { subst e2. unfold queued. simpl. rewrite K1. fold k. split.
    - split; [reflexivity|]. rewrite guint_small by lia. lia.
    - split; [exact Hmb|]. repeat split; try congruence. exact K7. }
  destruct (Z.eq_dec (Z.of_nat (length adus) + 1) k) as [Hfull|Hnot].
  - destruct (process_run W e2 block ltac:(rewrite Hk2; exact Hk)
                ltac:(rewrite Hr2; exact Hr) Hq2 ltac:(rewrite Hk2; lia) Fb Hm2)
      as (ret & e' & new & Hrun & L & Hk' & Hr' & Heos' & Hq' & Hm' & Hrep' &
          Hsp & Hco).
    exists ret, e', new. split; [exact Hrun|].
    split; [rewrite L, L2, <- app_assoc; reflexivity|].
    split; [exact Hsp|]. split.
    { split; try congruence; try lia.
      exists []. split; [exact Hq'|]. split; [simpl; lia|].
      split; [constructor|]. intros _. exact Hm'. }
    split; [congruence|]. split; [congruence|]. split; [congruence|].
    split; [intros Hp; contradiction|]. split; [intros _ Hlt'; lia|].
    intros _ _. split; [exact Hq'|]. intros Hcoop.
    destruct (Hco Hcoop) as (-> & Hc' & Hreq & Hrd).
    rewrite Hk2, Hr2, Hc2 in *. auto.
  - assert (gst_rs_fec_enc_process_source_block W e2 = Ret (GST_FLOW_OK, e2))
      as Hrun.
    { unfold gst_rs_fec_enc_process_source_block.
      destruct Hq2 as [_ Hn2]. rewrite Hn2, Hk2.
      destruct (Z.ltb_spec (Z.of_nat (length block)) k); [reflexivity|lia]. }
    exists GST_FLOW_OK, e2, []. split; [exact Hrun|]. split; [exact L2|].
    split; [reflexivity|]. split.
    { split; try congruence; try lia.
      exists block. split; [exact Hq2|]. split; [lia|].
      split; [exact Fb|]. intros _. exact Hm2. }
    split; [congruence|]. split; [congruence|]. split; [congruence|].
    split; [intros Hp; contradiction|]. split; [|intros _ Hf; lia].
    intros _ _. auto.
Qed.


Lemma enc_wf_configure k r :
  1 <= k < 2 ^ 32 -> 0 <= r < 2 ^ 32 ->
  enc_wf (configure k r) /\ queued (configure k r) [] /\
  eos_received (configure k r) = false.
Proof.
  intros Hk Hr.
  assert (queued (configure k r) []) as Hq.
  { split; [|reflexivity]. cbn. rewrite Nat.sub_0_r. reflexivity. }
  split; [|split; [exact Hq|reflexivity]].
  split; cbn; try lia.
  exists []. split; [exact Hq|]. split; [simpl; lia|].
  split; [constructor|]. intros _. reflexivity.
Qed.

Lemma enc_wf_emit e ev : enc_wf e -> enc_wf (emit e ev).
Proof.
  intros [Hk Hr (adus & Hq & Hlt & F & Hm) Hmax Hrep].
  split; try assumption. exists adus. auto.
Qed.

Lemma sink_chain_total W e buffer :
  enc_wf e ->
  exists ret e', gst_rs_fec_enc_sink_chain W e buffer = Ret (ret, e') /\
                 enc_wf e'.
Proof.
  intros Hwf.
  destruct (eos_received e) eqn:Heos.
  { exists GST_FLOW_EOS, e. unfold gst_rs_fec_enc_sink_chain. rewrite Heos.
    auto. }
  destruct (Z.gtb_spec (gst_buffer_get_size buffer) 65535) as [Hbig|Hok].
  { exists GST_FLOW_ERROR, (emit e EvElementError).
    unfold gst_rs_fec_enc_sink_chain. rewrite Heos.
    destruct (Z.gtb_spec (gst_buffer_get_size buffer) 65535); [|lia].
    split; [reflexivity|]. apply enc_wf_emit. assumption. }
  destruct (ewf_queue e Hwf) as (adus & Hq & _).
  destruct (sink_chain_accepted W e adus buffer Hwf Hq Heos Hok)
    as (ret & e' & new & Hrun & _ & _ & Hwf' & _).
  exists ret, e'. auto.
Qed.

Lemma step_total W e i paused rest :
  enc_wf e -> (paused = false -> queued e []) ->
  in_state_order paused (i :: rest) ->
  exists e' paused',
    step W e i = Ret e' /\ enc_wf e' /\
    (paused' = false -> queued e' []) /\ in_state_order paused' rest.
Proof.
  intros Hwf Hready Hord. destruct i as [buffer| | | |]; cbn in Hord;
    destruct Hord as [-> Hord]; cbn [step].
  - destruct (sink_chain_total W e buffer Hwf) as (ret & e' & -> & Hwf').
    exists e', true. cbn. split; [reflexivity|]. split; [assumption|].
    split; [discriminate|assumption].
  - eexists _, true. split; [reflexivity|]. split; [|split; [discriminate|assumption]].
    destruct Hwf as [Hk Hr (adus & Hq & Hlt & F & Hm) Hmax Hrep].
    set (e1 := emit (set_started e (segment_started e) (stream_started e) true)
                 EvEos).
    assert (queued e1 adus) as Hq1 by exact Hq.
    pose proof (flush_all_adus_queued e1 adus Hq1 ltac:(cbn; lia)) as Hq'.
    split.
    + unfold gst_rs_fec_enc_flush_all_fec_repair_packets,
        gst_rs_fec_enc_flush_all_adus.
      destruct (cur_num_adus e1 =? 0); cbn; destruct (_ =? 0); exact Hk.
    + unfold gst_rs_fec_enc_flush_all_fec_repair_packets,
        gst_rs_fec_enc_flush_all_adus.
      destruct (cur_num_adus e1 =? 0); cbn; destruct (_ =? 0); exact Hr.
    + exists []. split.
      { unfold gst_rs_fec_enc_flush_all_fec_repair_packets.
        destruct (_ =? 0); exact Hq'. }
      split.
      { unfold gst_rs_fec_enc_flush_all_fec_repair_packets,
          gst_rs_fec_enc_flush_all_adus.
        destruct (cur_num_adus e1 =? 0); cbn; destruct (_ =? 0); cbn; lia. }
      split; [constructor|].
      unfold gst_rs_fec_enc_flush_all_fec_repair_packets,
        gst_rs_fec_enc_flush_all_adus.
      destruct (cur_num_adus e1 =? 0); cbn; destruct (_ =? 0); cbn;
        discriminate.
    + unfold gst_rs_fec_enc_flush_all_fec_repair_packets,
        gst_rs_fec_enc_flush_all_adus.
      destruct (cur_num_adus e1 =? 0); cbn; destruct (_ =? 0); exact Hmax.
    + unfold gst_rs_fec_enc_flush_all_fec_repair_packets,
        gst_rs_fec_enc_flush_all_adus.
      destruct (cur_num_adus e1 =? 0); cbn;
        destruct (Z.eqb_spec (cur_num_fec_repair_packets e) 0); cbn; auto.
  - destruct (enc_wf_flush e Hwf) as (Hwf' & Hq' & _).
    eexists _, true. split; [reflexivity|]. split; [assumption|].
    split; [discriminate|assumption].
  - specialize (Hready eq_refl).
    eexists _, true. split; [reflexivity|].
    split; [|split; [discriminate|assumption]].
    destruct Hwf as [Hk Hr _ Hmax Hrep].
    split; cbn; try assumption; try lia.
    exists []. split; [exact Hready|]. split; [simpl; lia|].
    split; [constructor|]. intros _. reflexivity.
  - destruct (enc_wf_flush e Hwf) as (Hwf' & Hq' & _).
    eexists _, false. split; [reflexivity|].
    split; [|split; [intros _; exact Hq'|assumption]].
    destruct Hwf' as [Hk Hr (adus & Hq & Hlt & F & Hm) Hmax Hrep].
    split; try assumption. exists adus. auto.
Qed.

Lemma steps_total W l : forall e paused,
  enc_wf e -> (paused = false -> queued e []) -> in_state_order paused l ->
  exists e', steps W e l = Ret e' /\ enc_wf e'.
Proof.
  induction l as [|i rest IH]; intros e paused Hwf Hready Hord.
  - exists e. auto.
  - destruct (step_total W e i paused rest Hwf Hready Hord)
      as (e1 & paused1 & Hstep & Hwf1 & Hready1 & Hord1).
    destruct (IH e1 paused1 Hwf1 Hready1 Hord1) as (e' & Hrun & Hwf').
    exists e'. cbn [steps]. rewrite Hstep. auto.
Qed.

(** X6.  An encoder with 1 <= k, 0 <= r and k + r < 2^32 (the encoding
    symbol table has k + r entries as long as the sum does not wrap
    around) runs every sequence of ADUs (of any size), EOS events, flushes
    and READY/PAUSED state changes that respects the order of the state
    changes without failing an assertion or leaving the ADU table,
    whatever the downstream pads and OpenFEC answer; the state it ends in
    holds fewer than k queued ADUs, each of at most 65535 bytes, in the
    first slots of the ADU table, and no leftover repair packet. *)
Theorem X6_encoder_never_crashes W k r paused l :
  1 <= k -> 0 <= r -> k + r < 2 ^ 32 -> in_state_order paused l ->
  exists e', steps W (configure k r) l = Ret e' /\ enc_wf e'.
Proof.
  intros Hk1 Hr0 Hsum Hord.
  assert (1 <= k < 2 ^ 32) as Hk by lia.
  assert (0 <= r < 2 ^ 32) as Hr by lia.
  destruct (enc_wf_configure k r Hk Hr) as (Hwf & Hq & _).
  apply (steps_total W l (configure k r) paused Hwf (fun _ => Hq) Hord).
Qed.

Lemma X6_encoder_never_crashes_witness :
  exists e',
    steps enc_accepting (configure 2 1)
      [InReadyToPaused; InAdu ["a"%byte]; InEos; InAdu ["b"%byte];
       InFlushStop; InAdu ["c"%byte]; InPausedToReady; InReadyToPaused]
    = Ret e' /\ enc_wf e'.
Proof.
  apply (X6_encoder_never_crashes enc_accepting 2 1 false); [lia|lia|lia|].
  cbn. tauto.
Defined.

(** X7.  An accepted ADU (at most 65535 bytes, no EOS seen) that does
    not complete a block is forwarded before it is queued: the chain
    function pushes the ADU with payload ID (current block counter, ESI =
    number of ADUs queued so far) on the source pad and returns the answer
    of that push; the ADU joins the queue when the answer is
    [GST_FLOW_OK] and is not queued otherwise.  Nothing else is emitted
    and the block counter stays. *)
Theorem X7_adu_forwarded_then_queued W e adus buffer :
  enc_wf e -> queued e adus -> eos_received e = false ->
  gst_buffer_get_size buffer <= 65535 ->
  let p := buffer ++ fec_payload_id (cur_source_block_nr e)
                       (Z.of_nat (length adus)) (num_source_symbols e) in
  let pushed := fecsourcepad_push W (log e) p in
  pushed <> GST_FLOW_OK \/ Z.of_nat (length adus) + 1 < num_source_symbols e ->
  exists e',
    gst_rs_fec_enc_sink_chain W e buffer = Ret (pushed, e') /\
    log e' = log e ++ [EvSourcePacket p] /\
    queued e' (if flow_is_ok pushed then adus ++ [buffer] else adus) /\
    cur_source_block_nr e' = cur_source_block_nr e /\
    enc_wf e'.
Proof.
  intros Hwf Hq Heos Hsize p pushed Hcase.
  destruct (sink_chain_accepted W e adus buffer Hwf Hq Heos Hsize)
    as (ret & e' & new & Hrun & L & _ & Hwf' & _ & _ & _ & Hbad & Hgood & _).
  fold p pushed in L, Hbad, Hgood.
  exists e'. destruct (flow_is_ok pushed) eqn:Hok.
  - apply enc_flow_is_ok_iff in Hok.
    destruct Hcase as [Hc|Hc]; [contradiction|].
    destruct (Hgood Hok Hc) as (-> & -> & Hq' & _ & Hc').
    rewrite Hok. auto.
  - assert (pushed <> GST_FLOW_OK) as Hne
      by (intros Hp; rewrite Hp in Hok; discriminate).
    destruct (Hbad Hne) as (-> & -> & Hq' & _ & Hc'). auto.
Qed.

Lemma X7_adu_forwarded_then_queued_witness :
  exists e',
    gst_rs_fec_enc_sink_chain enc_accepting (configure 4 2) ["a"%byte]
    = Ret (GST_FLOW_OK, e') /\
    log e' = [EvSourcePacket (["a"%byte] ++ fec_payload_id 0 0 4)] /\
    queued e' [["a"%byte]].
Proof.
  destruct (enc_wf_configure 4 2 ltac:(lia) ltac:(lia)) as (Hwf & Hq & Heos).
  destruct (X7_adu_forwarded_then_queued enc_accepting (configure 4 2) []
              ["a"%byte] Hwf Hq Heos)
    as (e' & Hrun & L & Hq' & _).
  - vm_compute. discriminate.
  - right. cbn. lia.
  - exists e'. auto.
Defined.

End EncSafety.

Module EncBlock.
Import Enc EncInv Examples EncFacts FramingFacts EncMore EncSafety.

Lemma adui_size M adu :
  gst_buffer_get_size adu <= M ->
  gst_buffer_get_size (adui M adu) = 3 + M.
Proof.
  unfold adui, gst_buffer_get_size. intros H.
  rewrite !length_app, length_replicate. simpl length. lia.
Qed.

(** The ADUs [rest] that complete a block of which [done] is queued. *)
Lemma feed_block W : cooperative W -> forall rest done e,
  enc_wf e -> queued e done -> eos_received e = false ->
  rest <> [] ->
  Z.of_nat (length done + length rest) = num_source_symbols e ->
  Forall (fun adu => gst_buffer_get_size adu <= 65535) rest ->
  exists e' new,
    steps W e (InAdu <$> rest) = Ret e' /\
    log e' = log e ++ new /\
    source_packets_of new
    = imap (fun i adu =>
              adu ++ fec_payload_id (cur_source_block_nr e)
                       (Z.of_nat (length done + i)) (num_source_symbols e))
        rest /\
    repair_symbol_requests new
    = (fun i => (adui (max_adu_length (done ++ rest)) <$> (done ++ rest),
                 guint (i + num_source_symbols e)))
      <$> seqZ 0 (num_repair_symbols e) /\
    Dec.gst_rs_fec_dec_repair_packet_read_payload_id <$> repair_packets_of new
    = (fun i => Ret (cur_source_block_nr e mod 2 ^ 24,
                     guint (i + num_source_symbols e) mod 256))
      <$> seqZ 0 (num_repair_symbols e) /\
    cur_source_block_nr e' = guint (cur_source_block_nr e + 1) /\
    queued e' [] /\ enc_wf e' /\ eos_received e' = false.
Proof.
  intros Hcoop. induction rest as [|adu rest IH];
    intros done e Hwf Hq Heos Hne Hlen F; [congruence|].
  apply Forall_cons in F. destruct F as [Hsize F].
  destruct (sink_chain_accepted W e done adu Hwf Hq Heos Hsize)
    as (ret & e1 & new1 & Hrun & L1 & S1 & Hwf1 & Heos1 & Hk1 & Hr1 & _ &
        Hqueue & Hfull).
  destruct Hcoop as (Cs & Cr & Cp & Cb).
  pose proof (Cs (log e) (adu ++ fec_payload_id (cur_source_block_nr e)
                            (Z.of_nat (length done)) (num_source_symbols e)))
    as Hpush.
  cbn [fmap list_fmap steps step]. rewrite Hrun. cbn [mbind run_bind].
  destruct rest as [|adu' rest'].
  - simpl length in Hlen.
    destruct (Hfull Hpush ltac:(lia)) as (Hq1 & Hco).
    destruct (Hco (conj Cs (conj Cr (conj Cp Cb)))) as (-> & Hc1 & Hreq & Hrd).
    exists e1, (EvSourcePacket (adu ++ fec_payload_id (cur_source_block_nr e)
                                  (Z.of_nat (length done))
                                  (num_source_symbols e)) :: new1).
    split; [reflexivity|]. split; [exact L1|]. split.
    { cbn. fold (source_packets_of new1). rewrite S1, Nat.add_0_r.
      reflexivity. }
    split; [exact Hreq|]. split; [exact Hrd|]. auto.
  - simpl length in Hlen.
    destruct (Hqueue Hpush ltac:(lia)) as (-> & -> & Hq1 & Hm1 & Hc1).
    destruct (IH (done ++ [adu]) e1 Hwf1 Hq1 Heos1 ltac:(discriminate)
                ltac:(rewrite Hk1, length_app; simpl length; lia) F)
      as (e' & new & Hrun' & L & S & Hreq & Hrd & Hc' & Hq' & Hwf' & Heos').
    exists e', (EvSourcePacket (adu ++ fec_payload_id (cur_source_block_nr e)
                                  (Z.of_nat (length done))
                                  (num_source_symbols e)) :: new).
    split; [exact Hrun'|].
    split; [rewrite L, L1, <- app_assoc; reflexivity|].
    rewrite Hc1, Hk1, Hr1, <- app_assoc in *. cbn [app] in *.
    split.
    { change (source_packets_of (EvSourcePacket ?p :: new))
        with (p :: source_packets_of new).
      rewrite S. rewrite (imap_cons _ adu). rewrite Nat.add_0_r. f_equal.
      apply imap_ext. intros i x _. cbn. rewrite length_app. simpl length.
      do 3 f_equal. lia. }
    split; [exact Hreq|]. split; [exact Hrd|]. auto.
Qed.

(** X8.  With downstream pads and an OpenFEC that always succeed, feeding
    k ADUs of at most 65535 bytes to an encoder with an empty queue and
    k + r < 2^32 (so that the encoding symbol table has k + r entries) emits
    the k source packets in order, the i-th being the i-th ADU followed by
    the payload ID (c, i, k) for the block counter c.  OpenFEC is then
    asked for the repair symbols with ESI k, ..., k+r-1, each time over the
    same k source symbols: the ADUs framed to the common length 3 + the
    largest ADU size.  The r repair packets carry payload IDs from which
    the decoder reads (c mod 2^24, ESI mod 256).  Afterwards the counter
    is c+1 (modulo 2^32) and the queue is empty again. *)
Theorem X8_block_emission W e adus :
  cooperative W -> enc_wf e -> queued e [] -> eos_received e = false ->
  num_source_symbols e + num_repair_symbols e < 2 ^ 32 ->
  Z.of_nat (length adus) = num_source_symbols e ->
  Forall (fun adu => gst_buffer_get_size adu <= 65535) adus ->
  let c := cur_source_block_nr e in
  let k := num_source_symbols e in
  let symbols := adui (max_adu_length adus) <$> adus in
  exists e' new,
    steps W e (InAdu <$> adus) = Ret e' /\
    log e' = log e ++ new /\
    source_packets_of new
    = imap (fun i adu => adu ++ fec_payload_id c (Z.of_nat i) k) adus /\
    repair_symbol_requests new
    = (fun i => (symbols, guint (i + k))) <$> seqZ 0 (num_repair_symbols e) /\
    Forall (fun s => gst_buffer_get_size s = 3 + max_adu_length adus) symbols /\
    Dec.gst_rs_fec_dec_repair_packet_read_payload_id <$> repair_packets_of new
    = (fun i => Ret (c mod 2 ^ 24, guint (i + k) mod 256))
      <$> seqZ 0 (num_repair_symbols e) /\
    cur_source_block_nr e' = guint (c + 1) /\
    queued e' [] /\ enc_wf e'.
Proof.
  intros Hcoop Hwf Hq Heos _ Hlen F c k symbols.
  assert (adus <> []) as Hne.
  { destruct adus; [|discriminate]. simpl in Hlen.
    pose proof (ewf_k e Hwf). lia. }
  destruct (feed_block W Hcoop adus [] e Hwf Hq Heos Hne ltac:(simpl; lia) F)
    as (e' & new & Hrun & L & S & Hreq & Hrd & Hc' & Hq' & Hwf' & _).
  exists e', new. split; [exact Hrun|]. split; [exact L|].
  split; [exact S|]. split; [exact Hreq|]. split.
  { unfold symbols. apply Forall_fmap.
    destruct (max_adu_length_bounds adus 65535 ltac:(lia) F) as [_ Hall].
    eapply Forall_impl; [exact Hall|]. intros adu Ha. apply adui_size.
    exact Ha. }
  auto.
Qed.

Lemma enc_accepting_cooperative : cooperative enc_accepting.
Proof. repeat split. Qed.

Lemma X8_block_emission_witness :
  exists e' new,
    steps enc_accepting (configure 2 1) [InAdu ["a"%byte; "b"%byte]; InAdu ["c"%byte]]
    = Ret e' /\
    log e' = new /\
    source_packets_of new
    = [["a"%byte; "b"%byte] ++ fec_payload_id 0 0 2;
       ["c"%byte] ++ fec_payload_id 0 1 2] /\
    repair_symbol_requests new
    = [([adui 2 ["a"%byte; "b"%byte]; adui 2 ["c"%byte]], 2)] /\
    cur_source_block_nr e' = 1.
Proof.
  destruct (enc_wf_configure 2 1 ltac:(lia) ltac:(lia)) as (Hwf & Hq & Heos).
  destruct (X8_block_emission enc_accepting (configure 2 1)
              [["a"%byte; "b"%byte]; ["c"%byte]]
              enc_accepting_cooperative Hwf Hq Heos)
    as (e' & new & Hrun & L & S & Hreq & _ & _ & Hc & _).
  - vm_compute. reflexivity.
  - reflexivity.
  - repeat constructor; vm_compute; discriminate.
  - exists e', new. split; [exact Hrun|]. split; [exact L|].
    split; [exact S|]. split; [exact Hreq|exact Hc].
Defined.

End EncBlock.

Module EncEos.
Import Enc EncInv Examples EncFacts FramingFacts EncMore EncSafety.

(** X9.  At EOS the encoder drops the ADUs of the block it was collecting
    without emitting any packet for them: the only event it emits is the
    EOS itself, the queue is empty afterwards and the block counter is
    unchanged.  From then on the chain function answers [GST_FLOW_EOS] to
    every buffer and changes nothing. *)
Theorem X9_eos_discards_and_refuses W e adus bufs :
  queued e adus -> Z.of_nat (length adus) <= num_source_symbols e ->
  exists e',
    steps W e (InEos :: (InAdu <$> bufs)) = Ret e' /\
    log e' = log e ++ [EvEos] /\
    queued e' [] /\
    eos_received e' = true /\
    cur_source_block_nr e' = cur_source_block_nr e /\
    forall buffer,
      gst_rs_fec_enc_sink_chain W e' buffer = Ret (GST_FLOW_EOS, e').
Proof.
  intros Hq Hle. cbn [steps step mbind run_bind].
  set (e0 := emit (set_started e (segment_started e) (stream_started e) true)
               EvEos).
  set (e1 := gst_rs_fec_enc_flush_all_fec_repair_packets
               (gst_rs_fec_enc_flush_all_adus e0)).
  assert (queued e0 adus) as Hq0 by exact Hq.
  pose proof (flush_all_adus_queued e0 adus Hq0 Hle) as Hq1.
  assert (queued e1 [] /\ eos_received e1 = true /\ log e1 = log e ++ [EvEos] /\
          cur_source_block_nr e1 = cur_source_block_nr e)
    as (Hq' & Heos & L & Hc).
  { unfold e1, gst_rs_fec_enc_flush_all_fec_repair_packets.
    destruct (_ =? 0).
    - split; [exact Hq1|]. unfold gst_rs_fec_enc_flush_all_adus.
      destruct (_ =? 0); cbn; auto.
    - split; [exact Hq1|]. unfold gst_rs_fec_enc_flush_all_adus.
      destruct (_ =? 0); cbn; auto. }
  assert (forall buffer,
            gst_rs_fec_enc_sink_chain W e1 buffer = Ret (GST_FLOW_EOS, e1))
    as Hrefuse.
  { intros buffer. unfold gst_rs_fec_enc_sink_chain. rewrite Heos.
    reflexivity. }
  exists e1. split; [|auto].
  clearbody e1. clear -Hrefuse.
  induction bufs as [|buffer rest IH]; [reflexivity|].
  cbn [fmap list_fmap steps step]. rewrite Hrefuse. cbn [mbind run_bind].
  exact IH.
Qed.

Lemma X9_eos_discards_and_refuses_witness :
  let e := enc_after enc_accepting (configure 2 1) [InAdu ["a"%byte]] in
  exists e',
    steps enc_accepting e [InEos; InAdu ["b"%byte]; InAdu ["c"%byte]] = Ret e' /\
    log e' = log e ++ [EvEos] /\
    queued e' [].
Proof.
  intros e.
  destruct (X9_eos_discards_and_refuses enc_accepting e [["a"%byte]]
              [["b"%byte]; ["c"%byte]])
    as (e' & Hrun & L & Hq & _).
  - split; vm_compute; reflexivity.
  - vm_compute. discriminate.
  - exists e'. auto.
Defined.

End EncEos.

Module EncLifecycle.
Import Enc EncInv Gst EncElement Examples EncFacts EncMore EncSafety.

(** ** The encoder through its states *)

Lemma open_sessions_post el n :
  open_sessions (notices (post el n))
  = match n with
    | CreateCodecInstance => open_sessions (notices el) + 1
    | ReleaseCodecInstance => open_sessions (notices el) - 1
    | _ => open_sessions (notices el)
    end.
Proof.
  unfold open_sessions. cbn [notices post]. rewrite foldl_app. reflexivity.
Qed.

Lemma new_element_inv : element_inv GST_STATE_NULL new_element.
Proof.
  unfold element_inv, new_element, gst_rs_fec_enc_init,
    DEFAULT_NUM_SOURCE_SYMBOLS, DEFAULT_NUM_REPAIR_SYMBOLS.
  cbn. repeat split; try lia; reflexivity.
Qed.

Lemma element_inv_post st el n :
  match n with
  | CreateCodecInstance | ReleaseCodecInstance => False
  | _ => True
  end ->
  element_inv st el -> element_inv st (post el n).
Proof.
  intros Hn (Hk & Hr & Hsum & Hs & Hst). unfold element_inv.
  rewrite open_sessions_post.
  change (rs_fec_enc (post el n)) with (rs_fec_enc el).
  change (openfec_session (post el n)) with (openfec_session el).
  change (encoding_symbol_table (post el n)) with (encoding_symbol_table el).
  change (adu_table_allocated (post el n)) with (adu_table_allocated el).
  change (fec_repair_packet_table (post el n))
    with (fec_repair_packet_table el).
  destruct n; try contradiction; auto.
Qed.

Lemma set_property_inv st el prop_id value :
  element_inv st el -> valid_value prop_id value = true ->
  g_value_modest value = true ->
  element_inv st (gst_rs_fec_enc_set_property el prop_id value).
Proof.
  intros Hinv Hv Hm. unfold gst_rs_fec_enc_set_property.
  destruct (openfec_session el) eqn:Hses; cbn [negb].
  { apply element_inv_post; [exact I|exact Hinv]. }
  destruct Hinv as (Hk & Hr & Hn & Hs & Hst).
  assert (st = GST_STATE_NULL) as ->.
  { destruct st; [reflexivity| | |]; destruct Hst as (Hf & _); congruence. }
  assert (exists k r,
            1 <= k < 2 ^ 31 /\ 0 <= r < 2 ^ 31 /\
            match prop_id with
            | PROP_NUM_SOURCE_SYMBOLS =>
                set_symbols (rs_fec_enc el) (g_value_get_uint value)
                  (num_repair_symbols (rs_fec_enc el))
            | PROP_NUM_REPAIR_SYMBOLS =>
                set_symbols (rs_fec_enc el) (num_source_symbols (rs_fec_enc el))
                  (g_value_get_uint value)
            end = set_symbols (rs_fec_enc el) k r) as (k & r & Hk' & Hr' & ->).
  { destruct prop_id, value as [v|v]; try discriminate;
      cbn in Hv; apply andb_true_iff in Hv; destruct Hv as [Hlo Hhi];
      apply Z.leb_le in Hlo; apply Z.ltb_lt in Hhi;
      cbn [g_value_modest] in Hm; apply Z.ltb_lt in Hm;
      cbn [g_value_get_uint]; rewrite (guint_small v) by lia.
    - exists v, (num_repair_symbols (rs_fec_enc el)). auto.
    - exists (num_source_symbols (rs_fec_enc el)), v. auto. }
  assert (element_inv GST_STATE_NULL
            (with_enc el (set_symbols (rs_fec_enc el) k r))) as Hinv'.
  { unfold element_inv. cbn. auto 10. }
  destruct (_ >? _); [apply element_inv_post; [exact I|]|]; exact Hinv'.
Qed.

(** The data flow never writes the three symbol counts. *)
Lemma check_if_fatal_symbols e status :
  same_symbols e (CHECK_IF_FATAL_ERROR e status).
Proof. destruct status; repeat split. Qed.

Lemma same_symbols_trans e1 e2 e3 :
  same_symbols e1 e2 -> same_symbols e2 e3 -> same_symbols e1 e3.
Proof. unfold same_symbols. intuition congruence. Qed.

Lemma adui_loop_symbols len indices : forall e symbols e' symbols',
  adui_loop len indices e symbols = Ret (e', symbols') -> same_symbols e e'.
Proof.
  induction indices as [|i rest IH]; intros e symbols e' symbols' H; simpl in H.
  - inversion H; subst. repeat split.
  - destruct (cur_num_adus e >? 0); [|discriminate]. simpl in H.
    destruct (adu_table e !! Z.to_nat i) as [[adu|]|]; try discriminate.
    destruct (_ <=? _); [|discriminate]. simpl in H.
    apply IH in H. exact H.
Qed.

Lemma repair_loop_symbols W nr symbols indices : forall e ret e',
  repair_loop W nr symbols indices e = Ret (ret, e') -> same_symbols e e'.
Proof.
  induction indices as [|i rest IH]; intros e ret e' H; simpl in H.
  - inversion H; subst. repeat split.
  - destruct (of_build_repair_symbol W _ _ _) as [status symbol].
    destruct (negb (of_is_ok status)).
    { inversion H; subst.
      eapply same_symbols_trans; [|apply check_if_fatal_symbols].
      repeat split. }
    destruct (cur_num_fec_repair_packets _ >? 0); [|discriminate].
    simpl in H.
    destruct (flow_is_ok _).
    + apply IH in H.
      destruct (first_repair_packet _); exact H.
    + inversion H; subst. destruct (first_repair_packet _); repeat split.
Qed.

Lemma process_cleanup_symbols e : same_symbols e (process_cleanup e).
Proof.
  unfold process_cleanup, gst_rs_fec_enc_flush_all_fec_repair_packets,
    gst_rs_fec_enc_flush_all_adus.
  destruct (cur_num_adus e =? 0); cbn; destruct (_ =? 0); repeat split.
Qed.

Lemma push_start_events_symbols e : same_symbols e (push_start_events e).
Proof.
  unfold push_start_events.
  destruct (segment_started e); [repeat split|].
  destruct (stream_started e) eqn:E; cbn; rewrite ?E; cbn; repeat split.
Qed.

Lemma process_source_block_symbols W e ret e' :
  gst_rs_fec_enc_process_source_block W e = Ret (ret, e') -> same_symbols e e'.
Proof.
  unfold gst_rs_fec_enc_process_source_block. intros H.
  destruct (cur_num_adus e <? num_source_symbols e).
  { inversion H; subst. repeat split. }
  destruct (num_repair_symbols e >? 0).
  - unfold gst_rs_fec_enc_configure_fec in H.
    destruct (encoding_symbol_length e =? _).
    + cbn [negb] in H.
      destruct (adui_loop _ _ e []) as [[e1 symbols]|] eqn:E1;
        [|discriminate].
      apply adui_loop_symbols in E1. cbn [mbind run_bind negb] in H.
      destruct (repair_loop W _ _ _ _) as [[ret2 e2]|] eqn:E2;
        [|discriminate].
      apply repair_loop_symbols in E2. cbn [mbind run_bind] in H.
      assert (same_symbols e e2) as Hs.
      { eapply same_symbols_trans; [exact E1|].
        eapply same_symbols_trans; [apply push_start_events_symbols|].
        exact E2. }
      destruct (flow_is_ok ret2); inversion H; subst;
        (eapply same_symbols_trans; [exact Hs|]);
        (eapply same_symbols_trans; [|apply process_cleanup_symbols]);
        repeat split.
    + destruct (negb (of_is_ok _)).
      { cbn in H. inversion H; subst.
        eapply same_symbols_trans; [|apply process_cleanup_symbols].
        eapply same_symbols_trans; [|apply check_if_fatal_symbols].
        repeat split. }
      cbn [negb] in H.
      destruct (adui_loop _ _ _ []) as [[e1 symbols]|] eqn:E1;
        [|discriminate].
      apply adui_loop_symbols in E1. cbn [mbind run_bind negb] in H.
      destruct (repair_loop W _ _ _ _) as [[ret2 e2]|] eqn:E2;
        [|discriminate].
      apply repair_loop_symbols in E2. cbn [mbind run_bind] in H.
      assert (same_symbols e e2) as Hs.
      { eapply same_symbols_trans; [|exact E2].
        eapply same_symbols_trans; [|apply push_start_events_symbols].
        eapply same_symbols_trans; [|exact E1]. repeat split. }
      destruct (flow_is_ok ret2); inversion H; subst;
        (eapply same_symbols_trans; [exact Hs|]);
        (eapply same_symbols_trans; [|apply process_cleanup_symbols]);
        repeat split.
  - cbn [mbind run_bind negb] in H.
    destruct (repair_loop W _ _ _ _) as [[ret2 e2]|] eqn:E2; [|discriminate].
    apply repair_loop_symbols in E2. cbn [mbind run_bind] in H.
    assert (same_symbols e e2) as Hs.
    { eapply same_symbols_trans; [apply push_start_events_symbols|].
      exact E2. }
    destruct (flow_is_ok ret2); inversion H; subst;
      (eapply same_symbols_trans; [exact Hs|]);
      (eapply same_symbols_trans; [|apply process_cleanup_symbols]);
      repeat split.
Qed.

Lemma flush_symbols e : same_symbols e (gst_rs_fec_enc_flush e).
Proof.
  unfold gst_rs_fec_enc_flush, gst_rs_fec_enc_flush_all_fec_repair_packets,
    gst_rs_fec_enc_flush_all_adus.
  destruct (cur_num_adus e =? 0); cbn; destruct (_ =? 0); repeat split.
Qed.

Lemma step_symbols W e i e' : step W e i = Ret e' -> same_symbols e e'.
Proof.
  intros H. destruct i as [buffer| | | |]; cbn [step] in H.
  - unfold gst_rs_fec_enc_sink_chain in H.
    destruct (eos_received e); [inversion H; subst; repeat split|].
    destruct (_ >? 65535); [inversion H; subst; repeat split|].
    unfold gst_rs_fec_enc_push_adu in H.
    destruct (negb (flow_is_ok _)).
    { cbn in H. inversion H; subst. destruct (first_source_packet e);
        repeat split. }
    unfold gst_rs_fec_enc_insert_adu in H.
    destruct (_ <=? _)%nat; [discriminate|].
    cbn [mbind run_bind] in H.
    destruct (gst_rs_fec_enc_process_source_block W _) as [[ret e1]|] eqn:E;
      [|discriminate].
    cbn in H. inversion H; subst.
    apply process_source_block_symbols in E.
    eapply same_symbols_trans; [|exact E].
    destruct (first_source_packet e); repeat split.
  - inversion H; subst.
    unfold gst_rs_fec_enc_flush_all_fec_repair_packets,
      gst_rs_fec_enc_flush_all_adus.
    cbn. destruct (cur_num_adus e =? 0); cbn; destruct (_ =? 0); repeat split.
  - inversion H; subst. apply flush_symbols.
  - inversion H; subst. repeat split.
  - inversion H; subst.
    eapply same_symbols_trans; [apply flush_symbols|]. repeat split.
Qed.

Lemma data_inv C W st el a :
  element_inv st el -> pads_active st = true ->
  match a with ChangeState _ | SetProperty _ _ => False | _ => True end ->
  exists el', act C W el a = Ret el' /\ element_inv st el'.
Proof.
  intros (Hk & Hr & Hn & Hs & Hst) Hact Hdata.
  assert (openfec_session el = true /\ encoding_symbol_table el = true /\
          adu_table_allocated el = true /\
          fec_repair_packet_table el
          = negb (num_repair_symbols (rs_fec_enc el) =? 0) /\
          enc_wf (rs_fec_enc el)) as (H1 & H2 & H3 & H4 & Hwf).
  { destruct st; try discriminate; tauto. }
  assert (exists i, act C W el a
                    = (e ← step W (rs_fec_enc el) i; Ret (with_enc el e)) /\
                    in_state_order true [i]) as (i & Hrun & Hord).
  { destruct a as [| |buffer| |]; try contradiction.
    - exists (InAdu buffer). cbn. auto.
    - exists InEos. cbn. auto.
    - exists InFlushStop. cbn. auto. }
  destruct (step_total W (rs_fec_enc el) i true [] Hwf ltac:(discriminate) Hord)
    as (e' & paused' & Hstep & Hwf' & _ & _).
  destruct (step_symbols W _ _ _ Hstep) as (Kk & Kr & Kn).
  exists (with_enc el e'). split; [rewrite Hrun, Hstep; reflexivity|].
  unfold element_inv.
  cbn [rs_fec_enc with_enc openfec_session encoding_symbol_table
       adu_table_allocated fec_repair_packet_table notices].
  rewrite Kk, Kr, Kn.
  split; [exact Hk|]. split; [exact Hr|]. split; [exact Hn|].
  split; [exact Hs|].
  destruct st; try discriminate;
    (split; [exact H1|]); (split; [exact H2|]); (split; [exact H3|]);
    (split; [exact H4|]); (split; [exact Hwf'|]); discriminate.
Qed.

Ltac element_fields :=
  cbn [rs_fec_enc with_enc post set_openfec_session set_tables
       openfec_session encoding_symbol_table adu_table_allocated
       fec_repair_packet_table notices].

Lemma not_failure {A} (result : GstStateChangeReturn) (x y : A) :
  result <> GST_STATE_CHANGE_FAILURE ->
  match result with
  | GST_STATE_CHANGE_FAILURE => x
  | _ => y
  end = y.
Proof. destruct result; [contradiction|reflexivity..]. Qed.

Lemma open_sessions_snoc l n :
  open_sessions (l ++ [n])
  = match n with
    | CreateCodecInstance => open_sessions l + 1
    | ReleaseCodecInstance => open_sessions l - 1
    | _ => open_sessions l
    end.
Proof. unfold open_sessions. rewrite foldl_app. reflexivity. Qed.

Lemma change_state_inv C el transition :
  succeed C ->
  element_inv (transition_current transition) el ->
  exists result el',
    gst_rs_fec_enc_change_state C el transition = Ret (result, el') /\
    result <> GST_STATE_CHANGE_FAILURE /\
    element_inv (transition_next transition) el'.
Proof.
  intros (Hcreate & Hrelease & Hparent) (Hk & Hr & Hn & Hs & Hst).
  unfold gst_rs_fec_enc_change_state.
  destruct transition; cbn [transition_current transition_next] in *.
  - (* NULL to READY *)
    destruct Hst as (H1 & H2 & H3 & H4 & H5 & H6 & H7 & H8 & H9).
    assert ((num_encoding_symbols (rs_fec_enc el) =? 0) = false) as Hn0.
    { rewrite Hn. unfold guint. rewrite Z.mod_small by lia.
      apply Z.eqb_neq. lia. }
    assert ((num_source_symbols (rs_fec_enc el) =? 0) = false) as Hk0.
    { apply Z.eqb_neq. lia. }
    unfold gst_rs_fec_enc_init_openfec. rewrite H1, Hcreate.
    cbn [of_is_ok negb].
    unfold gst_rs_fec_enc_alloc_encoding_symbol_table. element_fields.
    rewrite H2, Hn0. cbn [negb assert_that mbind run_bind].
    unfold gst_rs_fec_enc_alloc_adu_table. element_fields.
    rewrite H3.
    change (num_source_symbols (set_adus ?a ?b ?c ?d))
      with (num_source_symbols a).
    element_fields. rewrite Hk0. cbn [negb assert_that mbind run_bind].
    unfold gst_rs_fec_enc_alloc_fec_repair_packet_table. element_fields.
    rewrite H4. cbn [negb assert_that mbind run_bind].
    set (e1 := set_adus (rs_fec_enc el)
                 (replicate (Z.to_nat (num_source_symbols (rs_fec_enc el))) None)
                 (cur_num_adus (rs_fec_enc el))
                 (cur_max_adu_length (rs_fec_enc el))).
    change (num_repair_symbols e1) with (num_repair_symbols (rs_fec_enc el)).
    assert (queued (set_encoding_symbol_length e1 0) []) as Hq.
    { split; cbn; [rewrite Nat.sub_0_r; reflexivity|exact H6]. }
    assert (enc_wf (set_encoding_symbol_length e1 0)) as Hwf.
    { split; cbn; try assumption; try lia.
      exists []. split; [exact Hq|]. split; [cbn; lia|].
      split; [constructor|]. intros _. exact H8. }
    destruct (num_repair_symbols (rs_fec_enc el) =? 0) eqn:Hr0;
      cbn [mbind run_bind negb]; element_fields;
      rewrite not_failure by apply Hparent;
      eexists _, _; (split; [reflexivity|]); (split; [apply Hparent|]);
      unfold element_inv; element_fields;
      change (num_source_symbols (set_encoding_symbol_length e1 0))
        with (num_source_symbols (rs_fec_enc el));
      change (num_repair_symbols (set_encoding_symbol_length e1 0))
        with (num_repair_symbols (rs_fec_enc el));
      change (num_encoding_symbols (set_encoding_symbol_length e1 0))
        with (num_encoding_symbols (rs_fec_enc el));
      rewrite Hr0, !open_sessions_snoc, Hs, H1;
      (split; [exact Hk|]); (split; [exact Hr|]); (split; [exact Hn|]);
      (split; [reflexivity|]);
      repeat (split; [reflexivity|]); (split; [exact Hwf|]);
      intros _; (split; [exact Hq|exact H9]).
  - (* READY to PAUSED *)
    destruct Hst as (H1 & H2 & H3 & H4 & Hwf & Hready).
    destruct (Hready eq_refl) as [Hq Heos].
    cbn [mbind run_bind negb]. element_fields.
    destruct (step_total (Examples.enc_accepting) (rs_fec_enc el)
                InReadyToPaused false [] Hwf (fun _ => Hq))
      as (e' & paused' & Hstep & Hwf' & _ & _); [cbn; auto|].
    cbn [step] in Hstep. inversion Hstep as [He']. rewrite He' in *.
    rewrite not_failure by apply Hparent.
    eexists _, _. split; [reflexivity|]. split; [apply Hparent|].
    unfold element_inv. element_fields. rewrite <- He'.
    rewrite open_sessions_snoc.
    split; [exact Hk|]. split; [exact Hr|]. split; [exact Hn|].
    split; [exact Hs|].
    split; [exact H1|]. split; [exact H2|]. split; [exact H3|].
    split; [exact H4|]. split; [rewrite He'; exact Hwf'|]. discriminate.
  - (* PAUSED to PLAYING *)
    destruct Hst as (H1 & H2 & H3 & H4 & Hwf & _).
    cbn [mbind run_bind negb].
    rewrite not_failure by apply Hparent.
    eexists _, _. split; [reflexivity|]. split; [apply Hparent|].
    unfold element_inv. element_fields. rewrite open_sessions_snoc.
    split; [exact Hk|]. split; [exact Hr|]. split; [exact Hn|].
    split; [exact Hs|].
    split; [exact H1|]. split; [exact H2|]. split; [exact H3|].
    split; [exact H4|]. split; [exact Hwf|]. discriminate.
  - (* PLAYING to PAUSED *)
    destruct Hst as (H1 & H2 & H3 & H4 & Hwf & _).
    cbn [mbind run_bind negb].
    rewrite not_failure by apply Hparent.
    eexists _, _. split; [reflexivity|]. split; [apply Hparent|].
    unfold element_inv. element_fields. rewrite open_sessions_snoc.
    split; [exact Hk|]. split; [exact Hr|]. split; [exact Hn|].
    split; [exact Hs|].
    split; [exact H1|]. split; [exact H2|]. split; [exact H3|].
    split; [exact H4|]. split; [exact Hwf|]. discriminate.
  - (* PAUSED to READY *)
    destruct Hst as (H1 & H2 & H3 & H4 & Hwf & _).
    cbn [mbind run_bind negb].
    destruct (enc_wf_flush (rs_fec_enc el) Hwf) as (Hwf' & Hq' & Heos').
    destruct (flush_symbols (rs_fec_enc el)) as (Kk & Kr & Kn).
    rewrite not_failure by apply Hparent. element_fields.
    set (e1 := gst_rs_fec_enc_flush (rs_fec_enc el)) in *.
    set (e2 := set_started e1 (segment_started e1) false (eos_received e1)).
    assert (enc_wf e2) as Hwf2.
    { destruct Hwf' as [A B (adus & Q & L & F & M) D E].
      split; try assumption. exists adus. auto. }
    assert (queued e2 []) as Hq2 by exact Hq'.
    eexists _, _. split; [reflexivity|]. split; [apply Hparent|].
    unfold element_inv. element_fields.
    change (num_source_symbols e2) with (num_source_symbols e1).
    change (num_repair_symbols e2) with (num_repair_symbols e1).
    change (num_encoding_symbols e2) with (num_encoding_symbols e1).
    rewrite Kk, Kr, Kn, open_sessions_snoc.
    split; [exact Hk|]. split; [exact Hr|]. split; [exact Hn|].
    split; [exact Hs|].
    split; [exact H1|]. split; [exact H2|]. split; [exact H3|].
    split; [exact H4|]. split; [exact Hwf2|].
    intros _. split; [exact Hq2|exact Heos'].
  - (* READY to NULL *)
    destruct Hst as (H1 & H2 & H3 & H4 & Hwf & Hready).
    destruct (Hready eq_refl) as [Hq Heos].
    cbn [mbind run_bind negb].
    assert (cur_max_adu_length (rs_fec_enc el) = 0) as Hmax.
    { destruct (ewf_queue _ Hwf) as (adus & Q & _ & _ & M).
      rewrite (queued_unique _ _ _ Hq Q) in M. apply (M Heos). }
    pose proof (ewf_repair _ Hwf) as Hrep.
    destruct Hq as [Ht Hnum]. change (Z.of_nat (length [])) with 0 in Hnum.
    rewrite not_failure by apply Hparent.
    unfold gst_rs_fec_enc_shutdown_openfec. element_fields.
    rewrite H1. cbn [negb].
    unfold gst_rs_fec_enc_free_encoding_symbol_table. element_fields.
    rewrite H2. cbn [assert_that mbind run_bind].
    unfold gst_rs_fec_enc_free_adu_table. element_fields.
    rewrite H3. cbn [assert_that mbind run_bind].
    rewrite Hnum. cbn [Z.eqb assert_that mbind run_bind length Z.of_nat].
    unfold gst_rs_fec_enc_free_fec_repair_packet_table. element_fields.
    set (e1 := set_adus (rs_fec_enc el) [] 0
                 (cur_max_adu_length (rs_fec_enc el))).
    change (num_repair_symbols e1) with (num_repair_symbols (rs_fec_enc el)).
    change (cur_num_fec_repair_packets e1)
      with (cur_num_fec_repair_packets (rs_fec_enc el)).
    rewrite H4, Hrep.
    destruct (num_repair_symbols (rs_fec_enc el) =? 0) eqn:Hr0;
      cbn [negb Z.eqb assert_that mbind run_bind]; element_fields;
      rewrite Hrelease; cbn [of_is_ok negb mbind run_bind];
      eexists _, _; (split; [reflexivity|]); (split; [apply Hparent|]);
      unfold element_inv; element_fields;
      change (num_source_symbols (set_encoding_symbol_length e1 0))
        with (num_source_symbols (rs_fec_enc el));
      change (num_repair_symbols (set_encoding_symbol_length e1 0))
        with (num_repair_symbols (rs_fec_enc el));
      change (num_encoding_symbols (set_encoding_symbol_length e1 0))
        with (num_encoding_symbols (rs_fec_enc el));
      rewrite !open_sessions_snoc, Hs, H1;
      (split; [exact Hk|]); (split; [exact Hr|]); (split; [exact Hn|]);
      (split; [reflexivity|]); cbn; auto 12.
Qed.

Lemma state_eqb_eq a b : state_eqb a b = true <-> a = b.
Proof. destruct a, b; cbn; split; congruence. Qed.

Lemma act_inv C W st el a st' :
  succeed C -> element_inv st el -> state_after st [a] = Some st' ->
  modest [a] = true ->
  exists el', act C W el a = Ret el' /\ element_inv st' el'.
Proof.
  intros HC Hinv Hst Hm. destruct a as [prop_id value|transition|buffer| |];
    cbn [state_after] in Hst.
  - destruct (valid_value prop_id value) eqn:Hv; [|discriminate].
    inversion Hst; subst st'. eexists. split; [reflexivity|].
    cbn [modest forallb] in Hm. rewrite andb_true_r in Hm.
    apply set_property_inv; assumption.
  - destruct (state_eqb _ st) eqn:Heq; [|discriminate].
    apply state_eqb_eq in Heq. subst st. inversion Hst; subst st'.
    destruct (change_state_inv C el transition HC Hinv)
      as (result & el' & Hrun & _ & Hinv').
    exists el'. cbn [act]. rewrite Hrun. auto.
  - destruct (pads_active st) eqn:Hp; [|discriminate].
    inversion Hst; subst st'. apply (data_inv C W st el); [exact Hinv|exact Hp|exact I].
  - destruct (pads_active st) eqn:Hp; [|discriminate].
    inversion Hst; subst st'. apply (data_inv C W st el); [exact Hinv|exact Hp|exact I].
  - destruct (pads_active st) eqn:Hp; [|discriminate].
    inversion Hst; subst st'. apply (data_inv C W st el); [exact Hinv|exact Hp|exact I].
Qed.

Lemma state_after_cons st a l st' :
  state_after st (a :: l) = Some st' ->
  exists st1, state_after st [a] = Some st1 /\ state_after st1 l = Some st'.
Proof.
  destruct a as [prop_id value|transition|buffer| |]; cbn [state_after];
    intros H.
  - destruct (valid_value prop_id value); [|discriminate]. eauto.
  - destruct (state_eqb _ st); [|discriminate]. eauto.
  - destruct (pads_active st); [|discriminate]. eauto.
  - destruct (pads_active st); [|discriminate]. eauto.
  - destruct (pads_active st); [|discriminate]. eauto.
Qed.

Lemma acts_inv C W l : succeed C -> forall st el st',
  element_inv st el -> state_after st l = Some st' -> modest l = true ->
  exists el', acts C W el l = Ret el' /\ element_inv st' el'.
Proof.
  intros HC. induction l as [|a rest IH]; intros st el st' Hinv Hst Hm.
  - inversion Hst; subst. exists el. auto.
  - destruct (state_after_cons st a rest st' Hst) as (st1 & Ha & Hrest).
    cbn [modest forallb] in Hm. apply andb_prop in Hm.
    destruct Hm as [Hm1 Hm].
    destruct (act_inv C W st el a st1 HC Hinv Ha) as (el1 & Hrun1 & Hinv1).
    { cbn [modest forallb]. rewrite Hm1. reflexivity. }
    destruct (IH st1 el1 st' Hinv1 Hrest Hm) as (el' & Hrun & Hinv').
    exists el'. cbn [acts]. rewrite Hrun1. auto.
Qed.

(** X17.  An encoder that is created and then driven by any list of
    actions that follows the rules of GStreamer (valid property values,
    state changes between neighbouring states, buffers and events only in
    PAUSED and PLAYING), with numbers of symbols below 2^31, an OpenFEC
    that opens and closes the session and a parent class that does not
    fail a state change: the run does not crash, so no assertion of the
    functions that allocate and free the tables fails.  Afterwards the
    sessions created minus the sessions released are 1 when the session
    pointer is set and 0 when it is NULL.  In the NULL state the session
    and the three tables are NULL; in every other state the session, the
    encoding symbol table and the ADU table are there, the repair packet
    table is there exactly when r is not 0, and the fields of the encoder
    are consistent ([enc_wf]). *)
Theorem X17_encoder_lifecycle C W l st :
  succeed C -> state_after GST_STATE_NULL l = Some st -> modest l = true ->
  exists el,
    acts C W new_element l = Ret el /\
    open_sessions (notices el) = (if openfec_session el then 1 else 0) /\
    if state_eqb st GST_STATE_NULL then
      openfec_session el = false /\ encoding_symbol_table el = false /\
      adu_table_allocated el = false /\ fec_repair_packet_table el = false
    else
      openfec_session el = true /\ encoding_symbol_table el = true /\
      adu_table_allocated el = true /\
      fec_repair_packet_table el
      = negb (num_repair_symbols (rs_fec_enc el) =? 0) /\
      enc_wf (rs_fec_enc el).
Proof.
  intros HC Hst Hm.
  destruct (acts_inv C W l HC GST_STATE_NULL new_element st new_element_inv
              Hst Hm)
    as (el & Hrun & _ & _ & _ & Hs & Hinv).
  exists el. split; [exact Hrun|]. split; [exact Hs|].
  destruct st; cbn [state_eqb]; tauto.
Qed.

Lemma obliging_succeed : succeed obliging.
Proof. repeat split; discriminate. Qed.

Lemma X17_encoder_lifecycle_witness :
  exists el,
    acts obliging enc_accepting new_element
      [SetProperty PROP_NUM_SOURCE_SYMBOLS (G_TYPE_UINT 2);
       SetProperty PROP_NUM_REPAIR_SYMBOLS (G_TYPE_UINT 1);
       ChangeState GST_STATE_CHANGE_NULL_TO_READY;
       ChangeState GST_STATE_CHANGE_READY_TO_PAUSED;
       Chain ["a"%byte]; Chain ["b"%byte]; Chain ["c"%byte]; EventEos;
       ChangeState GST_STATE_CHANGE_PAUSED_TO_READY;
       ChangeState GST_STATE_CHANGE_READY_TO_NULL] = Ret el /\
    openfec_session el = false /\ adu_table_allocated el = false /\
    open_sessions (notices el) = 0.
Proof.
  destruct (X17_encoder_lifecycle obliging enc_accepting
              [SetProperty PROP_NUM_SOURCE_SYMBOLS (G_TYPE_UINT 2);
               SetProperty PROP_NUM_REPAIR_SYMBOLS (G_TYPE_UINT 1);
               ChangeState GST_STATE_CHANGE_NULL_TO_READY;
               ChangeState GST_STATE_CHANGE_READY_TO_PAUSED;
               Chain ["a"%byte]; Chain ["b"%byte]; Chain ["c"%byte]; EventEos;
               ChangeState GST_STATE_CHANGE_PAUSED_TO_READY;
               ChangeState GST_STATE_CHANGE_READY_TO_NULL]
              GST_STATE_NULL obliging_succeed)
    as (el & Hrun & Hs & H1 & _ & H3 & _).
  - vm_compute. reflexivity.
  - vm_compute. reflexivity.
  - exists el. split; [exact Hrun|]. split; [exact H1|]. split; [exact H3|].
    rewrite H1 in Hs. exact Hs.
Defined.

(** X18.  Setting k or r to a value of its declared range on an encoder
    that was driven as in X17 into state [st].  In the NULL state the
    property reads back as the value, the other property is unchanged,
    the number of encoding symbols is k + r as a [guint], and an element
    error is posted exactly when that sum exceeds 255 (the value is kept
    all the same).  In every other state the encoder is left as it was and
    a warning is posted. *)
Theorem X18_properties_locked_outside_null C W l st prop_id v :
  succeed C -> state_after GST_STATE_NULL l = Some st -> modest l = true ->
  valid_value prop_id (G_TYPE_UINT v) = true ->
  exists el,
    acts C W new_element l = Ret el /\
    let el' := gst_rs_fec_enc_set_property el prop_id (G_TYPE_UINT v) in
    let k' := num_source_symbols (rs_fec_enc el') in
    let r' := num_repair_symbols (rs_fec_enc el') in
    if state_eqb st GST_STATE_NULL then
      gst_rs_fec_enc_get_property el' prop_id = G_TYPE_UINT v /\
      (forall other, other <> prop_id ->
         gst_rs_fec_enc_get_property el' other
         = gst_rs_fec_enc_get_property el other) /\
      num_encoding_symbols (rs_fec_enc el') = guint (k' + r') /\
      notices el'
      = notices el ++ (if guint (k' + r') >? 255 then [ElementError] else [])
    else
      rs_fec_enc el' = rs_fec_enc el /\
      notices el' = notices el ++ [ElementWarning].
Proof.
  intros HC Hst Hm Hv.
  destruct (acts_inv C W l HC GST_STATE_NULL new_element st new_element_inv
              Hst Hm)
    as (el & Hrun & _ & _ & _ & _ & Hinv).
  exists el. split; [exact Hrun|]. cbn zeta.
  unfold gst_rs_fec_enc_set_property.
  destruct st; cbn [state_eqb];
    [|destruct Hinv as (-> & _); cbn [negb]; split; reflexivity..].
  destruct Hinv as (-> & _). cbn [negb].
  assert (guint v = v) as Hg.
  { apply guint_small. destruct prop_id; cbn in Hv;
      apply andb_true_iff in Hv; destruct Hv as [Hlo Hhi];
      apply Z.leb_le in Hlo; apply Z.ltb_lt in Hhi; lia. }
  destruct prop_id; cbn [g_value_get_uint]; rewrite Hg;
    match goal with
    | |- context [if ?c then post _ _ else _] => destruct c eqn:Hbig
    end;
    cbn in Hbig |- *; change max_num_encoding_symbols with 255 in Hbig;
    rewrite ?Hbig, ?app_nil_r;
    (split; [reflexivity|]);
    (split; [intros other Ho; destruct other; try congruence; reflexivity|]);
    split; reflexivity.
Qed.

Lemma X18_properties_locked_outside_null_witness :
  exists el,
    acts obliging enc_accepting new_element
      [ChangeState GST_STATE_CHANGE_NULL_TO_READY] = Ret el /\
    rs_fec_enc
      (gst_rs_fec_enc_set_property el PROP_NUM_SOURCE_SYMBOLS (G_TYPE_UINT 7))
    = rs_fec_enc el.
Proof.
  destruct (X18_properties_locked_outside_null obliging enc_accepting
              [ChangeState GST_STATE_CHANGE_NULL_TO_READY] GST_STATE_READY
              PROP_NUM_SOURCE_SYMBOLS 7 obliging_succeed)
    as (el & Hrun & Hsame & _).
  - reflexivity.
  - reflexivity.
  - reflexivity.
  - exists el. auto.
Defined.

(** X19.  When OpenFEC does not release the session in the change from
    READY to NULL, [gst_rs_fec_enc_change_state] answers FAILURE after it
    has freed the three tables, and the session pointer stays set.  The
    element is then stuck: changing from READY to NULL once more reaches
    [gst_rs_fec_enc_free_encoding_symbol_table] again, whose assertion
    that the table is allocated fails, whatever OpenFEC answers this
    time. *)
Theorem X19_failed_release_breaks_retry C el :
  element_inv GST_STATE_READY el ->
  parent_change_state C (notices el) GST_STATE_CHANGE_READY_TO_NULL
  <> GST_STATE_CHANGE_FAILURE ->
  of_release_codec_instance C
    (notices el ++ [ParentChangeState GST_STATE_CHANGE_READY_TO_NULL])
  <> OF_STATUS_OK ->
  exists el1,
    gst_rs_fec_enc_change_state C el GST_STATE_CHANGE_READY_TO_NULL
    = Ret (GST_STATE_CHANGE_FAILURE, el1) /\
    openfec_session el1 = true /\ encoding_symbol_table el1 = false /\
    adu_table_allocated el1 = false /\ fec_repair_packet_table el1 = false /\
    forall C',
      parent_change_state C' (notices el1) GST_STATE_CHANGE_READY_TO_NULL
      <> GST_STATE_CHANGE_FAILURE ->
      gst_rs_fec_enc_change_state C' el1 GST_STATE_CHANGE_READY_TO_NULL
      = Crash AssertFailed.
Proof.
  intros (Hk & Hr & Hn & Hs & H1 & H2 & H3 & H4 & Hwf & Hready) Hparent Hrel.
  destruct (Hready eq_refl) as [[Ht Hnum] _].
  change (Z.of_nat (length [])) with 0 in Hnum.
  pose proof (ewf_repair _ Hwf) as Hrep.
  assert (forall (st : of_status_t) (x : Element),
            openfec_session (check_if_fatal x st) = openfec_session x /\
            encoding_symbol_table (check_if_fatal x st)
            = encoding_symbol_table x /\
            adu_table_allocated (check_if_fatal x st)
            = adu_table_allocated x /\
            fec_repair_packet_table (check_if_fatal x st)
            = fec_repair_packet_table x) as Hfatal.
  { intros st x. destruct st; cbn; auto. }
  unfold gst_rs_fec_enc_change_state at 1. cbn [mbind run_bind negb].
  rewrite not_failure by exact Hparent.
  unfold gst_rs_fec_enc_shutdown_openfec. element_fields.
  rewrite H1. cbn [negb].
  unfold gst_rs_fec_enc_free_encoding_symbol_table. element_fields.
  rewrite H2. cbn [assert_that mbind run_bind].
  unfold gst_rs_fec_enc_free_adu_table. element_fields.
  rewrite H3. cbn [assert_that mbind run_bind].
  rewrite Hnum. cbn [Z.eqb assert_that mbind run_bind].
  unfold gst_rs_fec_enc_free_fec_repair_packet_table. element_fields.
  set (e1 := set_adus (rs_fec_enc el) [] 0
               (cur_max_adu_length (rs_fec_enc el))).
  change (num_repair_symbols e1) with (num_repair_symbols (rs_fec_enc el)).
  change (cur_num_fec_repair_packets e1)
    with (cur_num_fec_repair_packets (rs_fec_enc el)).
  rewrite H4, Hrep.
  destruct (of_release_codec_instance C
              (notices el ++ [ParentChangeState GST_STATE_CHANGE_READY_TO_NULL]))
    eqn:Hstatus; [contradiction| | |];
    destruct (num_repair_symbols (rs_fec_enc el) =? 0) eqn:Hr0;
    cbn [negb Z.eqb assert_that mbind run_bind]; element_fields;
    rewrite Hstatus; cbn [of_is_ok negb mbind run_bind];
    (eexists; split; [reflexivity|]);
    rewrite ?(proj1 (Hfatal _ _)), ?(proj1 (proj2 (Hfatal _ _))),
      ?(proj1 (proj2 (proj2 (Hfatal _ _)))),
      ?(proj2 (proj2 (proj2 (Hfatal _ _))));
    element_fields; rewrite ?H4, ?Hr0;
    (split; [exact H1|]); (split; [reflexivity|]); (split; [reflexivity|]);
    (split; [reflexivity|]);
    intros C' Hparent'; unfold gst_rs_fec_enc_change_state;
    cbn [mbind run_bind negb];
    rewrite not_failure by exact Hparent';
    unfold gst_rs_fec_enc_shutdown_openfec;
    cbn [check_if_fatal]; element_fields; rewrite H1; cbn [negb];
    unfold gst_rs_fec_enc_free_encoding_symbol_table; element_fields;
    reflexivity.
Qed.

Lemma X19_failed_release_breaks_retry_witness :
  exists el el1,
    acts obliging enc_accepting new_element
      [ChangeState GST_STATE_CHANGE_NULL_TO_READY] = Ret el /\
    gst_rs_fec_enc_change_state
      {| of_create_codec_instance := fun _ => OF_STATUS_OK;
         of_release_codec_instance := fun _ => OF_STATUS_ERROR;
         parent_change_state := fun _ _ => GST_STATE_CHANGE_SUCCESS |}
      el GST_STATE_CHANGE_READY_TO_NULL
    = Ret (GST_STATE_CHANGE_FAILURE, el1) /\
    gst_rs_fec_enc_change_state obliging el1 GST_STATE_CHANGE_READY_TO_NULL
    = Crash AssertFailed.
Proof.
  destruct (acts_inv obliging enc_accepting
              [ChangeState GST_STATE_CHANGE_NULL_TO_READY] obliging_succeed
              GST_STATE_NULL new_element GST_STATE_READY new_element_inv
              eq_refl eq_refl) as (el & Hrun & Hinv).
  destruct (X19_failed_release_breaks_retry
              {| of_create_codec_instance := fun _ => OF_STATUS_OK;
                 of_release_codec_instance := fun _ => OF_STATUS_ERROR;
                 parent_change_state := fun _ _ => GST_STATE_CHANGE_SUCCESS |}
              el Hinv)
    as (el1 & Hfail & _ & _ & _ & _ & Hretry).
  - cbn. discriminate.
  - cbn. discriminate.
  - exists el, el1. split; [exact Hrun|]. split; [exact Hfail|].
    apply Hretry. cbn. discriminate.
Defined.

End EncLifecycle.

Module DecPruning.
Import Aging Dec Examples DecFacts Scenarios.

(** ** The decoder: the pruning reference *)

Lemma prune_reference W dec nr ret dec' :
  gst_rs_fec_dec_prune_source_block_table W dec nr = Ret (ret, dec') ->
  first_pruning dec' = false /\
  ((first_pruning dec = true /\ most_recent_block_nr dec' = nr) \/
   (first_pruning dec = false /\ nr <> most_recent_block_nr dec /\
    gst_rs_fec_dec_is_source_block_nr_newer nr (most_recent_block_nr dec)
    = true /\
    most_recent_block_nr dec' = nr) \/
   (first_pruning dec = false /\
    (nr = most_recent_block_nr dec \/
     gst_rs_fec_dec_is_source_block_nr_newer nr (most_recent_block_nr dec)
     = false) /\
    most_recent_block_nr dec' = most_recent_block_nr dec /\
    dec' = dec /\ ret = GST_FLOW_OK)).
Proof.
  unfold gst_rs_fec_dec_prune_source_block_table. intros H.
  destruct (first_pruning dec) eqn:Hf.
  { inversion H; subst. cbn. auto. }
  destruct (Z.eqb_spec nr (most_recent_block_nr dec)) as [Heq|Hne]; cbn [negb] in H.
  { inversion H; subst. split; [assumption|]. right. right. auto 10. }
  destruct (gst_rs_fec_dec_is_source_block_nr_newer nr (most_recent_block_nr dec))
    eqn:Hnew.
  2: { inversion H; subst. split; [assumption|]. right. right. auto 10. }
  destruct (prune_scan _ _) as [table pruned].
  apply push_block_list_advances in H. destruct H as [K _].
  unfold keeps_session in K. cbn in K.
  destruct K as (_ & _ & _ & _ & _ & _ & K7 & K8).
  split; [congruence|]. right. left. auto.
Qed.

Lemma process_and_prune_reference W dec b blk ret dec' :
  process_and_prune W dec b blk = Ret (ret, dec') ->
  (first_pruning dec' = first_pruning dec /\
   most_recent_block_nr dec' = most_recent_block_nr dec) \/
  (first_pruning dec' = false /\ most_recent_block_nr dec' = blk /\
   (first_pruning dec = true \/
    gst_rs_fec_dec_is_source_block_nr_newer blk (most_recent_block_nr dec)
    = true)).
Proof.
  unfold process_and_prune. intros H.
  run_inv H. destruct a as [ret1 dec1].
  assert (first_pruning dec1 = first_pruning dec /\
          most_recent_block_nr dec1 = most_recent_block_nr dec) as [F1 M1].
  { destruct (gst_rs_fec_dec_can_source_block_be_processed dec b).
    - run_inv E. destruct a as [[ret2 dec2] b2].
      apply process_source_block_spec in E0. destruct E0 as ([K _] & _).
      unfold keeps_session in K. cbn in K.
      destruct K as (_ & _ & _ & _ & _ & _ & K7 & K8).
      change (sort_output (write_back dec2 blk b2)) with (sort_output dec2) in E.
      destruct (sort_output dec2); cbn in E; inversion E; subst; cbn; auto.
    - inversion E; subst. auto. }
  destruct (flow_is_ok ret1); [|inversion H; subst; auto].
  apply prune_reference in H.
  destruct H as (F' & [(Hf & Hm)|[(Hf & Hne & Hnew & Hm)|(Hf & _ & Hm & _)]]).
  - right. rewrite <- F1. auto.
  - right. rewrite <- M1. auto.
  - left. split; congruence.
Qed.

(** X10.  An insertion that returns either leaves the pruning reference
    ([first_pruning], [most_recent_block_nr]) as it was, or sets it to
    the block number of the inserted packet; the second happens only for
    a block number that passed the recent-enough test against the old
    reference, and then only if that number is
    newer than the old reference or no reference had been set since the
    last reset. *)
Theorem X10_reference_moves_forward W dec fec_packet is_source_packet ret dec' :
  gst_rs_fec_dec_insert_fec_packet W dec fec_packet is_source_packet
  = Ret (ret, dec') ->
  (first_pruning dec' = first_pruning dec /\
   most_recent_block_nr dec' = most_recent_block_nr dec) \/
  (exists blk esi,
     read_payload_id fec_packet is_source_packet = Ret (blk, esi) /\
     first_pruning dec' = false /\ most_recent_block_nr dec' = blk /\
     gst_rs_fec_dec_is_source_block_nr_recent_enough blk
       (most_recent_block_nr dec) (max_source_block_age dec) = true /\
     (first_pruning dec = true \/
      gst_rs_fec_dec_is_source_block_nr_newer blk (most_recent_block_nr dec)
      = true)).
Proof.
  intros H.
  destruct (read_payload_id fec_packet is_source_packet) as [[blk esi]|] eqn:Hid.
  2: { unfold gst_rs_fec_dec_insert_fec_packet in H.
       unfold read_payload_id in Hid. rewrite Hid in H. discriminate. }
  destruct (insert_cases W dec fec_packet is_source_packet blk esi ret dec'
              Hid H) as [(_ & _ & ->)|(Hr & Hc & Hf & Hrec)].
  { left. auto. }
  destruct Hrec as (ret1 & dec1 & b1 & Hrec & Hnext).
  assert (first_pruning dec1 = first_pruning dec /\
          most_recent_block_nr dec1 = most_recent_block_nr dec) as [F1 M1].
  { unfold record_fec_packet in Hrec. run_inv Hrec.
    destruct is_source_packet.
    - destruct (_ <=? _)%nat; [discriminate|].
      change (sort_output (with_block_for dec blk)) with (sort_output dec)
        in Hrec.
      destruct (sort_output dec); cbn in Hrec; inversion Hrec; subst; auto.
    - inversion Hrec; subst. auto. }
  destruct Hnext as [(_ & _ & ->)|(_ & Hpp)]; [left; auto|].
  apply process_and_prune_reference in Hpp. cbn in Hpp.
  rewrite F1, M1 in Hpp.
  destruct Hpp as [Hsame|(Hf' & Hm' & Hwhy)]; [left; exact Hsame|].
  right. exists blk, esi. auto.
Qed.

Lemma X10_reference_moves_forward_witness :
  first_pruning one_of_block_5 = false /\
  most_recent_block_nr one_of_block_5 = 5.
Proof.
  destruct (X10_reference_moves_forward accepting (configure 2 1 1 true)
              (source_packet ["a"%byte] 5 0 2) true GST_FLOW_OK one_of_block_5)
    as [[Hf _]|(blk & esi & Hid & Hf & Hm & _)].
  - vm_compute. reflexivity.
  - vm_compute in Hf. discriminate.
  - vm_compute in Hid. inversion Hid; subst. split; assumption.
Defined.

End DecPruning.

Module DecDelivery.
Import Aging Dec DecInv Examples DecFacts DecPruning.

(** ** The decoder: what pruning and draining push *)

Lemma deliveries_app l1 l2 :
  deliveries (l1 ++ l2) = deliveries l1 ++ deliveries l2.
Proof. apply omap_app. Qed.

(** The slots of a block over a list of ESIs. *)
Lemma push_adus_loop_run W b esis : forall dec ret0 push_adus,
  (forall esi, esi ∈ esis ->
     (Z.to_nat esi < length (output_adu_table b))%nat) ->
  push_adus = flow_is_ok ret0 ->
  exists ret dec' new,
    push_adus_loop W dec b esis ret0 push_adus = Ret (ret, dec') /\
    log dec' = log dec ++ new /\
    deliveries new
      `prefix_of` omap (fun esi => match output_adu_table b !! Z.to_nat esi with
                                   | Some (Some adu) => Some (block_nr b, esi, adu)
                                   | _ => None
                                   end) esis /\
    (push_adus = false -> new = [] /\ ret = ret0) /\
    (flow_is_ok ret = true ->
     deliveries new
     = omap (fun esi => match output_adu_table b !! Z.to_nat esi with
                        | Some (Some adu) => Some (block_nr b, esi, adu)
                        | _ => None
                        end) esis) /\
    (accepting_downstream W -> push_adus = true -> ret = GST_FLOW_OK).
Proof.
  induction esis as [|esi rest IH]; intros dec ret0 push_adus Hin Hflag.
  - exists ret0, dec, []. rewrite app_nil_r. cbn.
    split; [reflexivity|]. split; [reflexivity|]. split; [reflexivity|].
    split; [auto|]. split; [auto|].
    intros _ Hp. subst push_adus. apply flow_is_ok_iff. auto.
  - cbn [push_adus_loop omap list_omap].
    destruct (lookup_lt_is_Some_2 (output_adu_table b) (Z.to_nat esi)
                (Hin esi ltac:(left))) as [slot Hslot].
    rewrite Hslot.
    assert (forall esi', esi' ∈ rest ->
              (Z.to_nat esi' < length (output_adu_table b))%nat) as Hin'
      by (intros; apply Hin; right; assumption).
    destruct slot as [adu|].
    2: { apply (IH dec ret0 push_adus Hin' Hflag). }
    destruct push_adus.
    + cbn [gst_rs_fec_dec_push_adu].
      set (r1 := pad_push W (log dec) adu).
      set (d1 := emit dec (EvPush (block_nr b) esi adu)).
      destruct (IH d1 r1 (flow_is_ok r1) Hin' eq_refl)
        as (ret & dec' & new & Hrun & L & Hpre & Hoff & Hfull & Hacc).
      exists ret, dec', (EvPush (block_nr b) esi adu :: new).
      split; [exact Hrun|].
      split; [rewrite L; cbn; rewrite <- app_assoc; reflexivity|].
      split; [apply prefix_cons; exact Hpre|].
      split; [discriminate|]. split.
      * intros Hok. cbn. fold (deliveries new). f_equal. apply Hfull. exact Hok.
      * intros Ha _. apply Hacc; [exact Ha|].
        unfold r1. rewrite Ha. reflexivity.
    + destruct (IH dec ret0 false Hin' Hflag)
        as (ret & dec' & new & Hrun & L & Hpre & Hoff & Hfull & Hacc).
      destruct (Hoff eq_refl) as [-> ->].
      exists ret0, dec', []. split; [exact Hrun|]. split; [exact L|].
      split; [apply prefix_nil|]. split; [auto|].
      split; [rewrite <- Hflag; discriminate|discriminate].
Qed.

Lemma deliveries_start_events dec :
  exists new,
    log (gst_rs_fec_dec_push_segment (gst_rs_fec_dec_push_stream_start dec))
    = log dec ++ new /\ deliveries new = [].
Proof.
  unfold gst_rs_fec_dec_push_segment, gst_rs_fec_dec_push_stream_start.
  destruct (stream_started dec); cbn;
    destruct (segment_started dec); cbn.
  - exists []. rewrite app_nil_r. auto.
  - eexists [_]. auto.
  - eexists [_]. auto.
  - eexists [_; _]. rewrite <- app_assoc. auto.
Qed.

Lemma push_source_block_run W dec b :
  length (output_adu_table b) = Z.to_nat (num_source_symbols dec) ->
  exists ret dec' new,
    gst_rs_fec_dec_push_source_block W dec b = Ret (ret, dec') /\
    log dec' = log dec ++ new /\
    deliveries new `prefix_of` slots (num_source_symbols dec) b /\
    (flow_is_ok ret = true ->
     deliveries new = slots (num_source_symbols dec) b) /\
    (accepting_downstream W -> ret = GST_FLOW_OK).
Proof.
  intros Hlen. unfold gst_rs_fec_dec_push_source_block.
  destruct (deliveries_start_events dec) as (new0 & L0 & D0).
  set (d0 := gst_rs_fec_dec_push_segment (gst_rs_fec_dec_push_stream_start dec))
    in *.
  assert (num_source_symbols d0 = num_source_symbols dec) as Hk.
  { pose proof (push_segment_advances (gst_rs_fec_dec_push_stream_start dec))
      as [K1 _].
    pose proof (push_stream_start_advances dec) as [K2 _].
    unfold keeps_session in *. fold d0 in K1. intuition congruence. }
  rewrite Hk.
  destruct (push_adus_loop_run W b (seqZ 0 (num_source_symbols dec)) d0
              GST_FLOW_OK true)
    as (ret & dec' & new & Hrun & L & Hpre & _ & Hfull & Hacc).
  { intros esi Hesi. apply elem_of_seqZ in Hesi. lia. }
  { reflexivity. }
  exists ret, dec', (new0 ++ new). split; [exact Hrun|].
  split; [rewrite L, L0, <- app_assoc; reflexivity|].
  rewrite deliveries_app, D0. cbn [app]. unfold slots. auto.
Qed.

Lemma push_block_list_run W asserting : forall l dec ret0,
  Forall (fun b => length (output_adu_table b)
                   = Z.to_nat (num_source_symbols dec)) l ->
  (asserting = true -> l <> [] -> sort_output dec = true) ->
  exists ret dec' new,
    push_block_list W asserting dec l ret0 = Ret (ret, dec') /\
    log dec' = log dec ++ new /\
    (flow_is_ok ret0 = false -> new = []) /\
    (flow_is_ok ret0 = true ->
     deliveries new
       `prefix_of` flat_map (slots (num_source_symbols dec)) l /\
     (accepting_downstream W ->
      ret = GST_FLOW_OK /\
      deliveries new = flat_map (slots (num_source_symbols dec)) l)).
Proof.
  induction l as [|b rest IH]; intros dec ret0 Hsized Hsort.
  - exists ret0, dec, []. rewrite app_nil_r. cbn.
    split; [reflexivity|]. split; [reflexivity|]. split; [auto|].
    intros Hok. split; [reflexivity|]. intros _.
    split; [apply flow_is_ok_iff; exact Hok|reflexivity].
  - apply Forall_cons in Hsized. destruct Hsized as [Hb Hrest].
    cbn [push_block_list].
    assert (negb asserting || sort_output dec = true) as ->.
    { destruct asserting; [|reflexivity]. cbn. apply Hsort; [reflexivity|].
      discriminate. }
    cbn [assert_that mbind run_bind].
    destruct (flow_is_ok ret0) eqn:Hok0.
    + destruct (push_source_block_run W dec b Hb)
        as (ret1 & dec1 & new1 & Hrun1 & L1 & Hpre1 & Hfull1 & Hacc1).
      rewrite Hrun1. cbn [mbind run_bind].
      pose proof (push_source_block_advances W dec b ret1 dec1 Hrun1) as [K _].
      unfold keeps_session in K.
      destruct K as (K1 & _ & _ & _ & K5 & _).
      destruct (IH dec1 ret1) as (ret & dec' & new & Hrun & L & Hoff & Hon).
      { rewrite K1. exact Hrest. }
      { rewrite K5. intros Ha _. apply Hsort; [exact Ha|discriminate]. }
      exists ret, dec', (new1 ++ new). split; [exact Hrun|].
      split; [rewrite L, L1, <- app_assoc; reflexivity|].
      split; [discriminate|]. intros _.
      rewrite deliveries_app. cbn [flat_map]. rewrite K1 in Hon.
      destruct (flow_is_ok ret1) eqn:Hok1.
      * rewrite (Hfull1 eq_refl). destruct (Hon eq_refl) as [Hpre Hacc].
        split; [apply prefix_app; exact Hpre|].
        intros Ha. destruct (Hacc Ha) as [-> ->]. auto.
      * rewrite (Hoff eq_refl), app_nil_r.
        split; [apply prefix_app_r; exact Hpre1|].
        intros Ha. rewrite (Hacc1 Ha) in Hok1. discriminate.
    + destruct (IH dec ret0 Hrest) as (ret & dec' & new & Hrun & L & Hoff & Hon).
      { intros Ha _. apply Hsort; [exact Ha|discriminate]. }
      exists ret, dec', new. split; [exact Hrun|]. split; [exact L|].
      split; [intros _; exact (Hoff Hok0)|discriminate].
Qed.

(** *** The order of the sorted list and of what is pushed *)

Lemma sorts_before_le a b : sorts_before a b <-> block_nr a <= block_nr b.
Proof.
  unfold sorts_before, gst_rs_fec_dec_compare_source_blocks.
  destruct (Z.ltb_spec (block_nr a) (block_nr b));
    [|destruct (Z.gtb_spec (block_nr a) (block_nr b))]; lia.
Qed.

#[local] Instance sorts_before_total : Total sorts_before.
Proof. intros a b. rewrite !sorts_before_le. lia. Qed.

#[local] Instance sorts_before_trans : Transitive sorts_before.
Proof. intros a b c. rewrite !sorts_before_le. lia. Qed.

Lemma sorted_strict (l : list GstRSFECDecSourceBlock) :
  StronglySorted sorts_before l -> NoDup (block_nr <$> l) ->
  StronglySorted raw_before l.
Proof.
  induction 1 as [|a l Hs IH Hall]; intros Hnd; [constructor|].
  rewrite fmap_cons in Hnd. apply NoDup_cons in Hnd. destruct Hnd as [Hnotin Hnd].
  constructor; [apply IH; exact Hnd|].
  rewrite Forall_forall in *. intros b Hb.
  pose proof (Hall b Hb) as Hle. rewrite sorts_before_le in Hle.
  unfold raw_before.
  assert (block_nr a <> block_nr b); [|lia].
  intros Heq. apply Hnotin. rewrite Heq.
  apply list_elem_of_fmap. exists b. split; [reflexivity|exact Hb].
Qed.

Lemma g_slist_sort_strict (l : list GstRSFECDecSourceBlock) :
  NoDup (block_nr <$> l) ->
  g_slist_sort l ≡ₚ l /\ StronglySorted raw_before (g_slist_sort l).
Proof.
  intros Hnd. unfold g_slist_sort.
  split; [apply merge_sort_Permutation|].
  apply sorted_strict; [apply StronglySorted_merge_sort; apply _|].
  rewrite merge_sort_Permutation. exact Hnd.
Qed.

Lemma slots_elem k b x :
  x ∈ slots k b -> x.1.1 = block_nr b /\ 0 <= x.1.2 < k.
Proof.
  unfold slots. intros Hx. apply list_elem_of_omap in Hx.
  destruct Hx as (esi & Hesi & Hx). apply elem_of_seqZ in Hesi.
  destruct (output_adu_table b !! Z.to_nat esi) as [[adu|]|]; try discriminate.
  inversion Hx; subst. cbn. split; [reflexivity|lia].
Qed.

Lemma slots_over_sorted b (esis : list Z) :
  StronglySorted Z.lt esis ->
  StronglySorted raw_order
    (omap (fun esi => match output_adu_table b !! Z.to_nat esi with
                      | Some (Some adu) => Some (block_nr b, esi, adu)
                      | _ => None
                      end) esis).
Proof.
  induction 1 as [|esi rest Hs IH Hall]; [constructor|].
  cbn [omap list_omap].
  destruct (output_adu_table b !! Z.to_nat esi) as [[adu|]|]; try exact IH.
  constructor; [exact IH|].
  apply Forall_forall. intros x Hx.
  apply list_elem_of_omap in Hx. destruct Hx as (esi' & Hesi' & Hx).
  destruct (output_adu_table b !! Z.to_nat esi') as [[adu'|]|]; try discriminate.
  inversion Hx; subst. right. cbn. split; [reflexivity|].
  rewrite Forall_forall in Hall. apply Hall. exact Hesi'.
Qed.

Lemma seqZ_sorted n : forall m, StronglySorted Z.lt (seqZ m (Z.of_nat n)).
Proof.
  induction n as [|n IH]; intros m; [constructor|].
  rewrite seqZ_cons by lia.
  replace (Z.pred (Z.of_nat (S n))) with (Z.of_nat n) by lia.
  constructor; [apply IH|].
  apply Forall_forall. intros x Hx.
  apply elem_of_seqZ in Hx. lia.
Qed.

Lemma slots_sorted k b : StronglySorted raw_order (slots k b).
Proof.
  unfold slots. apply slots_over_sorted.
  destruct (Z.le_gt_cases k 0) as [Hk|Hk].
  - rewrite seqZ_nil by exact Hk. constructor.
  - rewrite <- (Z2Nat.id k) by lia. apply seqZ_sorted.
Qed.

Lemma flat_slots_sorted k (l : list GstRSFECDecSourceBlock) :
  StronglySorted raw_before l ->
  StronglySorted raw_order (flat_map (slots k) l).
Proof.
  induction 1 as [|b rest Hs IH Hall]; [constructor|].
  cbn [flat_map]. apply StronglySorted_app_2; [|apply slots_sorted|exact IH].
  intros x y Hx Hy. apply slots_elem in Hx. destruct Hx as [Hx _].
  apply list_elem_of_In, in_flat_map in Hy. destruct Hy as (b' & Hb' & Hy).
  apply list_elem_of_In, slots_elem in Hy. destruct Hy as [Hy _].
  rewrite Forall_forall in Hall. left. rewrite Hx, Hy. apply Hall.
  apply list_elem_of_In. exact Hb'.
Qed.

Lemma prefix_sorted {A} (R : relation A) (l1 l2 : list A) :
  l1 `prefix_of` l2 -> StronglySorted R l2 -> StronglySorted R l1.
Proof.
  intros [k ->] Hs. eapply StronglySorted_app_1_l. exact Hs.
Qed.

(** *** The scan of the table *)

Lemma prune_scan_table dec (entries : list (Z * GstRSFECDecSourceBlock)) :
  forall (acc : gmap Z GstRSFECDecSourceBlock * list GstRSFECDecSourceBlock)
         i b,
  (foldl
     (fun '(table, pruned_block_list) '(key, source_block) =>
        if gst_rs_fec_dec_is_source_block_nr_recent_enough
             (block_nr source_block) (most_recent_block_nr dec)
             (max_source_block_age dec)
        then (table, pruned_block_list)
        else (delete key table,
              if sort_output dec then source_block :: pruned_block_list
              else pruned_block_list))
     acc entries).1 !! i = Some b <->
  acc.1 !! i = Some b /\
  forall b', (i, b') ∈ entries ->
    gst_rs_fec_dec_is_source_block_nr_recent_enough
      (block_nr b') (most_recent_block_nr dec) (max_source_block_age dec)
    = true.
Proof.
  induction entries as [|[key sb] rest IH]; intros [t l] i b.
  - cbn. split; [intros H; split; [exact H|]|tauto].
    intros b' Hb'. apply elem_of_nil in Hb'. destruct Hb'.
  - cbn [foldl].
    destruct (gst_rs_fec_dec_is_source_block_nr_recent_enough (block_nr sb) _ _)
      eqn:Hrec; rewrite IH; cbn [fst].
    + split; intros [Ht Hall]; (split; [exact Ht|]).
      * intros b' Hb'. apply elem_of_cons in Hb'.
        destruct Hb' as [[= -> ->]|Hb']; [exact Hrec|apply Hall; exact Hb'].
      * intros b' Hb'. apply Hall. right. exact Hb'.
    + rewrite lookup_delete_Some. split.
      * intros [[Hne Ht] Hall]. split; [exact Ht|].
        intros b' Hb'. apply elem_of_cons in Hb'.
        destruct Hb' as [[= -> ->]|Hb']; [congruence|apply Hall; exact Hb'].
      * intros [Ht Hall]. split; [split; [|exact Ht]|].
        -- intros ->.
           rewrite (Hall sb) in Hrec by (left; reflexivity). discriminate.
        -- intros b' Hb'. apply Hall. right. exact Hb'.
Qed.

Lemma prune_scan_list dec (entries : list (Z * GstRSFECDecSourceBlock)) :
  forall acc : gmap Z GstRSFECDecSourceBlock * list GstRSFECDecSourceBlock,
  (foldl
     (fun '(table, pruned_block_list) '(key, source_block) =>
        if gst_rs_fec_dec_is_source_block_nr_recent_enough
             (block_nr source_block) (most_recent_block_nr dec)
             (max_source_block_age dec)
        then (table, pruned_block_list)
        else (delete key table,
              if sort_output dec then source_block :: pruned_block_list
              else pruned_block_list))
     acc entries).2
  = if sort_output dec
    then reverse (filter (fun b =>
                    gst_rs_fec_dec_is_source_block_nr_recent_enough
                      (block_nr b) (most_recent_block_nr dec)
                      (max_source_block_age dec) = false) entries.*2)
         ++ acc.2
    else acc.2.
Proof.
  induction entries as [|[key sb] rest IH]; intros [t l].
  - cbn. destruct (sort_output dec); reflexivity.
  - cbn [foldl fmap list_fmap snd]. rewrite filter_cons.
    destruct (gst_rs_fec_dec_is_source_block_nr_recent_enough (block_nr sb) _ _)
      eqn:Hrec; rewrite IH; cbn [snd].
    + rewrite decide_False by congruence. reflexivity.
    + rewrite decide_True by reflexivity.
      destruct (sort_output dec); [|reflexivity].
      rewrite reverse_cons, <- app_assoc. reflexivity.
Qed.

Lemma drain_list entries : forall acc : list GstRSFECDecSourceBlock,
  foldl (fun l '(_, source_block) => source_block :: l) acc
        (entries : list (Z * GstRSFECDecSourceBlock))
  = reverse entries.*2 ++ acc.
Proof.
  induction entries as [|[key sb] rest IH]; intros acc; [reflexivity|].
  cbn [foldl fmap list_fmap snd]. rewrite IH, reverse_cons, <- app_assoc.
  reflexivity.
Qed.

Lemma blocks_of_distinct dec :
  table_wf dec -> NoDup (block_nr <$> blocks_of dec).
Proof.
  intros [_ Hwf]. unfold blocks_of.
  replace (block_nr <$> (map_to_list (source_block_table dec)).*2)
    with ((map_to_list (source_block_table dec)).*1).
  { apply NoDup_fst_map_to_list. }
  rewrite <- list_fmap_compose. apply list_fmap_ext.
  intros i [key b] Hkb. cbn.
  apply list_elem_of_lookup_2, elem_of_map_to_list in Hkb.
  symmetry. apply (Hwf _ _ Hkb).
Qed.

Lemma blocks_of_sized dec :
  tables_sized dec ->
  Forall (fun b => length (output_adu_table b)
                   = Z.to_nat (num_source_symbols dec)) (blocks_of dec).
Proof.
  intros Hs. apply Forall_forall. intros b Hb.
  unfold blocks_of in Hb. apply list_elem_of_fmap in Hb.
  destruct Hb as ([key b'] & -> & Hb). apply elem_of_map_to_list in Hb.
  apply (Hs _ _ Hb).
Qed.

End DecDelivery.

Module DecOrder.
Import Aging Dec DecInv Examples DecFacts DecPruning DecDelivery Scenarios.

Lemma too_old_distinct dec (P : GstRSFECDecSourceBlock -> Prop)
    `{!forall b, Decision (P b)} :
  table_wf dec -> NoDup (block_nr <$> filter P (blocks_of dec)).
Proof.
  intros Hwf. eapply sublist_NoDup; [apply blocks_of_distinct; exact Hwf|].
  apply fmap_sublist, sublist_filter.
Qed.

(** X12.  When a reference is set (this is not the first pruning) and
    pruning is called with another block number that is newer than the
    reference, the reference becomes that number, and the table keeps
    exactly the blocks whose number is still recent enough with respect
    to it.  In sorted mode the evicted blocks are pushed in strictly
    increasing order of their raw block number and, within a block, of
    the ESI: what is pushed is an initial part of the ADUs these blocks
    hold, and all of it when downstream accepts every buffer.  In
    immediate mode the evicted blocks are dropped and nothing is pushed.
    The hypotheses on the table are those of X11. *)
Theorem X12_prune_evicts_too_old W dec nr :
  table_wf dec -> tables_sized dec ->
  first_pruning dec = false ->
  nr <> most_recent_block_nr dec ->
  gst_rs_fec_dec_is_source_block_nr_newer nr (most_recent_block_nr dec) = true ->
  exists ret dec' new,
    gst_rs_fec_dec_prune_source_block_table W dec nr = Ret (ret, dec') /\
    most_recent_block_nr dec' = nr /\
    (forall blk b,
       source_block_table dec' !! blk = Some b <->
       source_block_table dec !! blk = Some b /\
       gst_rs_fec_dec_is_source_block_nr_recent_enough
         (block_nr b) nr (max_source_block_age dec) = true) /\
    log dec' = log dec ++ new /\
    StronglySorted raw_order (deliveries new) /\
    if sort_output dec then
      exists l,
        l ≡ₚ filter (fun b => gst_rs_fec_dec_is_source_block_nr_recent_enough
                                (block_nr b) nr (max_source_block_age dec)
                              = false)
                    (blocks_of dec) /\
        StronglySorted raw_before l /\
        deliveries new `prefix_of` flat_map (slots (num_source_symbols dec)) l /\
        (accepting_downstream W ->
         ret = GST_FLOW_OK /\
         deliveries new = flat_map (slots (num_source_symbols dec)) l)
    else new = [] /\ ret = GST_FLOW_OK.
Proof.
  intros Hwf Hsized Hfirst Hne Hnewer.
  unfold gst_rs_fec_dec_prune_source_block_table.
  rewrite Hfirst. apply Z.eqb_neq in Hne. rewrite Hne. cbn [negb].
  rewrite Hnewer.
  set (dec1 := set_pruning_reference dec false nr).
  set (too_old := fun b =>
         gst_rs_fec_dec_is_source_block_nr_recent_enough
           (block_nr b) nr (max_source_block_age dec) = false).
  destruct (prune_scan dec1 (map_to_list (source_block_table dec1)))
    as [table pruned] eqn:Hscan.
  assert (forall blk b,
            table !! blk = Some b <->
            source_block_table dec !! blk = Some b /\
            gst_rs_fec_dec_is_source_block_nr_recent_enough
              (block_nr b) nr (max_source_block_age dec) = true) as Htable.
  { intros blk b.
    pose proof (prune_scan_table dec1 (map_to_list (source_block_table dec1))
                  (source_block_table dec1, []) blk b) as H.
    unfold prune_scan in Hscan. rewrite Hscan in H. cbn [fst] in H.
    rewrite H. change (source_block_table dec1) with (source_block_table dec).
    change (most_recent_block_nr dec1) with nr.
    change (max_source_block_age dec1) with (max_source_block_age dec).
    split; intros [Ht Hall]; (split; [exact Ht|]).
    - apply Hall. apply elem_of_map_to_list. exact Ht.
    - intros b' Hb'. apply elem_of_map_to_list in Hb'.
      rewrite Ht in Hb'. inversion Hb'; subst. exact Hall. }
  assert (pruned = if sort_output dec
                   then reverse (filter too_old (blocks_of dec)) else [])
    as Hpruned.
  { pose proof (prune_scan_list dec1 (map_to_list (source_block_table dec1))
                  (source_block_table dec1, [])) as H.
    unfold prune_scan in Hscan. rewrite Hscan in H. cbn [snd] in H.
    rewrite H. change (sort_output dec1) with (sort_output dec).
    destruct (sort_output dec); [|reflexivity]. rewrite app_nil_r.
    reflexivity. }
  assert (NoDup (block_nr <$> pruned)) as Hnd.
  { rewrite Hpruned. destruct (sort_output dec); [|constructor].
    rewrite reverse_Permutation. apply too_old_distinct. exact Hwf. }
  destruct (g_slist_sort_strict pruned Hnd) as [Hperm Hsorted].
  set (dec2 := set_source_block_table dec1 table).
  destruct (push_block_list_run W true (g_slist_sort pruned) dec2 GST_FLOW_OK)
    as (ret & dec' & new & Hrun & L & _ & Hon).
  { apply Forall_forall. intros b Hb. rewrite Hperm, Hpruned in Hb.
    change (num_source_symbols dec2) with (num_source_symbols dec).
    destruct (sort_output dec); [|apply elem_of_nil in Hb; destruct Hb].
    rewrite reverse_Permutation in Hb. apply list_elem_of_filter in Hb.
    destruct Hb as [_ Hb]. pose proof (blocks_of_sized dec Hsized) as F.
    rewrite Forall_forall in F. apply F. exact Hb. }
  { intros _ Hnil. change (sort_output dec2) with (sort_output dec).
    destruct (sort_output dec); [reflexivity|]. exfalso. apply Hnil.
    rewrite Hpruned. reflexivity. }
  destruct (Hon eq_refl) as [Hpre Hacc].
  change (num_source_symbols dec2) with (num_source_symbols dec) in *.
  exists ret, dec', new.
  split; [exact Hrun|].
  pose proof (push_block_list_advances W true _ _ _ _ _ Hrun) as [K _].
  unfold keeps_session in K.
  destruct K as (K1 & K2 & K3 & K4 & K5 & K6 & K7 & K8).
  split; [rewrite K8; reflexivity|].
  split; [intros blk b; rewrite K6; apply Htable|].
  split; [exact L|].
  split; [eapply prefix_sorted; [exact Hpre|apply flat_slots_sorted; exact Hsorted]|].
  destruct (sort_output dec) eqn:Hsort.
  - exists (g_slist_sort pruned).
    split; [rewrite Hperm, Hpruned; apply reverse_Permutation|].
    split; [exact Hsorted|]. split; assumption.
  - subst pruned. cbn in Hrun. inversion Hrun; subst.
    split; [|reflexivity].
    cbn in L. apply (f_equal length) in L. rewrite length_app in L.
    destruct new; [reflexivity|cbn in L; lia].
Qed.

End DecOrder.

Module DecTables.
Import Aging Dec DecInv Examples DecFacts DecPruning DecDelivery DecOrder.

(** ** The decoder: the size of the output tables *)

Lemma source_symbols_loop_length sort k len pkts :
  forall received b received' b',
  source_symbols_loop sort k len pkts received b = Ret (received', b') ->
  length (output_adu_table b') = length (output_adu_table b) /\
  length received' = length received.
Proof.
  induction pkts as [|p rest IH]; intros received b received' b' H; simpl in H.
  - inversion H; auto.
  - run_inv H. destruct a as [blk esi].
    run_inv H. run_inv H.
    destruct (output_adu_table b !! Z.to_nat esi) as [[adu|]|];
      try discriminate.
    destruct (_ <? _)%nat; [|discriminate].
    apply IH in H. destruct H as [H1 H2].
    rewrite length_insert in H2. split; [|exact H2].
    rewrite H1. destruct sort; [reflexivity|].
    cbn. apply length_insert.
Qed.

Lemma recovered_adus_loop_length W sort esis received recovered :
  forall dec b ret dec' b',
  recovered_adus_loop W sort esis received recovered dec b
  = Ret (ret, dec', b') ->
  length (output_adu_table b') = length (output_adu_table b).
Proof.
  induction esis as [|esi rest IH]; intros dec b ret dec' b' H; simpl in H.
  - inversion H; reflexivity.
  - destruct (received !! Z.to_nat esi) as [[sym|]|]; [eauto| |discriminate].
    destruct (mjoin (recovered !! Z.to_nat esi))
      as [[|f [|l1 [|l2 data]]]|]; try discriminate.
    destruct (negb (byte_val f =? 0)); [eauto|].
    destruct (_ <? _); [discriminate|].
    destruct (_ <=? _)%nat; [discriminate|].
    destruct sort.
    + apply IH in H. rewrite H. cbn. apply length_insert.
    + simpl in H. destruct (flow_is_ok _).
      * apply IH in H. rewrite H. cbn. apply length_insert.
      * inversion H; subst. cbn. apply length_insert.
Qed.

Lemma decode_with_openfec_length W dec b received ret dec' b' :
  decode_with_openfec W dec b received = Ret (ret, dec', b') ->
  length (output_adu_table b') = length (output_adu_table b).
Proof.
  unfold decode_with_openfec. intros H.
  destruct (negb (of_is_ok (of_set_available_symbols W _ _)));
    [inversion H; reflexivity|].
  destruct (negb (of_is_ok (of_finish_decoding W _)));
    [inversion H; reflexivity|].
  destruct (of_get_source_symbols_tab W _) as [status recovered].
  destruct (negb (of_is_ok status)); [inversion H; reflexivity|].
  run_inv H. destruct a as [[ret1 dec1] b1].
  apply recovered_adus_loop_length in E.
  destruct (flow_is_ok ret1); inversion H; subst; exact E.
Qed.

Lemma process_source_block_length W dec b ret dec' b' :
  gst_rs_fec_dec_process_source_block W dec b = Ret (ret, dec', b') ->
  length (output_adu_table b') = length (output_adu_table b).
Proof.
  unfold gst_rs_fec_dec_process_source_block. intros H.
  destruct (num_repair_packets b =? 0).
  { run_inv H. inversion H; reflexivity. }
  destruct (repair_packets b) as [|first_repair_packet ?]; [discriminate|].
  destruct (gst_rs_fec_dec_create_openfec_session W _ _) as [session dec1].
  destruct (negb session); [inversion H; reflexivity|].
  run_inv H. destruct a as [received b1].
  run_inv H. rename a into received'.
  run_inv H. destruct a as [[ret2 dec2] b2].
  destruct (release_openfec_session W dec2 ret2) as [ret3 dec3].
  inversion H; subst.
  apply decode_with_openfec_length in E1.
  apply source_symbols_loop_length in E. destruct E as [E _]. congruence.
Qed.

Lemma tables_sized_subseteq dec dec' :
  tables_sized dec ->
  num_source_symbols dec' = num_source_symbols dec ->
  source_block_table dec' ⊆ source_block_table dec ->
  tables_sized dec'.
Proof.
  intros Hs Hk Hsub blk b Hb. rewrite Hk. apply (Hs blk).
  eapply lookup_weaken; eassumption.
Qed.

Lemma tables_sized_insert dec blk b :
  tables_sized dec ->
  length (output_adu_table b) = Z.to_nat (num_source_symbols dec) ->
  tables_sized (write_back dec blk b).
Proof.
  intros Hs Hb key v. cbn. rewrite lookup_insert. case_decide.
  - intros [= <-]. exact Hb.
  - apply Hs.
Qed.

Lemma tables_sized_advances P dec dec' :
  tables_sized dec -> advances P dec dec' -> tables_sized dec'.
Proof.
  intros Hs [K _]. unfold keeps_session in K.
  destruct K as (K1 & _ & _ & _ & _ & K6 & _).
  eapply tables_sized_subseteq; [exact Hs|assumption|rewrite K6; reflexivity].
Qed.

Lemma block_for_sized dec blk :
  tables_sized dec ->
  length (output_adu_table (block_for dec blk))
  = Z.to_nat (num_source_symbols dec).
Proof.
  intros Hs. unfold block_for.
  destruct (source_block_table dec !! blk) as [b|] eqn:Hb; cbn.
  - apply (Hs _ _ Hb).
  - apply length_replicate.
Qed.

Lemma record_fec_packet_length W dec b blk esi fec_packet is_source_packet
    ret dec' b' :
  record_fec_packet W dec b blk esi fec_packet is_source_packet
  = Ret (ret, dec', b') ->
  length (output_adu_table b') = length (output_adu_table b) /\
  advances is_delivery dec dec'.
Proof.
  unfold record_fec_packet. intros H.
  run_inv H. rename a into b0.
  assert (output_adu_table b0 = output_adu_table b) as Ht.
  { unfold SOURCE_BLOCK_SET_FLAG in E.
    destruct (packet_mask b !! _); inversion E; reflexivity. }
  destruct is_source_packet.
  - cbn [add_source_packet output_adu_table] in H. rewrite Ht in H.
    destruct (_ <=? _)%nat; [discriminate|].
    destruct (negb (sort_output dec)); cbn in H; inversion H; subst; cbn;
      rewrite length_insert; (split; [reflexivity|]).
    + apply advances_emit. exact I.
    + apply advances_refl.
  - inversion H; subst. cbn. split; [congruence|apply advances_refl].
Qed.

Lemma process_and_prune_sized W dec b blk ret dec' :
  tables_sized dec ->
  length (output_adu_table b) = Z.to_nat (num_source_symbols dec) ->
  process_and_prune W dec b blk = Ret (ret, dec') ->
  tables_sized dec'.
Proof.
  intros Hs Hb H. unfold process_and_prune in H.
  run_inv H. destruct a as [ret1 dec1].
  assert (tables_sized dec1) as Hs1.
  { destruct (gst_rs_fec_dec_can_source_block_be_processed dec b).
    - run_inv E. destruct a as [[ret2 dec2] b2].
      pose proof (process_source_block_length _ _ _ _ _ _ E0) as Hlen.
      apply process_source_block_spec in E0. destruct E0 as [Hadv _].
      assert (tables_sized dec2) as Hs2.
      { eapply tables_sized_advances; [|exact Hadv].
        eapply tables_sized_advances; [exact Hs|].
        apply (advances_emit (fun _ => True)). exact I. }
      assert (num_source_symbols dec2 = num_source_symbols dec) as Hk.
      { destruct Hadv as [K _]. unfold keeps_session in K. cbn in K.
        intuition congruence. }
      assert (tables_sized (write_back dec2 blk b2)) as Hs3.
      { apply tables_sized_insert; [exact Hs2|]. rewrite Hk. congruence. }
      change (sort_output (write_back dec2 blk b2)) with (sort_output dec2) in E.
      destruct (sort_output dec2); cbn in E; inversion E; subst.
      + exact Hs3.
      + eapply tables_sized_subseteq; [exact Hs3|reflexivity|].
        cbn. apply delete_subseteq.
    - inversion E; subst. exact Hs. }
  destruct (flow_is_ok ret1).
  - apply prune_spec in H. destruct H as (K & Hsub & _).
    eapply tables_sized_subseteq; eassumption.
  - inversion H; subst. exact Hs1.
Qed.

Lemma insert_tables_sized W dec fec_packet is_source_packet ret dec' :
  tables_sized dec ->
  gst_rs_fec_dec_insert_fec_packet W dec fec_packet is_source_packet
  = Ret (ret, dec') ->
  tables_sized dec'.
Proof.
  intros Hs H.
  destruct (read_payload_id fec_packet is_source_packet) as [[blk esi]|] eqn:Hid.
  2: { unfold gst_rs_fec_dec_insert_fec_packet in H.
       unfold read_payload_id in Hid. rewrite Hid in H. discriminate. }
  pose proof (block_for_sized dec blk Hs) as Hb.
  assert (tables_sized (with_block_for dec blk)) as Hs0
    by (apply (tables_sized_insert dec blk _ Hs Hb)).
  destruct (insert_cases W dec fec_packet is_source_packet blk esi ret dec'
              Hid H) as [(_ & _ & ->)|(_ & _ & _ & ret1 & dec1 & b1 & Hrec & Hrest)].
  - exact Hs0.
  - apply record_fec_packet_length in Hrec. destruct Hrec as [Hlen Hadv].
    assert (tables_sized dec1) as Hs1
      by (eapply tables_sized_advances; eassumption).
    assert (num_source_symbols dec1 = num_source_symbols dec) as Hk.
    { destruct Hadv as [K _]. unfold keeps_session in K. cbn in K.
      intuition congruence. }
    assert (tables_sized (write_back dec1 blk b1)) as Hs2.
    { apply tables_sized_insert; [exact Hs1|]. rewrite Hk. congruence. }
    destruct Hrest as [(_ & _ & ->)|(_ & Hrun)]; [exact Hs2|].
    eapply process_and_prune_sized; [exact Hs2| |exact Hrun].
    cbn. rewrite Hk. congruence.
Qed.

Lemma tables_sized_empty dec' :
  source_block_table dec' = ∅ -> tables_sized dec'.
Proof.
  intros Ht blk b Hb. rewrite Ht, lookup_empty in Hb. discriminate.
Qed.

Lemma step_tables_sized W dec i dec' :
  tables_sized dec -> step W dec i = Ret dec' -> tables_sized dec'.
Proof.
  intros Hs H.
  assert (forall d, tables_sized d -> forall d',
            gst_rs_fec_dec_push_eos W d = Ret d' -> tables_sized d') as Heos.
  { intros d Hd d' H'. unfold gst_rs_fec_dec_push_eos in H'.
    destruct (_ && _); [|inversion H'; subst; exact Hd].
    run_inv H'. destruct a as [ret d0]. inversion H'; subst.
    apply drain_spec in E. destruct E as (_ & T & _).
    apply tables_sized_empty. exact T. }
  destruct i as [buffer|buffer| | |]; simpl in H.
  - unfold gst_rs_fec_dec_fecsource_chain in H.
    destruct (fecsource_eos dec); simpl in H; [inversion H; subst; assumption|].
    run_inv H. destruct a as [ret d]. inversion H; subst.
    eapply insert_tables_sized; eassumption.
  - unfold gst_rs_fec_dec_fecrepair_chain in H.
    destruct (fecrepair_eos dec); simpl in H; [inversion H; subst; assumption|].
    run_inv H. destruct a as [ret d]. inversion H; subst.
    eapply insert_tables_sized; eassumption.
  - eapply Heos; [|exact H]. exact Hs.
  - eapply Heos; [|exact H]. exact Hs.
  - inversion H; subst. apply tables_sized_empty. reflexivity.
Qed.

Lemma reachable_tables_sized W dec : reachable W dec -> tables_sized dec.
Proof.
  induction 1 as [k r max_age sort Hk Hr Ha|dec i dec' _ IH Hstep].
  - apply tables_sized_empty. reflexivity.
  - eapply step_tables_sized; eassumption.
Qed.

End DecTables.

Module DecDrain.
Import Aging Dec DecInv Examples DecFacts DecPruning DecDelivery DecOrder DecTables Scenarios.

(** X13.  Once the source stream has ended and the repair stream has
    ended too (or r = 0), [gst_rs_fec_dec_push_eos] empties the table,
    pushes the ADUs that the blocks still hold, blocks in strictly
    increasing order of raw block number and ADUs by increasing ESI, and
    then emits EOS.  What is pushed is an initial part of the held ADUs
    and all of them when downstream accepts every buffer; it includes, in
    either mode, the ADUs of incomplete blocks.  The hypotheses on the
    table are those of X11. *)
Theorem X13_eos_drains_table W dec :
  table_wf dec -> tables_sized dec ->
  fecsource_eos dec = true ->
  fecrepair_eos dec = true \/ num_repair_symbols dec = 0 ->
  exists dec' new l,
    gst_rs_fec_dec_push_eos W dec = Ret dec' /\
    source_block_table dec' = ∅ /\
    log dec' = log dec ++ new ++ [EvEos] /\
    l ≡ₚ blocks_of dec /\
    StronglySorted raw_before l /\
    StronglySorted raw_order (deliveries new) /\
    deliveries new `prefix_of` flat_map (slots (num_source_symbols dec)) l /\
    (accepting_downstream W ->
     deliveries new = flat_map (slots (num_source_symbols dec)) l).
Proof.
  intros Hwf Hsized Hsrc Hrep.
  unfold gst_rs_fec_dec_push_eos.
  assert (fecsource_eos dec
          && (fecrepair_eos dec || (num_repair_symbols dec =? 0)) = true) as ->.
  { rewrite Hsrc. cbn. destruct Hrep as [->| ->]; [reflexivity|].
    apply orb_true_r. }
  destruct (deliveries_start_events dec) as (new0 & L0 & D0).
  set (d0 := gst_rs_fec_dec_push_segment (gst_rs_fec_dec_push_stream_start dec))
    in *.
  assert (keeps_session dec d0) as K0.
  { pose proof (push_segment_advances (gst_rs_fec_dec_push_stream_start dec))
      as [K1 _].
    pose proof (push_stream_start_advances dec) as [K2 _].
    fold d0 in K1. unfold keeps_session in *. intuition congruence. }
  destruct K0 as (Kk & _ & _ & _ & _ & Kt & _).
  unfold gst_rs_fec_dec_drain_source_block_table.
  rewrite drain_list, app_nil_r, Kt. fold (blocks_of dec).
  assert (NoDup (block_nr <$> reverse (blocks_of dec))) as Hnd.
  { rewrite reverse_Permutation. apply blocks_of_distinct. exact Hwf. }
  destruct (g_slist_sort_strict _ Hnd) as [Hperm Hsorted].
  set (d1 := set_source_block_table d0 ∅).
  destruct (push_block_list_run W false (g_slist_sort (reverse (blocks_of dec)))
              d1 GST_FLOW_OK)
    as (ret & dec' & new & Hrun & L & _ & Hon).
  { apply Forall_forall. intros b Hb.
    rewrite Hperm, reverse_Permutation in Hb.
    change (num_source_symbols d1) with (num_source_symbols d0). rewrite Kk.
    pose proof (blocks_of_sized dec Hsized) as F.
    rewrite Forall_forall in F. apply F. exact Hb. }
  { discriminate. }
  destruct (Hon eq_refl) as [Hpre Hacc].
  change (num_source_symbols d1) with (num_source_symbols d0) in *.
  rewrite Kk in *.
  rewrite Hrun. cbn [mbind run_bind].
  pose proof (push_block_list_advances W false _ _ _ _ _ Hrun) as [K _].
  unfold keeps_session in K. destruct K as (_ & _ & _ & _ & _ & K6 & _).
  exists (emit dec' EvEos), (new0 ++ new),
    (g_slist_sort (reverse (blocks_of dec))).
  split; [reflexivity|].
  split; [cbn; rewrite K6; reflexivity|].
  split; [cbn; rewrite L; cbn; rewrite L0, <- !app_assoc; reflexivity|].
  split; [rewrite Hperm; apply reverse_Permutation|].
  split; [exact Hsorted|].
  rewrite deliveries_app, D0. cbn [app].
  split; [eapply prefix_sorted;
          [exact Hpre|apply flat_slots_sorted; exact Hsorted]|].
  split; [exact Hpre|]. intros Ha. apply (Hacc Ha).
Qed.


Lemma one_of_block_5_reachable : reachable accepting one_of_block_5.
Proof.
  apply (reachable_steps accepting (configure 2 1 1 true)
           [InSource (source_packet ["a"%byte] 5 0 2)]).
  - apply reachable_start; lia.
  - vm_compute. reflexivity.
Defined.

Lemma X12_prune_evicts_too_old_witness :
  exists ret dec',
    gst_rs_fec_dec_prune_source_block_table accepting one_of_block_5 7
    = Ret (ret, dec') /\
    most_recent_block_nr dec' = 7.
Proof.
  destruct (X12_prune_evicts_too_old accepting one_of_block_5 7)
    as (ret & dec' & new & Hrun & Hm & _).
  - exact (reachable_table_wf _ _ one_of_block_5_reachable).
  - exact (reachable_tables_sized _ _ one_of_block_5_reachable).
  - vm_compute. reflexivity.
  - vm_compute. discriminate.
  - vm_compute. reflexivity.
  - exists ret, dec'. auto.
Defined.

Lemma X13_eos_drains_table_witness :
  exists dec' new,
    gst_rs_fec_dec_push_eos accepting at_end_of_stream = Ret dec' /\
    source_block_table dec' = ∅ /\
    log dec' = log at_end_of_stream ++ new ++ [EvEos].
Proof.
  assert (reachable accepting
            (dec_after accepting (configure 2 0 1 true)
               [InSource (source_packet ["a"%byte] 5 0 2)])) as Hreach.
  { apply (reachable_steps accepting (configure 2 0 1 true)
             [InSource (source_packet ["a"%byte] 5 0 2)]).
    - apply reachable_start; lia.
    - vm_compute. reflexivity. }
  destruct (X13_eos_drains_table accepting at_end_of_stream)
    as (dec' & new & l & Hrun & Ht & L & _).
  - exact (reachable_table_wf _ _ Hreach).
  - exact (reachable_tables_sized _ _ Hreach).
  - reflexivity.
  - right. reflexivity.
  - exists dec', new. auto.
Defined.


End DecDrain.

Module DecRecoveryFacts.
Import Aging Dec DecInv DecRecovery Examples DecFacts DecTables DecDrain.
Import EncInv Scenarios.

(** ** The decoder: recovering a block *)

Lemma adui_length_field n :
  0 <= n <= 65535 ->
  Z.lor (Z.shiftl (byte_val (guint8 (Z.shiftr (Z.land n 65280) 8))) 8)
        (byte_val (guint8 (Z.land n 255))) = n.
Proof.
  intros Hn. rewrite !byte_val_guint8.
  rewrite Z.shiftr_land. change (Z.shiftr 65280 8) with (Z.ones 8).
  change 255 with (Z.ones 8). rewrite !Z.land_ones by lia.
  rewrite Z.shiftr_div_pow2 by lia.
  rewrite lor_shiftl_low; change (2 ^ 8) with 256;
    [|lia|Z.div_mod_to_equations; lia].
  Z.div_mod_to_equations; lia.
Qed.

Lemma fold_insert_spec {A B} (key : A -> nat) (val : A -> B) (pkts : list A) :
  forall t0 : list (option B),
  NoDup (key <$> pkts) ->
  (forall p, p ∈ pkts -> (key p < length t0)%nat) ->
  let t := foldl (fun t p => <[key p := Some (val p)]> t) t0 pkts in
  length t = length t0 /\
  (forall p, p ∈ pkts -> t !! key p = Some (Some (val p))) /\
  (forall i, i ∉ key <$> pkts -> t !! i = t0 !! i).
Proof.
  induction pkts as [|q pkts IH] using rev_ind; intros t0 Hnd Hlt; cbn zeta.
  - cbn. split; [reflexivity|]. split; [|reflexivity].
    intros p Hp. apply elem_of_nil in Hp. destruct Hp.
  - rewrite foldl_app. cbn [foldl].
    rewrite fmap_app in Hnd. cbn in Hnd.
    apply NoDup_app in Hnd. destruct Hnd as (Hnd & Hdis & _).
    destruct (IH t0 Hnd) as (Hlen & Hin & Hout).
    { intros p Hp. apply Hlt. apply elem_of_app. left. exact Hp. }
    split; [rewrite length_insert; exact Hlen|]. split.
    + intros p Hp. apply elem_of_app in Hp. destruct Hp as [Hp|Hp].
      * rewrite list_lookup_insert_ne; [apply Hin; exact Hp|].
        intros Heq. apply (Hdis (key p)).
        -- apply list_elem_of_fmap. exists p. auto.
        -- rewrite <- Heq. left.
      * apply list_elem_of_singleton in Hp. subst p.
        apply list_lookup_insert_eq. rewrite Hlen. apply Hlt.
        apply elem_of_app. right. left.
    + intros i Hi. rewrite fmap_app in Hi. cbn in Hi.
      rewrite list_lookup_insert_ne.
      * apply Hout. intros Hin'. apply Hi. apply elem_of_app. left. exact Hin'.
      * intros Heq. apply Hi. apply elem_of_app. right. rewrite Heq. left.
Qed.

Lemma source_packet_adu_size p blk esi :
  gst_rs_fec_dec_source_packet_read_payload_id p = Ret (blk, esi) ->
  gst_buffer_get_size (adu_of_source_packet p)
  = gsize (gst_buffer_get_size p - 6).
Proof.
  unfold gst_rs_fec_dec_source_packet_read_payload_id. intros H.
  destruct (Z.ltb_spec (gst_buffer_get_size p) 6) as [|Hsize]; [discriminate|].
  unfold adu_of_source_packet, gst_buffer_get_size in *.
  rewrite length_take.
  assert (0 <= gsize (Z.of_nat (length p) - 6) <= Z.of_nat (length p) - 6).
  { unfold gsize. split; [apply Z.mod_pos_bound; lia|].
    apply Z.mod_le; lia. }
  lia.
Qed.

(** The first loop rebuilds, from every source packet, the symbol that
    the encoder framed from the same ADU. *)
Lemma source_symbols_loop_fold k len b : forall pkts received,
  0 <= len < 2 ^ 64 ->
  (forall p, p ∈ pkts ->
     0 <= source_esi p < k /\
     output_adu_table b !! Z.to_nat (source_esi p)
     = Some (Some (adu_of_source_packet p)) /\
     gst_buffer_get_size (adu_of_source_packet p) + 3 <= len /\
     (Z.to_nat (source_esi p) < length received)%nat) ->
  source_symbols_loop true k len pkts received b
  = Ret (foldl (fun t p =>
                  <[Z.to_nat (source_esi p)
                    := Some (adui (len - 3) (adu_of_source_packet p))]> t)
               received pkts, b).
Proof.
  induction pkts as [|p rest IH]; intros received Hlen Hall; [reflexivity|].
  cbn [source_symbols_loop foldl].
  destruct (Hall p ltac:(left)) as (Hesi & Hslot & Hfit & Hin).
  destruct (gst_rs_fec_dec_source_packet_read_payload_id p)
    as [[blk esi]|] eqn:Hread;
    [|unfold source_esi in Hesi; rewrite Hread in Hesi; lia].
  rewrite (source_esi_of_read p blk esi Hread) in *.
  pose proof (source_packet_adu_size p blk esi Hread) as Hsize.
  cbn [mbind run_bind].
  assert ((esi <? k) = true) as -> by (apply Z.ltb_lt; lia).
  cbn [assert_that mbind run_bind].
  rewrite <- Hsize.
  set (adu := adu_of_source_packet p) in *.
  assert (0 <= gst_buffer_get_size adu)
    by (unfold gst_buffer_get_size; lia).
  replace (gsize (gst_buffer_get_size adu + 3))
    with (gst_buffer_get_size adu + 3)
    by (unfold gsize; rewrite Z.mod_small; lia).
  assert ((gst_buffer_get_size adu + 3 <=? len) = true) as ->
    by (apply Z.leb_le; lia).
  cbn [assert_that mbind run_bind].
  rewrite Hslot.
  assert ((Z.to_nat esi <? length received)%nat = true) as ->
    by (apply Nat.ltb_lt; exact Hin).
  replace (gsize (len - (gst_buffer_get_size adu + 3)))
    with (len - 3 - gst_buffer_get_size adu)
    by (unfold gsize; rewrite Z.mod_small; lia).
  assert (take (Z.to_nat (gst_buffer_get_size adu)) adu = adu) as ->.
  { apply take_ge. unfold gst_buffer_get_size. lia. }
  rewrite IH; [reflexivity|exact Hlen|].
  intros q Hq. destruct (Hall q ltac:(right; exact Hq)) as (A & B & C & D).
  rewrite length_insert. auto.
Qed.

(** The second loop lends every repair packet's symbol. *)
Lemma repair_symbols_loop_fold k r n : forall pkts node_count received,
  0 <= node_count -> node_count + Z.of_nat (length pkts) <= r -> r < 2 ^ 32 ->
  (forall p, p ∈ pkts ->
     0 <= k <= repair_esi p /\ repair_esi p < n /\
     (Z.to_nat (repair_esi p) < length received)%nat) ->
  repair_symbols_loop k r n pkts node_count received
  = Ret (foldl (fun t p => <[Z.to_nat (repair_esi p) := Some (drop 6 p)]> t)
               received pkts).
Proof.
  induction pkts as [|p rest IH]; intros node_count received Hc Hr Hr32 Hall;
    [reflexivity|].
  cbn [repair_symbols_loop foldl]. cbn [length] in Hr.
  assert ((node_count <? r) = true) as -> by (apply Z.ltb_lt; lia).
  cbn [assert_that mbind run_bind].
  destruct (Hall p ltac:(left)) as (Hk & Hn & Hin).
  destruct (gst_rs_fec_dec_repair_packet_read_payload_id p)
    as [[blk esi]|] eqn:Hread;
    [|unfold repair_esi in Hk; rewrite Hread in Hk; lia].
  rewrite (repair_esi_of_read p blk esi Hread) in *.
  cbn [mbind run_bind].
  assert ((esi >=? k) && (esi <? n) = true) as ->.
  { apply andb_true_iff. split; [apply Z.geb_le|apply Z.ltb_lt]; lia. }
  cbn [assert_that mbind run_bind].
  assert ((Z.to_nat esi <? length received)%nat = true) as ->
    by (apply Nat.ltb_lt; exact Hin).
  rewrite guint_small by lia.
  apply IH; [lia|lia|exact Hr32|].
  intros q Hq. destruct (Hall q ltac:(right; exact Hq)) as (A & B & C).
  rewrite length_insert. auto.
Qed.

(** The third loop, in sorted mode, cuts the ADU out of every recovered
    symbol that the encoder framed. *)
Lemma recovered_adus_loop_fold W received recovered M (adus : list GstBuffer) dec :
  forall esis b,
  (forall esi, esi ∈ esis ->
     0 <= esi /\ (Z.to_nat esi < length received)%nat /\
     (Z.to_nat esi < length (output_adu_table b))%nat) ->
  (forall esi, esi ∈ esis ->
     received !! Z.to_nat esi = Some None ->
     exists adu, adus !! Z.to_nat esi = Some adu /\
                 gst_buffer_get_size adu <= 65535 /\
                 recovered !! Z.to_nat esi = Some (Some (adui M adu))) ->
  exists b',
    recovered_adus_loop W true esis received recovered dec b
    = Ret (GST_FLOW_OK, dec, b') /\
    block_nr b' = block_nr b /\
    output_adu_table b'
    = foldl (fun t esi => match received !! Z.to_nat esi with
                          | Some None => <[Z.to_nat esi := adus !! Z.to_nat esi]> t
                          | _ => t
                          end) (output_adu_table b) esis.
Proof.
  induction esis as [|esi rest IH]; intros b Hin Hrec.
  - exists b. cbn. auto.
  - cbn [recovered_adus_loop foldl].
    destruct (Hin esi ltac:(left)) as (Hesi & Hr & Ht).
    destruct (lookup_lt_is_Some_2 received (Z.to_nat esi) Hr) as [slot Hslot].
    rewrite Hslot.
    assert (forall b0, length (output_adu_table b0) = length (output_adu_table b) ->
              forall esi', esi' ∈ rest ->
              0 <= esi' /\ (Z.to_nat esi' < length received)%nat /\
              (Z.to_nat esi' < length (output_adu_table b0))%nat) as Hin'.
    { intros b0 Hb0 esi' He. rewrite Hb0. apply Hin. right. exact He. }
    assert (forall esi', esi' ∈ rest ->
              received !! Z.to_nat esi' = Some None ->
              exists adu, adus !! Z.to_nat esi' = Some adu /\
                          gst_buffer_get_size adu <= 65535 /\
                          recovered !! Z.to_nat esi' = Some (Some (adui M adu)))
      as Hrec' by (intros esi' He; apply Hrec; right; exact He).
    destruct slot as [sym|].
    + apply (IH b (Hin' b eq_refl) Hrec').
    + destruct (Hrec esi ltac:(left) Hslot) as (adu & Hadu & Hsize & Hsym).
      rewrite Hsym. cbn [mjoin option_join]. unfold adui at 1.
      cbn [app]. rewrite byte_val_guint8. cbn [Z.modulo Z.div_eucl Z.eqb negb].
      change (0 mod 256 =? 0) with true. cbn [negb].
      assert (0 <= gst_buffer_get_size adu)
        by (unfold gst_buffer_get_size; lia).
      rewrite adui_length_field by lia.
      assert ((gst_buffer_get_size
                 (adu ++ replicate (Z.to_nat (M - gst_buffer_get_size adu)) Byte.x00)
               <? gst_buffer_get_size adu) = false) as ->.
      { apply Z.ltb_ge. unfold gst_buffer_get_size. rewrite length_app. lia. }
      assert ((length (output_adu_table b) <=? Z.to_nat esi)%nat = false) as ->
        by (apply Nat.leb_gt; exact Ht).
      assert (take (Z.to_nat (gst_buffer_get_size adu))
                (adu ++ replicate (Z.to_nat (M - gst_buffer_get_size adu)) Byte.x00)
              = adu) as ->.
      { unfold gst_buffer_get_size. rewrite Nat2Z.id. apply take_app_length. }
      set (b1 := set_output_adu_table b
                   (<[Z.to_nat esi := Some adu]> (output_adu_table b))).
      destruct (IH b1) as (b' & Hrun & Hnr & Htab).
      { apply Hin'. cbn. apply length_insert. }
      { exact Hrec'. }
      exists b'. split; [exact Hrun|]. split; [exact Hnr|].
      rewrite Htab, Hadu. reflexivity.
Qed.

Lemma restore_fold_spec (received : list (option GstBuffer))
    (adus : list GstBuffer) (esis : list Z) :
  forall t0 : list (option GstBuffer),
  let t := foldl (fun t esi => match received !! Z.to_nat esi with
                               | Some None =>
                                   <[Z.to_nat esi := adus !! Z.to_nat esi]> t
                               | _ => t
                               end) t0 esis in
  length t = length t0 /\
  forall i, (i < length t0)%nat ->
    (i ∈ Z.to_nat <$> esis -> received !! i = Some None ->
     t !! i = Some (adus !! i)) /\
    (i ∉ Z.to_nat <$> esis \/ received !! i <> Some None ->
     t !! i = t0 !! i).
Proof.
  induction esis as [|esi esis IH] using rev_ind; intros t0; cbn zeta.
  - cbn. split; [reflexivity|]. intros i Hi. split; [|reflexivity].
    intros H. apply elem_of_nil in H. destruct H.
  - rewrite foldl_app. cbn [foldl]. destruct (IH t0) as [Hlen Hlook].
    set (t := foldl _ t0 esis) in *.
    assert (forall i, i ∈ Z.to_nat <$> (esis ++ [esi]) <->
                      i ∈ Z.to_nat <$> esis \/ i = Z.to_nat esi) as Hmem.
    { intros i. rewrite fmap_app, elem_of_app. cbn.
      rewrite list_elem_of_singleton. reflexivity. }
    assert (forall i, (i < length t0)%nat ->
              (i ∈ Z.to_nat <$> esis ++ [esi] -> received !! i = Some None ->
               i <> Z.to_nat esi -> t !! i = Some (adus !! i)) /\
              (i ∉ Z.to_nat <$> esis ++ [esi] \/ received !! i <> Some None ->
               t !! i = t0 !! i)) as Hold.
    { intros i Hi. destruct (Hlook i Hi) as [H1 H2]. split.
      - intros Hin Hn Hne. apply H1; [|exact Hn].
        apply Hmem in Hin. tauto.
      - intros [Hout|Hn]; apply H2; [left|right; exact Hn].
        intros Hin. apply Hout. apply Hmem. left. exact Hin. }
    destruct (received !! Z.to_nat esi) as [[sym|]|] eqn:Hslot.
    + split; [exact Hlen|]. intros i Hi. destruct (Hold i Hi) as [H1 H2].
      split; [|exact H2]. intros Hin Hn. apply H1; [exact Hin|exact Hn|].
      intros ->. congruence.
    + split; [rewrite length_insert; exact Hlen|]. intros i Hi.
      destruct (Hold i Hi) as [H1 H2].
      destruct (decide (i = Z.to_nat esi)) as [->|Hne].
      * rewrite list_lookup_insert_eq by (rewrite Hlen; exact Hi).
        split; [reflexivity|]. intros [Hout|Hn]; [|congruence].
        exfalso. apply Hout. apply Hmem. right. reflexivity.
      * rewrite list_lookup_insert_ne by congruence.
        split; [|exact H2]. intros Hin Hn. apply H1; assumption.
    + split; [exact Hlen|]. intros i Hi. destruct (Hold i Hi) as [H1 H2].
      split; [|exact H2]. intros Hin Hn. apply H1; [exact Hin|exact Hn|].
      intros ->. congruence.
Qed.

Lemma nodup_in_range (l : list Z) k r :
  NoDup l -> (forall e, e ∈ l -> k <= e < k + r) ->
  Z.of_nat (length l) <= Z.max 0 r.
Proof.
  intros Hnd Hin.
  assert (l ⊆+ seqZ k r) as Hsub.
  { apply NoDup_submseteq; [assumption|]. intros e He.
    apply elem_of_seqZ. specialize (Hin e He). lia. }
  apply submseteq_length in Hsub. rewrite length_seqZ in Hsub. lia.
Qed.

Lemma nodup_keys {A} (f : A -> Z) (l : list A) :
  NoDup (f <$> l) -> (forall p, p ∈ l -> 0 <= f p) ->
  NoDup ((fun p => Z.to_nat (f p)) <$> l).
Proof.
  intros Hnd Hpos.
  change ((fun p => Z.to_nat (f p)) <$> l) with ((Z.to_nat ∘ f) <$> l).
  rewrite list_fmap_compose. apply NoDup_fmap_2_strong; [|exact Hnd].
  intros x y Hx Hy Heq.
  apply list_elem_of_fmap in Hx. destruct Hx as (p & -> & Hp).
  apply list_elem_of_fmap in Hy. destruct Hy as (q & -> & Hq).
  pose proof (Hpos p Hp). pose proof (Hpos q Hq). lia.
Qed.

(** The table of received symbols that the first two loops build. *)
Lemma received_table_spec k r len b :
  block_wf k b -> 0 <= r ->
  (forall p, p ∈ repair_packets b -> k <= repair_esi p < k + r) ->
  let tab :=
    foldl (fun t p => <[Z.to_nat (repair_esi p) := Some (drop 6 p)]> t)
      (foldl (fun t p =>
                <[Z.to_nat (source_esi p)
                  := Some (adui (len - 3) (adu_of_source_packet p))]> t)
             (replicate (Z.to_nat (k + r)) None) (source_packets b))
      (repair_packets b) in
  length tab = Z.to_nat (k + r) /\
  (forall p, p ∈ source_packets b ->
     tab !! Z.to_nat (source_esi p)
     = Some (Some (adui (len - 3) (adu_of_source_packet p)))) /\
  (forall p, p ∈ repair_packets b ->
     tab !! Z.to_nat (repair_esi p) = Some (Some (drop 6 p))) /\
  (forall i, Z.of_nat i ∉ received_esis b -> (i < Z.to_nat (k + r))%nat ->
     tab !! i = Some None).
Proof.
  intros Hwf Hr Hrep.
  pose proof (wf_k _ _ Hwf) as Hk.
  pose proof (wf_nodup _ _ Hwf) as Hnd. unfold received_esis in Hnd.
  apply NoDup_app in Hnd. destruct Hnd as (Hnds & _ & Hndr).
  assert (forall p, p ∈ source_packets b -> 0 <= source_esi p < k) as Hsrc
    by (intros p Hp; apply (wf_source _ _ Hwf p Hp)).
  destruct (fold_insert_spec (fun p => Z.to_nat (source_esi p))
              (fun p => adui (len - 3) (adu_of_source_packet p))
              (source_packets b) (replicate (Z.to_nat (k + r)) None))
    as (L1 & In1 & Out1).
  { apply nodup_keys; [exact Hnds|]. intros p Hp. apply (Hsrc p Hp). }
  { intros p Hp. rewrite length_replicate. specialize (Hsrc p Hp). lia. }
  set (t1 := foldl _ (replicate (Z.to_nat (k + r)) None) (source_packets b)) in *.
  destruct (fold_insert_spec (fun p => Z.to_nat (repair_esi p))
              (fun p => drop 6 p) (repair_packets b) t1)
    as (L2 & In2 & Out2).
  { apply nodup_keys; [exact Hndr|]. intros p Hp. specialize (Hrep p Hp). lia. }
  { intros p Hp. rewrite L1, length_replicate. specialize (Hrep p Hp). lia. }
  cbn zeta. set (tab := foldl _ t1 (repair_packets b)) in *.
  rewrite length_replicate in L1.
  split; [congruence|]. split; [|split].
  - intros p Hp. rewrite Out2; [apply In1; exact Hp|].
    intros Hin. apply list_elem_of_fmap in Hin. destruct Hin as (q & Heq & Hq).
    specialize (Hsrc p Hp). specialize (Hrep q Hq). lia.
  - exact In2.
  - intros i Hi Hlt.
    rewrite Out2, Out1; [apply lookup_replicate_2; exact Hlt| |].
    + intros Hin. apply list_elem_of_fmap in Hin. destruct Hin as (q & Heq & Hq).
      apply Hi. unfold received_esis. apply elem_of_app. left.
      apply list_elem_of_fmap. exists q. split; [|exact Hq].
      specialize (Hsrc q Hq). lia.
    + intros Hin. apply list_elem_of_fmap in Hin. destruct Hin as (q & Heq & Hq).
      apply Hi. unfold received_esis. apply elem_of_app. right.
      apply list_elem_of_fmap. exists q. split; [|exact Hq].
      specialize (Hrep q Hq). lia.
Qed.

Lemma create_session_ok W dec len recovered :
  decodes_to W recovered ->
  exists dec1,
    gst_rs_fec_dec_create_openfec_session W dec len = (true, dec1) /\
    keeps_session dec dec1 /\
    log dec1
    = log dec ++ [EvOpenFEC OfCreateCodecInstance;
                  EvOpenFEC (OfSetFecParameters (num_source_symbols dec)
                               (num_repair_symbols dec) len)].
Proof.
  intros (Hc & Hp & _). unfold gst_rs_fec_dec_create_openfec_session.
  rewrite Hc. cbn [of_is_ok negb]. rewrite Hp. cbn [of_is_ok negb].
  destruct (negb _); eexists; (split; [reflexivity|]); cbn;
    rewrite <- app_assoc; (split; [repeat split|reflexivity]).
Qed.

(** X14.  Sorted mode.  Take an incomplete block with at least one
    repair packet whose repair ESIs lie in [k, k+r) and whose source ADUs
    fit the symbol length [len] (the size of the first repair packet
    minus 6), and an OpenFEC that succeeds.  Then processing the block
    makes exactly six OpenFEC calls, from creating the session to
    releasing it.  The table of received symbols it hands over holds, at
    the ESI of every source packet, the ADU framed as the encoder frames
    it (flow byte 0, two length bytes, the ADU, zero padding up to [len]),
    at the ESI of every repair packet the packet without its first 6
    bytes, and nothing elsewhere.  If OpenFEC returns, for every missing
    source ESI, the framed form of an ADU of at most 65535 bytes, the block
    ends complete with exactly the k ADUs in its output table, received
    and recovered alike. *)
Theorem X14_lost_adus_restored W dec b first rest adus recovered :
  let k := num_source_symbols dec in
  let r := num_repair_symbols dec in
  let len := gsize (gst_buffer_get_size first - 6) in
  sort_output dec = true ->
  0 <= r -> k + r < 2 ^ 32 -> num_encoding_symbols dec = k + r ->
  block_wf k b ->
  repair_packets b = first :: rest ->
  (forall p, p ∈ repair_packets b -> k <= repair_esi p < k + r) ->
  (forall p, p ∈ source_packets b ->
     gst_buffer_get_size (adu_of_source_packet p) + 3 <= len) ->
  decodes_to W recovered ->
  length adus = Z.to_nat k ->
  (forall p, p ∈ source_packets b ->
     adus !! Z.to_nat (source_esi p) = Some (adu_of_source_packet p)) ->
  (forall i adu, adus !! i = Some adu ->
     Z.of_nat i ∉ source_esi <$> source_packets b ->
     gst_buffer_get_size adu <= 65535 /\
     recovered !! i = Some (Some (adui (len - 3) adu))) ->
  exists dec' b' tab,
    gst_rs_fec_dec_process_source_block W dec b = Ret (GST_FLOW_OK, dec', b') /\
    log dec'
    = log dec ++ [EvProcess (block_nr b);
                  EvOpenFEC OfCreateCodecInstance;
                  EvOpenFEC (OfSetFecParameters k r len);
                  EvOpenFEC (OfSetAvailableSymbols tab);
                  EvOpenFEC OfFinishDecoding;
                  EvOpenFEC OfGetSourceSymbolsTab;
                  EvOpenFEC OfReleaseCodecInstance] /\
    length tab = Z.to_nat (k + r) /\
    (forall p, p ∈ source_packets b ->
       tab !! Z.to_nat (source_esi p)
       = Some (Some (adui (len - 3) (adu_of_source_packet p)))) /\
    (forall p, p ∈ repair_packets b ->
       tab !! Z.to_nat (repair_esi p) = Some (Some (drop 6 p))) /\
    (forall i, Z.of_nat i ∉ received_esis b -> (i < Z.to_nat (k + r))%nat ->
       tab !! i = Some None) /\
    is_complete b' = true /\ block_nr b' = block_nr b /\
    output_adu_table b' = Some <$> adus.
Proof.
  intros k r len Hsort Hr Hn32 Hn Hwf Hfirst Hrep Hfit HW Hadus Hsame Hlost.
  pose proof (wf_k _ _ Hwf) as Hk.
  assert (0 <= len < 2 ^ 64) as Hlen
    by (unfold len, gsize; apply Z.mod_pos_bound; lia).
  assert (forall p, p ∈ source_packets b -> 0 <= source_esi p < k) as Hsrc
    by (intros p Hp; apply (wf_source _ _ Hwf p Hp)).
  destruct (received_table_spec k r len b Hwf Hr Hrep)
    as (Tlen & Tsrc & Trep & Tnone).
  set (t0 := replicate (Z.to_nat (k + r)) (@None GstBuffer)) in *.
  set (t1 := foldl _ t0 (source_packets b)) in *.
  set (tab := foldl _ t1 (repair_packets b)) in *.
  unfold gst_rs_fec_dec_process_source_block.
  assert ((num_repair_packets b =? 0) = false) as ->.
  { apply Z.eqb_neq. rewrite (wf_num_repair _ _ Hwf), Hfirst. cbn [length]. lia. }
  rewrite Hfirst. fold len.
  destruct (create_session_ok W (emit dec (EvProcess (block_nr b))) len
              recovered HW) as (dec1 & -> & K1 & L1).
  cbn [negb]. unfold keeps_session in K1. cbn in K1, L1.
  destruct K1 as (K1k & K1r & K1n & _ & K1s & _).
  rewrite K1s, K1k, K1r, K1n, Hsort, Hn. fold k r t0.
  (* first loop *)
  rewrite (source_symbols_loop_fold k len b (source_packets b) t0 Hlen).
  2: { intros p Hp. destruct (wf_source _ _ Hwf p Hp) as [A B].
       split; [exact A|]. split; [exact B|]. split; [apply Hfit; exact Hp|].
       unfold t0. rewrite length_replicate. lia. }
  cbn [mbind run_bind]. fold t1.
  (* second loop *)
  rewrite (repair_symbols_loop_fold k r (k + r) (repair_packets b) 0 t1).
  2: lia.
  2: { pose proof (wf_nodup _ _ Hwf) as Hnd. unfold received_esis in Hnd.
       apply NoDup_app in Hnd. destruct Hnd as (_ & _ & Hndr).
       pose proof (nodup_in_range _ k r Hndr) as Hb.
       change (map repair_esi (repair_packets b))
         with (repair_esi <$> repair_packets b) in Hb.
       rewrite length_fmap in Hb. rewrite Z.max_r in Hb by lia.
       cbn. apply Hb. intros e He. apply list_elem_of_fmap in He.
       destruct He as (p & -> & Hp). apply Hrep. exact Hp. }
  2: lia.
  2: { intros p Hp. specialize (Hrep p Hp). split; [lia|]. split; [lia|].
       unfold t1.
       destruct (fold_insert_spec (fun p => Z.to_nat (source_esi p))
                   (fun p => adui (len - 3) (adu_of_source_packet p))
                   (source_packets b) t0) as (L & _ & _).
       - pose proof (wf_nodup _ _ Hwf) as Hnd. unfold received_esis in Hnd.
         apply NoDup_app in Hnd. destruct Hnd as (Hnds & _ & _).
         apply nodup_keys; [exact Hnds|]. intros q Hq. apply (Hsrc q Hq).
       - intros q Hq. unfold t0. rewrite length_replicate.
         specialize (Hsrc q Hq). lia.
       - cbn zeta in L. rewrite L. unfold t0. rewrite length_replicate. lia. }
  cbn [mbind run_bind]. fold tab.
  (* the calls to OpenFEC *)
  destruct HW as (_ & _ & Hset & Hfin & Hget & Hrel).
  unfold decode_with_openfec.
  rewrite Hset. cbn [of_is_ok negb]. rewrite Hfin. cbn [of_is_ok negb].
  rewrite Hget. cbn [of_is_ok negb].
  set (dec2 := emit (emit (emit dec1 _) _) _).
  assert (sort_output dec2 = true) as -> by (cbn; congruence).
  assert (num_source_symbols dec2 = k) as -> by (cbn; exact K1k).
  (* third loop *)
  destruct (recovered_adus_loop_fold W tab recovered (len - 3) adus dec2
              (seqZ 0 k) b) as (b' & Hrun & Hnr & Htab).
  { intros esi Hesi. apply elem_of_seqZ in Hesi.
    rewrite Tlen, (wf_table _ _ Hwf). lia. }
  { intros esi Hesi Hnone. apply elem_of_seqZ in Hesi.
    destruct (lookup_lt_is_Some_2 adus (Z.to_nat esi)) as [adu Hadu];
      [lia|].
    exists adu. split; [exact Hadu|].
    apply (Hlost _ _ Hadu). intros Hin.
    apply list_elem_of_fmap in Hin. destruct Hin as (p & Heq & Hp).
    rewrite Z2Nat.id in Heq by lia. subst esi.
    rewrite (Tsrc p Hp) in Hnone. discriminate. }
  rewrite Hrun. cbn [mbind run_bind flow_is_ok].
  unfold release_openfec_session. rewrite Hrel. cbn [of_is_ok negb].
  eexists. exists (set_is_complete b' true), tab.
  split; [reflexivity|].
  split; [cbn; rewrite L1, <- !app_assoc; reflexivity|].
  split; [exact Tlen|]. split; [exact Tsrc|].
  split; [rewrite <- Hfirst; exact Trep|].
  split; [exact Tnone|]. split; [reflexivity|]. split; [exact Hnr|].
  cbn [set_is_complete output_adu_table]. rewrite Htab.
  destruct (restore_fold_spec tab adus (seqZ 0 k) (output_adu_table b))
    as [Rlen Rlook].
  cbn zeta in Rlen, Rlook.
  apply list_eq. intros i. rewrite list_lookup_fmap.
  destruct (Nat.lt_ge_cases i (Z.to_nat k)) as [Hi|Hi].
  - destruct (Rlook i) as [Rin Rout]; [rewrite (wf_table _ _ Hwf); exact Hi|].
    destruct (lookup_lt_is_Some_2 adus i) as [adu Hadu]; [lia|].
    rewrite Hadu. cbn [fmap option_fmap option_map].
    destruct (decide (Z.of_nat i ∈ source_esi <$> source_packets b))
      as [Hin|Hout].
    + apply list_elem_of_fmap in Hin. destruct Hin as (p & Heq & Hp).
      assert (Z.to_nat (source_esi p) = i) as Hkey by lia.
      rewrite Rout.
      * destruct (wf_source _ _ Hwf p Hp) as [_ Hslot].
        rewrite Hkey in Hslot. rewrite Hslot.
        pose proof (Hsame p Hp) as Hs. rewrite Hkey in Hs. congruence.
      * right. pose proof (Tsrc p Hp) as Ht. rewrite Hkey in Ht.
        rewrite Ht. discriminate.
    + rewrite Rin; [rewrite Hadu; reflexivity| |].
      * apply list_elem_of_fmap. exists (Z.of_nat i).
        split; [lia|]. apply elem_of_seqZ. lia.
      * apply Tnone; [|lia]. unfold received_esis. intros Hin.
        apply elem_of_app in Hin. destruct Hin as [Hin|Hin]; [tauto|].
        apply list_elem_of_fmap in Hin. destruct Hin as (q & Heq & Hq).
        specialize (Hrep q Hq). lia.
  - rewrite (lookup_ge_None_2 adus) by lia.
    apply lookup_ge_None_2. rewrite Rlen, (wf_table _ _ Hwf). exact Hi.
Qed.

Lemma three_of_block_7_reachable : reachable recovering three_of_block_7.
Proof.
  apply (reachable_steps recovering (configure 4 2 1 true)
           [InSource (source_packet ["a"%byte] 7 0 4);
            InRepair (repair_packet [Byte.x00; Byte.x00; Byte.x00; Byte.x00]
                        7 4 4);
            InSource (source_packet ["c"%byte] 7 2 4)]).
  - apply reachable_start; lia.
  - vm_compute. reflexivity.
Defined.

Lemma X14_lost_adus_restored_witness :
  exists dec' b',
    gst_rs_fec_dec_process_source_block recovering three_of_block_7
      (block_for three_of_block_7 7) = Ret (GST_FLOW_OK, dec', b') /\
    output_adu_table b'
    = Some <$> [["a"%byte]; ["b"%byte]; ["c"%byte]; ["d"%byte]].
Proof.
  set (b := block_for three_of_block_7 7).
  set (sym := [Byte.x00; Byte.x00; Byte.x00; Byte.x00]).
  assert (source_packets b
          = [source_packet ["c"%byte] 7 2 4; source_packet ["a"%byte] 7 0 4])
    as Hsrc by (vm_compute; reflexivity).
  assert (repair_packets b = [repair_packet sym 7 4 4])
    as Hrep by (vm_compute; reflexivity).
  destruct (X14_lost_adus_restored recovering three_of_block_7 b
              (repair_packet sym 7 4 4) []
              [["a"%byte]; ["b"%byte]; ["c"%byte]; ["d"%byte]]
              [None; Some [Byte.x00; Byte.x00; Byte.x01; "b"%byte];
               None; Some [Byte.x00; Byte.x00; Byte.x01; "d"%byte]])
    as (dec' & b' & tab & Hrun & _ & _ & _ & _ & _ & _ & _ & Htab).
  - vm_compute. reflexivity.
  - vm_compute. discriminate.
  - vm_compute. reflexivity.
  - vm_compute. reflexivity.
  - pose proof (reachable_table_wf _ _ three_of_block_7_reachable) as [_ Hwf].
    assert (source_block_table three_of_block_7 !! 7 = Some b) as Hb
      by (vm_compute; reflexivity).
    destruct (Hwf 7 b Hb) as [_ Hinc]. apply Hinc. vm_compute. reflexivity.
  - exact Hrep.
  - intros p Hp. rewrite Hrep in Hp. apply list_elem_of_singleton in Hp.
    subst p. vm_compute. split; [discriminate|reflexivity].
  - intros p Hp. rewrite Hsrc in Hp.
    apply elem_of_cons in Hp. destruct Hp as [->|Hp];
      [vm_compute; discriminate|].
    apply list_elem_of_singleton in Hp. subst p. vm_compute. discriminate.
  - repeat split.
  - reflexivity.
  - intros p Hp. rewrite Hsrc in Hp.
    apply elem_of_cons in Hp. destruct Hp as [->|Hp];
      [vm_compute; reflexivity|].
    apply list_elem_of_singleton in Hp. subst p. vm_compute. reflexivity.
  - intros i adu Hadu Hout. rewrite Hsrc in Hout.
    destruct i as [|[|[|[|i]]]]; cbn in Hadu; inversion Hadu; subst.
    + exfalso. apply Hout. vm_compute. right. left.
    + split; [vm_compute; discriminate|vm_compute; reflexivity].
    + exfalso. apply Hout. vm_compute. left.
    + split; [vm_compute; discriminate|vm_compute; reflexivity].
  - exists dec', b'. auto.
Defined.

End DecRecoveryFacts.

Module DecSession.
Import Aging Dec DecInv DecRecovery Examples DecFacts Scenarios.

(** ** The decoder: the OpenFEC session of a block *)

Lemma session_calls_app l1 l2 :
  session_calls (l1 ++ l2) = session_calls l1 ++ session_calls l2.
Proof. apply omap_app. Qed.

Lemma check_if_fatal_calls dec status :
  exists new, log (CHECK_IF_FATAL_ERROR dec status) = log dec ++ new /\
              session_calls new = [].
Proof.
  destruct status; cbn;
    first [exists [EvFatalError]; split; reflexivity
          |exists []; rewrite app_nil_r; split; reflexivity].
Qed.

Lemma create_session_calls W dec len session dec1 :
  gst_rs_fec_dec_create_openfec_session W dec len = (session, dec1) ->
  exists new,
    log dec1 = log dec ++ new /\
    session_calls new
    = (if of_is_ok (of_create_codec_instance W (log dec))
       then if session then [true] else [true; false]
       else [true]) /\
    (session = true ->
     of_is_ok (of_create_codec_instance W (log dec)) = true).
Proof.
  unfold gst_rs_fec_dec_create_openfec_session. intros H.
  destruct (of_is_ok (of_create_codec_instance W (log dec))); cbn [negb] in H.
  2: { inversion H; subst.
       destruct (check_if_fatal_calls
                   (emit dec (EvOpenFEC OfCreateCodecInstance))
                   (of_create_codec_instance W (log dec))) as (new & L & S).
       exists (EvOpenFEC OfCreateCodecInstance :: new).
       rewrite L. cbn. rewrite <- app_assoc. cbn.
       fold (session_calls new). rewrite S.
       split; [reflexivity|]. split; [reflexivity|discriminate]. }
  set (d1 := emit dec (EvOpenFEC OfCreateCodecInstance)) in *.
  destruct (negb (of_is_ok (of_set_fec_parameters W _ _ _ _))).
  { inversion H; subst.
    match goal with
    | |- context [CHECK_IF_FATAL_ERROR ?d ?st] =>
        destruct (check_if_fatal_calls d st) as (new & L & S)
    end.
    exists ([EvOpenFEC OfCreateCodecInstance;
             EvOpenFEC (OfSetFecParameters (num_source_symbols d1)
                          (num_repair_symbols d1) len);
             EvOpenFEC OfReleaseCodecInstance] ++ new).
    rewrite L. cbn. rewrite <- !app_assoc. cbn.
    fold (session_calls new). rewrite S.
    split; [reflexivity|]. split; [reflexivity|discriminate]. }
  exists [EvOpenFEC OfCreateCodecInstance;
          EvOpenFEC (OfSetFecParameters (num_source_symbols d1)
                       (num_repair_symbols d1) len)].
  destruct (negb _); inversion H; subst; cbn; rewrite <- app_assoc; auto.
Qed.

Lemma recovered_adus_loop_calls W sort esis received recovered :
  forall dec b ret dec' b',
  recovered_adus_loop W sort esis received recovered dec b
  = Ret (ret, dec', b') ->
  exists new, log dec' = log dec ++ new /\ session_calls new = [].
Proof.
  induction esis as [|esi rest IH]; intros dec b ret dec' b' H; simpl in H.
  - inversion H; subst. exists []. rewrite app_nil_r. auto.
  - destruct (received !! Z.to_nat esi) as [[sym|]|]; [eauto| |discriminate].
    destruct (mjoin (recovered !! Z.to_nat esi))
      as [[|f [|l1 [|l2 data]]]|]; try discriminate.
    destruct (negb (byte_val f =? 0)).
    { apply IH in H. destruct H as (new & L & S). cbn in L.
      eexists (_ :: new). rewrite L, <- app_assoc. auto. }
    destruct (_ <? _); [discriminate|].
    destruct (_ <=? _)%nat; [discriminate|].
    destruct sort.
    + apply IH in H. exact H.
    + simpl in H. destruct (flow_is_ok _).
      * apply IH in H. destruct H as (new & L & S). cbn in L.
        eexists (_ :: new). rewrite L, <- app_assoc. auto.
      * inversion H; subst. eexists [_]. cbn. auto.
Qed.

Lemma decode_with_openfec_calls W dec b received ret dec' b' :
  decode_with_openfec W dec b received = Ret (ret, dec', b') ->
  exists new, log dec' = log dec ++ new /\ session_calls new = [].
Proof.
  unfold decode_with_openfec. intros H.
  destruct (negb (of_is_ok (of_set_available_symbols W _ _))).
  { inversion H; subst.
    match goal with
    | |- context [CHECK_IF_FATAL_ERROR ?d ?st] =>
        destruct (check_if_fatal_calls d st) as (new & L & S)
    end.
    eexists (_ :: new). rewrite L. cbn. rewrite <- app_assoc. auto. }
  destruct (negb (of_is_ok (of_finish_decoding W _))).
  { inversion H; subst.
    match goal with
    | |- context [CHECK_IF_FATAL_ERROR ?d ?st] =>
        destruct (check_if_fatal_calls d st) as (new & L & S)
    end.
    eexists (_ :: _ :: new). rewrite L. cbn. rewrite <- !app_assoc. auto. }
  destruct (of_get_source_symbols_tab W _) as [status recovered].
  destruct (negb (of_is_ok status)).
  { inversion H; subst.
    match goal with
    | |- context [CHECK_IF_FATAL_ERROR ?d ?st] =>
        destruct (check_if_fatal_calls d st) as (new & L & S)
    end.
    eexists (_ :: _ :: _ :: new). rewrite L. cbn. rewrite <- !app_assoc. auto. }
  run_inv H. destruct a as [[ret1 dec1] b1].
  apply recovered_adus_loop_calls in E. destruct E as (new & L & S).
  cbn in L.
  assert (log dec' = log dec1) as -> by (destruct (flow_is_ok ret1); congruence).
  eexists (_ :: _ :: _ :: new). rewrite L, <- !app_assoc. auto.
Qed.

Lemma release_session_calls W dec ret :
  exists new,
    log (release_openfec_session W dec ret).2 = log dec ++ new /\
    session_calls new = [false].
Proof.
  unfold release_openfec_session.
  destruct (negb _); cbn [snd].
  - match goal with
    | |- context [CHECK_IF_FATAL_ERROR ?d ?st] =>
        destruct (check_if_fatal_calls d st) as (new & L & S)
    end.
    exists (EvOpenFEC OfReleaseCodecInstance :: new).
    rewrite L. cbn. rewrite <- app_assoc. cbn. fold (session_calls new).
    rewrite S. auto.
  - exists [EvOpenFEC OfReleaseCodecInstance]. auto.
Qed.

(** X15.  Whenever the processing of a block returns, its OpenFEC session
    is accounted for: without repair packets no session is created; with
    repair packets [of_create_codec_instance] is called exactly once, as
    the first thing after entering, and [of_release_codec_instance] is
    called exactly once after it if the creation succeeded and not at all
    if it failed.  This holds on every error path, whatever OpenFEC and
    downstream answer. *)
Theorem X15_session_released W dec b ret dec' b' :
  gst_rs_fec_dec_process_source_block W dec b = Ret (ret, dec', b') ->
  exists new,
    log dec' = log dec ++ EvProcess (block_nr b) :: new /\
    session_calls new
    = if num_repair_packets b =? 0 then []
      else if of_is_ok (of_create_codec_instance W
                          (log dec ++ [EvProcess (block_nr b)]))
           then [true; false]
           else [true].
Proof.
  unfold gst_rs_fec_dec_process_source_block. intros H.
  destruct (num_repair_packets b =? 0).
  { run_inv H. inversion H; subst. exists []. auto. }
  destruct (repair_packets b) as [|first_repair_packet ?]; [discriminate|].
  destruct (gst_rs_fec_dec_create_openfec_session W _ _) as [session dec1]
    eqn:E1.
  apply create_session_calls in E1. destruct E1 as (new1 & L1 & S1 & Hopen).
  cbn [log emit set_log] in L1, S1, Hopen.
  destruct session; cbn [negb] in H.
  2: { inversion H; subst. exists new1. rewrite L1, <- app_assoc.
       split; [reflexivity|]. rewrite S1.
       destruct (of_is_ok _); reflexivity. }
  rewrite (Hopen eq_refl) in *.
  run_inv H. destruct a as [received b1].
  run_inv H. rename a into received'.
  run_inv H. destruct a as [[ret2 dec2] b2].
  apply decode_with_openfec_calls in E1. destruct E1 as (new2 & L2 & S2).
  destruct (release_session_calls W dec2 ret2) as (new3 & L3 & S3).
  destruct (release_openfec_session W dec2 ret2) as [ret3 dec3].
  inversion H; subst. cbn [snd] in L3.
  exists (new1 ++ new2 ++ new3).
  rewrite L3, L2, L1, <- !app_assoc. split; [reflexivity|].
  rewrite !session_calls_app, S1, S2, S3. reflexivity.
Qed.

Lemma X15_session_released_witness :
  exists new,
    log processed_block_7.1.2
    = log three_of_block_7
      ++ EvProcess (block_nr (block_for three_of_block_7 7)) :: new /\
    session_calls new = [true; false].
Proof.
  destruct (X15_session_released recovering three_of_block_7
              (block_for three_of_block_7 7)
              processed_block_7.1.1 processed_block_7.1.2 processed_block_7.2)
    as (new & L & S).
  - vm_compute. reflexivity.
  - exists new. split; [exact L|]. vm_compute in S. exact S.
Defined.

End DecSession.

Module DecBounds.
Import Aging Dec DecInv DecRecovery Examples DecFacts DecTables Scenarios.

(** X16.  A source packet that is recorded (recent enough, block not
    complete, ESI not yet present) with an ESI of k or more makes the
    insertion address the output table of its block outside its k slots
    (the run ends in [Crash OutOfBounds]): the ESI read from the packet is
    used as the index without a check. *)
Theorem X16_source_esi_beyond_table W dec fec_packet blk esi :
  tables_sized dec ->
  gst_rs_fec_dec_source_packet_read_payload_id fec_packet = Ret (blk, esi) ->
  gst_rs_fec_dec_is_source_block_nr_recent_enough blk
    (most_recent_block_nr dec) (max_source_block_age dec) = true ->
  is_complete (block_for dec blk) = false ->
  SOURCE_BLOCK_IS_FLAG_SET (block_for dec blk) esi = Ret false ->
  0 <= num_source_symbols dec <= esi ->
  gst_rs_fec_dec_insert_fec_packet W dec fec_packet true = Crash OutOfBounds.
Proof.
  intros Hs Hread Hrecent Hc Hflag Hesi.
  unfold gst_rs_fec_dec_insert_fec_packet. rewrite Hread.
  cbn [mbind run_bind]. rewrite fetch_or_create.
  change (most_recent_block_nr (with_block_for dec blk))
    with (most_recent_block_nr dec).
  change (max_source_block_age (with_block_for dec blk))
    with (max_source_block_age dec).
  rewrite Hrecent, Hc, Hflag. cbn [negb mbind run_bind].
  unfold record_fec_packet.
  unfold SOURCE_BLOCK_IS_FLAG_SET in Hflag. unfold SOURCE_BLOCK_SET_FLAG.
  destruct (packet_mask (block_for dec blk) !! Z.to_nat (Z.shiftr esi 6))
    as [w|]; [|discriminate].
  cbn [mbind run_bind add_source_packet set_packet_mask output_adu_table].
  rewrite (block_for_sized dec blk Hs).
  assert ((Z.to_nat (num_source_symbols dec) <=? Z.to_nat esi)%nat = true) as ->
    by (apply Nat.leb_le; lia).
  reflexivity.
Qed.

Lemma X16_source_esi_beyond_table_witness :
  gst_rs_fec_dec_insert_fec_packet accepting (configure 2 1 1 true)
    (source_packet ["a"%byte] 5 3 2) true
  = Crash OutOfBounds.
Proof.
  apply (X16_source_esi_beyond_table accepting (configure 2 1 1 true)
           (source_packet ["a"%byte] 5 3 2) 5 3).
  - apply tables_sized_empty. reflexivity.
  - vm_compute. reflexivity.
  - vm_compute. reflexivity.
  - reflexivity.
  - vm_compute. reflexivity.
  - cbn. lia.
Defined.

End DecBounds.

Module DecLifecycle.
Import Aging Dec DecInv Gst DecElement Examples DecFacts DecTables.

(** ** The decoder through its states *)

Lemma keeps_same_properties d d' : keeps_session d d' -> same_properties d d'.
Proof. unfold keeps_session, same_properties. tauto. Qed.

Lemma same_properties_trans d1 d2 d3 :
  same_properties d1 d2 -> same_properties d2 d3 -> same_properties d1 d3.
Proof. unfold same_properties. intuition congruence. Qed.

Lemma same_properties_refl d : same_properties d d.
Proof. repeat split. Qed.

Lemma prune_properties W dec nr ret dec' :
  gst_rs_fec_dec_prune_source_block_table W dec nr = Ret (ret, dec') ->
  same_properties dec dec'.
Proof.
  unfold gst_rs_fec_dec_prune_source_block_table. intros H.
  destruct (first_pruning dec); [inversion H; subst; repeat split|].
  destruct (negb _); [|inversion H; subst; repeat split].
  destruct (gst_rs_fec_dec_is_source_block_nr_newer _ _);
    [|inversion H; subst; repeat split].
  destruct (prune_scan _ _) as [table pruned].
  apply push_block_list_advances in H. destruct H as [K _].
  apply keeps_same_properties in K. exact K.
Qed.

Lemma drain_properties W dec ret dec' :
  gst_rs_fec_dec_drain_source_block_table W dec = Ret (ret, dec') ->
  same_properties dec dec'.
Proof.
  unfold gst_rs_fec_dec_drain_source_block_table. intros H.
  apply push_block_list_advances in H. destruct H as [K _].
  apply keeps_same_properties in K. exact K.
Qed.

Lemma process_and_prune_properties W dec b blk ret dec' :
  process_and_prune W dec b blk = Ret (ret, dec') -> same_properties dec dec'.
Proof.
  unfold process_and_prune. intros H.
  run_inv H. destruct a as [ret1 dec1].
  assert (same_properties dec dec1) as H1.
  { destruct (gst_rs_fec_dec_can_source_block_be_processed dec b).
    - run_inv E. destruct a as [[ret2 dec2] b2].
      apply process_source_block_spec in E0. destruct E0 as ([K _] & _).
      apply keeps_same_properties in K.
      change (sort_output (write_back dec2 blk b2)) with (sort_output dec2) in E.
      destruct (sort_output dec2); cbn in E; inversion E; subst; exact K.
    - inversion E; subst. apply same_properties_refl. }
  destruct (flow_is_ok ret1); [|inversion H; subst; exact H1].
  apply prune_properties in H.
  eapply same_properties_trans; eassumption.
Qed.

Lemma insert_properties W dec fec_packet is_source_packet ret dec' :
  gst_rs_fec_dec_insert_fec_packet W dec fec_packet is_source_packet
  = Ret (ret, dec') ->
  same_properties dec dec'.
Proof.
  intros H.
  destruct (read_payload_id fec_packet is_source_packet) as [[blk esi]|] eqn:Hid.
  2: { unfold gst_rs_fec_dec_insert_fec_packet in H.
       unfold read_payload_id in Hid. rewrite Hid in H. discriminate. }
  destruct (insert_cases W dec fec_packet is_source_packet blk esi ret dec'
              Hid H) as [(_ & _ & ->)|(_ & _ & _ & ret1 & dec1 & b1 & Hrec & Hrest)].
  - repeat split.
  - apply record_fec_packet_length in Hrec. destruct Hrec as [_ [K _]].
    apply keeps_same_properties in K.
    destruct Hrest as [(_ & _ & ->)|(_ & Hrun)]; [exact K|].
    apply process_and_prune_properties in Hrun.
    eapply same_properties_trans; [exact K|exact Hrun].
Qed.

Lemma push_eos_properties W dec dec' :
  gst_rs_fec_dec_push_eos W dec = Ret dec' -> same_properties dec dec'.
Proof.
  unfold gst_rs_fec_dec_push_eos. intros H.
  destruct (_ && _); [|inversion H; subst; apply same_properties_refl].
  run_inv H. destruct a as [ret d]. inversion H; subst.
  apply drain_properties in E.
  destruct (push_segment_advances (gst_rs_fec_dec_push_stream_start dec))
    as [K1 _].
  destruct (push_stream_start_advances dec) as [K2 _].
  apply keeps_same_properties in K1, K2.
  eapply same_properties_trans; [exact K2|].
  eapply same_properties_trans; [exact K1|]. exact E.
Qed.

Lemma step_properties W dec i dec' :
  step W dec i = Ret dec' -> same_properties dec dec'.
Proof.
  intros H. destruct i as [buffer|buffer| | |]; simpl in H.
  - unfold gst_rs_fec_dec_fecsource_chain in H.
    destruct (fecsource_eos dec); simpl in H;
      [inversion H; subst; apply same_properties_refl|].
    run_inv H. destruct a as [ret d]. inversion H; subst.
    eapply insert_properties; eassumption.
  - unfold gst_rs_fec_dec_fecrepair_chain in H.
    destruct (fecrepair_eos dec); simpl in H;
      [inversion H; subst; apply same_properties_refl|].
    run_inv H. destruct a as [ret d]. inversion H; subst.
    eapply insert_properties; eassumption.
  - apply push_eos_properties in H. exact H.
  - apply push_eos_properties in H. exact H.
  - inversion H; subst. repeat split.
Qed.


Ltac dec_fields :=
  cbn [rs_fec_dec with_dec post set_allocated set_do_timestamp
       allocated_encoding_symbol_table do_timestamp notices].

(** The invariant looks at the properties, the table, the symbol length
    and the allocation of the tables only. *)
Lemma dec_element_inv_ext st (el el' : Element) :
  same_properties (rs_fec_dec el) (rs_fec_dec el') ->
  source_block_table (rs_fec_dec el') = source_block_table (rs_fec_dec el) ->
  encoding_symbol_length (rs_fec_dec el')
  = encoding_symbol_length (rs_fec_dec el) ->
  allocated_encoding_symbol_table el' = allocated_encoding_symbol_table el ->
  element_inv st el -> element_inv st el'.
Proof.
  intros (Pk & Pr & Pn & Pa & _) Ht Hl Ha
    (Hk & Hr & Hage & Hn & Hwf & Hs & Hst).
  unfold element_inv, table_wf, tables_sized in *.
  rewrite Pk, Pr, Pn, Pa, Ht, Hl, Ha. tauto.
Qed.

Lemma dec_element_inv_empty st (el el' : Element) :
  1 <= num_source_symbols (rs_fec_dec el') < 2 ^ 31 ->
  0 <= num_repair_symbols (rs_fec_dec el') < 2 ^ 31 ->
  1 <= max_source_block_age (rs_fec_dec el') < 2 ^ 32 ->
  num_encoding_symbols (rs_fec_dec el')
  = guint (num_source_symbols (rs_fec_dec el')
           + num_repair_symbols (rs_fec_dec el')) ->
  source_block_table (rs_fec_dec el') = ∅ ->
  match st with
  | GST_STATE_NULL =>
      allocated_encoding_symbol_table el' = false /\
      encoding_symbol_length (rs_fec_dec el') = 0
  | _ => allocated_encoding_symbol_table el' = true
  end ->
  element_inv st el'.
Proof.
  intros Hk Hr Ha Hn Ht Hst. unfold element_inv.
  split; [lia|]. split; [exact Hr|]. split; [exact Ha|]. split; [exact Hn|].
  split.
  { split; [lia|]. intros blk b Hb. rewrite Ht, lookup_empty in Hb.
    discriminate. }
  split; [apply tables_sized_empty; exact Ht|].
  destruct st; tauto.
Qed.

Lemma dec_new_element_inv : element_inv GST_STATE_NULL new_element.
Proof.
  apply (dec_element_inv_empty GST_STATE_NULL new_element); cbn;
    unfold DEFAULT_NUM_SOURCE_SYMBOLS, DEFAULT_NUM_REPAIR_SYMBOLS,
      DEFAULT_MAX_SOURCE_BLOCK_AGE; try lia; try reflexivity;
    split; reflexivity.
Qed.

Lemma dec_element_inv_allocated st el :
  element_inv st el ->
  allocated_encoding_symbol_table el = negb (state_eqb st GST_STATE_NULL).
Proof.
  intros (_ & _ & _ & _ & _ & _ & Hst). destruct st; cbn; tauto.
Qed.

Lemma dec_element_inv_null el :
  element_inv GST_STATE_NULL el ->
  source_block_table (rs_fec_dec el) = ∅ /\
  encoding_symbol_length (rs_fec_dec el) = 0.
Proof. intros (_ & _ & _ & _ & _ & _ & Hst). tauto. Qed.

Lemma dec_set_property_inv st el prop_id value :
  element_inv st el -> valid_value prop_id value = true ->
  g_value_modest value = true ->
  element_inv st (gst_rs_fec_dec_set_property el prop_id value).
Proof.
  intros Hinv Hv Hm.
  pose proof (dec_element_inv_allocated st el Hinv) as Ha.
  assert (forall n, element_inv st el -> element_inv st (post el n)) as Hpost.
  { intros n. apply dec_element_inv_ext; try reflexivity.
    apply same_properties_refl. }
  destruct prop_id, value as [v|v]; try discriminate;
    cbn [valid_value] in Hv; unfold gst_rs_fec_dec_set_property;
    cbn [g_value_get_uint g_value_get_boolean].
  - rewrite Ha, negb_involutive.
    destruct st; cbn [state_eqb]; try (apply Hpost; exact Hinv).
    apply andb_prop in Hv. destruct Hv as [Hv1 Hv2].
    apply Z.leb_le in Hv1. apply Z.ltb_lt in Hv2.
    cbn [g_value_modest] in Hm. apply Z.ltb_lt in Hm.
    replace (guint v) with v by (unfold guint; rewrite Z.mod_small; lia).
    destruct (dec_element_inv_null el Hinv) as [Ht Hl].
    destruct Hinv as (Hk31 & Hr & Hage & Hn & [Hk Hwf] & Hs & Hal & _).
    match goal with
    | |- element_inv _ (if ?c then post ?x _ else _) =>
        assert (element_inv GST_STATE_NULL x) as Hx
    end.
    { apply (dec_element_inv_empty GST_STATE_NULL el); dec_fields;
        cbn [set_properties num_source_symbols num_repair_symbols
             num_encoding_symbols max_source_block_age source_block_table
             encoding_symbol_length]; try assumption; try reflexivity; try lia.
      split; assumption. }
    destruct (_ >? _); [|exact Hx].
    revert Hx. apply dec_element_inv_ext; try reflexivity.
    apply same_properties_refl.
  - rewrite Ha, negb_involutive.
    destruct st; cbn [state_eqb]; try (apply Hpost; exact Hinv).
    apply andb_prop in Hv. destruct Hv as [Hv1 Hv2].
    apply Z.leb_le in Hv1. apply Z.ltb_lt in Hv2.
    cbn [g_value_modest] in Hm. apply Z.ltb_lt in Hm.
    replace (guint v) with v by (unfold guint; rewrite Z.mod_small; lia).
    destruct (dec_element_inv_null el Hinv) as [Ht Hl].
    destruct Hinv as (Hk31 & Hr & Hage & Hn & [Hk Hwf] & Hs & Hal & _).
    match goal with
    | |- element_inv _ (if ?c then post ?x _ else _) =>
        assert (element_inv GST_STATE_NULL x) as Hx
    end.
    { apply (dec_element_inv_empty GST_STATE_NULL el); dec_fields;
        cbn [set_properties num_source_symbols num_repair_symbols
             num_encoding_symbols max_source_block_age source_block_table
             encoding_symbol_length]; try assumption; try reflexivity; try lia.
      split; assumption. }
    destruct (_ >? _); [|exact Hx].
    revert Hx. apply dec_element_inv_ext; try reflexivity.
    apply same_properties_refl.
  - rewrite Ha, negb_involutive.
    destruct st; cbn [state_eqb]; try (apply Hpost; exact Hinv).
    apply andb_prop in Hv. destruct Hv as [Hv1 Hv2].
    apply Z.leb_le in Hv1. apply Z.ltb_lt in Hv2.
    cbn [g_value_modest] in Hm. apply Z.ltb_lt in Hm.
    replace (guint v) with v by (unfold guint; rewrite Z.mod_small; lia).
    destruct (dec_element_inv_null el Hinv) as [Ht Hl].
    destruct Hinv as (Hk31 & Hr & Hage & Hn & [Hk Hwf] & Hs & Hal & _).
    apply (dec_element_inv_empty GST_STATE_NULL el); dec_fields;
      cbn [set_properties num_source_symbols num_repair_symbols
           num_encoding_symbols max_source_block_age source_block_table
           encoding_symbol_length]; try assumption; try reflexivity; try lia.
    split; assumption.
  - revert Hinv. apply dec_element_inv_ext; try reflexivity.
    apply same_properties_refl.
  - destruct Hinv as (Hk31 & Hr & Hage & Hn & Hwf & Hs & Hst).
    unfold element_inv, table_wf, tables_sized in *. dec_fields.
    cbn [set_properties num_source_symbols num_repair_symbols
         num_encoding_symbols max_source_block_age source_block_table
         encoding_symbol_length]. tauto.
Qed.

Lemma dec_data_inv W st el i d :
  element_inv st el -> pads_active st = true ->
  step W (rs_fec_dec el) i = Ret d ->
  element_inv st (with_dec el d).
Proof.
  intros (Hk31 & Hr & Hage & Hn & Hwf & Hs & Hst) Hp Hrun.
  destruct (step_properties W _ i d Hrun) as (Pk & Pr & Pn & Pa & _).
  pose proof (step_table_wf W _ i d Hwf Hrun) as Hwf'.
  pose proof (step_tables_sized W _ i d Hs Hrun) as Hs'.
  unfold element_inv. dec_fields. rewrite Pk, Pr, Pn, Pa.
  repeat (split; [assumption|]).
  destruct st; try discriminate; exact Hst.
Qed.

Lemma dec_change_state_inv C el transition :
  succeed C ->
  element_inv (transition_current transition) el ->
  exists result el',
    gst_rs_fec_dec_change_state C el transition = Ret (result, el') /\
    element_inv (transition_next transition) el'.
Proof.
  intros Hparent Hinv. unfold gst_rs_fec_dec_change_state.
  pose proof (dec_element_inv_allocated _ el Hinv) as Ha.
  destruct transition; cbn [transition_current transition_next state_eqb negb] in *.
  - (* NULL to READY *)
    destruct (dec_element_inv_null el Hinv) as [Ht Hl].
    destruct Hinv as (Hk31 & Hr & Hage & Hn & [Hk Hwf] & Hs & _).
    assert ((num_encoding_symbols (rs_fec_dec el) =? 0) = false) as Hn0.
    { rewrite Hn. unfold guint. rewrite Z.mod_small by lia.
      apply Z.eqb_neq. lia. }
    unfold gst_rs_fec_dec_alloc_encoding_symbol_table. rewrite Ha, Hn0.
    cbn [negb assert_that mbind run_bind]. dec_fields. rewrite Hl.
    cbn [Z.eqb assert_that mbind run_bind].
    rewrite EncLifecycle.not_failure by apply Hparent.
    eexists _, _. split; [reflexivity|].
    unfold element_inv, table_wf. dec_fields. tauto.
  - (* READY to PAUSED *)
    cbn [mbind run_bind].
    rewrite EncLifecycle.not_failure by apply Hparent.
    eexists _, _. split; [reflexivity|].
    destruct Hinv as (Hk31 & Hr & Hage & Hn & Hwf & Hs & Hal & _).
    unfold element_inv, table_wf, tables_sized in *. dec_fields.
    cbn [gst_rs_fec_dec_reset_states num_source_symbols num_repair_symbols
         num_encoding_symbols max_source_block_age source_block_table
         encoding_symbol_length]. tauto.
  - (* PAUSED to PLAYING *)
    cbn [mbind run_bind].
    rewrite EncLifecycle.not_failure by apply Hparent.
    eexists _, _. split; [reflexivity|].
    revert Hinv. unfold element_inv. dec_fields. tauto.
  - (* PLAYING to PAUSED *)
    cbn [mbind run_bind].
    rewrite EncLifecycle.not_failure by apply Hparent.
    eexists _, _. split; [reflexivity|].
    revert Hinv. unfold element_inv. dec_fields. tauto.
  - (* PAUSED to READY *)
    cbn [mbind run_bind].
    rewrite EncLifecycle.not_failure by apply Hparent.
    eexists _, _. split; [reflexivity|].
    destruct Hinv as (Hk31 & Hr & Hage & Hn & [Hk Hwf] & Hs & Hal).
    apply (dec_element_inv_empty GST_STATE_READY el); dec_fields;
      cbn [gst_rs_fec_dec_flush gst_rs_fec_dec_reset_states
           set_stream_started set_source_block_table
           num_source_symbols num_repair_symbols
           num_encoding_symbols max_source_block_age source_block_table
           encoding_symbol_length]; try assumption; try lia; reflexivity.
  - (* READY to NULL *)
    cbn [mbind run_bind].
    rewrite EncLifecycle.not_failure by apply Hparent.
    unfold gst_rs_fec_dec_free_encoding_symbol_table. dec_fields.
    rewrite Ha. cbn [assert_that mbind run_bind]. dec_fields.
    eexists _, _. split; [reflexivity|].
    destruct Hinv as (Hk31 & Hr & Hage & Hn & [Hk Hwf] & Hs & Hal & Ht).
    apply (dec_element_inv_empty GST_STATE_NULL el); dec_fields;
      cbn [set_encoding_symbol_length
           num_source_symbols num_repair_symbols
           num_encoding_symbols max_source_block_age source_block_table
           encoding_symbol_length]; try assumption; try lia;
      split; reflexivity.
Qed.


Lemma dec_acts_inv C W : succeed C -> forall l st el st',
  element_inv st el -> state_after st l = Some st' -> modest l = true ->
  match acts C W el l with
  | Ret el' => element_inv st' el'
  | Crash c =>
      exists l1 i l2 el1,
        l = l1 ++ Data i :: l2 /\ acts C W el l1 = Ret el1 /\
        step W (rs_fec_dec el1) i = Crash c
  end.
Proof.
  intros HC. induction l as [|a rest IH]; intros st el st' Hinv Hst Hm.
  - inversion Hst; subst. exact Hinv.
  - cbn [modest forallb] in Hm. apply andb_prop in Hm.
    destruct Hm as [Hm1 Hm]. fold (modest rest) in Hm.
    cbn [acts]. destruct a as [prop_id value|transition|i];
      cbn [state_after act] in *.
    + destruct (valid_value prop_id value) eqn:Hv; [|discriminate].
      cbn [mbind run_bind].
      pose proof (dec_set_property_inv st el prop_id value Hinv Hv Hm1)
        as Hinv1.
      specialize (IH st _ st' Hinv1 Hst Hm).
      destruct (acts C W _ rest) as [el'|c]; [exact IH|].
      destruct IH as (l1 & i & l2 & el1 & -> & Hrun & Hcrash).
      exists (SetProperty prop_id value :: l1), i, l2, el1.
      split; [reflexivity|]. split; [|exact Hcrash].
      cbn [acts act mbind run_bind]. exact Hrun.
    + destruct (state_eqb _ st) eqn:Heq; [|discriminate].
      apply EncLifecycle.state_eqb_eq in Heq. subst st.
      destruct (dec_change_state_inv C el transition HC Hinv)
        as (result & el1 & Hrun1 & Hinv1).
      rewrite Hrun1. cbn [mbind run_bind].
      specialize (IH _ el1 st' Hinv1 Hst Hm).
      destruct (acts C W el1 rest) as [el'|c]; [exact IH|].
      destruct IH as (l1 & i & l2 & el2 & -> & Hrun & Hcrash).
      exists (ChangeState transition :: l1), i, l2, el2.
      split; [reflexivity|]. split; [|exact Hcrash].
      cbn [acts act]. rewrite Hrun1. cbn [mbind run_bind]. exact Hrun.
    + destruct (pads_active st) eqn:Hp; [|discriminate].
      destruct (step W (rs_fec_dec el) i) as [d|c] eqn:Hstep;
        cbn [mbind run_bind].
      * pose proof (dec_data_inv W st el i d Hinv Hp Hstep) as Hinv1.
        specialize (IH st _ st' Hinv1 Hst Hm).
        destruct (acts C W _ rest) as [el'|c]; [exact IH|].
        destruct IH as (l1 & j & l2 & el1 & -> & Hrun & Hcrash).
        exists (Data i :: l1), j, l2, el1.
        split; [reflexivity|]. split; [|exact Hcrash].
        cbn [acts act]. rewrite Hstep. cbn [mbind run_bind]. exact Hrun.
      * exists [], i, rest, el. split; [reflexivity|].
        split; [reflexivity|exact Hstep].
Qed.

(** X21.  A decoder that is created and then driven by any list of
    actions that follows the rules of GStreamer (valid property values,
    state changes between neighbouring states, data and events only in
    PAUSED and PLAYING), with numbers of symbols below 2^31 and a parent
    class that does not fail a state change: no property or state change
    fails an assertion; if the run
    crashes at all, it is inside a chain or event function.  When it does
    not crash, the symbol tables are allocated exactly when the state
    reached is not NULL, no source block is stored in NULL and READY, the
    symbol length is 0 in NULL, the number of encoding symbols is the sum
    of k and r (as a guint), k is between 1 and 2^32-1, and every stored
    block sits under its own number with an output table of k slots. *)
Theorem X21_decoder_lifecycle C W l st :
  succeed C -> state_after GST_STATE_NULL l = Some st -> modest l = true ->
  match acts C W new_element l with
  | Ret el =>
      let d := rs_fec_dec el in
      allocated_encoding_symbol_table el = negb (state_eqb st GST_STATE_NULL) /\
      (pads_active st = false -> source_block_table d = ∅) /\
      (st = GST_STATE_NULL -> encoding_symbol_length d = 0) /\
      num_encoding_symbols d
      = guint (num_source_symbols d + num_repair_symbols d) /\
      1 <= num_source_symbols d < 2 ^ 32 /\
      forall blk b, source_block_table d !! blk = Some b ->
        block_nr b = blk /\
        length (output_adu_table b) = Z.to_nat (num_source_symbols d)
  | Crash c =>
      exists l1 i l2 el1,
        l = l1 ++ Data i :: l2 /\ acts C W new_element l1 = Ret el1 /\
        step W (rs_fec_dec el1) i = Crash c
  end.
Proof.
  intros HC Hst Hm.
  pose proof (dec_acts_inv C W HC l GST_STATE_NULL new_element st
                dec_new_element_inv Hst Hm) as H.
  destruct (acts C W new_element l) as [el|c]; [|exact H].
  pose proof (dec_element_inv_allocated st el H) as Ha.
  destruct H as (Hk31 & Hr & Hage & Hn & [Hk Hwf] & Hs & Hstate).
  cbv zeta. split; [exact Ha|].
  split; [destruct st; cbn; intros; try discriminate; tauto|].
  split; [intros ->; tauto|].
  split; [exact Hn|]. split; [exact Hk|].
  intros blk b Hb. split; [apply (Hwf blk b Hb)|apply (Hs blk b Hb)].
Qed.

Lemma dec_obliging_succeed : succeed obliging.
Proof. intros l t. discriminate. Qed.

Lemma X21_decoder_lifecycle_witness :
  exists el,
    acts obliging accepting new_element
      [SetProperty PROP_NUM_SOURCE_SYMBOLS (G_TYPE_UINT 4);
       SetProperty PROP_NUM_REPAIR_SYMBOLS (G_TYPE_UINT 2);
       ChangeState GST_STATE_CHANGE_NULL_TO_READY;
       ChangeState GST_STATE_CHANGE_READY_TO_PAUSED;
       Data (InSource (source_packet ["a"%byte] 5 0 4));
       ChangeState GST_STATE_CHANGE_PAUSED_TO_READY] = Ret el /\
    allocated_encoding_symbol_table el = true /\
    source_block_table (rs_fec_dec el) = ∅.
Proof.
  pose proof (X21_decoder_lifecycle obliging accepting
                [SetProperty PROP_NUM_SOURCE_SYMBOLS (G_TYPE_UINT 4);
                 SetProperty PROP_NUM_REPAIR_SYMBOLS (G_TYPE_UINT 2);
                 ChangeState GST_STATE_CHANGE_NULL_TO_READY;
                 ChangeState GST_STATE_CHANGE_READY_TO_PAUSED;
                 Data (InSource (source_packet ["a"%byte] 5 0 4));
                 ChangeState GST_STATE_CHANGE_PAUSED_TO_READY]
                GST_STATE_READY dec_obliging_succeed eq_refl eq_refl) as H.
  destruct (acts obliging accepting new_element _) as [el|c] eqn:E.
  - destruct H as (Ha & Ht & _). exists el. split; [reflexivity|].
    split; [exact Ha|]. apply Ht. reflexivity.
  - exfalso. vm_compute in E. discriminate.
Defined.

(** X22.  Setting a property with a valid value on a decoder that was
    driven as in X21 into state [st].  The number of source symbols, the
    number of repair symbols and the maximum block age are taken over only
    in the NULL state: there the property reads back as the value, the
    number of encoding symbols is again k + r, and an element error is
    posted when k or r was set and the sum exceeds 255 (the value is kept
    all the same).  In every other state the decoder is left as it was and
    a warning is posted.  [sort-output] and [do-timestamp] are taken over
    in every state without a message.  No call changes another
    property. *)
Theorem X22_decoder_properties_locked C W l st el prop_id value :
  succeed C -> state_after GST_STATE_NULL l = Some st -> modest l = true ->
  acts C W new_element l = Ret el ->
  valid_value prop_id value = true ->
  let el' := gst_rs_fec_dec_set_property el prop_id value in
  let locked :=
    match prop_id with
    | PROP_DO_TIMESTAMP | PROP_SORT_OUTPUT => false
    | _ => negb (state_eqb st GST_STATE_NULL)
    end in
  (forall other, other <> prop_id ->
     gst_rs_fec_dec_get_property el' other
     = gst_rs_fec_dec_get_property el other) /\
  if locked then
    rs_fec_dec el' = rs_fec_dec el /\ do_timestamp el' = do_timestamp el /\
    notices el' = notices el ++ [ElementWarning]
  else
    gst_rs_fec_dec_get_property el' prop_id = value /\
    num_encoding_symbols (rs_fec_dec el')
    = guint (num_source_symbols (rs_fec_dec el')
             + num_repair_symbols (rs_fec_dec el')) /\
    notices el'
    = notices el ++
      match prop_id with
      | PROP_NUM_SOURCE_SYMBOLS | PROP_NUM_REPAIR_SYMBOLS =>
          if num_encoding_symbols (rs_fec_dec el') >? 255
          then [ElementError] else []
      | _ => []
      end.
Proof.
  intros HC Hst Hm Hrun Hv el' locked.
  pose proof (dec_acts_inv C W HC l GST_STATE_NULL new_element st
                dec_new_element_inv Hst Hm) as H.
  rewrite Hrun in H.
  pose proof (dec_element_inv_allocated st el H) as Ha.
  destruct H as (_ & _ & _ & Hn & _).
  subst el' locked. unfold gst_rs_fec_dec_set_property.
  destruct prop_id, value as [v|v]; try discriminate;
    cbn [valid_value] in Hv; cbn [g_value_get_uint g_value_get_boolean];
    try (apply andb_prop in Hv; destruct Hv as [Hv1 Hv2];
         apply Z.leb_le in Hv1; apply Z.ltb_lt in Hv2;
         replace (guint v) with v by (unfold guint; rewrite Z.mod_small; lia));
    rewrite ?Ha, ?negb_involutive;
    try (destruct (state_eqb st GST_STATE_NULL); cbn [negb]).
  all: change max_num_encoding_symbols with 255.
  all: try match goal with
       | |- context [if ?c >? 255 then _ else _] => destruct (c >? 255) eqn:Hbig
       end.
  all: dec_fields;
    cbn [set_properties num_source_symbols num_repair_symbols
         num_encoding_symbols max_source_block_age sort_output];
    rewrite ?Hbig, ?app_nil_r.
  all: split;
    [intros other Hne; destruct other; try congruence; reflexivity|].
  all: repeat split; try reflexivity; try exact Hn.
  all: cbn [set_properties num_encoding_symbols] in Hbig; rewrite Hbig;
    rewrite ?app_nil_r; reflexivity.
Qed.

Lemma X22_decoder_properties_locked_witness :
  exists el,
    acts obliging accepting new_element
      [ChangeState GST_STATE_CHANGE_NULL_TO_READY] = Ret el /\
    rs_fec_dec (gst_rs_fec_dec_set_property el PROP_NUM_SOURCE_SYMBOLS
                  (G_TYPE_UINT 10)) = rs_fec_dec el /\
    notices (gst_rs_fec_dec_set_property el PROP_NUM_SOURCE_SYMBOLS
               (G_TYPE_UINT 10)) = notices el ++ [ElementWarning].
Proof.
  destruct (acts obliging accepting new_element
              [ChangeState GST_STATE_CHANGE_NULL_TO_READY]) as [el|c] eqn:E;
    [|exfalso; vm_compute in E; discriminate].
  destruct (X22_decoder_properties_locked obliging accepting
              [ChangeState GST_STATE_CHANGE_NULL_TO_READY] GST_STATE_READY el
              PROP_NUM_SOURCE_SYMBOLS (G_TYPE_UINT 10)
              dec_obliging_succeed eq_refl eq_refl E eq_refl)
    as (_ & Hd & _ & Hn).
  exists el. split; [reflexivity|]. split; [exact Hd|exact Hn].
Defined.

(** X23.  The decoder keeps the sum k + r as a [guint] too.  When it is
    0 (k = 2^32 - 1 and r = 1 are accepted, without an error message),
    the change from NULL to READY succeeds with the symbol tables still
    NULL, so that the properties are not locked: the number of source
    symbols can still be set.  The change from READY to NULL then fails
    the assertion of [gst_rs_fec_dec_free_encoding_symbol_table]. *)
Theorem X23_decoder_sum_wraps_to_zero C el :
  allocated_encoding_symbol_table el = false ->
  encoding_symbol_length (rs_fec_dec el) = 0 ->
  num_encoding_symbols (rs_fec_dec el) = 0 ->
  parent_change_state C (notices el) GST_STATE_CHANGE_NULL_TO_READY
  <> GST_STATE_CHANGE_FAILURE ->
  exists result el1,
    gst_rs_fec_dec_change_state C el GST_STATE_CHANGE_NULL_TO_READY
    = Ret (result, el1) /\
    result <> GST_STATE_CHANGE_FAILURE /\
    allocated_encoding_symbol_table el1 = false /\
    rs_fec_dec el1 = rs_fec_dec el /\
    (forall v,
       num_source_symbols
         (rs_fec_dec (gst_rs_fec_dec_set_property el1 PROP_NUM_SOURCE_SYMBOLS
                        (G_TYPE_UINT v))) = guint v) /\
    forall C',
      parent_change_state C' (notices el1) GST_STATE_CHANGE_READY_TO_NULL
      <> GST_STATE_CHANGE_FAILURE ->
      gst_rs_fec_dec_change_state C' el1 GST_STATE_CHANGE_READY_TO_NULL
      = Crash AssertFailed.
Proof.
  intros Ha Hl Hn Hparent.
  unfold gst_rs_fec_dec_change_state at 1.
  unfold gst_rs_fec_dec_alloc_encoding_symbol_table. rewrite Ha, Hn.
  cbn [Z.eqb negb assert_that mbind run_bind]. dec_fields. rewrite Hl.
  cbn [Z.eqb assert_that mbind run_bind].
  rewrite EncLifecycle.not_failure by exact Hparent.
  eexists _, _. split; [reflexivity|]. split; [exact Hparent|].
  dec_fields. split; [reflexivity|]. split; [reflexivity|].
  split.
  - intros v. unfold gst_rs_fec_dec_set_property. dec_fields.
    cbn [negb g_value_get_uint].
    destruct (_ >? _); reflexivity.
  - intros C' Hparent'. unfold gst_rs_fec_dec_change_state.
    cbn [mbind run_bind].
    rewrite EncLifecycle.not_failure by exact Hparent'.
    unfold gst_rs_fec_dec_free_encoding_symbol_table. dec_fields.
    reflexivity.
Qed.

Lemma X23_decoder_sum_wraps_to_zero_witness :
  exists el1,
    acts obliging accepting new_element
      [SetProperty PROP_NUM_REPAIR_SYMBOLS (G_TYPE_UINT 1);
       SetProperty PROP_NUM_SOURCE_SYMBOLS (G_TYPE_UINT 4294967295);
       ChangeState GST_STATE_CHANGE_NULL_TO_READY] = Ret el1 /\
    notices el1 = [ParentChangeState GST_STATE_CHANGE_NULL_TO_READY] /\
    gst_rs_fec_dec_change_state obliging el1 GST_STATE_CHANGE_READY_TO_NULL
    = Crash AssertFailed.
Proof.
  destruct (X23_decoder_sum_wraps_to_zero obliging
              (gst_rs_fec_dec_set_property
                 (gst_rs_fec_dec_set_property new_element
                    PROP_NUM_REPAIR_SYMBOLS (G_TYPE_UINT 1))
                 PROP_NUM_SOURCE_SYMBOLS (G_TYPE_UINT 4294967295)))
    as (result & el1 & Hrun & _ & _ & _ & _ & Hcrash).
  - reflexivity.
  - reflexivity.
  - vm_compute. reflexivity.
  - cbn. discriminate.
  - assert (notices el1 = [ParentChangeState GST_STATE_CHANGE_NULL_TO_READY])
      as Hnotices.
    { vm_compute in Hrun. inversion Hrun. reflexivity. }
    exists el1. split.
    + cbn [acts act mbind run_bind]. rewrite Hrun. reflexivity.
    + split; [exact Hnotices|]. apply Hcrash. cbn. discriminate.
Defined.

End DecLifecycle.
